(** * The tempo map of libs/ardour/tempo.cc

    A shallow embedding of the tempo map: tempo and meter sections, the
    ramp arithmetic of [TempoSection], the recomputation passes, the solver
    and the queries of [TempoMap], followed by the properties proved about
    them.

    Conventions of the embedding.
    - [double] is IEEE 754 binary64, Rocq's primitive [float]; every
      arithmetic operation rounds to nearest even exactly as the hardware
      does.
    - [framepos_t], [framecnt_t] and [frameoffset_t] ([int64_t]) are [Z];
      signed overflow is undefined behaviour in C++ and is not modelled.
    - [uint32_t] (the fields of [BBT_Time]) is [Z] reduced modulo 2^32.
    - [log], [exp], [expm1] and [log1p] belong to the C library, not to the
      program: they are the fields of the class [Libm], and a result stated
      for a [Libm] holds for any implementation of them.  [SampleLibm] is
      one implementation, for the examples that need one.
    - A dereferenced null pointer, a pointer read before it is assigned
      and [abort ()] are the result [None].
    - A pointer to a section is an address: an index into the heap of the
      sections allocated so far.  A [std::list] of [MetricSection*] is a
      list of addresses, and what is written through one pointer is seen
      through every other pointer to the same section. *)

From Stdlib Require Import ZArith List Bool Floats Lia Permutation.
Import ListNotations.

Set Implicit Arguments.

(** ** The C mathematical library *)

Class Libm := {
  log : float -> float;
  exp : float -> float;
  expm1 : float -> float;
  log1p : float -> float
}.

(** ** Conversions between [double] and the integer types *)

Module Double.

Definition int64_min : Z := - 2 ^ 63.
Definition int64_max : Z := 2 ^ 63 - 1.

(** (double) n : the integer rounded to the nearest double. *)
Definition of_int (n : Z) : float :=
  SF2Prim (binary_normalize prec emax n 0 false).

(** The mathematical floor of a finite double, as an integer. *)
Definition floorZ (x : float) : option Z :=
  match Prim2SF x with
  | S754_zero _ => Some 0%Z
  | S754_finite s m e =>
      let v := if s then Z.neg m else Z.pos m in
      Some (if (0 <=? e)%Z then Z.shiftl v e else Z.shiftr v (- e))
  | _ => None
  end.

(** floor (x) of <cmath>: infinities, NaN and zeros are returned as they
    are; a finite value without fractional bits is its own floor. *)
Definition floor (x : float) : float :=
  match Prim2SF x with
  | S754_finite s m e =>
      if (0 <=? e)%Z then x
      else of_int (Z.shiftr (if s then Z.neg m else Z.pos m) (- e))
  | _ => x
  end.

(** The integer part of a finite double (rounding toward zero). *)
Definition truncZ (x : float) : option Z :=
  match Prim2SF x with
  | S754_zero _ => Some 0%Z
  | S754_finite s m e =>
      let a := if (0 <=? e)%Z then Z.shiftl (Z.pos m) e
               else Z.shiftr (Z.pos m) (- e) in
      Some (if s then (- a)%Z else a)
  | _ => None
  end.

(** (int64_t) x.  The conversion of NaN, of an infinity or of a value out
    of range is undefined in C++; x86-64 (cvttsd2si) gives the smallest
    integer, which is what the model takes. *)
Definition to_int64 (x : float) : Z :=
  match truncZ x with
  | Some z => if ((int64_min <=? z) && (z <=? int64_max))%Z then z
              else int64_min
  | None => int64_min
  end.

Definition u32 (z : Z) : Z := (z mod 2 ^ 32)%Z.

(** (uint32_t) x : as compiled for x86-64, the low 32 bits of the 64-bit
    conversion. *)
Definition to_uint32 (x : float) : Z := u32 (to_int64 x).

(** std::max (a, b) and std::min (a, b) of <algorithm>. *)
Definition max (a b : float) : float := if (a <? b)%float then b else a.
Definition min (a b : float) : float := if (b <? a)%float then b else a.

Definition fabs (x : float) : float := abs x.

(** a != b on doubles. *)
Definition neqb (a b : float) : bool := negb (a =? b)%float.

End Double.

(** ** Enumerations and BBT time *)

(** ARDOUR::PositionLockStyle *)
Inductive PositionLockStyle := AudioTime | MusicTime.

Definition pls_eqb (a b : PositionLockStyle) : bool :=
  match a, b with
  | AudioTime, AudioTime | MusicTime, MusicTime => true
  | _, _ => false
  end.

Module BBT_Time.

Record t := mk { bars : Z; beats : Z; ticks : Z }.

(** Modelled from the spec: Timecode::BBT_Time is declared in
    timecode/bbt_time.h; "ticks_per_beat is fixed at 1920". *)
Definition ticks_per_beat : float := 1920%float.

End BBT_Time.

(** Modelled from the spec: class Tempo is declared in ardour/tempo.h, "a
    tempo value (bpm, note-type) and derived pulses-per-minute". *)
Module Tempo.
Record t := mk { beats_per_minute : float; note_type : float }.
End Tempo.

(** Modelled from the spec: class Meter of ardour/tempo.h,
    "(divisions-per-bar, note-divisor)". *)
Module Meter.
Record t := mk { divisions_per_bar : float; note_divisor : float }.
End Meter.

(** ** TempoSection *)

Module TempoSection.

(** TempoSection::Type *)
Inductive Type_ := Ramp | Constant.

Definition is_Constant (ty : Type_) : bool :=
  match ty with Constant => true | Ramp => false end.

(** The members of a TempoSection: those of its bases MetricSection
    ([pulse], [frame], [position_lock_style], [movable]) and Tempo
    ([beats_per_minute], [note_type]), then its own. *)
Record t := mk {
  pulse : float;
  frame : Z;
  position_lock_style : PositionLockStyle;
  movable : bool;
  beats_per_minute : float;
  note_type : float;
  type : Type_;
  _c_func : float;
  active : bool;
  locked_to_meter : bool
}.

(** Modelled from the spec: the constructor is declared in ardour/tempo.h;
    a new section is movable, active, not locked to a meter, and its ramp
    constant is 0 (as in the XML constructor of tempo.cc). *)
Definition new (pulse : float) (frame : Z) (bpm note_type : float)
           (ty : Type_) (pls : PositionLockStyle) : t :=
  mk pulse frame pls true bpm note_type ty 0 true false.

Definition set_pulse (p : float) (s : t) : t :=
  mk p (frame s) (position_lock_style s) (movable s)
     (beats_per_minute s) (note_type s) (type s) (_c_func s) (active s)
     (locked_to_meter s).
Definition set_frame (f : Z) (s : t) : t :=
  mk (pulse s) f (position_lock_style s) (movable s)
     (beats_per_minute s) (note_type s) (type s) (_c_func s) (active s)
     (locked_to_meter s).
Definition set_position_lock_style (pls : PositionLockStyle) (s : t) : t :=
  mk (pulse s) (frame s) pls (movable s)
     (beats_per_minute s) (note_type s) (type s) (_c_func s) (active s)
     (locked_to_meter s).
Definition set_movable (b : bool) (s : t) : t :=
  mk (pulse s) (frame s) (position_lock_style s) b
     (beats_per_minute s) (note_type s) (type s) (_c_func s) (active s)
     (locked_to_meter s).
Definition set_beats_per_minute (bpm : float) (s : t) : t :=
  mk (pulse s) (frame s) (position_lock_style s) (movable s)
     bpm (note_type s) (type s) (_c_func s) (active s)
     (locked_to_meter s).
(** *static_cast<Tempo*>(&s) = tempo *)
Definition set_tempo (tempo : Tempo.t) (s : t) : t :=
  mk (pulse s) (frame s) (position_lock_style s) (movable s)
     (Tempo.beats_per_minute tempo) (Tempo.note_type tempo) (type s)
     (_c_func s) (active s) (locked_to_meter s).
Definition set_type (ty : Type_) (s : t) : t :=
  mk (pulse s) (frame s) (position_lock_style s) (movable s)
     (beats_per_minute s) (note_type s) ty (_c_func s) (active s)
     (locked_to_meter s).
Definition set_c_func (c : float) (s : t) : t :=
  mk (pulse s) (frame s) (position_lock_style s) (movable s)
     (beats_per_minute s) (note_type s) (type s) c (active s)
     (locked_to_meter s).
Definition set_active (b : bool) (s : t) : t :=
  mk (pulse s) (frame s) (position_lock_style s) (movable s)
     (beats_per_minute s) (note_type s) (type s) (_c_func s) b
     (locked_to_meter s).
Definition set_locked_to_meter (b : bool) (s : t) : t :=
  mk (pulse s) (frame s) (position_lock_style s) (movable s)
     (beats_per_minute s) (note_type s) (type s) (_c_func s) (active s) b.

(** Modelled from the spec: pulses_per_minute is declared in
    ardour/tempo.h; "pulses_per_minute = bpm / note_type". *)
Definition pulses_per_minute (s : t) : float :=
  (beats_per_minute s / note_type s)%float.

(** Modelled from the spec: frames_per_pulse is declared in ardour/tempo.h;
    "frames_per_pulse = (60 sr) / T0" with T0 the pulses per minute. *)
Definition frames_per_pulse (s : t) (sr : Z) : float :=
  ((60 * Double.of_int sr) / pulses_per_minute s)%float.

(** _type == Constant || _c_func == 0.0 *)
Definition linear (s : t) : bool :=
  is_Constant (type s) || (_c_func s =? 0)%float.

Section Ramp.
Context {L : Libm}.
Open Scope float_scope.

Definition minute_to_frame (time : float) (frame_rate : Z) : Z :=
  Double.to_int64
    (Double.floor ((time * 60 * Double.of_int frame_rate) + 0.5)).

Definition frame_to_minute (frame : Z) (frame_rate : Z) : float :=
  (Double.of_int frame / Double.of_int frame_rate) / 60.

(* position function *)
Definition a_func (s : t) (end_ppm c_func : float) : float :=
  log (end_ppm / pulses_per_minute s) / c_func.

(* function constant *)
Definition c_func (s : t) (end_ppm end_time : float) : float :=
  log (end_ppm / pulses_per_minute s) / end_time.

(* tempo in ppm at time in minutes *)
Definition pulse_tempo_at_time (s : t) (time : float) : float :=
  exp (_c_func s * time) * pulses_per_minute s.

(* time in minutes at tempo in ppm *)
Definition time_at_pulse_tempo (s : t) (pulse_tempo : float) : float :=
  log (pulse_tempo / pulses_per_minute s) / _c_func s.

(* tick at tempo in ppm *)
Definition pulse_at_pulse_tempo (s : t) (pulse_tempo : float) : float :=
  (pulse_tempo - pulses_per_minute s) / _c_func s.

(* tempo in ppm at tick *)
Definition pulse_tempo_at_pulse (s : t) (pulse : float) : float :=
  (pulse * _c_func s) + pulses_per_minute s.

(* pulse at time in minutes *)
Definition pulse_at_time (s : t) (time : float) : float :=
  expm1 (_c_func s * time) * (pulses_per_minute s / _c_func s).

(* time in minutes at pulse *)
Definition time_at_pulse (s : t) (pulse : float) : float :=
  log1p ((_c_func s * pulse) / pulses_per_minute s) / _c_func s.

Definition tempo_at_frame (s : t) (f : Z) (frame_rate : Z) : float :=
  if linear s then pulses_per_minute s
  else pulse_tempo_at_time s (frame_to_minute (f - frame s) frame_rate).

(** The constant branch returns a double expression from a function
    whose result is framepos_t: the implicit conversion truncates. *)
Definition frame_at_tempo (s : t) (ppm p : float) (frame_rate : Z) : Z :=
  if linear s then
    Double.to_int64
      (((p - pulse s) * frames_per_pulse s frame_rate)
       + Double.of_int (frame s))
  else (minute_to_frame (time_at_pulse_tempo s ppm) frame_rate + frame s)%Z.

Definition tempo_at_pulse (s : t) (p : float) : float :=
  if linear s then pulses_per_minute s
  else pulse_tempo_at_pulse s (p - pulse s).

Definition pulse_at_tempo (s : t) (ppm : float) (f : Z) (frame_rate : Z)
  : float :=
  if linear s then
    (Double.of_int (f - frame s) / frames_per_pulse s frame_rate) + pulse s
  else pulse_at_pulse_tempo s ppm + pulse s.

Definition pulse_at_frame (s : t) (f : Z) (frame_rate : Z) : float :=
  if linear s then
    (Double.of_int (f - frame s) / frames_per_pulse s frame_rate) + pulse s
  else pulse_at_time s (frame_to_minute (f - frame s) frame_rate) + pulse s.

Definition frame_at_pulse (s : t) (p : float) (frame_rate : Z) : Z :=
  if linear s then
    (Double.to_int64
       (Double.floor ((p - pulse s) * frames_per_pulse s frame_rate))
     + frame s)%Z
  else (minute_to_frame (time_at_pulse s (p - pulse s)) frame_rate
        + frame s)%Z.

(* compute this ramp's function constant using the end tempo (in whole
   pulses per minute) and duration (pulses into global start) of some
   later tempo section. *)
Definition compute_c_func_pulse (s : t) (end_bpm end_pulse : float)
           (frame_rate : Z) : float :=
  let log_tempo_ratio := log (end_bpm / pulses_per_minute s) in
  pulses_per_minute s * expm1 log_tempo_ratio / (end_pulse - pulse s).

(* compute the function constant from some later tempo section, given
   tempo (whole pulses/min.) and distance (in frames) from session
   origin *)
Definition compute_c_func_frame (s : t) (end_bpm : float) (end_frame : Z)
           (frame_rate : Z) : float :=
  c_func s end_bpm (frame_to_minute (end_frame - frame s) frame_rate).

End Ramp.

End TempoSection.

(** ** MeterSection *)

Module MeterSection.

(** The members of a MeterSection: those of MetricSection and Meter
    ([divisions_per_bar], [note_divisor]), then [beat] and [bbt]. *)
Record t := mk {
  pulse : float;
  frame : Z;
  position_lock_style : PositionLockStyle;
  movable : bool;
  divisions_per_bar : float;
  note_divisor : float;
  beat : float;
  bbt : BBT_Time.t
}.

(** Modelled from the spec: the constructor is declared in ardour/tempo.h;
    a new section is movable. *)
Definition new (pulse : float) (frame : Z) (beat : float)
           (bbt : BBT_Time.t) (bpb note_type : float)
           (pls : PositionLockStyle) : t :=
  mk pulse frame pls true bpb note_type beat bbt.

Definition set_pulse (p : float) (s : t) : t :=
  mk p (frame s) (position_lock_style s) (movable s)
     (divisions_per_bar s) (note_divisor s) (beat s) (bbt s).
Definition set_frame (f : Z) (s : t) : t :=
  mk (pulse s) f (position_lock_style s) (movable s)
     (divisions_per_bar s) (note_divisor s) (beat s) (bbt s).
Definition set_position_lock_style (pls : PositionLockStyle) (s : t) : t :=
  mk (pulse s) (frame s) pls (movable s)
     (divisions_per_bar s) (note_divisor s) (beat s) (bbt s).
Definition set_movable (b : bool) (s : t) : t :=
  mk (pulse s) (frame s) (position_lock_style s) b
     (divisions_per_bar s) (note_divisor s) (beat s) (bbt s).
(** *static_cast<Meter*>(&s) = meter *)
Definition set_meter (meter : Meter.t) (s : t) : t :=
  mk (pulse s) (frame s) (position_lock_style s) (movable s)
     (Meter.divisions_per_bar meter) (Meter.note_divisor meter)
     (beat s) (bbt s).
(** set_beat (pair<double, BBT_Time>) stores both members of the pair. *)
Definition set_beat (b : float * BBT_Time.t) (s : t) : t :=
  mk (pulse s) (frame s) (position_lock_style s) (movable s)
     (divisions_per_bar s) (note_divisor s) (fst b) (snd b).

End MeterSection.


(** ** A stand-in for the C library

    An implementation of the four functions in double arithmetic, accurate
    to a few units in the last place on the arguments the tempo map gives
    them.  It serves to run the model on concrete maps; nothing that is
    proved for every [Libm] depends on it. *)

Module SampleLibm.
Open Scope float_scope.

(** x^n/n! + ... + x^(n+fuel-1)/(n+fuel-1)!, from [term] = x^n/n!. *)
Fixpoint taylor (fuel : nat) (x term : float) (n : Z) (acc : float)
  : float :=
  match fuel with
  | O => acc
  | S fuel' =>
      taylor fuel' x (term * x / Double.of_int (n + 1)) (n + 1) (acc + term)
  end.

Definition expm1_small (x : float) : float := taylor 22 x x 1 0.

(** From y = e^t - 1 to e^(2^k t) - 1, by (1 + y)^2 - 1 = y (y + 2). *)
Fixpoint square_up (k : nat) (y : float) : float :=
  match k with O => y | S k' => square_up k' (y * (y + 2)) end.

Definition expm1 (x : float) : float :=
  if abs x <=? 0.5 then expm1_small x
  else if x <? -745 then -1
  else if 710 <? x then infinity
  else if x =? x then square_up 12 (expm1_small (x / 4096))
  else x.

Definition exp (x : float) : float := expm1 x + 1.

Fixpoint halley (fuel : nat) (x y : float) : float :=
  match fuel with
  | O => y
  | S fuel' =>
      let e := exp y in halley fuel' x (y + 2 * ((x - e) / (x + e)))
  end.

Definition ln2 : float := 0x1.62e42fefa39efp-1.

Definition log (x : float) : float :=
  if x <? 0 then nan
  else if x =? 0 then neg_infinity
  else if x =? 1 then 0
  else if x =? infinity then infinity
  else if x =? x then
    let (m, e) := Z.frexp x in
    halley 5 x (Double.of_int e * ln2 + (m - 1))
  else x.

Definition log1p (x : float) : float :=
  if abs x <? 0x1p-20 then x - x * x / 2 + x * x * x / 3
  else
    let u := 1 + x in
    if u =? 1 then x else log u * x / (u - 1).

Definition libm : Libm := Build_Libm log exp expm1 log1p.

End SampleLibm.
(** ** Metrics *)

(** A MetricSection is a TempoSection or a MeterSection ([is_tempo ()]). *)
Inductive MetricSection :=
| IsTempo (s : TempoSection.t)
| IsMeter (s : MeterSection.t).

(** The sections a list of pointers leads to, in list order: what a
    function that only reads sees of a [const Metrics&]. *)
Definition Metrics := list MetricSection.

Module Section_.

Definition is_tempo (s : MetricSection) : bool :=
  match s with IsTempo _ => true | IsMeter _ => false end.
Definition frame (s : MetricSection) : Z :=
  match s with
  | IsTempo t => TempoSection.frame t
  | IsMeter m => MeterSection.frame m
  end.
Definition pulse (s : MetricSection) : float :=
  match s with
  | IsTempo t => TempoSection.pulse t
  | IsMeter m => MeterSection.pulse m
  end.
Definition movable (s : MetricSection) : bool :=
  match s with
  | IsTempo t => TempoSection.movable t
  | IsMeter m => MeterSection.movable m
  end.

End Section_.

Notation "x <- e ;; k" :=
  (match e with Some x => k | None => None end)
    (at level 61, e at next level, right associativity).

Definition is_some {A} (o : option A) : bool :=
  match o with Some _ => true | None => false end.

(** *** The heap and the lists of pointers *)

(** The sections allocated so far; the address of a section is its index. *)
Definition Heap := list MetricSection.

(** [update_at h a f]: the object at address [a] is changed by [f]. *)
Fixpoint update_at {A} (l : list A) (i : nat) (f : A -> A) : list A :=
  match l, i with
  | [], _ => []
  | x :: l', O => f x :: l'
  | x :: l', S i' => x :: update_at l' i' f
  end.

Definition on_tempo (f : TempoSection.t -> TempoSection.t) (s : MetricSection)
  : MetricSection :=
  match s with IsTempo t => IsTempo (f t) | IsMeter _ => s end.

Definition on_meter (f : MeterSection.t -> MeterSection.t) (s : MetricSection)
  : MetricSection :=
  match s with IsMeter m => IsMeter (f m) | IsTempo _ => s end.

(** Following a pointer that is_tempo (), resp. is not. *)
Definition nth_tempo (h : Heap) (a : nat) : option TempoSection.t :=
  match nth_error h a with Some (IsTempo t) => Some t | _ => None end.

Definition nth_meter (h : Heap) (a : nat) : option MeterSection.t :=
  match nth_error h a with Some (IsMeter m) => Some m | _ => None end.

(** Calling a setter through a pointer. *)
Definition upd_tempo (h : Heap) (a : nat)
           (f : TempoSection.t -> TempoSection.t) : Heap :=
  update_at h a (on_tempo f).

Definition upd_meter (h : Heap) (a : nat)
           (f : MeterSection.t -> MeterSection.t) : Heap :=
  update_at h a (on_meter f).

(** A [Metrics&]: a std::list<MetricSection*> together with the heap its
    pointers lead into. *)
Record Memory := mkMemory { heap : Heap; metrics : list nat }.

(** The sections of the list, in order. *)
Fixpoint view (h : Heap) (l : list nat) : Metrics :=
  match l with
  | [] => []
  | a :: l' =>
      match nth_error h a with
      | Some s => s :: view h l'
      | None => view h l'
      end
  end.

Definition sections (m : Memory) : Metrics := view (heap m) (metrics m).

(** new: the section is placed at the end of the heap. *)
Definition alloc (h : Heap) (s : MetricSection) : Heap * nat :=
  (h ++ [s], length h).

(** _metrics.erase (i), the node holding the pointer [a]. *)
Fixpoint erase (l : list nat) (a : nat) : list nat :=
  match l with
  | [] => []
  | b :: l' => if Nat.eqb b a then l' else b :: erase l' a
  end.

(** *** std::list::sort *)

(** std::list::sort (cmp) is stable: an element is placed before the first
    one that [cmp] puts strictly after it. *)
Fixpoint sort_insert {A} (lt : A -> A -> bool) (x : A) (l : list A) : list A :=
  match l with
  | [] => [x]
  | y :: l' => if lt x y then x :: y :: l' else y :: sort_insert lt x l'
  end.

Definition list_sort {A} (lt : A -> A -> bool) (l : list A) : list A :=
  fold_left (fun acc x => sort_insert lt x acc) l [].

Definition frame_at (h : Heap) (a : nat) : Z :=
  match nth_error h a with Some s => Section_.frame s | None => 0%Z end.

Definition pulse_at (h : Heap) (a : nat) : float :=
  match nth_error h a with Some s => Section_.pulse s | None => 0%float end.

(* struct MetricSectionSorter *)
Definition MetricSectionSorter (h : Heap) (a b : nat) : bool :=
  (pulse_at h a <? pulse_at h b)%float.

(* struct MetricSectionFrameSorter *)
Definition MetricSectionFrameSorter (h : Heap) (a b : nat) : bool :=
  (frame_at h a <? frame_at h b)%Z.

Definition sort_by_pulse (m : Memory) : Memory :=
  mkMemory (heap m) (list_sort (MetricSectionSorter (heap m)) (metrics m)).

Definition sort_by_frame (m : Memory) : Memory :=
  mkMemory (heap m) (list_sort (MetricSectionFrameSorter (heap m)) (metrics m)).

(** ** TempoMap *)

Module TempoMap.

Import TempoSection.

(** /* _default tempo is 4/4 qtr=120 */ *)
Definition _default_meter : Meter.t := Meter.mk 4 4.
Definition _default_tempo : Tempo.t := Tempo.mk 120 4.

(** TempoMap::TempoMap (framecnt_t fr): the two sections allocated by the
    constructor and the list _metrics that holds them. *)
Definition initial_tempo : TempoSection.t :=
  set_movable false
    (TempoSection.new 0 0 (Tempo.beats_per_minute _default_tempo)
       (Tempo.note_type _default_tempo) Ramp AudioTime).

Definition initial_meter : MeterSection.t :=
  MeterSection.set_movable false
    (MeterSection.new 0 0 0 (BBT_Time.mk 1 1 0)
       (Meter.divisions_per_bar _default_meter)
       (Meter.note_divisor _default_meter) AudioTime).

Definition TempoMap_new : Memory :=
  mkMemory [IsTempo initial_tempo; IsMeter initial_meter] [0; 1]%nat.

Section Map.
Context {L : Libm}.
(** The member _frame_rate, fixed by the constructor. *)
Variable _frame_rate : Z.

Open Scope float_scope.

(** *** Locating the section in effect *)

Fixpoint tempo_section_at_frame_loop (ms : Metrics) (frame : Z)
         (prev : option TempoSection.t) : option TempoSection.t :=
  match ms with
  | [] => prev
  | IsTempo t :: rest =>
      if negb (active t) then tempo_section_at_frame_loop rest frame prev
      else if is_some prev && (frame <? TempoSection.frame t)%Z then prev
      else tempo_section_at_frame_loop rest frame (Some t)
  | IsMeter _ :: rest => tempo_section_at_frame_loop rest frame prev
  end.

(** [None]: prev == 0, fatal and abort (). *)
Definition tempo_section_at_frame_locked (metrics : Metrics) (frame : Z)
  : option TempoSection.t :=
  tempo_section_at_frame_loop metrics frame None.

Fixpoint meter_section_at_frame_loop (ms : Metrics) (frame : Z)
         (prev : option MeterSection.t) : option MeterSection.t :=
  match ms with
  | [] => prev
  | IsMeter m :: rest =>
      if is_some prev && (frame <? MeterSection.frame m)%Z then prev
      else meter_section_at_frame_loop rest frame (Some m)
  | IsTempo _ :: rest => meter_section_at_frame_loop rest frame prev
  end.

Definition meter_section_at_frame_locked (metrics : Metrics) (frame : Z)
  : option MeterSection.t :=
  meter_section_at_frame_loop metrics frame None.

Fixpoint meter_section_at_beat_loop (ms : Metrics) (beat : float)
         (prev_m : option MeterSection.t) : option MeterSection.t :=
  match ms with
  | [] => prev_m
  | IsMeter m :: rest =>
      if is_some prev_m && (beat <? MeterSection.beat m) then prev_m
      else meter_section_at_beat_loop rest beat (Some m)
  | IsTempo _ :: rest => meter_section_at_beat_loop rest beat prev_m
  end.

Definition meter_section_at_beat_locked (metrics : Metrics) (beat : float)
  : option MeterSection.t :=
  meter_section_at_beat_loop metrics beat None.

(** The loop shared by beat_at_frame_locked and bbt_at_frame_locked: the
    meter in effect at [frame] and the one after it. *)
Fixpoint meters_around_frame (ms : Metrics) (frame : Z)
         (prev_m : option MeterSection.t)
  : option MeterSection.t * option MeterSection.t :=
  match ms with
  | [] => (prev_m, None)
  | IsMeter m :: rest =>
      if is_some prev_m && (frame <? MeterSection.frame m)%Z
      then (prev_m, Some m)
      else meters_around_frame rest frame (Some m)
  | IsTempo _ :: rest => meters_around_frame rest frame prev_m
  end.

(** *** frame, pulse and beat *)

(* This function uses both tempo and meter. *)
Definition beat_at_frame_locked (metrics : Metrics) (frame : Z)
  : option float :=
  ts <- tempo_section_at_frame_locked metrics frame ;;
  let '(prev_m, next_m) := meters_around_frame metrics frame None in
  prev_m <- prev_m ;;
  let beat :=
    MeterSection.beat prev_m
    + (TempoSection.pulse_at_frame ts frame _frame_rate - MeterSection.pulse prev_m)
      * MeterSection.note_divisor prev_m in
  (* audio locked meters fake their beat *)
  match next_m with
  | Some next_m =>
      if MeterSection.beat next_m <? beat
      then Some (MeterSection.beat next_m) else Some beat
  | None => Some beat
  end.

Fixpoint frame_at_beat_tempo_loop (ms : Metrics) (beat : float)
         (prev_m : MeterSection.t) (prev_t : option TempoSection.t)
  : option TempoSection.t :=
  match ms with
  | [] => prev_t
  | IsTempo t :: rest =>
      if is_some prev_t
         && (beat <? ((pulse t - MeterSection.pulse prev_m)
                      * MeterSection.note_divisor prev_m)
                     + MeterSection.beat prev_m)
      then prev_t
      else frame_at_beat_tempo_loop rest beat prev_m (Some t)
  | IsMeter _ :: rest => frame_at_beat_tempo_loop rest beat prev_m prev_t
  end.

(* meter & tempo section based *)
Definition frame_at_beat_locked (metrics : Metrics) (beat : float)
  : option Z :=
  prev_m <- meter_section_at_beat_loop metrics beat None ;;
  prev_t <- frame_at_beat_tempo_loop metrics beat prev_m None ;;
  Some (frame_at_pulse prev_t
          (((beat - MeterSection.beat prev_m)
            / MeterSection.note_divisor prev_m)
           + MeterSection.pulse prev_m) _frame_rate).

Definition pulse_at_beat_locked (metrics : Metrics) (beat : float)
  : option float :=
  prev_m <- meter_section_at_beat_locked metrics beat ;;
  Some (MeterSection.pulse prev_m
        + ((beat - MeterSection.beat prev_m)
           / MeterSection.note_divisor prev_m)).

Fixpoint pulse_at_frame_loop (ms : Metrics) (frame : Z)
         (prev_t : option TempoSection.t) : option float :=
  match ms with
  | [] =>
      prev_t <- prev_t ;;
      (* treated as constant for this ts *)
      let pulses_in_section :=
        Double.of_int (frame - TempoSection.frame prev_t)
        / frames_per_pulse prev_t _frame_rate in
      Some (pulses_in_section + pulse prev_t)
  | IsTempo t :: rest =>
      if negb (active t) then pulse_at_frame_loop rest frame prev_t
      else
        match prev_t with
        | Some p =>
            if (frame <? TempoSection.frame t)%Z
            then Some (TempoSection.pulse_at_frame p frame _frame_rate)
            else pulse_at_frame_loop rest frame (Some t)
        | None => pulse_at_frame_loop rest frame (Some t)
        end
  | IsMeter _ :: rest => pulse_at_frame_loop rest frame prev_t
  end.

(* tempo section based *)
Definition pulse_at_frame_locked (metrics : Metrics) (frame : Z)
  : option float :=
  pulse_at_frame_loop metrics frame None.

Fixpoint frame_at_pulse_loop (ms : Metrics) (pulse : float)
         (prev_t : option TempoSection.t) : option Z :=
  match ms with
  | [] =>
      prev_t <- prev_t ;;
      (* must be treated as constant, irrespective of _type *)
      let dtime :=
        (pulse - TempoSection.pulse prev_t)
        * frames_per_pulse prev_t _frame_rate in
      Some (Double.to_int64 (Double.floor dtime)
            + TempoSection.frame prev_t)%Z
  | IsTempo t :: rest =>
      if negb (active t) then frame_at_pulse_loop rest pulse prev_t
      else
        match prev_t with
        | Some p =>
            if pulse <? TempoSection.pulse t
            then Some (frame_at_pulse p pulse _frame_rate)
            else frame_at_pulse_loop rest pulse (Some t)
        | None => frame_at_pulse_loop rest pulse (Some t)
        end
  | IsMeter _ :: rest => frame_at_pulse_loop rest pulse prev_t
  end.

(* tempo section based *)
Definition frame_at_pulse_locked (metrics : Metrics) (pulse : float)
  : option Z :=
  frame_at_pulse_loop metrics pulse None.

Fixpoint tempo_at_frame_loop (ms : Metrics) (frame : Z)
         (prev_t : option TempoSection.t) : option Tempo.t :=
  match ms with
  | [] =>
      prev_t <- prev_t ;;
      Some (Tempo.mk (beats_per_minute prev_t) (note_type prev_t))
  | IsTempo t :: rest =>
      if negb (active t) then tempo_at_frame_loop rest frame prev_t
      else
        match prev_t with
        | Some p =>
            if (frame <? TempoSection.frame t)%Z
            then
              (* t is the section past frame *)
              let ret_bpm :=
                tempo_at_frame p frame _frame_rate * note_type p in
              Some (Tempo.mk ret_bpm (note_type p))
            else tempo_at_frame_loop rest frame (Some t)
        | None => tempo_at_frame_loop rest frame (Some t)
        end
  | IsMeter _ :: rest => tempo_at_frame_loop rest frame prev_t
  end.

(** The loop of tempo_at_frame_locked runs over the member _metrics,
    whatever list it is given. *)
Definition tempo_at_frame_locked (_metrics metrics : Metrics) (frame : Z)
  : option Tempo.t :=
  tempo_at_frame_loop _metrics frame None.


(** *** Bars, beats and ticks *)

Fixpoint beat_at_bbt_loop (ms : Metrics) (bbt : BBT_Time.t)
         (prev_m : option MeterSection.t) : option MeterSection.t :=
  match ms with
  | [] => prev_m
  | IsMeter m :: rest =>
      match prev_m with
      | Some p =>
          let bars_to_m :=
            (MeterSection.beat m - MeterSection.beat p)
            / MeterSection.divisions_per_bar p in
          if Double.of_int (Double.u32 (BBT_Time.bars bbt - 1))
             <? bars_to_m
                + Double.of_int
                    (Double.u32 (BBT_Time.bars (MeterSection.bbt p) - 1))
          then prev_m
          else beat_at_bbt_loop rest bbt (Some m)
      | None => beat_at_bbt_loop rest bbt (Some m)
      end
  | IsTempo _ :: rest => beat_at_bbt_loop rest bbt prev_m
  end.

Definition beat_at_bbt_locked (metrics : Metrics) (bbt : BBT_Time.t)
  : option float :=
  prev_m <- beat_at_bbt_loop metrics bbt None ;;
  let remaining_bars :=
    Double.of_int
      (Double.u32 (BBT_Time.bars bbt
                   - BBT_Time.bars (MeterSection.bbt prev_m))) in
  let remaining_bars_in_beats :=
    remaining_bars * MeterSection.divisions_per_bar prev_m in
  Some (remaining_bars_in_beats + MeterSection.beat prev_m
        + Double.of_int (Double.u32 (BBT_Time.beats bbt - 1))
        + (Double.of_int (BBT_Time.ticks bbt) / BBT_Time.ticks_per_beat)).

(** The conversion of a beat distance from the meter [prev_m] into bars,
    beats and ticks: the text that ends bbt_at_beat_locked,
    bbt_at_pulse_locked and bbt_at_frame_locked. *)
Definition bbt_in_meter (prev_m : MeterSection.t) (beats_in_ms : float)
  : BBT_Time.t :=
  let bars_in_ms :=
    Double.to_uint32
      (Double.floor (beats_in_ms / MeterSection.divisions_per_bar prev_m)) in
  let total_bars :=
    Double.u32 (bars_in_ms
                + Double.u32 (BBT_Time.bars (MeterSection.bbt prev_m) - 1)) in
  let remaining_beats :=
    beats_in_ms
    - (Double.of_int bars_in_ms * MeterSection.divisions_per_bar prev_m) in
  let remaining_ticks :=
    (remaining_beats - Double.floor remaining_beats)
    * BBT_Time.ticks_per_beat in
  let ticks := Double.to_uint32 (Double.floor (remaining_ticks + 0.5)) in
  let beats := Double.to_uint32 (Double.floor remaining_beats) in
  let bars := total_bars in
  (* 0 0 0 to 1 1 0 - based mapping *)
  let bars := Double.u32 (bars + 1) in
  let beats := Double.u32 (beats + 1) in
  let '(beats, ticks) :=
    if BBT_Time.ticks_per_beat <=? Double.of_int ticks
    then (Double.u32 (beats + 1),
          Double.to_uint32 (Double.of_int ticks - BBT_Time.ticks_per_beat))
    else (beats, ticks) in
  let '(bars, beats) :=
    if MeterSection.divisions_per_bar prev_m + 1 <=? Double.of_int beats
    then (Double.u32 (bars + 1), 1%Z)
    else (bars, beats) in
  BBT_Time.mk bars beats ticks.

Fixpoint bbt_at_beat_loop (ms : Metrics) (beats : float)
         (prev_m : option MeterSection.t) : option MeterSection.t :=
  match ms with
  | [] => prev_m
  | IsMeter m :: rest =>
      if is_some prev_m && (beats <? MeterSection.beat m)
      then prev_m (* this is the meter after the one our beat is on *)
      else bbt_at_beat_loop rest beats (Some m)
  | IsTempo _ :: rest => bbt_at_beat_loop rest beats prev_m
  end.

Definition bbt_at_beat_locked (metrics : Metrics) (b : float)
  : option BBT_Time.t :=
  let beats := Double.max 0 b in
  prev_m <- bbt_at_beat_loop metrics beats None ;;
  let beats_in_ms := beats - MeterSection.beat prev_m in
  Some (bbt_in_meter prev_m beats_in_ms).

Definition bbt_at_frame_locked (metrics : Metrics) (frame : Z)
  : option BBT_Time.t :=
  if (frame <? 0)%Z then Some (BBT_Time.mk 1 1 0)
  else
    ts <- tempo_section_at_frame_locked metrics frame ;;
    let '(prev_m, next_m) := meters_around_frame metrics frame None in
    prev_m <- prev_m ;;
    let beat :=
      MeterSection.beat prev_m
      + (TempoSection.pulse_at_frame ts frame _frame_rate - MeterSection.pulse prev_m)
        * MeterSection.note_divisor prev_m in
    (* handle frame before first meter *)
    let beat := if (frame <? MeterSection.frame prev_m)%Z then 0 else beat in
    (* audio locked meters fake their beat *)
    let beat :=
      match next_m with
      | Some next_m =>
          if MeterSection.beat next_m <? beat
          then MeterSection.beat next_m else beat
      | None => beat
      end in
    let beat := Double.max 0 beat in
    let beats_in_ms := beat - MeterSection.beat prev_m in
    Some (bbt_in_meter prev_m beats_in_ms).

(** *** The public queries, on the member _metrics (the lock is held for
    the duration of each). *)

Definition bbt_at_frame (_metrics : Metrics) (frame : Z)
  : option BBT_Time.t :=
  if (frame <? 0)%Z then Some (BBT_Time.mk 1 1 0)
  else bbt_at_frame_locked _metrics frame.

Definition beat_at_frame (_metrics : Metrics) (frame : Z) : option float :=
  beat_at_frame_locked _metrics frame.

Definition frame_at_beat (_metrics : Metrics) (beat : float) : option Z :=
  frame_at_beat_locked _metrics beat.

Definition pulse_at_frame (_metrics : Metrics) (frame : Z) : option float :=
  pulse_at_frame_locked _metrics frame.

Definition quarter_note_at_frame (_metrics : Metrics) (frame : Z)
  : option float :=
  ret <- pulse_at_frame_locked _metrics frame ;;
  Some (ret * 4).

(** Add some (fractional) beats to a session frame position, and return
    the result in frames.  [beats] is beats.to_double (). *)
Definition framepos_plus_beats (_metrics : Metrics) (frame : Z)
           (beats : float) : option Z :=
  b <- beat_at_frame_locked _metrics frame ;;
  frame_at_beat_locked _metrics (b + beats).

Definition exact_beat_at_frame_locked (_metrics metrics : Metrics)
           (frame : Z) (sub_num : Z) : option float :=
  beat <- beat_at_frame_locked metrics frame ;;
  if (1 <? sub_num)%Z then
    Some (Double.floor beat
          + (Double.floor (((beat - Double.floor beat)
                            * Double.of_int sub_num) + 0.5)
             / Double.of_int sub_num))
  else if (sub_num =? 1)%Z then
    (* snap to beat *)
    Some (Double.floor (beat + 0.5))
  else if (sub_num =? -1)%Z then
    (* snap to bar *)
    bbt <- bbt_at_beat_locked metrics beat ;;
    let bbt := BBT_Time.mk (BBT_Time.bars bbt) 1 0 in
    prev_b <- beat_at_bbt_locked _metrics bbt ;;
    let bbt := BBT_Time.mk (Double.u32 (BBT_Time.bars bbt + 1)) 1 0 in
    next_b <- beat_at_bbt_locked _metrics bbt ;;
    if (next_b - prev_b) / 2 <? beat - prev_b
    then Some next_b else Some prev_b
  else Some beat.

(** *** Recomputing the map *)

(** The body of the loop of recompute_tempi under "if (prev_t)": the
    ramp of the previous active tempo (at address [p]) is fitted to
    reach the tempo at address [i], whose dependent coordinate is then
    derived. *)
Definition recompute_tempi_pair (h : Heap) (p i : nat) : Heap :=
  match nth_tempo h p, nth_tempo h i with
  | Some prev_t, Some t =>
      if pls_eqb (position_lock_style t) AudioTime then
        let c := compute_c_func_frame prev_t (pulses_per_minute t)
                   (TempoSection.frame t) _frame_rate in
        let h := upd_tempo h p (set_c_func c) in
        if negb (locked_to_meter t) then
          upd_tempo h i
            (set_pulse (pulse_at_tempo (set_c_func c prev_t)
                          (pulses_per_minute t) (TempoSection.frame t)
                          _frame_rate))
        else h
      else
        let c := compute_c_func_pulse prev_t (pulses_per_minute t)
                   (pulse t) _frame_rate in
        let h := upd_tempo h p (set_c_func c) in
        upd_tempo h i
          (set_frame (frame_at_tempo (set_c_func c prev_t)
                        (pulses_per_minute t) (pulse t) _frame_rate))
  | _, _ => h
  end.

Fixpoint recompute_tempi_loop (idx : list nat) (h : Heap)
         (prev_t : option nat) : Heap * option nat :=
  match idx with
  | [] => (h, prev_t)
  | i :: rest =>
      match nth_tempo h i with
      | None => recompute_tempi_loop rest h prev_t
      | Some t =>
          if negb (active t) then recompute_tempi_loop rest h prev_t
          else
            match prev_t with
            | None =>
                if negb (movable t)
                then recompute_tempi_loop rest
                       (upd_tempo h i (set_pulse 0)) (Some i)
                else recompute_tempi_loop rest h (Some i)
            | Some p =>
                recompute_tempi_loop rest (recompute_tempi_pair h p i)
                                     (Some i)
            end
      end
  end.

(** [None]: no tempo section is active and prev_t->set_c_func (0.0)
    dereferences a null pointer. *)
Definition recompute_tempi (m : Memory) : option Memory :=
  let '(h, prev_t) := recompute_tempi_loop (metrics m) (heap m) None in
  p <- prev_t ;;
  Some (mkMemory (upd_tempo h p (set_c_func 0)) (metrics m)).

(** The tempo a meter at [frame] drags along: the first tempo section of
    the list that is locked to a meter, or is the non-movable one, at
    that frame. *)
Fixpoint find_meter_locked_tempo (h : Heap) (l : list nat) (frame : Z)
  : option nat :=
  match l with
  | [] => None
  | a :: rest =>
      match nth_tempo h a with
      | Some t =>
          if (locked_to_meter t || negb (movable t))
             && (TempoSection.frame t =? frame)%Z
          then Some a
          else find_meter_locked_tempo h rest frame
      | None => find_meter_locked_tempo h rest frame
      end
  end.

(** (bars - prev_m->bbt().bars) * prev_m->divisions_per_bar() *)
Definition beats_between (prev_m : MeterSection.t) (bars : Z) : float :=
  Double.of_int
    (Double.u32 (bars - BBT_Time.bars (MeterSection.bbt prev_m)))
  * MeterSection.divisions_per_bar prev_m.

(** BBT_Time ((beats / prev_m->divisions_per_bar()) + prev_m->bbt().bars, 1, 0) *)
Definition renumbered_bbt (prev_m : MeterSection.t) (beats : float)
  : BBT_Time.t :=
  BBT_Time.mk
    (Double.to_uint32
       ((beats / MeterSection.divisions_per_bar prev_m)
        + Double.of_int (BBT_Time.bars (MeterSection.bbt prev_m))))
    1 0.

(** A default-constructed pair<double, BBT_Time>; BBT_Time () is 1|1|0
    (timecode/bbt_time.h). *)
Definition default_b_bbt : float * BBT_Time.t := (0, BBT_Time.mk 1 1 0).

(** The new (beat, bbt) and pulse of an audio-locked meter. *)
Definition audio_meter_position (prev_m : option MeterSection.t)
           (meter : MeterSection.t) : (float * BBT_Time.t) * float :=
  match prev_m with
  | Some prev_m =>
      let beats :=
        beats_between prev_m (BBT_Time.bars (MeterSection.bbt meter)) in
      if Double.neqb (beats + MeterSection.beat prev_m)
                     (MeterSection.beat meter)
      then
        (* reordering caused a bbt change *)
        ((beats + MeterSection.beat prev_m, renumbered_bbt prev_m beats),
         MeterSection.pulse prev_m
         + (beats / MeterSection.note_divisor prev_m))
      else if MeterSection.movable meter then
        ((MeterSection.beat meter, MeterSection.bbt meter),
         MeterSection.pulse prev_m
         + (beats / MeterSection.note_divisor prev_m))
      else (default_b_bbt, 0)
  | None => ((0, BBT_Time.mk 1 1 0), 0)
  end.

(** The new (beat, bbt) and pulse of a music-locked meter that has a
    predecessor. *)
Definition music_meter_position (prev_m meter : MeterSection.t)
  : (float * BBT_Time.t) * float :=
  let beats :=
    beats_between prev_m (BBT_Time.bars (MeterSection.bbt meter)) in
  let b_bbt :=
    if Double.neqb (beats + MeterSection.beat prev_m)
                   (MeterSection.beat meter)
    then
      (* reordering caused a bbt change *)
      (beats + MeterSection.beat prev_m, renumbered_bbt prev_m beats)
    else (beats + MeterSection.beat prev_m, MeterSection.bbt meter) in
  (b_bbt, (beats / MeterSection.note_divisor prev_m)
          + MeterSection.pulse prev_m).

Definition set_beat_pulse (b_bbt : float * BBT_Time.t) (pulse : float)
           (m : MeterSection.t) : MeterSection.t :=
  MeterSection.set_pulse pulse (MeterSection.set_beat b_bbt m).

(** [l] is the whole list, [idx] what is left of it to visit. *)
Fixpoint recompute_meters_loop (l idx : list nat) (h : Heap)
         (prev_m : option nat) : option Heap :=
  match idx with
  | [] => Some h
  | mi :: rest =>
      match nth_meter h mi with
      | None => recompute_meters_loop l rest h prev_m
      | Some meter =>
          let prev := match prev_m with
                      | Some p => nth_meter h p
                      | None => None
                      end in
          if pls_eqb (MeterSection.position_lock_style meter) AudioTime
          then
            let meter_locked_tempo :=
              find_meter_locked_tempo h l (MeterSection.frame meter) in
            let '(b_bbt, pulse) := audio_meter_position prev meter in
            let h :=
              match meter_locked_tempo with
              | Some j => upd_tempo h j (set_pulse pulse)
              | None => h
              end in
            let h := upd_meter h mi (set_beat_pulse b_bbt pulse) in
            recompute_meters_loop l rest h (Some mi)
          else
            (* MusicTime *)
            pos <-
              match prev with
              | Some prev_m => Some (music_meter_position prev_m meter)
              | None =>
                  (* shouldn't happen - the first is audio-locked *)
                  pulse <-
                    pulse_at_beat_locked (view h l)
                                         (MeterSection.beat meter) ;;
                  Some ((MeterSection.beat meter, MeterSection.bbt meter),
                        pulse)
              end ;;
            let '(b_bbt, pulse) := pos in
            let h := upd_meter h mi (set_beat_pulse b_bbt pulse) in
            frame <- frame_at_pulse_locked (view h l) pulse ;;
            let h := upd_meter h mi (MeterSection.set_frame frame) in
            recompute_meters_loop l rest h (Some mi)
      end
  end.

Definition recompute_meters (m : Memory) : option Memory :=
  h <- recompute_meters_loop (metrics m) (metrics m) (heap m) None ;;
  Some (mkMemory h (metrics m)).

(** recompute_map (metrics, end) with the default end = -1. *)
Definition recompute_map (m : Memory) : option Memory :=
  m <- recompute_tempi m ;;
  recompute_meters m.

(** *** check_solved *)

Fixpoint check_solved_loop (metrics ms : Metrics)
         (prev_t : option TempoSection.t) (prev_m : option MeterSection.t)
  : option bool :=
  match ms with
  | [] => Some true
  | IsTempo t :: rest =>
      if negb (active t) then check_solved_loop metrics rest prev_t prev_m
      else
        match prev_t with
        | Some p =>
            (* check ordering *)
            if (TempoSection.frame t <=? TempoSection.frame p)%Z
               || (pulse t <=? pulse p)
            then Some false
            (* precision check ensures tempo and frames align. *)
            else if negb (TempoSection.frame t
                          =? frame_at_tempo p (pulses_per_minute t)
                               (pulse t) _frame_rate)%Z
                    && negb (locked_to_meter t)
            then Some false
            (* gradient limit - who knows what it should be? *)
            else if 1000 <? Double.fabs (_c_func p) then Some false
            else check_solved_loop metrics rest (Some t) prev_m
        | None => check_solved_loop metrics rest (Some t) prev_m
        end
  | IsMeter m :: rest =>
      if is_some prev_m
         && pls_eqb (MeterSection.position_lock_style m) AudioTime
      then
        t <- tempo_section_at_frame_locked metrics
               (MeterSection.frame m - 1) ;;
        let nascent_m_frame :=
          frame_at_pulse t (MeterSection.pulse m) _frame_rate in
        if (MeterSection.frame m + 1 <? nascent_m_frame)%Z
           || (nascent_m_frame <? 0)%Z
        then Some false
        else check_solved_loop metrics rest prev_t (Some m)
      else check_solved_loop metrics rest prev_t (Some m)
  end.

(** check_solved (const Metrics&) only reads: it is given the sections
    of the list. *)
Definition check_solved (metrics : Metrics) : option bool :=
  check_solved_loop metrics metrics None None.

(** *** The solver *)

Fixpoint set_active_tempos_loop (idx : list nat) (h : Heap) (frame : Z)
  : bool * Heap :=
  match idx with
  | [] => (true, h)
  | i :: rest =>
      match nth_tempo h i with
      | None => set_active_tempos_loop rest h frame
      | Some t =>
          if negb (movable t) then
            set_active_tempos_loop rest (upd_tempo h i (set_active true))
                                   frame
          else if movable t && active t
                  && pls_eqb (position_lock_style t) AudioTime
                  && (TempoSection.frame t <? frame)%Z then
            set_active_tempos_loop rest
              (upd_tempo h i (fun t => set_pulse 0 (set_active false t)))
              frame
          else if movable t && pls_eqb (position_lock_style t) AudioTime
                  && (frame <? TempoSection.frame t)%Z then
            set_active_tempos_loop rest (upd_tempo h i (set_active true))
                                   frame
          else if movable t && pls_eqb (position_lock_style t) AudioTime
                  && (TempoSection.frame t =? frame)%Z then
            (false, h)
          else set_active_tempos_loop rest h frame
      end
  end.

Definition set_active_tempos (m : Memory) (frame : Z) : bool * Memory :=
  let '(b, h) := set_active_tempos_loop (metrics m) (heap m) frame in
  (b, mkMemory h (metrics m)).

(** The frame of the first non-movable meter, 0 when there is none. *)
Fixpoint first_m_frame (ms : Metrics) : Z :=
  match ms with
  | [] => 0%Z
  | IsMeter m :: rest =>
      if negb (MeterSection.movable m) then MeterSection.frame m
      else first_m_frame rest
  | IsTempo _ :: rest => first_m_frame rest
  end.

(** The refit of the solver's loops: as in recompute_tempi, but the
    dependent coordinate comes from frame_at_pulse and pulse_at_frame. *)
Definition solve_pair (h : Heap) (p i : nat) : Heap :=
  match nth_tempo h p, nth_tempo h i with
  | Some prev_t, Some t =>
      if pls_eqb (position_lock_style t) MusicTime then
        let c := compute_c_func_pulse prev_t (pulses_per_minute t)
                   (pulse t) _frame_rate in
        let h := upd_tempo h p (set_c_func c) in
        upd_tempo h i
          (set_frame (frame_at_pulse (set_c_func c prev_t) (pulse t)
                        _frame_rate))
      else
        let c := compute_c_func_frame prev_t (pulses_per_minute t)
                   (TempoSection.frame t) _frame_rate in
        let h := upd_tempo h p (set_c_func c) in
        if negb (locked_to_meter t) then
          upd_tempo h i
            (set_pulse (TempoSection.pulse_at_frame (set_c_func c prev_t)
                          (TempoSection.frame t) _frame_rate))
        else h
  | _, _ => h
  end.

(** The main loop of solve_map_frame. *)
Fixpoint solve_map_frame_loop (section : nat) (idx : list nat) (h : Heap)
         (prev_t section_prev : option nat) : Heap * option nat :=
  match idx with
  | [] => (h, section_prev)
  | i :: rest =>
      match nth_tempo h i with
      | None => solve_map_frame_loop section rest h prev_t section_prev
      | Some t =>
          if negb (active t)
          then solve_map_frame_loop section rest h prev_t section_prev
          else
            match prev_t with
            | Some p =>
                if Nat.eqb i section then
                  solve_map_frame_loop section rest h
                    (if locked_to_meter t then Some i else prev_t)
                    (Some p)
                else
                  solve_map_frame_loop section rest (solve_pair h p i)
                                       (Some i) section_prev
            | None =>
                solve_map_frame_loop section rest h (Some i) section_prev
            end
      end
  end.

(** solve_map_frame (Metrics&, TempoSection*, const framepos_t&).  The
    result is the value returned and the list as it is left; [None] when
    the call does not return. *)
Definition solve_map_frame (imaginary : Memory) (section : nat)
           (frame : Z) : option (bool * Memory) :=
  s <- nth_tempo (heap imaginary) section ;;
  (* can't move a tempo before the first meter *)
  if movable s && (frame <=? first_m_frame (sections imaginary))%Z
  then Some (false, imaginary)
  else
    let h :=
      upd_tempo (heap imaginary) section
        (fun s => set_frame frame (set_active true s)) in
    let '(h, section_prev) :=
      solve_map_frame_loop section (metrics imaginary) h None None in
    let h :=
      match section_prev with
      | Some sp =>
          match nth_tempo h sp, nth_tempo h section with
          | Some section_prev, Some s =>
              let c := compute_c_func_frame section_prev
                         (pulses_per_minute s) frame _frame_rate in
              let h := upd_tempo h sp (set_c_func c) in
              if negb (locked_to_meter s) then
                upd_tempo h section
                  (set_pulse (TempoSection.pulse_at_frame
                                (set_c_func c section_prev) frame
                                _frame_rate))
              else h
          | _, _ => h
          end
      | None => h
      end in
    let m := sort_by_frame (mkMemory h (metrics imaginary)) in
    m <- recompute_tempi m ;;
    solved <- check_solved (sections m) ;;
    Some (solved, m).

Fixpoint solve_map_pulse_loop (section : nat) (idx : list nat) (h : Heap)
         (prev_t section_prev : option nat) : Heap * option nat :=
  match idx with
  | [] => (h, section_prev)
  | i :: rest =>
      match nth_tempo h i with
      | None => solve_map_pulse_loop section rest h prev_t section_prev
      | Some t =>
          if negb (active t)
          then solve_map_pulse_loop section rest h prev_t section_prev
          else if negb (movable t) then
            solve_map_pulse_loop section rest
              (upd_tempo h i (set_pulse 0)) (Some i) section_prev
          else
            match prev_t with
            | Some p =>
                if Nat.eqb i section then
                  solve_map_pulse_loop section rest h prev_t (Some p)
                else
                  solve_map_pulse_loop section rest (solve_pair h p i)
                                       (Some i) section_prev
            | None =>
                solve_map_pulse_loop section rest h (Some i) section_prev
            end
      end
  end.

Definition solve_map_pulse (imaginary : Memory) (section : nat)
           (pulse : float) : option (bool * Memory) :=
  _ <- nth_tempo (heap imaginary) section ;;
  let h := upd_tempo (heap imaginary) section (set_pulse pulse) in
  let '(h, section_prev) :=
    solve_map_pulse_loop section (metrics imaginary) h None None in
  let h :=
    match section_prev with
    | Some sp =>
        match nth_tempo h sp, nth_tempo h section with
        | Some section_prev, Some s =>
            let c := compute_c_func_pulse section_prev
                       (pulses_per_minute s) pulse _frame_rate in
            let h := upd_tempo h sp (set_c_func c) in
            upd_tempo h section
              (set_frame (frame_at_pulse (set_c_func c section_prev) pulse
                            _frame_rate))
        | _, _ => h
        end
    | None => h
    end in
  let m := sort_by_pulse (mkMemory h (metrics imaginary)) in
  m <- recompute_tempi m ;;
  solved <- check_solved (sections m) ;;
  Some (solved, m).

(** copy_metrics_and_point: every section of [metrics] is copied to a new
    object and the copies are listed in the same order; the pointer
    returned is the copy of [section], null when [section] is not in
    the list.  The copy is a memory of its own, in which the copies
    stand at the addresses of their originals: nothing written to the
    one is seen in the other. *)
Definition copy_metrics_and_point (m : Memory) (section : nat)
  : Memory * option nat :=
  (m, if existsb (Nat.eqb section) (metrics m)
         && is_some (nth_tempo (heap m) section)
      then Some section else None).

Definition copy_metrics_and_point_meter (m : Memory) (section : nat)
  : Memory * option nat :=
  (m, if existsb (Nat.eqb section) (metrics m)
         && is_some (nth_meter (heap m) section)
      then Some section else None).

(** meter_section_at_frame_locked as a pointer: the address of the
    section it returns a reference to. *)
Fixpoint meter_section_at_frame_ptr (h : Heap) (l : list nat) (frame : Z)
         (prev : option nat) : option nat :=
  match l with
  | [] => prev
  | a :: rest =>
      match nth_meter h a with
      | Some m =>
          if is_some prev && (frame <? MeterSection.frame m)%Z then prev
          else meter_section_at_frame_ptr h rest frame (Some a)
      | None => meter_section_at_frame_ptr h rest frame prev
      end
  end.

(** The meter that precedes [section] in the list, when [section] is a
    meter of the list. *)
Fixpoint meter_before (h : Heap) (l : list nat) (section : nat)
         (prev_m : option nat) : option (option nat) :=
  match l with
  | [] => None
  | a :: rest =>
      match nth_meter h a with
      | Some _ =>
          if Nat.eqb a section then Some prev_m
          else meter_before h rest section (Some a)
      | None => meter_before h rest section prev_m
      end
  end.

Definition with_heap (m : Memory) (h : Heap) : Memory :=
  mkMemory h (metrics m).

(** solve_map_frame (Metrics&, MeterSection*, const framepos_t&) *)
Definition solve_map_frame_meter (imaginary : Memory) (section : nat)
           (frame : Z) : option (bool * Memory) :=
  (* disallow moving first meter past any subsequent one, and any
     movable meter before the first one *)
  other <- meter_section_at_frame_locked (sections imaginary) frame ;;
  sec <- nth_meter (heap imaginary) section ;;
  if (negb (MeterSection.movable sec) && MeterSection.movable other)
     || (negb (MeterSection.movable other) && MeterSection.movable sec
         && (frame <=? MeterSection.frame other)%Z)
  then Some (false, imaginary)
  else
    (* lock the first tempo to our first meter *)
    let '(ok, imaginary) :=
      if negb (MeterSection.movable sec)
      then set_active_tempos imaginary frame
      else (true, imaginary) in
    if negb ok then Some (false, imaginary)
    else
      match find_meter_locked_tempo (heap imaginary) (metrics imaginary)
              (MeterSection.frame sec) with
      | None => Some (false, imaginary)
      | Some meter_locked_tempo =>
          let '(future_map, tempo_copy) :=
            copy_metrics_and_point imaginary meter_locked_tempo in
          tempo_copy <- tempo_copy ;;
          r <-
            match meter_before (heap imaginary) (metrics imaginary)
                    section None with
            | None => Some (true, imaginary)
            | Some prev_m =>
                match (if MeterSection.movable sec then prev_m else None)
                with
                | Some pm =>
                    prev_m <- nth_meter (heap imaginary) pm ;;
                    p <- pulse_at_frame_locked (sections imaginary) frame ;;
                    let beats :=
                      (p - MeterSection.pulse prev_m)
                      * MeterSection.note_divisor prev_m in
                    let musical_pulse :=
                      ((MeterSection.beat sec - MeterSection.beat prev_m)
                       / MeterSection.note_divisor prev_m)
                      + MeterSection.pulse prev_m in
                    if beats + MeterSection.beat prev_m
                       <? MeterSection.beat sec
                    then
                      (* set the frame/pulse corresponding to its musical
                         position, as an earlier time than this has been
                         requested. *)
                      let new_pulse := musical_pulse in
                      smallest_frame <-
                        frame_at_pulse_locked (sections future_map)
                                              new_pulse ;;
                      solved <- solve_map_frame future_map tempo_copy
                                  smallest_frame ;;
                      if fst solved then
                        let imaginary :=
                          with_heap imaginary
                            (upd_tempo (heap imaginary) meter_locked_tempo
                                       (set_pulse new_pulse)) in
                        r <- solve_map_frame imaginary meter_locked_tempo
                               smallest_frame ;;
                        let imaginary := snd r in
                        Some (true,
                              with_heap imaginary
                                (upd_meter (heap imaginary) section
                                   (fun s =>
                                      MeterSection.set_pulse new_pulse
                                        (MeterSection.set_frame
                                           smallest_frame s))))
                      else Some (false, imaginary)
                    else
                      (* all is ok. set section's locked tempo if
                         allowed. *)
                      meter_copy <-
                        meter_section_at_frame_ptr (heap future_map)
                          (metrics future_map) (MeterSection.frame sec)
                          None ;;
                      let future_map :=
                        with_heap future_map
                          (upd_meter (heap future_map) meter_copy
                                     (MeterSection.set_frame frame)) in
                      solved <- solve_map_frame future_map tempo_copy
                                  frame ;;
                      if fst solved then
                        let h :=
                          upd_meter (heap imaginary) section
                                    (MeterSection.set_frame frame) in
                        let h :=
                          upd_tempo h meter_locked_tempo
                                    (set_pulse musical_pulse) in
                        r <- solve_map_frame (with_heap imaginary h)
                               meter_locked_tempo frame ;;
                        Some (true, snd r)
                      else Some (false, imaginary)
                | None =>
                    (* not movable (first meter atm) *)
                    let future_map :=
                      with_heap future_map
                        (upd_tempo (heap future_map) tempo_copy
                           (fun t => set_pulse 0 (set_frame frame t))) in
                    solved <- solve_map_frame future_map tempo_copy
                                frame ;;
                    if fst solved then
                      let h :=
                        upd_meter (heap imaginary) section
                                  (MeterSection.set_frame frame) in
                      let h :=
                        upd_tempo h meter_locked_tempo
                          (fun t => set_pulse 0 (set_frame frame t)) in
                      r <- solve_map_frame (with_heap imaginary h)
                             meter_locked_tempo frame ;;
                      let imaginary := snd r in
                      Some (true,
                            with_heap imaginary
                              (upd_meter (heap imaginary) section
                                 (set_beat_pulse (0, BBT_Time.mk 1 1 0)
                                                 0)))
                    else Some (false, imaginary)
                end
            end ;;
          let '(go_on, imaginary) := r in
          if negb go_on then Some (false, imaginary)
          else
            m <- recompute_meters (sort_by_frame imaginary) ;;
            Some (true, m)
      end.

(** disallow setting section to an existing meter's bbt *)
Fixpoint bbt_taken (h : Heap) (l : list nat) (section : nat) (bars : Z)
  : bool :=
  match l with
  | [] => false
  | a :: rest =>
      match nth_meter h a with
      | Some m =>
          if negb (Nat.eqb a section)
             && (BBT_Time.bars (MeterSection.bbt m) =? bars)%Z
          then true
          else bbt_taken h rest section bars
      | None => bbt_taken h rest section bars
      end
  end.

(** section->set_beat; section->set_pulse; section->set_frame of
    solve_map_bbt, from the meter [prev] that comes to precede it. *)
Definition place_at_bbt (l : list nat) (h : Heap) (section : nat)
           (prev : MeterSection.t) (when : BBT_Time.t) : option Heap :=
  let beats := beats_between prev (BBT_Time.bars when) in
  let pulse :=
    (beats / MeterSection.note_divisor prev) + MeterSection.pulse prev in
  let b_bbt := (beats + MeterSection.beat prev, when) in
  let h := upd_meter h section (set_beat_pulse b_bbt pulse) in
  frame <- frame_at_pulse_locked (view h l) pulse ;;
  Some (upd_meter h section (MeterSection.set_frame frame)).

(** The second loop of solve_map_bbt.  The result is [None] when a null
    pointer is dereferenced; otherwise whether the loop ran to its end
    (false: "return false"), the heap and the two pointers. *)
Fixpoint solve_map_bbt_loop (l : list nat) (section : nat)
         (when : BBT_Time.t) (idx : list nat) (h : Heap)
         (prev_m section_prev : option nat)
  : option (bool * Heap * option nat * option nat) :=
  match idx with
  | [] => Some (true, h, prev_m, section_prev)
  | i :: rest =>
      match nth_meter h i with
      | None =>
          solve_map_bbt_loop l section when rest h prev_m section_prev
      | Some m =>
          let prev := match prev_m with
                      | Some p => nth_meter h p
                      | None => None
                      end in
          if is_some prev_m
             && (BBT_Time.bars when <? BBT_Time.bars (MeterSection.bbt m))%Z
             && negb (is_some section_prev)
          then
            sp <- prev ;;
            h <- place_at_bbt l h section sp when ;;
            solve_map_bbt_loop l section when rest h (Some section) prev_m
          else if pls_eqb (MeterSection.position_lock_style m) AudioTime
          then
            match find_meter_locked_tempo h l (MeterSection.frame m) with
            | None => Some (false, h, prev_m, section_prev)
            | Some meter_locked_tempo =>
                let '(b_bbt, new_pulse) := audio_meter_position prev m in
                let h := upd_tempo h meter_locked_tempo
                                   (set_pulse new_pulse) in
                let h := upd_meter h i (set_beat_pulse b_bbt new_pulse) in
                solve_map_bbt_loop l section when rest h (Some i)
                                   section_prev
            end
          else
            (* MusicTime *)
            prev <- prev ;;
            let '(b_bbt, new_pulse) := music_meter_position prev m in
            let h := upd_meter h i (set_beat_pulse b_bbt new_pulse) in
            frame <- frame_at_pulse_locked (view h l) new_pulse ;;
            let h := upd_meter h i (MeterSection.set_frame frame) in
            solve_map_bbt_loop l section when rest h (Some i) section_prev
      end
  end.

Definition solve_map_bbt (imaginary : Memory) (section : nat)
           (when : BBT_Time.t) : option (bool * Memory) :=
  let l := metrics imaginary in
  if bbt_taken (heap imaginary) l section (BBT_Time.bars when)
  then Some (false, imaginary)
  else
    r <- solve_map_bbt_loop l section when l (heap imaginary) None None ;;
    let '(finished, h, prev_m, section_prev) := r in
    if negb finished then Some (false, with_heap imaginary h)
    else
      h <-
        (if is_some section_prev then Some h
         else
           p <- prev_m ;;
           prev <- nth_meter h p ;;
           place_at_bbt l h section prev when) ;;
      m <- recompute_meters (sort_by_pulse (with_heap imaginary h)) ;;
      Some (true, m).

(** *** Adding, removing and replacing sections *)

(** The loop of remove_tempo_locked: the list without the first movable
    tempo section at [frame], when there is one. *)
Fixpoint remove_tempo_loop (h : Heap) (l : list nat) (frame : Z)
  : option (list nat) :=
  match l with
  | [] => None
  | a :: rest =>
      match nth_tempo h a with
      | Some t =>
          if (frame =? TempoSection.frame t)%Z && movable t
          then Some rest
          else option_map (cons a) (remove_tempo_loop h rest frame)
      | None => option_map (cons a) (remove_tempo_loop h rest frame)
      end
  end.

(** remove_tempo_locked (const TempoSection& tempo): of [tempo] only the
    frame is read. *)
Definition remove_tempo_locked (m : Memory) (tempo : TempoSection.t)
  : bool * Memory :=
  match remove_tempo_loop (heap m) (metrics m) (TempoSection.frame tempo)
  with
  | Some l => (true, mkMemory (heap m) l)
  | None => (false, m)
  end.

Definition remove_tempo (m : Memory) (tempo : TempoSection.t)
           (complete_operation : bool) : option Memory :=
  let '(removed, m) := remove_tempo_locked m tempo in
  if removed && complete_operation then recompute_map m else Some m.

(** The first loop of remove_meter_locked: remove meter-locked tempo. *)
Fixpoint remove_locked_tempo_loop (h : Heap) (l : list nat) (frame : Z)
  : list nat :=
  match l with
  | [] => []
  | a :: rest =>
      match nth_tempo h a with
      | Some t =>
          if locked_to_meter t && (frame =? TempoSection.frame t)%Z
          then rest
          else a :: remove_locked_tempo_loop h rest frame
      | None => a :: remove_locked_tempo_loop h rest frame
      end
  end.

Fixpoint remove_meter_loop (h : Heap) (l : list nat) (frame : Z)
  : option (list nat) :=
  match l with
  | [] => None
  | a :: rest =>
      match nth_meter h a with
      | Some mt =>
          if (frame =? MeterSection.frame mt)%Z && MeterSection.movable mt
          then Some rest
          else option_map (cons a) (remove_meter_loop h rest frame)
      | None => option_map (cons a) (remove_meter_loop h rest frame)
      end
  end.

(** remove_meter_locked (const MeterSection& meter): of [meter] the lock
    style and the frame are read. *)
Definition remove_meter_locked (m : Memory) (meter : MeterSection.t)
  : bool * Memory :=
  let l :=
    if pls_eqb (MeterSection.position_lock_style meter) AudioTime
    then remove_locked_tempo_loop (heap m) (metrics m)
           (MeterSection.frame meter)
    else metrics m in
  match remove_meter_loop (heap m) l (MeterSection.frame meter) with
  | Some l' => (true, mkMemory (heap m) l')
  | None => (false, mkMemory (heap m) l)
  end.

Definition remove_meter (m : Memory) (meter : MeterSection.t)
           (complete_operation : bool) : option Memory :=
  let '(removed, m) := remove_meter_locked m meter in
  if removed && complete_operation then recompute_map m else Some m.

(** The first loop of do_insert for a tempo section: an existing tempo
    section at the same position is overwritten when it cannot move, and
    removed otherwise.  The result is the heap, the list and need_add. *)
Fixpoint do_insert_tempo_match (insert_tempo : TempoSection.t) (h : Heap)
         (l : list nat) : Heap * list nat * bool :=
  match l with
  | [] => (h, [], true)
  | a :: rest =>
      match nth_tempo h a with
      | Some tempo =>
          let ipm :=
            pls_eqb (position_lock_style insert_tempo) MusicTime in
          if (ipm && (pulse tempo =? pulse insert_tempo))
             || (negb ipm && (TempoSection.frame tempo
                              =? TempoSection.frame insert_tempo)%Z)
          then
            if negb (movable tempo) then
              (* can't (re)move this section, so overwrite its data
                 content (but not its properties as a section). *)
              (upd_tempo h a
                 (fun t =>
                    set_type (type insert_tempo)
                      (set_position_lock_style AudioTime
                         (set_tempo
                            (Tempo.mk (beats_per_minute insert_tempo)
                                      (note_type insert_tempo)) t))),
               a :: rest, false)
            else (h, rest, true)
          else
            let '(h', l', need_add) :=
              do_insert_tempo_match insert_tempo h rest in
            (h', a :: l', need_add)
      | None =>
          let '(h', l', need_add) :=
            do_insert_tempo_match insert_tempo h rest in
          (h', a :: l', need_add)
      end
  end.

Fixpoint do_insert_meter_match (insert_meter : MeterSection.t) (h : Heap)
         (l : list nat) : Heap * list nat * bool :=
  match l with
  | [] => (h, [], true)
  | a :: rest =>
      match nth_meter h a with
      | Some meter =>
          let ipm :=
            pls_eqb (MeterSection.position_lock_style insert_meter)
                    MusicTime in
          if (ipm && (MeterSection.beat meter
                      =? MeterSection.beat insert_meter))
             || (negb ipm && (MeterSection.frame meter
                              =? MeterSection.frame insert_meter)%Z)
          then
            if negb (MeterSection.movable meter) then
              (upd_meter h a
                 (fun mt =>
                    MeterSection.set_position_lock_style AudioTime
                      (MeterSection.set_meter
                         (Meter.mk
                            (MeterSection.divisions_per_bar insert_meter)
                            (MeterSection.note_divisor insert_meter))
                         mt)),
               a :: rest, false)
            else (h, rest, true)
          else
            let '(h', l', need_add) :=
              do_insert_meter_match insert_meter h rest in
            (h', a :: l', need_add)
      | None =>
          let '(h', l', need_add) :=
            do_insert_meter_match insert_meter h rest in
          (h', a :: l', need_add)
      end
  end.

(** _metrics.insert (i, section) with i the first tempo section that
    lies after the new one, or the end of the list. *)
Fixpoint insert_tempo_ptr (insert_tempo : TempoSection.t) (section : nat)
         (h : Heap) (l : list nat) : list nat :=
  match l with
  | [] => [section]
  | a :: rest =>
      match nth_tempo h a with
      | Some tempo =>
          let ipm :=
            pls_eqb (position_lock_style insert_tempo) MusicTime in
          if (ipm && (pulse insert_tempo <? pulse tempo))
             || (negb ipm && (TempoSection.frame insert_tempo
                              <? TempoSection.frame tempo)%Z)
          then section :: a :: rest
          else a :: insert_tempo_ptr insert_tempo section h rest
      | None => a :: insert_tempo_ptr insert_tempo section h rest
      end
  end.

Fixpoint insert_meter_ptr (insert_meter : MeterSection.t) (section : nat)
         (h : Heap) (l : list nat) : list nat :=
  match l with
  | [] => [section]
  | a :: rest =>
      match nth_meter h a with
      | Some meter =>
          let ipm :=
            pls_eqb (MeterSection.position_lock_style insert_meter)
                    MusicTime in
          if (ipm && (MeterSection.beat insert_meter
                      <? MeterSection.beat meter))
             || (negb ipm && (MeterSection.frame insert_meter
                              <? MeterSection.frame meter)%Z)
          then section :: a :: rest
          else a :: insert_meter_ptr insert_meter section h rest
      | None => a :: insert_meter_ptr insert_meter section h rest
      end
  end.

(** do_insert (MetricSection* section) *)
Definition do_insert (m : Memory) (section : nat) : option Memory :=
  s <- nth_error (heap m) section ;;
  match s with
  | IsMeter insert_meter =>
      (* we only allow new meters to be inserted on beat 1 of an
         existing measure: the corrected position is computed for the
         warning and not used *)
      _ <-
        (if negb (BBT_Time.beats (MeterSection.bbt insert_meter) =? 1)%Z
            || negb (BBT_Time.ticks (MeterSection.bbt insert_meter) =? 0)%Z
         then beat_at_bbt_locked (sections m)
                (BBT_Time.mk
                   (BBT_Time.bars (MeterSection.bbt insert_meter)) 1 0)
         else Some 0) ;;
      let '(h, l, need_add) :=
        do_insert_meter_match insert_meter (heap m) (metrics m) in
      Some (mkMemory h
              (if need_add then insert_meter_ptr insert_meter section h l
               else l))
  | IsTempo insert_tempo =>
      let '(h, l, need_add) :=
        do_insert_tempo_match insert_tempo (heap m) (metrics m) in
      Some (mkMemory h
              (if need_add then insert_tempo_ptr insert_tempo section h l
               else l))
  end.

(** add_tempo_locked: the value of its local [solved] when it returns,
    the pointer returned and the map as it is left. *)
Definition add_tempo_locked_solved (m : Memory) (tempo : Tempo.t)
           (pulse : float) (frame : Z) (ty : Type_)
           (pls : PositionLockStyle) (recompute : bool)
           (locked_to_meter : bool) : option (bool * (nat * Memory)) :=
  let '(h, t) :=
    alloc (heap m)
      (IsTempo (set_locked_to_meter locked_to_meter
                  (TempoSection.new pulse frame
                     (Tempo.beats_per_minute tempo)
                     (Tempo.note_type tempo) ty pls))) in
  m <- do_insert (with_heap m h) t ;;
  if recompute then
    r <- (if pls_eqb pls AudioTime
          then solve_map_frame m t frame
          else solve_map_pulse m t pulse) ;;
    let '(solved, m) := r in
    m <- recompute_meters m ;;
    if negb solved then
      m <- recompute_map m ;; Some (solved, (t, m))
    else Some (solved, (t, m))
  else Some (false, (t, m)).

Definition add_tempo_locked (m : Memory) (tempo : Tempo.t) (pulse : float)
           (frame : Z) (ty : Type_) (pls : PositionLockStyle)
           (recompute : bool) (locked_to_meter : bool)
  : option (nat * Memory) :=
  option_map snd
    (add_tempo_locked_solved m tempo pulse frame ty pls recompute
                             locked_to_meter).

Definition add_tempo (m : Memory) (tempo : Tempo.t) (pulse : float)
           (frame : Z) (ty : Type_) (pls : PositionLockStyle)
  : option (nat * Memory) :=
  add_tempo_locked m tempo pulse frame ty pls true false.

(** first_tempo () and first_meter (), as pointers; [None] is abort (). *)
Fixpoint first_tempo (h : Heap) (l : list nat) : option nat :=
  match l with
  | [] => None
  | a :: rest =>
      match nth_tempo h a with
      | Some t =>
          if negb (active t) then first_tempo h rest
          else if negb (movable t) then Some a
          else first_tempo h rest
      | None => first_tempo h rest
      end
  end.

Fixpoint first_meter (h : Heap) (l : list nat) : option nat :=
  match l with
  | [] => None
  | a :: rest =>
      match nth_meter h a with
      | Some _ => Some a
      | None => first_meter h rest
      end
  end.

(** replace_tempo (const TempoSection& ts, ...): of [ts] the frame and
    locked_to_meter are read. *)
Definition replace_tempo (m : Memory) (ts : TempoSection.t)
           (tempo : Tempo.t) (pulse : float) (frame : Z) (ty : Type_)
           (pls : PositionLockStyle) : option Memory :=
  let locked_to_meter := TempoSection.locked_to_meter ts in
  first <- first_tempo (heap m) (metrics m) ;;
  first_v <- nth_tempo (heap m) first ;;
  if negb (TempoSection.frame ts =? TempoSection.frame first_v)%Z then
    let '(_, m) := remove_tempo_locked m ts in
    r <- add_tempo_locked m tempo pulse frame ty pls true locked_to_meter ;;
    Some (snd r)
  else
    (* cannot move the first tempo section *)
    recompute_map
      (with_heap m
         (upd_tempo (heap m) first
            (fun first =>
               set_tempo tempo
                 (set_position_lock_style AudioTime
                    (set_frame frame
                       (set_pulse 0 (set_type ty first))))))).

Definition add_meter_locked (m : Memory) (meter : Meter.t) (beat : float)
           (where_ : BBT_Time.t) (frame : Z) (pls : PositionLockStyle)
           (recompute : bool) : option (nat * Memory) :=
  prev_m <- meter_section_at_frame_locked (sections m) (frame - 1) ;;
  let pulse :=
    (Double.of_int
       (Double.u32 (BBT_Time.bars where_
                    - BBT_Time.bars (MeterSection.bbt prev_m)))
     * (MeterSection.divisions_per_bar prev_m
        / MeterSection.note_divisor prev_m))
    + MeterSection.pulse prev_m in
  m <-
    (if pls_eqb pls AudioTime then
       (* add meter-locked tempo *)
       tempo <- tempo_at_frame_locked (sections m) (sections m) frame ;;
       r <- add_tempo_locked m tempo pulse frame Ramp AudioTime true true ;;
       Some (snd r)
     else Some m) ;;
  let '(h, new_meter) :=
    alloc (heap m)
      (IsMeter (MeterSection.new pulse frame beat where_
                  (Meter.divisions_per_bar meter)
                  (Meter.note_divisor meter) pls)) in
  m <- do_insert (with_heap m h) new_meter ;;
  if recompute then
    r <- (if pls_eqb pls AudioTime
          then solve_map_frame_meter m new_meter frame
          else
            r <- solve_map_bbt m new_meter where_ ;;
            m <- recompute_map (snd r) ;;
            Some (fst r, m)) ;;
    let '(solved, m) := r in
    if negb solved then
      (* if this has failed to solve, there is little we can do other
         than to ensure that the new map is recalculated. *)
      m <- recompute_map m ;; Some (new_meter, m)
    else Some (new_meter, m)
  else Some (new_meter, m).

Definition add_meter (m : Memory) (meter : Meter.t) (beat : float)
           (where_ : BBT_Time.t) (frame : Z) (pls : PositionLockStyle)
  : option (nat * Memory) :=
  add_meter_locked m meter beat where_ frame pls true.

(** replace_meter (const MeterSection& ms, ...): of [ms] movable, the
    lock style and the frame are read. *)
Definition replace_meter (m : Memory) (ms : MeterSection.t)
           (meter : Meter.t) (where_ : BBT_Time.t) (frame : Z)
           (pls : PositionLockStyle) : option Memory :=
  beat <- beat_at_bbt_locked (sections m) where_ ;;
  if MeterSection.movable ms then
    let '(_, m) := remove_meter_locked m ms in
    r <- add_meter_locked m meter beat where_ frame pls true ;;
    Some (snd r)
  else
    first <- first_meter (heap m) (metrics m) ;;
    first_t <- first_tempo (heap m) (metrics m) ;;
    (* cannot move the first meter section *)
    let h :=
      upd_meter (heap m) first
        (fun first =>
           MeterSection.set_beat (0, BBT_Time.mk 1 1 0)
             (MeterSection.set_frame frame
                (MeterSection.set_pulse 0
                   (MeterSection.set_position_lock_style AudioTime
                      (MeterSection.set_meter meter first))))) in
    first_v <- nth_meter h first ;;
    let h :=
      upd_tempo h first_t
        (fun first_t =>
           set_position_lock_style AudioTime
             (set_pulse 0
                (set_frame (MeterSection.frame first_v) first_t))) in
    recompute_map (with_heap m h).

(** *** The mutators of the GUI

    gui_move_tempo, gui_move_meter and gui_dilate_tempo return void: the
    boolean of the model tells whether the proposal was accepted, that
    is whether the branch that edits _metrics was taken.  For
    gui_change_tempo it is the value returned (can_solve). *)

Definition gui_move_tempo (m : Memory) (ts : nat) (frame : Z)
           (sub_num : Z) : option (bool * Memory) :=
  s <- nth_tempo (heap m) ts ;;
  let '(future_map, tempo_copy) := copy_metrics_and_point m ts in
  tempo_copy <- tempo_copy ;;
  if pls_eqb (position_lock_style s) MusicTime then
    (* if we're snapping to a musical grid, set the pulse exactly
       instead of via the supplied frame. *)
    let future_map :=
      with_heap future_map
        (upd_tempo (heap future_map) tempo_copy
                   (set_position_lock_style AudioTime)) in
    r <- solve_map_frame future_map tempo_copy frame ;;
    let '(solved, future_map) := r in
    if solved then
      beat <- exact_beat_at_frame_locked (sections m)
                (sections future_map) frame sub_num ;;
      pulse <- pulse_at_beat_locked (sections future_map) beat ;;
      r <- solve_map_pulse future_map tempo_copy pulse ;;
      if fst r then
        r <- solve_map_pulse m ts pulse ;;
        m <- recompute_meters (snd r) ;;
        Some (true, m)
      else Some (false, m)
    else Some (false, m)
  else
    r <- solve_map_frame future_map tempo_copy frame ;;
    let '(solved, future_map) := r in
    if solved then
      if negb (sub_num =? 0)%Z then
        (* We're moving the object that defines the grid while snapping
           to it... place the ts at the requested frame in a dummy map
           then find the closest beat subdivision to that frame in the
           dummy. *)
        beat <- exact_beat_at_frame_locked (sections m)
                  (sections future_map) frame sub_num ;;
        pulse <- pulse_at_beat_locked (sections future_map) beat ;;
        r <- solve_map_pulse future_map tempo_copy pulse ;;
        if fst r then
          (* snapping to a grid. force MusicTime temporarily. *)
          let m :=
            with_heap m
              (upd_tempo (heap m) ts (set_position_lock_style MusicTime))
          in
          r <- solve_map_pulse m ts pulse ;;
          let m := snd r in
          let m :=
            with_heap m
              (upd_tempo (heap m) ts (set_position_lock_style AudioTime))
          in
          m <- recompute_meters m ;;
          Some (true, m)
        else Some (false, m)
      else
        r <- solve_map_frame m ts frame ;;
        m <- recompute_meters (snd r) ;;
        Some (true, m)
    else Some (false, m).

Definition gui_move_meter (m : Memory) (ms : nat) (frame : Z)
  : option (bool * Memory) :=
  s <- nth_meter (heap m) ms ;;
  let '(future_map, copy) := copy_metrics_and_point_meter m ms in
  if pls_eqb (MeterSection.position_lock_style s) AudioTime then
    copy <- copy ;;
    r <- solve_map_frame_meter future_map copy frame ;;
    if fst r then
      r <- solve_map_frame_meter m ms frame ;;
      m <- recompute_tempi (snd r) ;;
      Some (true, m)
    else Some (false, m)
  else
    beat <- beat_at_frame_locked (sections m) frame ;;
    bbt <- bbt_at_beat_locked (sections m) beat ;;
    copy <- copy ;;
    r <- solve_map_bbt future_map copy bbt ;;
    if fst r then
      r <- solve_map_bbt m ms bbt ;;
      m <- recompute_tempi (snd r) ;;
      Some (true, m)
    else Some (false, m).

Definition gui_change_tempo (m : Memory) (ts : nat) (bpm : Tempo.t)
  : option (bool * Memory) :=
  let '(future_map, tempo_copy) := copy_metrics_and_point m ts in
  tempo_copy <- tempo_copy ;;
  let future_map :=
    with_heap future_map
      (upd_tempo (heap future_map) tempo_copy
                 (set_beats_per_minute (Tempo.beats_per_minute bpm))) in
  future_map <- recompute_tempi future_map ;;
  solved <- check_solved (sections future_map) ;;
  if solved then
    let m :=
      with_heap m
        (upd_tempo (heap m) ts
                   (set_beats_per_minute (Tempo.beats_per_minute bpm))) in
    m <- recompute_map m ;;
    Some (true, m)
  else Some (false, m).

(** The first tempo section of the list that lies after [frame]. *)
Fixpoint next_tempo_after (ms : Metrics) (frame : Z)
  : option TempoSection.t :=
  match ms with
  | [] => None
  | IsTempo t :: rest =>
      if (frame <? TempoSection.frame t)%Z then Some t
      else next_tempo_after rest frame
  | IsMeter _ :: rest => next_tempo_after rest frame
  end.

Definition is_Ramp (t : TempoSection.t) : bool :=
  negb (is_Constant (type t)).

(** The tempo gui_dilate_tempo proposes for [prev_t], the copy of the
    dragged section. *)
Definition dilated_bpm (prev_t : TempoSection.t)
           (prev_to_prev_t next_t : option TempoSection.t)
           (frame end_frame : Z) (pulse : float) : float :=
  let fr_off := (end_frame - frame)%Z in
  (* minimum allowed measurement distance in frames *)
  let min_dframe := 2%Z in
  let contribution :=
    match next_t, prev_to_prev_t with
    | Some next_t, Some ptp =>
        if is_Ramp ptp then
          Double.of_int (TempoSection.frame prev_t - TempoSection.frame ptp)
          / Double.of_int (TempoSection.frame next_t
                           - TempoSection.frame ptp)
        else 0
    | _, _ => 0
    end in
  let prev_t_frame_contribution :=
    Double.to_int64
      (Double.of_int fr_off - (contribution * Double.of_int fr_off)) in
  let start_pulse := TempoSection.pulse_at_frame prev_t frame _frame_rate in
  let end_pulse :=
    TempoSection.pulse_at_frame prev_t end_frame _frame_rate in
  let bpm := beats_per_minute prev_t in
  let ramped_before :=
    match prev_to_prev_t with
    | Some ptp => if is_Ramp ptp then Some ptp else None
    | None => None
    end in
  if linear prev_t then
    if pls_eqb (position_lock_style prev_t) MusicTime then
      match ramped_before with
      | Some ptp =>
          if (TempoSection.frame ptp + min_dframe <? frame)%Z
             && (TempoSection.frame ptp + min_dframe
                 <? frame + prev_t_frame_contribution)%Z
          then
            bpm * (Double.of_int (frame - TempoSection.frame ptp)
                   / Double.of_int ((frame + prev_t_frame_contribution)
                                    - TempoSection.frame ptp))
          else bpm
      | None =>
          (* prev to prev is irrelevant *)
          if (TempoSection.pulse prev_t <? start_pulse)
             && (TempoSection.pulse prev_t <? end_pulse)
          then
            bpm * ((start_pulse - TempoSection.pulse prev_t)
                   / (end_pulse - TempoSection.pulse prev_t))
          else bpm
      end
    else
      (* AudioTime *)
      match ramped_before with
      | Some ptp =>
          if (TempoSection.frame ptp + min_dframe <? frame)%Z
             && (TempoSection.frame ptp + min_dframe <? end_frame)%Z
          then
            bpm * (Double.of_int (frame - TempoSection.frame ptp)
                   / Double.of_int (end_frame - TempoSection.frame ptp))
          else bpm
      | None =>
          (* prev_to_prev_t is irrelevant *)
          if (TempoSection.frame prev_t + min_dframe <? frame)%Z
             && (TempoSection.frame prev_t + min_dframe <? end_frame)%Z
          then
            bpm * (Double.of_int (frame - TempoSection.frame prev_t)
                   / Double.of_int (end_frame - TempoSection.frame prev_t))
          else bpm
      end
  else
    let pulse_pos := frame_at_pulse prev_t pulse _frame_rate in
    let ratio_from (origin : Z) : float :=
      if (origin + min_dframe <? pulse_pos)%Z
         && (origin + min_dframe <? pulse_pos - fr_off)%Z
      then Double.of_int ((pulse_pos - fr_off) - origin)
           / Double.of_int (pulse_pos - origin)
      else 1 in
    let '(frame_ratio, pulse_ratio) :=
      match prev_to_prev_t with
      | Some ptp =>
          (ratio_from (TempoSection.frame ptp),
           if (TempoSection.pulse ptp <? end_pulse)
              && (TempoSection.pulse ptp <? start_pulse)
           then (start_pulse - TempoSection.pulse ptp)
                / (end_pulse - TempoSection.pulse ptp)
           else 1)
      | None =>
          (ratio_from (TempoSection.frame prev_t), start_pulse / end_pulse)
      end in
    bpm * (pulse_ratio * frame_ratio).

Definition gui_dilate_tempo (m : Memory) (ts : option nat)
           (frame end_frame : Z) (pulse : float)
  : option (bool * Memory) :=
  match ts with
  | None => Some (false, m)
  | Some ts =>
      let '(future_map, prev_t) := copy_metrics_and_point m ts in
      prev_to_prev_t <-
        match prev_t with
        | Some p =>
            pv <- nth_tempo (heap future_map) p ;;
            if 0 <? TempoSection.pulse pv then
              ptp <- tempo_section_at_frame_locked (sections future_map)
                       (TempoSection.frame pv - 1) ;;
              Some (Some ptp)
            else Some None
        | None => Some None
        end ;;
      ts_v <- nth_tempo (heap m) ts ;;
      let next_t :=
        next_tempo_after (sections future_map) (TempoSection.frame ts_v) in
      prev_t <- prev_t ;;
      pv <- nth_tempo (heap future_map) prev_t ;;
      let new_bpm :=
        dilated_bpm pv prev_to_prev_t next_t frame end_frame pulse in
      (* don't clamp and proceed here.  testing has revealed that this
         can go negative, which is an entirely different thing to just
         being too low. *)
      if new_bpm <? 0.5 then Some (false, m)
      else
        let new_bpm := Double.min new_bpm 1000 in
        let future_map :=
          with_heap future_map
            (upd_tempo (heap future_map) prev_t
                       (set_beats_per_minute new_bpm)) in
        future_map <- recompute_tempi future_map ;;
        future_map <- recompute_meters future_map ;;
        solved <- check_solved (sections future_map) ;;
        if solved then
          let m :=
            with_heap m
              (upd_tempo (heap m) ts (set_beats_per_minute new_bpm)) in
          m <- recompute_tempi m ;;
          m <- recompute_meters m ;;
          Some (true, m)
        else Some (false, m)
  end.

(** *** Further queries *)

(** n_tempos () and n_meters (), on the sections of _metrics. *)
Fixpoint n_tempos (_metrics : Metrics) : Z :=
  match _metrics with
  | [] => 0%Z
  | s :: rest =>
      if Section_.is_tempo s then (n_tempos rest + 1)%Z
      else n_tempos rest
  end.

Fixpoint n_meters (_metrics : Metrics) : Z :=
  match _metrics with
  | [] => 0%Z
  | s :: rest =>
      if negb (Section_.is_tempo s) then (n_meters rest + 1)%Z
      else n_meters rest
  end.

Fixpoint frame_at_tempo_loop (ms : Metrics) (tempo_ppm : float)
         (prev_t : option TempoSection.t) : option Z :=
  match ms with
  | [] => prev_t <- prev_t ;; Some (TempoSection.frame prev_t)
  | IsTempo t :: rest =>
      if negb (active t) then frame_at_tempo_loop rest tempo_ppm prev_t
      else
        let t_ppm := beats_per_minute t / note_type t in
        if t_ppm =? tempo_ppm then Some (TempoSection.frame t)
        else
          match prev_t with
          | Some p =>
              let prev_t_ppm := beats_per_minute p / note_type p in
              if ((tempo_ppm <? t_ppm) && (prev_t_ppm <? tempo_ppm))
                 || ((t_ppm <? tempo_ppm) && (tempo_ppm <? prev_t_ppm))
              then Some (frame_at_tempo p tempo_ppm (pulse p) _frame_rate)
              else frame_at_tempo_loop rest tempo_ppm (Some t)
          | None => frame_at_tempo_loop rest tempo_ppm (Some t)
          end
  | IsMeter _ :: rest => frame_at_tempo_loop rest tempo_ppm prev_t
  end.

(** The loop of frame_at_tempo_locked runs over the member _metrics,
    whatever list it is given. *)
Definition frame_at_tempo_locked (_metrics metrics : Metrics)
           (tempo : Tempo.t) : option Z :=
  frame_at_tempo_loop _metrics
    (Tempo.beats_per_minute tempo / Tempo.note_type tempo) None.

Fixpoint beat_at_pulse_loop (ms : Metrics) (pulse : float)
         (prev_m : option MeterSection.t) : option MeterSection.t :=
  match ms with
  | [] => prev_m
  | IsMeter m :: rest =>
      match prev_m with
      | Some p =>
          if (pulse <? MeterSection.pulse m)
             && (MeterSection.beat m
                 <? ((pulse - MeterSection.pulse p)
                     * MeterSection.note_divisor p)
                    + MeterSection.beat p)
          then prev_m
          else beat_at_pulse_loop rest pulse (Some m)
      | None => beat_at_pulse_loop rest pulse (Some m)
      end
  | IsTempo _ :: rest => beat_at_pulse_loop rest pulse prev_m
  end.

Definition beat_at_pulse_locked (metrics : Metrics) (pulse : float)
  : option float :=
  prev_m <- beat_at_pulse_loop metrics pulse None ;;
  Some (((pulse - MeterSection.pulse prev_m)
         * MeterSection.note_divisor prev_m)
        + MeterSection.beat prev_m).

Fixpoint pulse_at_bbt_loop (ms : Metrics) (bbt : BBT_Time.t)
         (prev_m : option MeterSection.t) : option MeterSection.t :=
  match ms with
  | [] => prev_m
  | IsMeter m :: rest =>
      if is_some prev_m
         && (BBT_Time.bars bbt <? BBT_Time.bars (MeterSection.bbt m))%Z
      then prev_m
      else pulse_at_bbt_loop rest bbt (Some m)
  | IsTempo _ :: rest => pulse_at_bbt_loop rest bbt prev_m
  end.

Definition pulse_at_bbt_locked (metrics : Metrics) (bbt : BBT_Time.t)
  : option float :=
  prev_m <- pulse_at_bbt_loop metrics bbt None ;;
  let remaining_bars :=
    Double.of_int
      (Double.u32 (BBT_Time.bars bbt
                   - BBT_Time.bars (MeterSection.bbt prev_m))) in
  let remaining_pulses :=
    remaining_bars * MeterSection.divisions_per_bar prev_m
    / MeterSection.note_divisor prev_m in
  Some (remaining_pulses + MeterSection.pulse prev_m
        + ((Double.of_int (Double.u32 (BBT_Time.beats bbt - 1))
            + (Double.of_int (BBT_Time.ticks bbt)
               / BBT_Time.ticks_per_beat))
           / MeterSection.note_divisor prev_m)).

Fixpoint bbt_at_pulse_loop (ms : Metrics) (pulse : float)
         (prev_m : option MeterSection.t) : option MeterSection.t :=
  match ms with
  | [] => prev_m
  | IsMeter m :: rest =>
      match prev_m with
      | Some p =>
          let pulses_to_m := MeterSection.pulse m - MeterSection.pulse p in
          if pulse <? MeterSection.pulse p + pulses_to_m
          then prev_m (* this is the meter after the one our beat is on *)
          else bbt_at_pulse_loop rest pulse (Some m)
      | None => bbt_at_pulse_loop rest pulse (Some m)
      end
  | IsTempo _ :: rest => bbt_at_pulse_loop rest pulse prev_m
  end.

Definition bbt_at_pulse_locked (metrics : Metrics) (pulse : float)
  : option BBT_Time.t :=
  prev_m <- bbt_at_pulse_loop metrics pulse None ;;
  let beats_in_ms :=
    (pulse - MeterSection.pulse prev_m) * MeterSection.note_divisor prev_m
  in
  Some (bbt_in_meter prev_m beats_in_ms).

(* meter & tempo section based *)
Definition frame_at_bbt_locked (metrics : Metrics) (bbt : BBT_Time.t)
  : option Z :=
  beat <- beat_at_bbt_locked metrics bbt ;;
  frame_at_beat_locked metrics beat.

Definition frame_at_quarter_note (_metrics : Metrics)
           (quarter_note : float) : option Z :=
  frame_at_pulse_locked _metrics (quarter_note / 4).

Fixpoint tempo_section_at_beat_loop (ms : Metrics) (beat : float)
         (prev_m : MeterSection.t) (prev_t : option TempoSection.t)
  : option TempoSection.t :=
  match ms with
  | [] => prev_t
  | IsTempo t :: rest =>
      if is_some prev_t
         && (beat <? ((pulse t - MeterSection.pulse prev_m)
                      * MeterSection.note_divisor prev_m)
                     + MeterSection.beat prev_m)
      then prev_t
      else tempo_section_at_beat_loop rest beat prev_m (Some t)
  | IsMeter _ :: rest => tempo_section_at_beat_loop rest beat prev_m prev_t
  end.

Definition tempo_section_at_beat_locked (metrics : Metrics) (beat : float)
  : option TempoSection.t :=
  prev_m <- meter_section_at_beat_locked metrics beat ;;
  tempo_section_at_beat_loop metrics beat prev_m None.

(** more precise than doing tempo_at_frame (frame_at_beat (b)), as
    there is no intermediate frame rounding. *)
Definition tempo_at_beat (_metrics : Metrics) (beat : float)
  : option Tempo.t :=
  prev_m <- meter_section_at_beat_locked _metrics beat ;;
  prev_t <- tempo_section_at_beat_locked _metrics beat ;;
  let note_type := note_type prev_t in
  Some (Tempo.mk
          (tempo_at_pulse prev_t
             (((beat - MeterSection.beat prev_m)
               / MeterSection.note_divisor prev_m)
              + MeterSection.pulse prev_m)
           * note_type)
          note_type).

(** Subtract some (fractional) beats from a frame position, and return
    the result in frames. *)
Definition framepos_minus_beats (_metrics : Metrics) (pos : Z)
           (beats : float) : option Z :=
  b <- beat_at_frame_locked _metrics pos ;;
  frame_at_beat_locked _metrics (b - beats).

(** Count the number of beats that are equivalent to distance when going
    forward, starting at pos.  The result is the double that is given to
    the constructor of Evoral::Beats. *)
Definition framewalk_to_beats (_metrics : Metrics) (pos distance : Z)
  : option float :=
  b1 <- beat_at_frame_locked _metrics (pos + distance) ;;
  b0 <- beat_at_frame_locked _metrics pos ;;
  Some (b1 - b0).

(** *** Further mutators *)

(** The first active tempo section of the list, as a pointer. *)
Fixpoint first_active_tempo_ptr (h : Heap) (l : list nat) : option nat :=
  match l with
  | [] => None
  | a :: rest =>
      match nth_tempo h a with
      | Some t =>
          if negb (active t) then first_active_tempo_ptr h rest
          else Some a
      | None => first_active_tempo_ptr h rest
      end
  end.

Definition change_initial_tempo (m : Memory)
           (beats_per_minute note_type : float) : option Memory :=
  let newtempo := Tempo.mk beats_per_minute note_type in
  match first_active_tempo_ptr (heap m) (metrics m) with
  | Some t =>
      recompute_map
        (with_heap m (upd_tempo (heap m) t (set_tempo newtempo)))
  | None => Some m
  end.

(** The loop of change_existing_tempo_at: find the TempoSection
    immediately preceding "where".  The result is [prev]. *)
Fixpoint tempo_preceding (h : Heap) (l : list nat) (where_ : Z)
         (prev : option nat) : option nat :=
  match l with
  | [] => prev
  | a :: rest =>
      match nth_error h a with
      | Some s =>
          if (where_ <? Section_.frame s)%Z then prev
          else
            match s with
            | IsTempo t =>
                if negb (active t) then tempo_preceding h rest where_ prev
                else tempo_preceding h rest where_ (Some a)
            | IsMeter _ => tempo_preceding h rest where_ prev
            end
      | None => tempo_preceding h rest where_ prev
      end
  end.

(** [first] is set where [prev] is, so that the map is left alone when
    no active tempo section precedes [where]. *)
Definition change_existing_tempo_at (m : Memory) (where_ : Z)
           (beats_per_minute note_type : float) : option Memory :=
  let newtempo := Tempo.mk beats_per_minute note_type in
  match tempo_preceding (heap m) (metrics m) where_ None with
  | Some prev =>
      (* cannot move the first tempo section *)
      recompute_map
        (with_heap m (upd_tempo (heap m) prev (set_tempo newtempo)))
  | None => Some m
  end.

(** MetricSection::set_frame through a MetricSection*. *)
Definition set_section_frame (frame : Z) (s : MetricSection)
  : MetricSection :=
  match s with
  | IsTempo t => IsTempo (set_frame frame t)
  | IsMeter m => IsMeter (MeterSection.set_frame frame m)
  end.

(** std::list::remove (value): every node that holds [a] goes. *)
Definition list_remove (l : list nat) (a : nat) : list nat :=
  filter (fun b => negb (Nat.eqb b a)) l.

(** What the first loop of remove_time leaves. *)
Record RemoveTime := mkRemoveTime {
  rt_heap : Heap;
  metric_kill_list : list nat;
  last_tempo : option nat;
  last_meter : option nat;
  tempo_after : bool;
  meter_after : bool;
  moved : bool
}.

Fixpoint remove_time_loop (where_ amount : Z) (idx : list nat)
         (st : RemoveTime) : RemoveTime :=
  match idx with
  | [] => st
  | a :: rest =>
      match nth_error (rt_heap st) a with
      | None => remove_time_loop where_ amount rest st
      | Some s =>
          let f := Section_.frame s in
          if (where_ <=? f)%Z && (f <? where_ + amount)%Z then
            remove_time_loop where_ amount rest
              (mkRemoveTime (rt_heap st) (metric_kill_list st ++ [a])
                 (if Section_.is_tempo s then Some a else last_tempo st)
                 (if Section_.is_tempo s then last_meter st else Some a)
                 (tempo_after st) (meter_after st) (moved st))
          else if (where_ <=? f)%Z then
            let h :=
              update_at (rt_heap st) a (set_section_frame (f - amount))
            in
            if (f - amount =? where_)%Z then
              (* marker was immediately after end of range *)
              remove_time_loop where_ amount rest
                (mkRemoveTime h (metric_kill_list st) (last_tempo st)
                   (last_meter st) (Section_.is_tempo s)
                   (negb (Section_.is_tempo s)) true)
            else
              remove_time_loop where_ amount rest
                (mkRemoveTime h (metric_kill_list st) (last_tempo st)
                   (last_meter st) (tempo_after st) (meter_after st) true)
          else remove_time_loop where_ amount rest st
      end
  end.

(** remove_time, up to the call of recompute_map: the value of [moved]
    and the map. *)
Definition remove_time_edit (m : Memory) (where_ amount : Z)
  : bool * Memory :=
  let st :=
    remove_time_loop where_ amount (metrics m)
      (mkRemoveTime (heap m) [] None None false false false) in
  let h := rt_heap st in
  let kill := metric_kill_list st in
  let moved := moved st in
  (* find the last TEMPO and METER metric (if any) and move it to the
     cut point so future stuff is correct *)
  let '(h, kill, moved) :=
    match last_tempo st with
    | Some lt =>
        if negb (tempo_after st)
        then (upd_tempo h lt (set_frame where_), list_remove kill lt, true)
        else (h, kill, moved)
    | None => (h, kill, moved)
    end in
  let '(h, kill, moved) :=
    match last_meter st with
    | Some lm =>
        if negb (meter_after st)
        then (upd_meter h lm (MeterSection.set_frame where_),
              list_remove kill lm, true)
        else (h, kill, moved)
    | None => (h, kill, moved)
    end in
  (* remove all the remaining metrics *)
  let l := fold_left list_remove kill (metrics m) in
  let moved := match kill with [] => moved | _ :: _ => true end in
  (moved, mkMemory h l).

Definition remove_time (m : Memory) (where_ amount : Z)
  : option (bool * Memory) :=
  let '(moved, m) := remove_time_edit m where_ amount in
  if moved then
    m <- recompute_map m ;; Some (moved, m)
  else Some (moved, m).

(** *** insert_time *)

(** The first loop of insert_time: every section at or after [where]
    that can move is moved on by [amount]. *)
Fixpoint insert_time_shift (where_ amount : Z) (idx : list nat)
         (h : Heap) : Heap :=
  match idx with
  | [] => h
  | a :: rest =>
      insert_time_shift where_ amount rest
        (match nth_error h a with
         | Some s =>
             if (where_ <=? Section_.frame s)%Z && Section_.movable s
             then update_at h a
                    (set_section_frame (Section_.frame s + amount))
             else h
         | None => h
         end)
  end.

(** The variables of the second loop of insert_time: the heap, the
    pointers meter, tempo, m and prev, and first.  [it_m] is [None]
    while m is not initialised or null: reading through it has no
    result. *)
Record InsertTime := mkInsertTime {
  it_heap : Heap;
  it_meter : nat;
  it_tempo : nat;
  it_m : option nat;
  it_first : bool;
  it_prev : option nat
}.

(** The body of the loop under "if (prev)": the tempo and the meter
    last seen ([ts] and [ms]) are given the position of [prev].  The
    result is the heap and the pointer m, with [true] when the
    iteration is left by "continue". *)
Definition insert_time_stamp (l : list nat) (h : Heap) (ts ms : nat)
           (m : option nat) (prev : nat)
  : option (bool * Heap * option nat) :=
  p <- nth_error h prev ;;
  match p with
  | IsTempo t =>
      (* if (ts) *)
      if negb (active t) then Some (true, h, m)
      else
        let h := upd_tempo h ts (set_pulse (pulse t)) in
        let h := upd_tempo h ts (set_frame (frame_at h prev)) in
        (* if (ms): m is now null *)
        t <- nth_tempo h prev ;;
        if negb (active t) then Some (true, h, None)
        else
          beat <- beat_at_pulse_locked (view h l) (pulse t) ;;
          bbt <- bbt_at_beat_locked (view h l) beat ;;
          let h := upd_meter h ms (MeterSection.set_beat (beat, bbt)) in
          t <- nth_tempo h prev ;;
          let h := upd_meter h ms (MeterSection.set_pulse (pulse t)) in
          let h :=
            upd_meter h ms (MeterSection.set_frame (frame_at h prev)) in
          Some (false, h, None)
  | IsMeter m =>
      (* if (ts) *)
      let h := upd_tempo h ts (set_pulse (MeterSection.pulse m)) in
      let h := upd_tempo h ts (set_frame (frame_at h prev)) in
      (* if (ms) *)
      m <- nth_meter h prev ;;
      let start := (MeterSection.beat m, MeterSection.bbt m) in
      let h := upd_meter h ms (MeterSection.set_beat start) in
      m <- nth_meter h prev ;;
      let h :=
        upd_meter h ms (MeterSection.set_pulse (MeterSection.pulse m)) in
      let h :=
        upd_meter h ms (MeterSection.set_frame (frame_at h prev)) in
      Some (false, h, Some prev)
  end.

(** The rounding of the bbt of a meter that is not the first. *)
Definition insert_time_round (bbt : BBT_Time.t) : BBT_Time.t :=
  let beats :=
    if BBT_Time.ticks_per_beat / 2 <? Double.of_int (BBT_Time.ticks bbt)
    then
      (* round up to next beat *)
      Double.u32 (BBT_Time.beats bbt + 1)
    else BBT_Time.beats bbt in
  if negb (beats =? 1)%Z
  then
    (* round up to next bar *)
    BBT_Time.mk (Double.u32 (BBT_Time.bars bbt + 1)) 1 0
  else BBT_Time.mk (BBT_Time.bars bbt) beats 0.

(** [l] is the whole list, [idx] what is left of it to visit.  [None]:
    a query aborts, or the frame of m is read while m is not
    initialised or null. *)
Fixpoint insert_time_loop (l idx : list nat) (st : InsertTime)
  : option Heap :=
  match idx with
  | [] => Some (it_heap st)
  | i :: rest =>
      r <- match it_prev st with
           | Some prev =>
               insert_time_stamp l (it_heap st) (it_tempo st)
                                 (it_meter st) (it_m st) prev
           | None =>
               (* metric will be at frames=0 bbt=1|1|0 by default
                  which is correct for our purpose *)
               Some (false, it_heap st, it_m st)
           end ;;
      let '(continue, h, m) := r in
      if continue
      then insert_time_loop l rest
             (mkInsertTime h (it_meter st) (it_tempo st) m (it_first st)
                           (it_prev st))
      else
        s <- nth_error h i ;;
        match s with
        | IsTempo t =>
            if negb (active t)
            then insert_time_loop l rest
                   (mkInsertTime h (it_meter st) (it_tempo st) m
                                 (it_first st) (it_prev st))
            else
              m_ <- m ;;
              mv <- nth_meter h m_ ;;
              pulse <- pulse_at_frame_locked (view h l)
                         (MeterSection.frame mv) ;;
              let h := upd_tempo h i (set_pulse pulse) in
              insert_time_loop l rest
                (mkInsertTime h (it_meter st) i m (it_first st) (Some i))
        | IsMeter mv =>
            bbt <- bbt_at_frame_locked (view h l)
                     (MeterSection.frame mv) ;;
            let bbt := if it_first st then bbt
                       else insert_time_round bbt in
            beat <- beat_at_frame_locked (view h l)
                      (MeterSection.frame mv) ;;
            let start := (Double.max 0 beat, bbt) in
            let h := upd_meter h i (MeterSection.set_beat start) in
            pulse <- pulse_at_frame_locked (view h l)
                       (MeterSection.frame mv) ;;
            let h := upd_meter h i (MeterSection.set_pulse pulse) in
            insert_time_loop l rest
              (mkInsertTime h i (it_tempo st) (Some i) false (Some i))
        end
  end.

Definition insert_time (m : Memory) (where_ amount : Z)
  : option Memory :=
  let h := insert_time_shift where_ amount (metrics m) (heap m) in
  meter <- first_meter h (metrics m) ;;
  tempo <- first_tempo h (metrics m) ;;
  (* now reset the BBT time of all metrics, based on their new
     audio time. *)
  h <- insert_time_loop (metrics m) (metrics m)
         (mkInsertTime h meter tempo None true None) ;;
  recompute_map (mkMemory h (metrics m)).

(** can_solve_bbt: the copy is solved, the map is only read. *)
Definition can_solve_bbt (m : Memory) (ts : nat) (bbt : BBT_Time.t)
  : option bool :=
  let '(copy, tempo_copy) := copy_metrics_and_point m ts in
  match tempo_copy with
  | None => Some false
  | Some tempo_copy =>
      pulse <- pulse_at_bbt_locked (sections copy) bbt ;;
      r <- solve_map_pulse copy tempo_copy pulse ;;
      Some (fst r)
  end.

(** predict_tempo_position: the pulse and the frame where the section
    would lie. *)
Definition predict_tempo_position (m : Memory) (section : nat)
           (bbt : BBT_Time.t) : option (float * Z) :=
  let '(future_map, tempo_copy) := copy_metrics_and_point m section in
  beat <- beat_at_bbt_locked (sections future_map) bbt ;;
  pulse <- pulse_at_beat_locked (sections future_map) beat ;;
  tempo_copy <- tempo_copy ;;
  r <- solve_map_pulse future_map tempo_copy pulse ;;
  if fst r then
    t <- nth_tempo (heap (snd r)) tempo_copy ;;
    Some (TempoSection.pulse t, TempoSection.frame t)
  else
    t <- nth_tempo (heap m) section ;;
    Some (TempoSection.pulse t, TempoSection.frame t).

End Map.
End TempoMap.

(** * Vocabulary of the properties *)

Import TempoMap.

(** A map with an active tempo section. *)
Fixpoint has_active_tempo (ms : Metrics) : bool :=
  match ms with
  | [] => false
  | IsTempo t :: rest => TempoSection.active t || has_active_tempo rest
  | IsMeter _ :: rest => has_active_tempo rest
  end.

(** The first and the last active tempo section of a list. *)
Fixpoint first_active_tempo (ms : Metrics) : option TempoSection.t :=
  match ms with
  | [] => None
  | IsTempo t :: rest =>
      if TempoSection.active t then Some t else first_active_tempo rest
  | IsMeter _ :: rest => first_active_tempo rest
  end.

Fixpoint last_active_tempo_from (ms : Metrics) (acc : option TempoSection.t)
  : option TempoSection.t :=
  match ms with
  | [] => acc
  | IsTempo t :: rest =>
      last_active_tempo_from rest
        (if TempoSection.active t then Some t else acc)
  | IsMeter _ :: rest => last_active_tempo_from rest acc
  end.

Definition last_active_tempo (ms : Metrics) : option TempoSection.t :=
  last_active_tempo_from ms None.

(** The first meter section that cannot move. *)
Fixpoint first_nonmovable_meter (ms : Metrics) : option MeterSection.t :=
  match ms with
  | [] => None
  | IsMeter m :: rest =>
      if negb (MeterSection.movable m) then Some m
      else first_nonmovable_meter rest
  | IsTempo _ :: rest => first_nonmovable_meter rest
  end.

(** The map of FrameposPlusBeatsTest::singleTempoTest: a new map at sample
    rate 48000 whose first meter is replaced by 4/4 at 1|1|0 and whose first
    tempo is replaced by a constant 120 bpm. *)
Definition singleTempoTest_map {L : Libm} : option Memory :=
  m <- replace_meter 48000 TempoMap_new initial_meter (Meter.mk 4 4)
         (BBT_Time.mk 1 1 0) 0 AudioTime ;;
  replace_tempo 48000 m initial_tempo (Tempo.mk 120 4) 0 0
                TempoSection.Constant AudioTime.

(** A map with a second, movable tempo section: 120 bpm constant from frame
    0 and 240 bpm constant from three pulses on (the map of
    doubleTempoTest, as recompute_map leaves it). *)
Definition two_tempo_map : Memory :=
  mkMemory
    [ IsTempo (TempoSection.mk 0 0 AudioTime false 120 4
                 TempoSection.Constant 0 true false);
      IsMeter initial_meter;
      IsTempo (TempoSection.mk 3 288000 MusicTime true 240 4
                 TempoSection.Constant 0 true false) ]
    [0; 1; 2]%nat.

(** The address of the last active tempo section of a list of pointers,
    [prev] when there is none. *)
Fixpoint last_active_addr (h : Heap) (l : list nat) (prev : option nat)
  : option nat :=
  match l with
  | [] => prev
  | a :: rest =>
      match nth_tempo h a with
      | Some t =>
          last_active_addr h rest (if TempoSection.active t then Some a
                                   else prev)
      | None => last_active_addr h rest prev
      end
  end.

(** What recompute_tempi leaves alone in a tempo section: whether it is
    active and whether it can move. *)
Definition same_flags (t t' : TempoSection.t) : Prop :=
  TempoSection.active t' = TempoSection.active t
  /\ TempoSection.movable t' = TempoSection.movable t.

(** Two heaps that hold the same meter sections, and tempo sections related
    by [R], at the same addresses. *)
Definition tempo_rel (R : nat -> TempoSection.t -> TempoSection.t -> Prop)
           (h h' : Heap) : Prop :=
  forall b,
    match nth_error h b, nth_error h' b with
    | Some (IsTempo t), Some (IsTempo t') => R b t t'
    | Some (IsMeter m), Some (IsMeter m') => m = m'
    | None, None => True
    | _, _ => False
    end.

(** recompute_tempi writes the ramp constant of the previous section and the
    pulse or the frame of the section it visits: flags stay, and the pulse
    of a section that is not visited stays. *)
Definition visit_rel (idx : list nat) (b : nat) (t t' : TempoSection.t)
  : Prop :=
  same_flags t t'
  /\ (~ In b idx -> TempoSection.pulse t' = TempoSection.pulse t).

(** *** What check_solved checks *)

Fixpoint active_tempi (ms : Metrics) : list TempoSection.t :=
  match ms with
  | [] => []
  | IsTempo t :: rest =>
      if TempoSection.active t then t :: active_tempi rest
      else active_tempi rest
  | IsMeter _ :: rest => active_tempi rest
  end.

Fixpoint meters (ms : Metrics) : list MeterSection.t :=
  match ms with
  | [] => []
  | IsMeter m :: rest => m :: meters rest
  | IsTempo _ :: rest => meters rest
  end.

(** The pairs of neighbours of a list. *)
Fixpoint adjacent {A} (l : list A) : list (A * A) :=
  match l with
  | x :: (y :: _) as l' => (x, y) :: adjacent l'
  | _ => []
  end.

Definition opt_cons {A} (o : option A) (l : list A) : list A :=
  match o with Some x => x :: l | None => l end.

Section Solved.
Context {L : Libm}.
Variable _frame_rate : Z.

(** The three checks on an active tempo section [t] and the active tempo
    section [p] before it. *)
Definition tempo_pair_ok (pt : TempoSection.t * TempoSection.t) : Prop :=
  let (p, t) := pt in
  (TempoSection.frame p < TempoSection.frame t)%Z
  /\ (TempoSection.pulse t <=? TempoSection.pulse p)%float = false
  /\ (TempoSection.frame t
      = TempoSection.frame_at_tempo p (TempoSection.pulses_per_minute t)
          (TempoSection.pulse t) _frame_rate
      \/ TempoSection.locked_to_meter t = true)
  /\ (1000 <? Double.fabs (TempoSection._c_func p))%float = false.

(** The check on an audio-locked meter that is not the first meter: the
    frame of its pulse on the tempo in effect one frame before it is not
    negative and at most one frame after the meter. *)
Definition meter_ok (ms : Metrics) (m : MeterSection.t) : Prop :=
  MeterSection.position_lock_style m = AudioTime ->
  exists t,
    tempo_section_at_frame_locked ms (MeterSection.frame m - 1) = Some t
    /\ (TempoSection.frame_at_pulse t (MeterSection.pulse m) _frame_rate
        <= MeterSection.frame m + 1)%Z
    /\ (0 <= TempoSection.frame_at_pulse t (MeterSection.pulse m)
               _frame_rate)%Z.

Definition solved (ms : Metrics) : Prop :=
  Forall tempo_pair_ok (adjacent (active_tempi ms))
  /\ Forall (meter_ok ms) (tl (meters ms)).

(** The same, in the words of the specification: adjacent active tempo
    sections strictly increasing in frame and in pulse; the frame of a
    section that is not meter-locked equal to the frame computed via its
    predecessor's ramp; |c| <= 1000 for every ramped section; the frame of
    every audio-locked meter within one sample of the frame computed via
    the prior tempo segment. *)
Definition claimed_pair_ok (pt : TempoSection.t * TempoSection.t) : Prop :=
  let (p, t) := pt in
  (TempoSection.frame p < TempoSection.frame t)%Z
  /\ (TempoSection.pulse p <? TempoSection.pulse t)%float = true
  /\ (TempoSection.locked_to_meter t = false ->
      TempoSection.frame t
      = TempoSection.frame_at_tempo p (TempoSection.pulses_per_minute t)
          (TempoSection.pulse t) _frame_rate).

Definition claimed_ramp_ok (t : TempoSection.t) : Prop :=
  TempoSection.type t = TempoSection.Ramp ->
  (Double.fabs (TempoSection._c_func t) <=? 1000)%float = true.

Definition claimed_meter_ok (ms : Metrics) (m : MeterSection.t) : Prop :=
  MeterSection.position_lock_style m = AudioTime ->
  exists t,
    tempo_section_at_frame_locked ms (MeterSection.frame m - 1) = Some t
    /\ (Z.abs (TempoSection.frame_at_pulse t (MeterSection.pulse m)
                 _frame_rate - MeterSection.frame m) <= 1)%Z.

Definition claimed_solved (ms : Metrics) : Prop :=
  Forall claimed_pair_ok (adjacent (active_tempi ms))
  /\ Forall claimed_ramp_ok (active_tempi ms)
  /\ Forall (claimed_meter_ok ms) (meters ms).

End Solved.

(** A constant 120 bpm map with a second, audio-locked meter whose pulse (1)
    lies, on the tempo before it, a whole second before its frame. *)
Definition late_meter_map : Metrics :=
  [ IsTempo (TempoSection.mk 0 0 AudioTime false 120 4
               TempoSection.Constant 0 true false);
    IsMeter initial_meter;
    IsMeter (MeterSection.mk 1 192000 AudioTime true 4 4 4
               (BBT_Time.mk 2 1 0)) ].

(** *** What the mutators keep *)

(** What no setter changes in a section: its class, whether it can move and,
    for a tempo section, whether it is locked to a meter. *)
Inductive Shape :=
| TempoShape (movable locked_to_meter : bool)
| MeterShape (movable : bool).

Definition shape (s : MetricSection) : Shape :=
  match s with
  | IsTempo t =>
      TempoShape (TempoSection.movable t) (TempoSection.locked_to_meter t)
  | IsMeter m => MeterShape (MeterSection.movable m)
  end.

Definition is_fixed (s : Shape) : bool :=
  match s with
  | TempoShape movable _ => negb movable
  | MeterShape movable => negb movable
  end.

Definition is_fixed_tempo (s : Shape) : bool :=
  match s with
  | TempoShape movable _ => negb movable
  | MeterShape _ => false
  end.

Definition is_fixed_meter (s : Shape) : bool :=
  match s with
  | TempoShape _ _ => false
  | MeterShape movable => negb movable
  end.

Definition is_locked_tempo (s : Shape) : bool :=
  match s with
  | TempoShape _ locked_to_meter => locked_to_meter
  | MeterShape _ => false
  end.

(** The shapes of the sections of a list of pointers, given the shapes of
    the heap. *)
Definition shapes_at (sh : list Shape) (l : list nat) : list Shape :=
  flat_map (fun a => match nth_error sh a with
                     | Some s => [s]
                     | None => []
                     end) l.

(** The shapes of the sections of the list that cannot move. *)
Definition fixed_shapes (m : Memory) : list Shape :=
  filter is_fixed (shapes_at (map shape (heap m)) (metrics m)).

(** The nodes of the list hold distinct pointers, and every pointer leads
    to a section. *)
Definition valid (m : Memory) : Prop :=
  NoDup (metrics m)
  /\ Forall (fun a => (a < length (heap m))%nat) (metrics m).

(** Two memories whose sections have the same shapes at the same addresses
    and whose lists hold the same pointers, in some order. *)
Definition same (m m' : Memory) : Prop :=
  map shape (heap m') = map shape (heap m)
  /\ Permutation (metrics m) (metrics m').


(** A memory that has the sections that cannot move of another, when the
    pointers of that one are valid. *)
Definition keeps (m m' : Memory) : Prop :=
  valid m -> valid m' /\ Permutation (fixed_shapes m) (fixed_shapes m').

(** The list [l'] is the list [l] but for sections that can move, which it
    may lack. *)
Definition drops_movable (sh : list Shape) (l l' : list nat) : Prop :=
  filter is_fixed (shapes_at sh l') = filter is_fixed (shapes_at sh l)
  /\ incl l' l
  /\ (NoDup l -> NoDup l').

(** The tempo and the meter sections of a list that cannot move. *)
Fixpoint fixed_tempi (ms : Metrics) : list TempoSection.t :=
  match ms with
  | [] => []
  | IsTempo t :: rest =>
      if TempoSection.movable t then fixed_tempi rest
      else t :: fixed_tempi rest
  | IsMeter _ :: rest => fixed_tempi rest
  end.

Fixpoint fixed_meters (ms : Metrics) : list MeterSection.t :=
  match ms with
  | [] => []
  | IsMeter m :: rest =>
      if MeterSection.movable m then fixed_meters rest
      else m :: fixed_meters rest
  | IsTempo _ :: rest => fixed_meters rest
  end.

(** A map as the constructor and the mutators leave it: the pointers of the
    list are valid, one tempo section cannot move, and it is not locked to
    a meter, and one meter section cannot move. *)
Definition well_formed (m : Memory) : Prop :=
  valid m
  /\ (exists t, fixed_tempi (sections m) = [t]
                /\ TempoSection.locked_to_meter t = false)
  /\ (exists mt, fixed_meters (sections m) = [mt]).

(** The invariant in the words of the specification: exactly one tempo
    section and exactly one meter section that cannot move, both with
    frame 0 and pulse 0. *)
Definition claimed_invariant (ms : Metrics) : Prop :=
  exists t mt,
    fixed_tempi ms = [t] /\ fixed_meters ms = [mt]
    /\ TempoSection.frame t = 0%Z /\ TempoSection.pulse t = 0%float
    /\ MeterSection.frame mt = 0%Z /\ MeterSection.pulse mt = 0%float.

(** The map with its first meter and first tempo at frame 1000, as
    replace_meter leaves a new map. *)
Definition late_start_map : Memory :=
  mkMemory [ IsTempo (TempoSection.set_frame 1000 initial_tempo);
             IsMeter (MeterSection.set_frame 1000 initial_meter) ]
           [0; 1]%nat.

(** *** remove_time *)

(** A section that lies in the range that remove_time cuts. *)
Definition in_cut (where_ amount : Z) (s : MetricSection) : bool :=
  (where_ <=? Section_.frame s)%Z && (Section_.frame s <? where_ + amount)%Z.

Definition in_cut_at (h : Heap) (where_ amount : Z) (a : nat) : bool :=
  match nth_error h a with
  | Some s => in_cut where_ amount s
  | None => false
  end.

(** What the first loop of remove_time does to a section of the list: a
    section that lies after the range is moved back. *)
Definition cut_section (where_ amount : Z) (s : MetricSection)
  : MetricSection :=
  if in_cut where_ amount s then s
  else if (where_ <=? Section_.frame s)%Z
       then set_section_frame (Section_.frame s - amount) s
       else s.

(** remove_time (where, amount) would cut a section that cannot move: one
    lies in the range. *)
Definition cuts_fixed (m : Memory) (where_ amount : Z) : bool :=
  existsb (fun a => match nth_error (heap m) a with
                    | Some s => in_cut where_ amount s
                                && negb (Section_.movable s)
                    | None => false
                    end) (metrics m).

(** The map that add_tempo leaves when a constant tempo of 120 bpm is added
    at frame 500 with pulse 7, audio-locked, to the map whose first tempo
    replace_tempo has moved to frame 2000: the solver accepts the frame, and
    the tempo section that cannot move, now the second, has the pulse that
    the new section reaches at frame 2000. *)
Definition late_tempo_map : Memory :=
  mkMemory
    [ IsTempo (TempoSection.mk 7.015625 2000 AudioTime false 120 4
                 TempoSection.Constant 0 true false);
      IsMeter initial_meter;
      IsTempo (TempoSection.mk 7 500 AudioTime true 120 4
                 TempoSection.Constant 0 true false) ]
    [1; 2; 0]%nat.

(** The map that add_meter leaves when two 4/4 meters are added,
    audio-locked, to the map whose first meter stands at frame 1000: one at
    frame 400 in bar 1, then one at frame 500 in bar 2 (beat 4).  The
    solver refuses both frames, which lie before the first meter, and the
    sections stay in the list, before the first meter. *)
Definition early_meters_map : option Memory :=
  r <- add_meter (L := SampleLibm.libm) 48000 late_start_map (Meter.mk 4 4) 0
         (BBT_Time.mk 1 1 0) 400 AudioTime ;;
  r <- add_meter (L := SampleLibm.libm) 48000 (snd r) (Meter.mk 4 4) 4
         (BBT_Time.mk 2 1 0) 500 AudioTime ;;
  Some (snd r).

(** A map with a tempo section that is locked to a meter and has no
    meter: 120 bpm from frame 0 and a meter-locked ramp from frame 96000,
    one pulse on. *)
Definition lone_locked_tempo_map : Memory :=
  mkMemory
    [ IsTempo initial_tempo;
      IsMeter initial_meter;
      IsTempo (TempoSection.mk 1 96000 AudioTime true 120 4
                 TempoSection.Ramp 0 true true) ]
    [0; 1; 2]%nat.

Section Mutators.
Context {L : Libm}.
Variable _frame_rate : Z.

(** [mutation m m']: a mutator called on the map [m] returns and leaves
    the map [m'].  The mutators are add, replace and remove of tempo and
    of meter, the four mutators of the GUI, change_initial_tempo,
    change_existing_tempo_at, insert_time and remove_time; of the calls of
    remove_time, those whose range holds no section that cannot move
    (remove_time unlinks the sections of its range whether they can move
    or not). *)
Inductive mutation (m m' : Memory) : Prop :=
| by_add_tempo tempo pulse frame ty pls t :
    add_tempo _frame_rate m tempo pulse frame ty pls = Some (t, m') ->
    mutation m m'
| by_replace_tempo ts tempo pulse frame ty pls :
    replace_tempo _frame_rate m ts tempo pulse frame ty pls = Some m' ->
    mutation m m'
| by_remove_tempo tempo complete_operation :
    remove_tempo _frame_rate m tempo complete_operation = Some m' ->
    mutation m m'
| by_add_meter meter beat where_ frame pls t :
    add_meter _frame_rate m meter beat where_ frame pls = Some (t, m') ->
    mutation m m'
| by_replace_meter ms meter where_ frame pls :
    replace_meter _frame_rate m ms meter where_ frame pls = Some m' ->
    mutation m m'
| by_remove_meter meter complete_operation :
    remove_meter _frame_rate m meter complete_operation = Some m' ->
    mutation m m'
| by_gui_move_tempo ts frame sub_num accepted :
    gui_move_tempo _frame_rate m ts frame sub_num = Some (accepted, m') ->
    mutation m m'
| by_gui_move_meter ms frame accepted :
    gui_move_meter _frame_rate m ms frame = Some (accepted, m') ->
    mutation m m'
| by_gui_change_tempo ts bpm accepted :
    gui_change_tempo _frame_rate m ts bpm = Some (accepted, m') ->
    mutation m m'
| by_gui_dilate_tempo ts frame end_frame pulse accepted :
    gui_dilate_tempo _frame_rate m ts frame end_frame pulse
    = Some (accepted, m') ->
    mutation m m'
| by_change_initial_tempo beats_per_minute note_type :
    change_initial_tempo _frame_rate m beats_per_minute note_type
    = Some m' ->
    mutation m m'
| by_change_existing_tempo_at where_ beats_per_minute note_type :
    change_existing_tempo_at _frame_rate m where_ beats_per_minute
                             note_type
    = Some m' ->
    mutation m m'
| by_insert_time where_ amount :
    insert_time _frame_rate m where_ amount = Some m' ->
    mutation m m'
| by_remove_time where_ amount moved :
    cuts_fixed m where_ amount = false ->
    remove_time _frame_rate m where_ amount = Some (moved, m') ->
    mutation m m'.

(** The maps that the constructor and these calls of the mutators lead
    to. *)
Inductive reachable : Memory -> Prop :=
| reachable_new : reachable TempoMap_new
| reachable_step m m' : reachable m -> mutation m m' -> reachable m'.

End Mutators.


(** The invariant claimed of every map that is reached. *)
Definition claimed_reachable_invariant : Prop :=
  forall (L : Libm) (sr : Z) (m : Memory),
    reachable sr m -> claimed_invariant (sections m).

(** *** The fitted ramp *)

(** A ramped tempo section at frame 0 and pulse 0 with the tempo given, as
    the constructor of the map builds its first tempo section. *)
Definition ramp_at_origin (tempo : Tempo.t) : TempoSection.t :=
  TempoSection.mk 0 0 AudioTime false (Tempo.beats_per_minute tempo)
                  (Tempo.note_type tempo) TempoSection.Ramp 0 true false.

(** The doubles within two units in the last place of
    ln 2 = 0.69314718055994530941...; the middle one is the nearest. *)
Definition near_ln_2 : list float :=
  [ 0x1.62e42fefa39edp-1; 0x1.62e42fefa39eep-1; 0x1.62e42fefa39efp-1;
    0x1.62e42fefa39f0p-1; 0x1.62e42fefa39f1p-1 ]%float.

(** The fitted constant in the words of the specification: it equals
    (T1 - T0) / Dp. *)
Definition claimed_fitted_constant (L : Libm) : Prop :=
  forall (s : TempoSection.t) (end_bpm end_pulse : float) (frame_rate : Z),
    TempoSection.type s = TempoSection.Ramp ->
    TempoSection.compute_c_func_pulse s end_bpm end_pulse frame_rate
    = ((end_bpm - TempoSection.pulses_per_minute s)
       / (end_pulse - TempoSection.pulse s))%float.

(** The example in the words of the specification, for tempi of 60 and 120
    beats per minute as Tempo (60) and Tempo (120) build them, in quarter
    notes: the fitted constant is 60 and the frame at pulse 1.0 is 33271
    to within a frame. *)
Definition claimed_ramp_example (L : Libm) : Prop :=
  let s := ramp_at_origin (Tempo.mk 60 4) in
  let c := TempoSection.compute_c_func_pulse s (120 / 4) 1 48000 in
  c = 60%float
  /\ (33270 <= TempoSection.frame_at_pulse (TempoSection.set_c_func c s) 1
                 48000 <= 33272)%Z.

(** *** recompute_tempi *)

(** The first active tempo section of a list that cannot move. *)
Fixpoint first_fixed_active_tempo (ms : Metrics) : option TempoSection.t :=
  match ms with
  | [] => None
  | IsTempo t :: rest =>
      if TempoSection.active t && negb (TempoSection.movable t) then Some t
      else first_fixed_active_tempo rest
  | IsMeter _ :: rest => first_fixed_active_tempo rest
  end.

(** What recompute_tempi leaves, in the words of the specification: on any
    list with an active tempo section, the first (non-movable) active tempo
    section has pulse 0 and the last active tempo section has c = 0.  "The
    first (non-movable) active tempo section" is taken either way: the
    first active tempo section of the list, or the first one that cannot
    move. *)
Definition claimed_recompute_tempi_ends : Prop :=
  forall (L : Libm) (sr : Z) (m : Memory),
    has_active_tempo (sections m) = true ->
    exists m' tf tl,
      recompute_tempi sr m = Some m'
      /\ (first_active_tempo (sections m') = Some tf
          \/ first_fixed_active_tempo (sections m') = Some tf)
      /\ TempoSection.pulse tf = 0%float
      /\ last_active_tempo (sections m') = Some tl
      /\ TempoSection._c_func tl = 0%float.

(** The map that add_tempo leaves when a constant tempo of 120 bpm is added
    at frame 500 with pulse 7, audio-locked, to the map whose first meter
    and first tempo replace_meter has moved to frame 1000: the solver
    refuses the frame, which lies before the first meter, and the section
    stays in the list. *)
Definition early_tempo_map : Memory :=
  mkMemory
    [ IsTempo (TempoSection.set_frame 1000 initial_tempo);
      IsMeter (MeterSection.set_frame 1000 initial_meter);
      IsTempo (TempoSection.mk 7 500 AudioTime true 120 4
                 TempoSection.Constant 0 true false) ]
    [2; 0; 1]%nat.

(** [two_tempo_map] with the first tempo section linked a second time,
    after the second tempo section: a list that the program does not
    build, whose nodes do not hold distinct pointers. *)
Definition repeated_pointer_map : Memory :=
  mkMemory (heap two_tempo_map) [0; 2; 0; 1]%nat.


(** *** What the passes and the solver keep *)

(** Two heaps that hold, at the same addresses, tempo sections related by
    [RT] and meter sections related by [RM]. *)
Definition heap_rel (RT : TempoSection.t -> TempoSection.t -> Prop)
           (RM : MeterSection.t -> MeterSection.t -> Prop) (h h' : Heap)
  : Prop :=
  forall b,
    match nth_error h b, nth_error h' b with
    | Some (IsTempo t), Some (IsTempo t') => RT t t'
    | Some (IsMeter m), Some (IsMeter m') => RM m m'
    | None, None => True
    | _, _ => False
    end.

Definition section_rel (RT : TempoSection.t -> TempoSection.t -> Prop)
           (RM : MeterSection.t -> MeterSection.t -> Prop)
           (s s' : MetricSection) : Prop :=
  match s, s' with
  | IsTempo t, IsTempo t' => RT t t'
  | IsMeter m, IsMeter m' => RM m m'
  | _, _ => False
  end.

(** What only an edit changes in a tempo section: the tempo, the type of the
    ramp, the lock style and the three flags. *)
Definition same_tempo (t t' : TempoSection.t) : Prop :=
  TempoSection.beats_per_minute t' = TempoSection.beats_per_minute t
  /\ TempoSection.note_type t' = TempoSection.note_type t
  /\ TempoSection.type t' = TempoSection.type t
  /\ TempoSection.position_lock_style t'
     = TempoSection.position_lock_style t
  /\ TempoSection.movable t' = TempoSection.movable t
  /\ TempoSection.active t' = TempoSection.active t
  /\ TempoSection.locked_to_meter t' = TempoSection.locked_to_meter t.

(** A tempo section that stays where it is locked: an audio-locked one at
    its frame, and one that can move at its pulse when it is music-locked or
    locked to a meter. *)
Definition tempo_anchored (t t' : TempoSection.t) : Prop :=
  same_tempo t t'
  /\ (TempoSection.position_lock_style t = AudioTime ->
      TempoSection.frame t' = TempoSection.frame t)
  /\ (TempoSection.movable t = true ->
      TempoSection.position_lock_style t = MusicTime
      \/ TempoSection.locked_to_meter t = true ->
      TempoSection.pulse t' = TempoSection.pulse t).

(** A tempo section of which at most the pulse has changed, and not even
    that when it can move and is not locked to a meter. *)
Definition tempo_but_pulse (t t' : TempoSection.t) : Prop :=
  same_tempo t t'
  /\ TempoSection.frame t' = TempoSection.frame t
  /\ TempoSection._c_func t' = TempoSection._c_func t
  /\ (TempoSection.movable t = true ->
      TempoSection.locked_to_meter t = false ->
      TempoSection.pulse t' = TempoSection.pulse t).

(** A meter section that keeps its meter, its lock style and whether it can
    move, and its frame when it is audio-locked. *)
Definition meter_anchored (m m' : MeterSection.t) : Prop :=
  MeterSection.divisions_per_bar m' = MeterSection.divisions_per_bar m
  /\ MeterSection.note_divisor m' = MeterSection.note_divisor m
  /\ MeterSection.position_lock_style m'
     = MeterSection.position_lock_style m
  /\ MeterSection.movable m' = MeterSection.movable m
  /\ (MeterSection.position_lock_style m = AudioTime ->
      MeterSection.frame m' = MeterSection.frame m).

(** What recompute_map keeps of a tempo section. *)
Definition tempo_audio_anchored (t t' : TempoSection.t) : Prop :=
  same_tempo t t'
  /\ (TempoSection.position_lock_style t = AudioTime ->
      TempoSection.frame t' = TempoSection.frame t).

(** A map with a second tempo section that is audio-locked: 120 bpm from
    frame 0 and 240 bpm from frame 288000, three pulses on. *)
Definition audio_tempo_map : Memory :=
  mkMemory
    [ IsTempo (TempoSection.mk 0 0 AudioTime false 120 4
                 TempoSection.Constant 0 true false);
      IsMeter initial_meter;
      IsTempo (TempoSection.mk 3 288000 AudioTime true 240 4
                 TempoSection.Constant 0 true false) ]
    [0; 1; 2]%nat.

(** *** The edits of the GUI *)

Section Edits.
Context {L : Libm}.
Variable _frame_rate : Z.

(** [gui_edit m m']: a mutator of the GUI called on the map [m] returns,
    the edit accepted or not, and leaves the map [m']. *)
Inductive gui_edit (m m' : Memory) : Prop :=
| edit_move_tempo ts frame sub_num accepted :
    gui_move_tempo _frame_rate m ts frame sub_num = Some (accepted, m') ->
    gui_edit m m'
| edit_move_meter ms frame accepted :
    gui_move_meter _frame_rate m ms frame = Some (accepted, m') ->
    gui_edit m m'
| edit_change_tempo ts bpm accepted :
    gui_change_tempo _frame_rate m ts bpm = Some (accepted, m') ->
    gui_edit m m'
| edit_dilate_tempo ts frame end_frame pulse accepted :
    gui_dilate_tempo _frame_rate m ts frame end_frame pulse
    = Some (accepted, m') ->
    gui_edit m m'.
End Edits.

(** The pointer [a] leads to a tempo section at [frame] that can move: what
    remove_tempo_locked looks for. *)
Definition movable_tempo_at (h : Heap) (frame : Z) (a : nat) : bool :=
  match nth_tempo h a with
  | Some t => (frame =? TempoSection.frame t)%Z && TempoSection.movable t
  | None => false
  end.

Definition is_tempo_shape (s : Shape) : bool :=
  match s with
  | TempoShape _ _ => true
  | MeterShape _ => false
  end.

(** *** The tempo section that cannot move stays active *)

Definition fixed_active (s : MetricSection) : bool :=
  match s with
  | IsTempo t => TempoSection.movable t || TempoSection.active t
  | IsMeter _ => true
  end.

(** Every tempo section of the heap that cannot move is active. *)
Definition fixed_tempi_active (h : Heap) : Prop :=
  forallb fixed_active h = true.

(** *** Maps that answer the queries *)

(** A map with a meter section. *)
Fixpoint has_meter (ms : Metrics) : bool :=
  match ms with
  | [] => false
  | IsMeter _ :: _ => true
  | IsTempo _ :: rest => has_meter rest
  end.

(** * Properties *)

(** The arithmetic of the sections is never unfolded by simplification. *)
#[global] Arguments Double.of_int : simpl never.
#[global] Arguments Double.floor : simpl never.
#[global] Arguments Double.to_int64 : simpl never.
#[global] Arguments Double.to_uint32 : simpl never.
#[global] Arguments TempoSection.frames_per_pulse : simpl never.
#[global] Arguments TempoSection.pulse_at_frame : simpl never.
#[global] Arguments TempoSection.frame_at_pulse : simpl never.
#[global] Arguments TempoSection.pulse_at_tempo : simpl never.
#[global] Arguments TempoSection.frame_at_tempo : simpl never.
#[global] Arguments TempoSection.compute_c_func_pulse : simpl never.
#[global] Arguments TempoSection.compute_c_func_frame : simpl never.
#[global] Arguments recompute_tempi_pair : simpl never.
#[global] Arguments solve_pair : simpl never.

(** ** Queries *)

Section Queries.
Context {L : Libm}.
Variable _frame_rate : Z.

(** C10. For every negative frame, bbt_at_frame returns 1|1|0 whatever the
    metrics list holds (the list is not consulted). *)
Theorem bbt_at_frame_negative (_metrics : Metrics) (frame : Z) :
  (frame < 0)%Z ->
  bbt_at_frame _frame_rate _metrics frame = Some (BBT_Time.mk 1 1 0).
Proof.
  intros Hneg. unfold bbt_at_frame.
  apply Z.ltb_lt in Hneg. now rewrite Hneg.
Qed.

(** The locked variant guards its own entry in the same way. *)
Lemma bbt_at_frame_locked_negative (metrics : Metrics) (frame : Z) :
  (frame < 0)%Z ->
  bbt_at_frame_locked _frame_rate metrics frame = Some (BBT_Time.mk 1 1 0).
Proof.
  intros Hneg. unfold bbt_at_frame_locked.
  apply Z.ltb_lt in Hneg. now rewrite Hneg.
Qed.

(** C9. quarter_note_at_frame is pulse_at_frame multiplied by 4: when
    pulse_at_frame returns p, quarter_note_at_frame returns p * 4.0, and
    when the one dereferences a null pointer so does the other. *)
Theorem quarter_note_is_four_pulses (_metrics : Metrics) (frame : Z) :
  quarter_note_at_frame _frame_rate _metrics frame
  = option_map (fun p => (p * 4)%float)
               (pulse_at_frame _frame_rate _metrics frame).
Proof.
  unfold quarter_note_at_frame, pulse_at_frame.
  now destruct (pulse_at_frame_locked _frame_rate _metrics frame).
Qed.

End Queries.

Lemma bbt_at_frame_negative_witness :
  bbt_at_frame (L := SampleLibm.libm) 48000 (sections two_tempo_map) (-1)
  = Some (BBT_Time.mk 1 1 0).
Proof.
  apply (@bbt_at_frame_negative SampleLibm.libm 48000
           (sections two_tempo_map) (-1)%Z).
  reflexivity.
Defined.

(** A map with an active tempo section answers pulse_at_frame, so that C9
    speaks of numbers on every map the constructor can lead to. *)
Lemma pulse_at_frame_loop_some {L : Libm} (sr : Z) (ms : Metrics) (frame : Z)
      (prev_t : option TempoSection.t) :
  is_some prev_t || has_active_tempo ms = true ->
  exists p, pulse_at_frame_loop sr ms frame prev_t = Some p.
Proof.
  revert prev_t. induction ms as [|s rest IH]; intros prev_t H; simpl in *.
  - destruct prev_t; [eauto | discriminate].
  - destruct s as [t|m]; [|now apply IH].
    destruct (TempoSection.active t) eqn:Ha; simpl in *.
    + destruct prev_t as [p|].
      * destruct (frame <? TempoSection.frame t)%Z; [eauto|].
        apply IH. reflexivity.
      * apply IH. reflexivity.
    + now apply IH.
Qed.

Lemma quarter_note_defined {L : Libm} (sr : Z) (ms : Metrics) (frame : Z) :
  has_active_tempo ms = true ->
  exists p, pulse_at_frame sr ms frame = Some p
            /\ quarter_note_at_frame sr ms frame = Some (p * 4)%float.
Proof.
  intros H.
  destruct (@pulse_at_frame_loop_some L sr ms frame None H) as [p Hp].
  exists p. rewrite quarter_note_is_four_pulses.
  unfold pulse_at_frame, pulse_at_frame_locked. now rewrite Hp.
Qed.

(** ** The unit test singleTempoTest *)

(** C4. On that map, one beat after frame 2 * 24000 is frame 3 * 24000, and
    four beats after frame -24000 is frame 3 * 24000. *)
Theorem singleTempoTest {L : Libm} :
  exists m,
    singleTempoTest_map = Some m
    /\ framepos_plus_beats 48000 (sections m) (2 * 24000) 1
       = Some (3 * 24000)%Z
    /\ framepos_plus_beats 48000 (sections m) (- 24000) 4
       = Some (3 * 24000)%Z.
Proof.
  eexists. split; [vm_compute; reflexivity|].
  split; [vm_compute; reflexivity | vm_compute; reflexivity].
Qed.

(** C2. The round trip through beats loses a frame on the constant branch of
    frame_at_pulse, which takes the floor of a product that the division of
    beat_at_frame has rounded down: on the map of singleTempoTest,
    frame_at_beat (beat_at_frame (27)) is 26. *)
Theorem round_trip_loses_frame_27 {L : Libm} :
  exists m b,
    singleTempoTest_map = Some m
    /\ beat_at_frame 48000 (sections m) 27 = Some b
    /\ frame_at_beat 48000 (sections m) b = Some 26%Z.
Proof.
  do 2 eexists. split; [vm_compute; reflexivity|].
  split; [vm_compute; reflexivity | vm_compute; reflexivity].
Qed.

(** ** Pointers and the heap *)

Lemma nth_error_update_at_eq {A} (l : list A) (i : nat) (f : A -> A) :
  nth_error (update_at l i f) i = option_map f (nth_error l i).
Proof.
  revert i. induction l as [|x l IH]; intros [|i]; simpl; auto.
Qed.

Lemma nth_error_update_at_neq {A} (l : list A) (i j : nat) (f : A -> A) :
  i <> j -> nth_error (update_at l i f) j = nth_error l j.
Proof.
  revert i j. induction l as [|x l IH]; intros [|i] [|j] H; simpl; auto;
    try contradiction.
Qed.

Lemma length_update_at {A} (l : list A) (i : nat) (f : A -> A) :
  length (update_at l i f) = length l.
Proof.
  revert i. induction l as [|x l IH]; intros [|i]; simpl; auto.
Qed.

Lemma nth_tempo_upd_tempo_eq (h : Heap) (a : nat) f :
  nth_tempo (upd_tempo h a f) a = option_map f (nth_tempo h a).
Proof.
  unfold nth_tempo, upd_tempo. rewrite nth_error_update_at_eq.
  destruct (nth_error h a) as [[t|m]|]; reflexivity.
Qed.

Lemma nth_tempo_upd_tempo_neq (h : Heap) (a b : nat) f :
  a <> b -> nth_tempo (upd_tempo h a f) b = nth_tempo h b.
Proof.
  intros H. unfold nth_tempo, upd_tempo.
  now rewrite nth_error_update_at_neq.
Qed.

Lemma nth_meter_upd_tempo (h : Heap) (a b : nat) f :
  nth_meter (upd_tempo h a f) b = nth_meter h b.
Proof.
  unfold nth_meter, upd_tempo.
  destruct (Nat.eq_dec a b) as [->|Hab].
  - rewrite nth_error_update_at_eq.
    destruct (nth_error h b) as [[t|m]|]; reflexivity.
  - now rewrite nth_error_update_at_neq.
Qed.

Lemma nth_tempo_upd_meter (h : Heap) (a b : nat) f :
  nth_tempo (upd_meter h a f) b = nth_tempo h b.
Proof.
  unfold nth_tempo, upd_meter.
  destruct (Nat.eq_dec a b) as [->|Hab].
  - rewrite nth_error_update_at_eq.
    destruct (nth_error h b) as [[t|m]|]; reflexivity.
  - now rewrite nth_error_update_at_neq.
Qed.

Lemma nth_meter_upd_meter_eq (h : Heap) (a : nat) f :
  nth_meter (upd_meter h a f) a = option_map f (nth_meter h a).
Proof.
  unfold nth_meter, upd_meter. rewrite nth_error_update_at_eq.
  destruct (nth_error h a) as [[t|m]|]; reflexivity.
Qed.

Lemma nth_meter_upd_meter_neq (h : Heap) (a b : nat) f :
  a <> b -> nth_meter (upd_meter h a f) b = nth_meter h b.
Proof.
  intros H. unfold nth_meter, upd_meter.
  now rewrite nth_error_update_at_neq.
Qed.

Lemma tempo_rel_nth_tempo R h h' :
  tempo_rel R h h' ->
  forall b,
    match nth_tempo h b, nth_tempo h' b with
    | Some t, Some t' => R b t t'
    | None, None => True
    | _, _ => False
    end.
Proof.
  intros H b. specialize (H b). unfold nth_tempo.
  destruct (nth_error h b) as [[t|m]|], (nth_error h' b) as [[t'|m']|];
    auto.
Qed.

Lemma tempo_rel_refl R h :
  (forall b t, R b t t) -> tempo_rel R h h.
Proof.
  intros HR b. destruct (nth_error h b) as [[t|m]|]; auto.
Qed.

Lemma tempo_rel_trans R h1 h2 h3 :
  (forall b t1 t2 t3, R b t1 t2 -> R b t2 t3 -> R b t1 t3) ->
  tempo_rel R h1 h2 -> tempo_rel R h2 h3 -> tempo_rel R h1 h3.
Proof.
  intros HR H12 H23 b. specialize (H12 b). specialize (H23 b).
  destruct (nth_error h1 b) as [[t1|m1]|], (nth_error h2 b) as [[t2|m2]|],
           (nth_error h3 b) as [[t3|m3]|];
    try contradiction; eauto; congruence.
Qed.

Lemma tempo_rel_upd R h a f :
  (forall b t, R b t t) ->
  (forall t, nth_tempo h a = Some t -> R a t (f t)) ->
  tempo_rel R h (upd_tempo h a f).
Proof.
  intros Hrefl Hf b. unfold upd_tempo.
  destruct (Nat.eq_dec a b) as [->|Hab].
  - rewrite nth_error_update_at_eq. unfold nth_tempo in Hf.
    destruct (nth_error h b) as [[t|m]|] eqn:E; simpl; auto.
  - rewrite nth_error_update_at_neq by assumption.
    destruct (nth_error h b) as [[t|m]|]; auto.
Qed.

Lemma tempo_rel_weaken (R R' : nat -> TempoSection.t -> TempoSection.t -> Prop)
      h h' :
  (forall b t t', R b t t' -> R' b t t') ->
  tempo_rel R h h' -> tempo_rel R' h h'.
Proof.
  intros HRR H b. specialize (H b).
  destruct (nth_error h b) as [[t|m]|], (nth_error h' b) as [[t'|m']|]; auto.
Qed.

(** ** recompute_tempi *)

Section RecomputeTempi.
Context {L : Libm}.
Variable _frame_rate : Z.

Lemma visit_rel_refl idx b t : visit_rel idx b t t.
Proof. repeat split. Qed.

Lemma visit_rel_trans idx b t1 t2 t3 :
  visit_rel idx b t1 t2 -> visit_rel idx b t2 t3 -> visit_rel idx b t1 t3.
Proof.
  intros [[A1 M1] P1] [[A2 M2] P2]. repeat split; try congruence.
  intros Hn. rewrite P2, P1; auto.
Qed.

Lemma recompute_tempi_pair_rel (h : Heap) (p i : nat) :
  tempo_rel (visit_rel [i]) h (recompute_tempi_pair _frame_rate h p i).
Proof.
  unfold recompute_tempi_pair.
  destruct (nth_tempo h p) as [prev_t|] eqn:Ep;
    [|apply tempo_rel_refl; intros; apply visit_rel_refl].
  destruct (nth_tempo h i) as [t|] eqn:Ei;
    [|apply tempo_rel_refl; intros; apply visit_rel_refl].
  assert (Hc : forall c, tempo_rel (visit_rel [i]) h
                           (upd_tempo h p (TempoSection.set_c_func c))).
  { intros c. apply tempo_rel_upd.
    - intros; apply visit_rel_refl.
    - intros t0 _. repeat split. }
  destruct (pls_eqb (TempoSection.position_lock_style t) AudioTime).
  - destruct (negb (TempoSection.locked_to_meter t)); [|apply Hc].
    eapply tempo_rel_trans; [apply visit_rel_trans | apply Hc |].
    apply tempo_rel_upd.
    + intros; apply visit_rel_refl.
    + intros t0 _. repeat split. simpl. intros Hn. exfalso. apply Hn. now left.
  - eapply tempo_rel_trans; [apply visit_rel_trans | apply Hc |].
    apply tempo_rel_upd.
    + intros; apply visit_rel_refl.
    + intros t0 _. repeat split.
Qed.

Lemma visit_rel_mono idx idx' b t t' :
  (forall x, In x idx -> In x idx') ->
  visit_rel idx b t t' -> visit_rel idx' b t t'.
Proof.
  intros Hsub [Hf Hp]. split; auto.
Qed.

Lemma recompute_tempi_loop_rel (idx : list nat) :
  forall (h : Heap) (prev_t : option nat) h' prev',
    recompute_tempi_loop _frame_rate idx h prev_t = (h', prev') ->
    tempo_rel (visit_rel idx) h h'.
Proof.
  induction idx as [|i rest IH]; intros h prev_t h' prev' H; simpl in H.
  - inversion H; subst. apply tempo_rel_refl. intros; apply visit_rel_refl.
  - assert (Hrest : forall h1 p1,
               recompute_tempi_loop _frame_rate rest h1 p1 = (h', prev') ->
               tempo_rel (visit_rel (i :: rest)) h1 h').
    { intros h1 p1 H1. eapply tempo_rel_weaken; [|eapply IH; exact H1].
      intros b t t'. apply visit_rel_mono. intros x Hx. now right. }
    assert (Hstep : forall h1 p1,
               tempo_rel (visit_rel [i]) h h1 ->
               recompute_tempi_loop _frame_rate rest h1 p1 = (h', prev') ->
               tempo_rel (visit_rel (i :: rest)) h h').
    { intros h1 p1 R1 H1.
      eapply tempo_rel_trans; [apply visit_rel_trans | | eapply Hrest; eauto].
      eapply tempo_rel_weaken; [|exact R1].
      intros b t t'. apply visit_rel_mono. intros x [->|[]]. now left. }
    destruct (nth_tempo h i) as [t|] eqn:Ei; [|eauto].
    destruct (negb (TempoSection.active t)); [eauto|].
    destruct prev_t as [p|].
    + eapply Hstep; [apply recompute_tempi_pair_rel | exact H].
    + destruct (negb (TempoSection.movable t)); [|eauto].
      eapply Hstep; [|exact H].
      apply tempo_rel_upd.
      * intros; apply visit_rel_refl.
      * intros t0 _. repeat split. simpl. intros Hn. exfalso. apply Hn.
        now left.
Qed.

Lemma tempo_rel_flags idx h h' :
  tempo_rel (visit_rel idx) h h' -> tempo_rel (fun _ => same_flags) h h'.
Proof.
  apply tempo_rel_weaken. intros b t t' [Hf _]. exact Hf.
Qed.

Lemma last_active_addr_flags (l : list nat) :
  forall h h' prev,
    tempo_rel (fun _ => same_flags) h h' ->
    last_active_addr h' l prev = last_active_addr h l prev.
Proof.
  induction l as [|a rest IH]; intros h h' prev HR; simpl; auto.
  pose proof (tempo_rel_nth_tempo HR a) as Ha.
  destruct (nth_tempo h a) as [t|], (nth_tempo h' a) as [t'|];
    try contradiction; auto.
  destruct Ha as [Hact _]. rewrite Hact. auto.
Qed.

Lemma recompute_tempi_loop_prev (idx : list nat) :
  forall (h : Heap) (prev_t : option nat) h' prev',
    recompute_tempi_loop _frame_rate idx h prev_t = (h', prev') ->
    prev' = last_active_addr h idx prev_t.
Proof.
  induction idx as [|i rest IH]; intros h prev_t h' prev' H; simpl in *.
  - now inversion H.
  - assert (Hstep : forall h1 p1,
               tempo_rel (fun _ => same_flags) h h1 ->
               recompute_tempi_loop _frame_rate rest h1 p1 = (h', prev') ->
               prev' = last_active_addr h rest p1).
    { intros h1 p1 R1 H1. rewrite (IH _ _ _ _ H1).
      now apply last_active_addr_flags. }
    assert (Hid : tempo_rel (fun _ => same_flags) h h).
    { apply tempo_rel_refl. intros; split; reflexivity. }
    destruct (nth_tempo h i) as [t|] eqn:Ei; [|eauto].
    destruct (TempoSection.active t); simpl in H; [|eauto].
    destruct prev_t as [p|].
    + eapply Hstep; [|exact H].
      eapply tempo_rel_flags. apply recompute_tempi_pair_rel.
    + destruct (negb (TempoSection.movable t)); [|eauto].
      eapply Hstep; [|exact H].
      apply tempo_rel_upd; [intros; split; reflexivity|].
      intros t0 _. split; reflexivity.
Qed.

(** Reading the list of sections through the addresses. *)
Lemma last_active_tempo_view (h : Heap) (l : list nat) :
  forall prev,
    last_active_tempo_from (view h l)
      (match prev with Some p => nth_tempo h p | None => None end)
    = match last_active_addr h l prev with
      | Some p => nth_tempo h p
      | None => None
      end.
Proof.
  induction l as [|a rest IH]; intros prev; simpl; auto.
  assert (Ha : nth_tempo h a
               = match nth_error h a with
                 | Some (IsTempo t) => Some t
                 | _ => None
                 end) by reflexivity.
  destruct (nth_error h a) as [[t|m]|] eqn:Ea; rewrite Ha; simpl; auto.
  destruct (TempoSection.active t) eqn:Hact.
  - rewrite <- (IH (Some a)). now rewrite Ha.
  - apply IH.
Qed.

Lemma last_active_addr_some (h : Heap) (l : list nat) :
  forall prev p,
    last_active_addr h l prev = Some p ->
    prev = Some p
    \/ exists t, nth_tempo h p = Some t /\ TempoSection.active t = true.
Proof.
  induction l as [|a rest IH]; intros prev p H; simpl in H; auto.
  destruct (nth_tempo h a) as [t|] eqn:Ea; [|eauto].
  destruct (TempoSection.active t) eqn:Hact; [|eauto].
  destruct (IH _ _ H) as [Heq|Hex]; auto.
  inversion Heq; subst. right. eauto.
Qed.

Lemma first_active_last_active (h : Heap) (l : list nat) t0 :
  forall prev,
    first_active_tempo (view h l) = Some t0 ->
    exists p t, last_active_addr h l prev = Some p
                /\ nth_tempo h p = Some t /\ TempoSection.active t = true.
Proof.
  induction l as [|a rest IH]; intros prev H; simpl in *; [discriminate|].
  assert (Ha : nth_tempo h a
               = match nth_error h a with
                 | Some (IsTempo t) => Some t
                 | _ => None
                 end) by reflexivity.
  destruct (nth_error h a) as [[t|m]|] eqn:Ea; rewrite Ha; simpl in H;
    eauto.
  destruct (TempoSection.active t) eqn:Hact; [|eauto].
  destruct (last_active_addr h rest (Some a)) as [p|] eqn:El.
  - destruct (last_active_addr_some _ _ _ El) as [Heq|[t' [Ht' Ha']]].
    + inversion Heq; subst. exists p, t. repeat split; auto.
    + eauto.
  - exfalso. clear -El. revert El. generalize a.
    induction rest as [|b rest IH2]; intros q El; simpl in El;
      [discriminate|].
    destruct (nth_tempo h b) as [t|]; [|eauto].
    destruct (TempoSection.active t); eauto.
Qed.

(** The first active tempo section, read in two related heaps. *)
Lemma first_active_tempo_rel R h h' (l : list nat) :
  (forall b t t', R b t t' -> same_flags t t') ->
  tempo_rel R h h' ->
  match first_active_tempo (view h l), first_active_tempo (view h' l) with
  | Some t, Some t' => exists b, R b t t'
  | None, None => True
  | _, _ => False
  end.
Proof.
  intros HR Hrel. induction l as [|a rest IH]; simpl; auto.
  specialize (Hrel a).
  destruct (nth_error h a) as [[t|m]|], (nth_error h' a) as [[t'|m']|];
    try contradiction; simpl; auto.
  destruct (HR _ _ _ Hrel) as [Hact _]. rewrite Hact.
  destruct (TempoSection.active t); eauto.
Qed.

(** When the first active tempo section is the one that cannot move, its
    pulse is reset and never written again. *)
Lemma recompute_tempi_loop_first (l : list nat) :
  forall h h' prev' t0,
    NoDup l ->
    first_active_tempo (view h l) = Some t0 ->
    TempoSection.movable t0 = false ->
    recompute_tempi_loop _frame_rate l h None = (h', prev') ->
    exists tf,
      first_active_tempo (view h' l) = Some tf
      /\ TempoSection.movable tf = false
      /\ TempoSection.pulse tf = 0%float.
Proof.
  induction l as [|a rest IH]; intros h h' prev' t0 Hnd Hfirst Hmov Hloop;
    simpl in Hfirst; [discriminate|].
  inversion Hnd as [|? ? Hnotin Hnd']; subst.
  pose proof (recompute_tempi_loop_rel _ _ _ Hloop) as Hrel.
  simpl in Hloop.
  assert (Ha : nth_tempo h a
               = match nth_error h a with
                 | Some (IsTempo t) => Some t
                 | _ => None
                 end) by reflexivity.
  assert (Hskip :
            first_active_tempo (view h rest) = Some t0 ->
            recompute_tempi_loop _frame_rate rest h None = (h', prev') ->
            first_active_tempo (view h' (a :: rest))
            = first_active_tempo (view h' rest) ->
            exists tf,
              first_active_tempo (view h' (a :: rest)) = Some tf
              /\ TempoSection.movable tf = false
              /\ TempoSection.pulse tf = 0%float).
  { intros H1 H2 H3. rewrite H3. eapply IH; eauto. }
  pose proof (Hrel a) as Hra.
  destruct (nth_error h a) as [[t|m]|] eqn:Ea; rewrite Ha in Hloop;
    simpl in Hfirst.
  - destruct (nth_error h' a) as [[t'|m']|] eqn:Ea'; try contradiction.
    destruct Hra as [[Hact Hmv] _].
    destruct (TempoSection.active t) eqn:Hat; simpl in Hloop, Hfirst.
    + assert (t0 = t) by congruence. subst t0.
      rewrite Hmov in Hloop. simpl in Hloop.
      pose proof (recompute_tempi_loop_rel _ _ _ Hloop) as Hrel1.
      specialize (Hrel1 a). unfold upd_tempo in Hrel1.
      rewrite nth_error_update_at_eq, Ea, Ea' in Hrel1. simpl in Hrel1.
      destruct Hrel1 as [[Hact1 Hmv1] Hp1].
      exists t'. simpl. rewrite Ea'. simpl. rewrite Hact.
      repeat split; auto; congruence.
    + apply Hskip; auto. simpl. rewrite Ea'. simpl. now rewrite Hact.
  - destruct (nth_error h' a) as [[t'|m']|] eqn:Ea'; try contradiction.
    apply Hskip; auto. simpl. now rewrite Ea'.
  - destruct (nth_error h' a) as [[t'|m']|] eqn:Ea'; try contradiction.
    apply Hskip; auto. simpl. now rewrite Ea'.
Qed.

(** C5, amended.  recompute_tempi returns on every list that holds an
    active tempo section and leaves the last active tempo section with
    c = 0.  When the first active tempo section of the list is one that
    cannot move (and the nodes of the list hold distinct pointers), it is
    still the first active tempo section afterwards and its pulse is 0. *)
Theorem recompute_tempi_ends (m : Memory) (t0 : TempoSection.t) :
  first_active_tempo (sections m) = Some t0 ->
  exists m' tl,
    recompute_tempi _frame_rate m = Some m'
    /\ last_active_tempo (sections m') = Some tl
    /\ TempoSection._c_func tl = 0%float
    /\ (NoDup (metrics m) -> TempoSection.movable t0 = false ->
        exists tf,
          first_active_tempo (sections m') = Some tf
          /\ TempoSection.movable tf = false
          /\ TempoSection.pulse tf = 0%float).
Proof.
  intros Hfirst. destruct m as [h l]. unfold sections in *. simpl in *.
  unfold recompute_tempi. simpl.
  destruct (recompute_tempi_loop _frame_rate l h None) as [h' prev'] eqn:Hloop.
  pose proof (recompute_tempi_loop_prev _ _ _ Hloop) as Hprev.
  pose proof (recompute_tempi_loop_rel _ _ _ Hloop) as Hrel.
  destruct (first_active_last_active h l None Hfirst)
    as [p [t [Hlast [Hpt Hact]]]].
  rewrite Hlast in Hprev. subst prev'.
  assert (Hfin : tempo_rel
                   (fun _ t t' => same_flags t t'
                                  /\ TempoSection.pulse t' = TempoSection.pulse t)
                   h' (upd_tempo h' p (TempoSection.set_c_func 0))).
  { apply tempo_rel_upd; [intros; repeat split|].
    intros t1 _. repeat split. }
  assert (Hflags : tempo_rel (fun _ => same_flags) h
                     (upd_tempo h' p (TempoSection.set_c_func 0))).
  { eapply tempo_rel_trans with (h2 := h').
    - intros b t1 t2 t3 [A1 M1] [A2 M2]. split; congruence.
    - eapply tempo_rel_flags; eauto.
    - eapply tempo_rel_weaken; [|exact Hfin]. intros b t1 t2 [Hf _]. exact Hf. }
  pose proof (tempo_rel_nth_tempo (tempo_rel_flags Hrel) p) as Hp'.
  rewrite Hpt in Hp'.
  destruct (nth_tempo h' p) as [tp|] eqn:Epp; [|contradiction].
  exists (mkMemory (upd_tempo h' p (TempoSection.set_c_func 0)) l),
         (TempoSection.set_c_func 0 tp).
  split; [reflexivity|]. simpl. split; [|split].
  - unfold last_active_tempo, sections. simpl.
    pose proof (last_active_tempo_view
                  (upd_tempo h' p (TempoSection.set_c_func 0)) l None) as Hv.
    simpl in Hv. rewrite Hv.
    rewrite (last_active_addr_flags l None Hflags), Hlast.
    rewrite nth_tempo_upd_tempo_eq, Epp. reflexivity.
  - reflexivity.
  - intros Hnd Hmov.
    edestruct recompute_tempi_loop_first as [tf [Hf1 [Hf2 Hf3]]]; eauto.
    assert (Hfa := Hfin).
    eapply first_active_tempo_rel with (l := l) in Hfa;
      [|intros b t1 t2 [Hs _]; exact Hs].
    unfold sections. simpl. rewrite Hf1 in Hfa.
    destruct (first_active_tempo
                (view (upd_tempo h' p (TempoSection.set_c_func 0)) l))
      as [tf'|]; [|contradiction].
    destruct Hfa as [b [[_ Hmv] Hpu]].
    exists tf'. repeat split; congruence.
Qed.

End RecomputeTempi.

Lemma recompute_tempi_ends_witness :
  exists m' tl,
    recompute_tempi (L := SampleLibm.libm) 48000 two_tempo_map = Some m'
    /\ last_active_tempo (sections m') = Some tl
    /\ TempoSection._c_func tl = 0%float
    /\ exists tf,
         first_active_tempo (sections m') = Some tf
         /\ TempoSection.movable tf = false
         /\ TempoSection.pulse tf = 0%float.
Proof.
  destruct (@recompute_tempi_ends SampleLibm.libm 48000 two_tempo_map _
                                  eq_refl)
    as (m' & tl & Hr & Hl & Hc & Hf).
  exists m', tl. repeat split; auto.
  apply Hf; [|reflexivity].
  simpl. repeat constructor; simpl; intuition discriminate.
Defined.

(** add_tempo leaves [early_tempo_map]. *)
Lemma early_tempo_map_reached :
  add_tempo (L := SampleLibm.libm) 48000 late_start_map (Tempo.mk 120 4) 7
            500 TempoSection.Constant AudioTime
  = Some (2%nat, early_tempo_map).
Proof. vm_compute. reflexivity. Qed.

(** On that map recompute_tempi does not reset a pulse: the first active
    tempo section of the list can move and keeps pulse 7, and the one that
    cannot move comes second and is given the pulse that the first has
    reached at its frame. *)
Lemma recompute_tempi_early_tempo_map {L : Libm} :
  exists m' t t0,
    recompute_tempi 48000 early_tempo_map = Some m'
    /\ first_active_tempo (sections m') = Some t
    /\ TempoSection.movable t = true
    /\ TempoSection.pulse t = 7%float
    /\ first_fixed_active_tempo (sections m') = Some t0
    /\ TempoSection.pulse t0 = 0x1.c055555555555p+2%float.
Proof.
  do 3 eexists.
  split; [vm_compute; reflexivity|].
  split; [vm_compute; reflexivity|].
  split; [reflexivity|]. split; [reflexivity|].
  split; [vm_compute; reflexivity | reflexivity].
Qed.

(** C5, as claimed, fails on a list whose first active tempo section can
    move: neither the first active tempo section nor the first one that
    cannot move is left with pulse 0. *)
Lemma recompute_tempi_keeps_early_pulse : ~ claimed_recompute_tempi_ends.
Proof.
  intros H.
  destruct (H SampleLibm.libm 48000%Z early_tempo_map eq_refl)
    as (m' & tf & tl & Hr & Hf & Hp & _).
  destruct (recompute_tempi_early_tempo_map (L := SampleLibm.libm))
    as (m1 & t & t0 & Hr1 & Ht & _ & Hpt & Ht0 & Hpt0).
  rewrite Hr1 in Hr. inversion Hr; subst m'; clear Hr.
  destruct Hf as [Hf|Hf].
  - rewrite Ht in Hf. inversion Hf; subst tf.
    rewrite Hpt in Hp. discriminate Hp.
  - rewrite Ht0 in Hf. inversion Hf; subst tf.
    rewrite Hpt0 in Hp. discriminate Hp.
Qed.

(** Distinct pointers are needed for the pulse: were the first tempo section
    linked twice, recompute_tempi would derive its pulse, at the second
    visit, from the section visited in between. *)
Lemma recompute_tempi_repeated_pointer {L : Libm} :
  exists t0 m' tf,
    first_active_tempo (sections repeated_pointer_map) = Some t0
    /\ TempoSection.movable t0 = false
    /\ recompute_tempi 48000 repeated_pointer_map = Some m'
    /\ first_active_tempo (sections m') = Some tf
    /\ TempoSection.pulse tf = (-3)%float.
Proof.
  do 3 eexists.
  split; [reflexivity|]. split; [reflexivity|].
  split; [vm_compute; reflexivity|].
  split; [vm_compute; reflexivity | reflexivity].
Qed.


(** ** The solver refuses a tempo before the first meter *)

Section SolveMapFrame.
Context {L : Libm}.
Variable _frame_rate : Z.

Lemma first_m_frame_first_nonmovable (ms : Metrics) (mt : MeterSection.t) :
  first_nonmovable_meter ms = Some mt ->
  first_m_frame ms = MeterSection.frame mt.
Proof.
  induction ms as [|[t|m] rest IH]; simpl; intros H; try discriminate; auto.
  destruct (negb (MeterSection.movable m)); auto. congruence.
Qed.

(** C6. A movable tempo section T is not moved to a frame at or before the
    frame of the first (non-movable) meter: solve_map_frame returns false
    and the list is as it was. *)
Theorem solve_map_frame_refuses_before_first_meter
        (imaginary : Memory) (section : nat) (T : TempoSection.t)
        (mt : MeterSection.t) (frame : Z) :
  nth_tempo (heap imaginary) section = Some T ->
  TempoSection.movable T = true ->
  first_nonmovable_meter (sections imaginary) = Some mt ->
  (frame <= MeterSection.frame mt)%Z ->
  solve_map_frame _frame_rate imaginary section frame
  = Some (false, imaginary).
Proof.
  intros HT Hmov Hfirst Hle. unfold solve_map_frame.
  rewrite HT, Hmov, (first_m_frame_first_nonmovable _ Hfirst).
  apply Z.leb_le in Hle. now rewrite Hle.
Qed.

End SolveMapFrame.

Lemma solve_map_frame_refuses_before_first_meter_witness :
  solve_map_frame (L := SampleLibm.libm) 48000 two_tempo_map 2 0
  = Some (false, two_tempo_map).
Proof.
  apply (@solve_map_frame_refuses_before_first_meter SampleLibm.libm 48000
           two_tempo_map 2
           (TempoSection.mk 3 288000 MusicTime true 240 4
                            TempoSection.Constant 0 true false)
           initial_meter 0).
  - reflexivity.
  - reflexivity.
  - reflexivity.
  - vm_compute. discriminate.
Defined.

(** ** check_solved *)

Section CheckSolved.
Context {L : Libm}.
Variable _frame_rate : Z.

Lemma Forall_cons_iff' {A} (P : A -> Prop) (x : A) (l : list A) :
  Forall P (x :: l) <-> P x /\ Forall P l.
Proof.
  split; [intros H; inversion H; auto | intros [H1 H2]; constructor; auto].
Qed.

(** The checks of the loop, one boolean after the other. *)
Lemma tempo_pair_ok_bool (p t : TempoSection.t) :
  tempo_pair_ok _frame_rate (p, t)
  <-> ((TempoSection.frame t <=? TempoSection.frame p)%Z
       || (TempoSection.pulse t <=? TempoSection.pulse p)%float) = false
      /\ (negb (TempoSection.frame t
                =? TempoSection.frame_at_tempo p
                     (TempoSection.pulses_per_minute t)
                     (TempoSection.pulse t) _frame_rate)%Z
          && negb (TempoSection.locked_to_meter t)) = false
      /\ (1000 <? Double.fabs (TempoSection._c_func p))%float = false.
Proof.
  unfold tempo_pair_ok.
  rewrite orb_false_iff, andb_false_iff, !negb_false_iff, Z.leb_gt, Z.eqb_eq.
  tauto.
Qed.

Lemma check_solved_loop_iff (metrics : Metrics) (rest : Metrics) :
  forall prev_t prev_m,
    check_solved_loop _frame_rate metrics rest prev_t prev_m = Some true
    <-> Forall (tempo_pair_ok _frame_rate)
               (adjacent (opt_cons prev_t (active_tempi rest)))
        /\ Forall (meter_ok _frame_rate metrics)
                  (if is_some prev_m then meters rest
                   else tl (meters rest)).
Proof.
  induction rest as [|s rest IH]; intros prev_t prev_m.
  - simpl. split; [intros _|reflexivity].
    split; [destruct prev_t|destruct prev_m]; constructor.
  - destruct s as [t|m].
    + (* a tempo section *)
      cbn [check_solved_loop active_tempi meters].
      destruct (TempoSection.active t) eqn:Hact; cbn [negb]; [|apply IH].
      destruct prev_t as [p|]; [|apply IH].
      cbn [opt_cons adjacent].
      specialize (IH (Some t) prev_m). cbn [opt_cons] in IH.
      rewrite Forall_cons_iff', tempo_pair_ok_bool.
      destruct ((TempoSection.frame t <=? TempoSection.frame p)%Z
                || (TempoSection.pulse t <=? TempoSection.pulse p)%float);
        [split; [discriminate | intros [[[? _] _] _]; discriminate]|].
      destruct (negb (TempoSection.frame t
                      =? TempoSection.frame_at_tempo p
                           (TempoSection.pulses_per_minute t)
                           (TempoSection.pulse t) _frame_rate)%Z
                && negb (TempoSection.locked_to_meter t));
        [split; [discriminate | intros [[[_ [? _]] _] _]; discriminate]|].
      destruct ((1000 <? Double.fabs (TempoSection._c_func p))%float);
        [split; [discriminate | intros [[[_ [_ ?]] _] _]; discriminate]|].
      rewrite IH. tauto.
    + (* a meter section *)
      cbn [check_solved_loop active_tempi meters].
      specialize (IH prev_t (Some m)). cbn [is_some] in IH.
      destruct prev_m as [pm|]; cbn [is_some andb tl]; [|exact IH].
      rewrite Forall_cons_iff'. unfold meter_ok at 1.
      destruct (MeterSection.position_lock_style m) eqn:Hpls; cbn [pls_eqb].
      * destruct (tempo_section_at_frame_locked metrics
                    (MeterSection.frame m - 1)) as [t|] eqn:Ht.
        -- destruct ((MeterSection.frame m + 1
                      <? TempoSection.frame_at_pulse t (MeterSection.pulse m)
                           _frame_rate)%Z) eqn:H1; cbn [orb].
           { split; [discriminate|].
             intros [_ [Hok _]]. destruct (Hok eq_refl) as [t' [Ht' [Hle _]]].
             assert (t' = t) by congruence. subst t'.
             apply Z.ltb_lt in H1. lia. }
           destruct ((TempoSection.frame_at_pulse t (MeterSection.pulse m)
                        _frame_rate <? 0)%Z) eqn:H2.
           { split; [discriminate|].
             intros [_ [Hok _]]. destruct (Hok eq_refl) as [t' [Ht' [_ Hge]]].
             assert (t' = t) by congruence. subst t'.
             apply Z.ltb_lt in H2. lia. }
           rewrite IH. apply Z.ltb_ge in H1, H2.
           split; [|tauto]. intros [Ha Hm]. repeat split; auto.
           intros _. exists t. auto.
        -- split; [discriminate|].
           intros [_ [Hok _]]. destruct (Hok eq_refl) as [t' [Ht' _]].
           discriminate.
      * rewrite IH. split; [|tauto]. intros [Ha Hm]. repeat split; auto.
        intros Habs. discriminate.
Qed.

(** C3 (amended). check_solved returns true exactly when every active
    tempo section lies strictly after the active tempo section before it
    in frame and is not at or before it in pulse, has the frame computed
    via its predecessor (frame_at_tempo) unless it is locked to a meter,
    the predecessor's |c| is not above 1000, and every audio-locked meter
    but the first has the frame of its pulse, on the tempo in effect one
    frame before it, at least 0 and at most one frame after its own. *)
Theorem check_solved_iff (metrics : Metrics) :
  check_solved _frame_rate metrics = Some true
  <-> solved _frame_rate metrics.
Proof.
  unfold check_solved, solved.
  rewrite check_solved_loop_iff. reflexivity.
Qed.

End CheckSolved.

(** C3, as claimed, fails: check_solved accepts a map whose second meter is
    audio-locked a whole second after the frame computed for its pulse. *)
Lemma check_solved_not_as_claimed :
  ~ (forall (L : Libm) (sr : Z) (ms : Metrics),
        check_solved sr ms = Some true <-> claimed_solved sr ms).
Proof.
  intros H.
  destruct (H SampleLibm.libm 48000%Z late_meter_map) as [H1 _].
  assert (Hc : check_solved (L := SampleLibm.libm) 48000 late_meter_map
               = Some true) by (vm_compute; reflexivity).
  destruct (H1 Hc) as [_ [_ Hm]].
  unfold late_meter_map in Hm. cbn [meters] in Hm.
  inversion Hm as [|? ? _ Hm2]; subst.
  inversion Hm2 as [|? ? Hok _]; subst.
  destruct (Hok eq_refl) as [t [Ht Habs]].
  vm_compute in Ht. inversion Ht; subst t.
  vm_compute in Habs. apply Habs. reflexivity.
Qed.
(** ** The fitted ramp constant *)

(** compute_c_func_pulse evaluates T0 * expm1 (log (T1 / T0)) / Dp, each
    operation rounded. *)
Lemma compute_c_func_pulse_double {L : Libm} (s : TempoSection.t)
      (end_bpm end_pulse : float) (frame_rate : Z) :
  TempoSection.compute_c_func_pulse s end_bpm end_pulse frame_rate
  = (TempoSection.pulses_per_minute s
     * expm1 (log (end_bpm / TempoSection.pulses_per_minute s))
     / (end_pulse - TempoSection.pulse s))%float.
Proof. reflexivity. Qed.

(** The frame of pulse 1 on a ramp from the origin whose constant is its
    own rate: log1p (1) / c minutes. *)
Lemma frame_at_pulse_1 {L : Libm} (bpm note_type c : float) :
  (c =? 0)%float = false ->
  (c * (1 - 0) / (bpm / note_type))%float = 1%float ->
  TempoSection.frame_at_pulse
    (TempoSection.set_c_func c (ramp_at_origin (Tempo.mk bpm note_type))) 1
    48000
  = (TempoSection.minute_to_frame (log1p 1 / c) 48000 + 0)%Z.
Proof.
  intros Hc H1.
  cbv [TempoSection.frame_at_pulse TempoSection.linear ramp_at_origin
       TempoSection.set_c_func TempoSection.type TempoSection._c_func
       TempoSection.is_Constant TempoSection.pulse TempoSection.frame
       TempoSection.beats_per_minute TempoSection.note_type
       TempoSection.time_at_pulse TempoSection.pulses_per_minute
       TempoSection.position_lock_style TempoSection.movable
       TempoSection.active TempoSection.locked_to_meter
       Tempo.beats_per_minute Tempo.note_type].
  rewrite Hc. cbv [orb]. now rewrite H1.
Qed.

(** C8, amended.  compute_c_func_pulse returns the double that the
    expression T0 * expm1 (log (T1 / T0)) / Dp evaluates to, T0 being the
    pulses per minute of the section and Dp the end pulse less its pulse.
    With a C library for which expm1 (log (2)) is 1 and log1p (1) is
    within two units in the last place of ln 2, a ramp from frame 0 and
    pulse 0 at 60 pulses per minute (60 bpm in whole notes) that reaches
    120 at pulse 1 has the constant 60 and pulse 1 at frame 33271 at 48 kHz;
    for 60 and 120 bpm in quarter notes, the rates being 15 and 30, the
    constant is 15 and the frame 133084. *)
Theorem compute_c_func_pulse_fits {L : Libm} (s : TempoSection.t)
        (end_bpm end_pulse : float) (frame_rate : Z) :
  TempoSection.compute_c_func_pulse s end_bpm end_pulse frame_rate
  = (TempoSection.pulses_per_minute s
     * expm1 (log (end_bpm / TempoSection.pulses_per_minute s))
     / (end_pulse - TempoSection.pulse s))%float
  /\ (expm1 (log 2) = 1%float -> In (log1p 1) near_ln_2 ->
      (let s := ramp_at_origin (Tempo.mk 60 1) in
       let c := TempoSection.compute_c_func_pulse s 120 1 48000 in
       c = 60%float
       /\ TempoSection.frame_at_pulse (TempoSection.set_c_func c s) 1 48000
          = 33271%Z)
      /\ (let s := ramp_at_origin (Tempo.mk 60 4) in
          let c := TempoSection.compute_c_func_pulse s (120 / 4) 1 48000 in
          c = 15%float
          /\ TempoSection.frame_at_pulse (TempoSection.set_c_func c s) 1
                                         48000
             = 133084%Z)).
Proof.
  split; [reflexivity|]. intros Hexpm1 Hlog1p.
  assert (C1 : TempoSection.compute_c_func_pulse
                 (ramp_at_origin (Tempo.mk 60 1)) 120 1 48000 = 60%float).
  { rewrite compute_c_func_pulse_double.
    cbv [ramp_at_origin TempoSection.pulses_per_minute
         TempoSection.beats_per_minute TempoSection.note_type
         TempoSection.pulse Tempo.beats_per_minute Tempo.note_type].
    replace (120 / (60 / 1))%float with 2%float by (vm_compute; reflexivity).
    rewrite Hexpm1. vm_compute. reflexivity. }
  assert (C4 : TempoSection.compute_c_func_pulse
                 (ramp_at_origin (Tempo.mk 60 4)) (120 / 4) 1 48000
               = 15%float).
  { rewrite compute_c_func_pulse_double.
    cbv [ramp_at_origin TempoSection.pulses_per_minute
         TempoSection.beats_per_minute TempoSection.note_type
         TempoSection.pulse Tempo.beats_per_minute Tempo.note_type].
    replace (120 / 4 / (60 / 4))%float with 2%float
      by (vm_compute; reflexivity).
    rewrite Hexpm1. vm_compute. reflexivity. }
  cbv zeta. rewrite C1, C4.
  rewrite !frame_at_pulse_1 by (vm_compute; reflexivity).
  unfold near_ln_2 in Hlog1p. simpl in Hlog1p.
  repeat (destruct Hlog1p as [<-|Hlog1p]);
    [ repeat split; vm_compute; reflexivity .. | contradiction ].
Qed.

(** The C library of the examples is accurate enough for the two ramps. *)
Lemma compute_c_func_pulse_fits_witness :
  (let s := ramp_at_origin (Tempo.mk 60 1) in
   let c :=
     TempoSection.compute_c_func_pulse (L := SampleLibm.libm) s 120 1 48000
   in
   c = 60%float
   /\ TempoSection.frame_at_pulse (L := SampleLibm.libm)
        (TempoSection.set_c_func c s) 1 48000
      = 33271%Z)
  /\ (let s := ramp_at_origin (Tempo.mk 60 4) in
      let c :=
        TempoSection.compute_c_func_pulse (L := SampleLibm.libm) s (120 / 4)
                                          1 48000 in
      c = 15%float
      /\ TempoSection.frame_at_pulse (L := SampleLibm.libm)
           (TempoSection.set_c_func c s) 1 48000
         = 133084%Z).
Proof.
  apply (proj2 (@compute_c_func_pulse_fits SampleLibm.libm
                  (ramp_at_origin (Tempo.mk 60 1)) 120 1 48000)).
  - vm_compute. reflexivity.
  - vm_compute. do 4 right. left. reflexivity.
Defined.

(** At the rates 15 and 15.25 the C library of the examples gives a
    constant one unit in the last place below (15.25 - 15) / 1. *)
Lemma fitted_constant_15_to_15_25 :
  TempoSection.compute_c_func_pulse (L := SampleLibm.libm)
    (ramp_at_origin (Tempo.mk 60 4)) 15.25 1 48000
  = 0x1.fffffffffffep-3%float.
Proof. vm_compute. reflexivity. Qed.

(** Whatever the C library, the fitted constant is not always
    (T1 - T0) / Dp: the end rates 15.25 and the double below it have the
    same quotient by 15, hence the same constant, and two differences. *)
Lemma fitted_constant_not_linear (L : Libm) : ~ claimed_fitted_constant L.
Proof.
  intros H.
  pose proof (H (ramp_at_origin (Tempo.mk 60 4)) 15.25%float 1%float 48000%Z
                eq_refl) as H1.
  pose proof (H (ramp_at_origin (Tempo.mk 60 4)) 0x1.e7fffffffffffp+3%float
                1%float 48000%Z eq_refl) as H2.
  rewrite compute_c_func_pulse_double in H1, H2.
  cbv [ramp_at_origin TempoSection.pulses_per_minute
       TempoSection.beats_per_minute TempoSection.note_type
       TempoSection.pulse Tempo.beats_per_minute Tempo.note_type] in H1, H2.
  replace (0x1.e7fffffffffffp+3 / (60 / 4))%float
    with (15.25 / (60 / 4))%float in H2 by (vm_compute; reflexivity).
  rewrite H1 in H2. vm_compute in H2. discriminate H2.
Qed.

(** C8, as claimed, fails.  No C library makes the fitted constant equal
    to (T1 - T0) / Dp at every rate, and for 60 bpm and 120 bpm as
    Tempo (60) and Tempo (120) build them, in quarter notes, a C library
    with expm1 (log (2)) = 1 gives the constant 15, not 60. *)
Lemma fitted_constant_not_as_claimed :
  ~ (exists L : Libm, claimed_fitted_constant L)
  /\ ~ (exists L : Libm, expm1 (log 2) = 1%float /\ claimed_ramp_example L).
Proof.
  split.
  - intros [L H]. exact (fitted_constant_not_linear H).
  - intros [L [Hexpm1 [Hc _]]].
    rewrite compute_c_func_pulse_double in Hc.
    cbv [ramp_at_origin TempoSection.pulses_per_minute
         TempoSection.beats_per_minute TempoSection.note_type
         TempoSection.pulse Tempo.beats_per_minute Tempo.note_type] in Hc.
    replace (120 / 4 / (60 / 4))%float with 2%float in Hc
      by (vm_compute; reflexivity).
    rewrite Hexpm1 in Hc. vm_compute in Hc. discriminate Hc.
Qed.

(** ** Shapes *)

Lemma shape_update_at (h : Heap) (a : nat)
      (f : MetricSection -> MetricSection) :
  (forall s, shape (f s) = shape s) ->
  map shape (update_at h a f) = map shape h.
Proof.
  intros Hf. revert a.
  induction h as [|x h IH]; intros [|a]; simpl; auto; now f_equal.
Qed.

Lemma shape_upd_tempo (h : Heap) (a : nat) f :
  (forall t, shape (IsTempo (f t)) = shape (IsTempo t)) ->
  map shape (upd_tempo h a f) = map shape h.
Proof.
  intros Hf. apply shape_update_at. intros [t|m]; simpl; auto.
  apply (Hf t).
Qed.

Lemma shape_upd_meter (h : Heap) (a : nat) f :
  (forall m, shape (IsMeter (f m)) = shape (IsMeter m)) ->
  map shape (upd_meter h a f) = map shape h.
Proof.
  intros Hf. apply shape_update_at. intros [t|m]; simpl; auto.
  apply (Hf m).
Qed.

Create Rewrite HintDb shape.

Ltac setter_keeps_shape :=
  let s := fresh "s" in intros s; destruct s; reflexivity.

#[local] Hint Rewrite shape_upd_tempo using setter_keeps_shape : shape.
#[local] Hint Rewrite shape_upd_meter using setter_keeps_shape : shape.

Ltac break_match_hyp H :=
  match type of H with
  | context [match ?x with _ => _ end] => destruct x eqn:?
  end.

Section ShapeOfHeap.
Context {L : Libm}.
Variable _frame_rate : Z.

Lemma shape_recompute_tempi_pair (h : Heap) (p i : nat) :
  map shape (recompute_tempi_pair _frame_rate h p i) = map shape h.
Proof.
  unfold recompute_tempi_pair.
  destruct (nth_tempo h p), (nth_tempo h i); auto.
  destruct (pls_eqb _ _); [destruct (negb _)|];
    now autorewrite with shape.
Qed.

Lemma shape_recompute_tempi_loop (idx : list nat) : forall h prev_t,
  map shape (fst (recompute_tempi_loop _frame_rate idx h prev_t))
  = map shape h.
Proof.
  induction idx as [|i rest IH]; intros h prev_t; simpl; auto.
  destruct (nth_tempo h i) as [t|]; auto.
  destruct (negb (TempoSection.active t)); auto.
  destruct prev_t as [p|].
  - rewrite IH. apply shape_recompute_tempi_pair.
  - destruct (negb (TempoSection.movable t)); rewrite IH; auto.
    now autorewrite with shape.
Qed.

Lemma shape_recompute_meters_loop (l idx : list nat) : forall h prev_m h',
  recompute_meters_loop _frame_rate l idx h prev_m = Some h' ->
  map shape h' = map shape h.
Proof.
  induction idx as [|mi rest IH]; intros h prev_m h' H;
    cbn [recompute_meters_loop] in H.
  - now inversion H.
  - repeat break_match_hyp H; try discriminate H;
      apply IH in H; rewrite H; now autorewrite with shape.
Qed.

Lemma shape_set_active_tempos_loop (idx : list nat) (frame : Z) : forall h,
  map shape (snd (set_active_tempos_loop idx h frame)) = map shape h.
Proof.
  induction idx as [|i rest IH]; intros h; simpl; auto.
  destruct (nth_tempo h i) as [t|]; auto.
  repeat match goal with
         | |- context [if ?b then _ else _] => destruct b
         end;
    rewrite ?IH; simpl; now autorewrite with shape.
Qed.

Lemma shape_solve_pair (h : Heap) (p i : nat) :
  map shape (solve_pair _frame_rate h p i) = map shape h.
Proof.
  unfold solve_pair.
  destruct (nth_tempo h p), (nth_tempo h i); auto.
  destruct (pls_eqb _ _); [|destruct (negb _)];
    now autorewrite with shape.
Qed.

Lemma shape_solve_map_frame_loop (section : nat) (idx : list nat) :
  forall h prev_t section_prev,
    map shape (fst (solve_map_frame_loop _frame_rate section idx h prev_t
                                         section_prev))
    = map shape h.
Proof.
  induction idx as [|i rest IH]; intros h prev_t section_prev; simpl; auto.
  destruct (nth_tempo h i) as [t|]; auto.
  destruct (negb (TempoSection.active t)); auto.
  destruct prev_t as [p|]; auto.
  destruct (Nat.eqb i section); auto.
  rewrite IH. apply shape_solve_pair.
Qed.

Lemma shape_solve_map_pulse_loop (section : nat) (idx : list nat) :
  forall h prev_t section_prev,
    map shape (fst (solve_map_pulse_loop _frame_rate section idx h prev_t
                                         section_prev))
    = map shape h.
Proof.
  induction idx as [|i rest IH]; intros h prev_t section_prev; simpl; auto.
  destruct (nth_tempo h i) as [t|]; auto.
  destruct (negb (TempoSection.active t)); auto.
  destruct (negb (TempoSection.movable t)).
  - rewrite IH. now autorewrite with shape.
  - destruct prev_t as [p|]; auto.
    destruct (Nat.eqb i section); auto.
    rewrite IH. apply shape_solve_pair.
Qed.

Lemma shape_place_at_bbt (l : list nat) (h : Heap) (section : nat) prev
      when h' :
  place_at_bbt _frame_rate l h section prev when = Some h' ->
  map shape h' = map shape h.
Proof.
  unfold place_at_bbt. intros H.
  destruct (frame_at_pulse_locked _ _ _); [|discriminate].
  inversion H; subst. now autorewrite with shape.
Qed.

Lemma shape_solve_map_bbt_loop (l : list nat) (section : nat) when
      (idx : list nat) : forall h prev_m section_prev r,
  solve_map_bbt_loop _frame_rate l section when idx h prev_m section_prev
  = Some r ->
  map shape (snd (fst (fst r))) = map shape h.
Proof.
  induction idx as [|i rest IH]; intros h prev_m section_prev r H;
    cbn [solve_map_bbt_loop] in H.
  - inversion H; subst; reflexivity.
  - repeat break_match_hyp H; try discriminate H;
      repeat match goal with
             | E : place_at_bbt _ _ _ _ _ _ = Some _ |- _ =>
                 apply shape_place_at_bbt in E
             end;
      first [ apply IH in H; rewrite H; autorewrite with shape; congruence
            | inversion H; subst; reflexivity ].
Qed.
End ShapeOfHeap.

(** ** Memories with the same shapes *)

Lemma same_refl (m : Memory) : same m m.
Proof. split; reflexivity. Qed.

Lemma same_trans (m1 m2 m3 : Memory) : same m1 m2 -> same m2 m3 -> same m1 m3.
Proof.
  intros [H1 P1] [H2 P2]. split; [congruence | now rewrite P1].
Qed.

Lemma sort_insert_perm {A} (lt : A -> A -> bool) (x : A) (l : list A) :
  Permutation (sort_insert lt x l) (x :: l).
Proof.
  induction l as [|y l IH]; simpl; auto.
  destruct (lt x y); auto.
  rewrite IH. apply perm_swap.
Qed.

Lemma list_sort_perm {A} (lt : A -> A -> bool) (l : list A) :
  Permutation (list_sort lt l) l.
Proof.
  unfold list_sort.
  assert (H : forall acc,
             Permutation (fold_left (fun acc x => sort_insert lt x acc) l acc)
                         (l ++ acc)).
  { induction l as [|x l IH]; intros acc; simpl; auto.
    rewrite IH, sort_insert_perm. symmetry. apply Permutation_middle. }
  rewrite H. now rewrite app_nil_r.
Qed.

Ltac perm_chain :=
  repeat match goal with
         | |- Permutation ?a ?a => reflexivity
         | H : Permutation ?a ?b |- Permutation ?a ?c =>
             apply (Permutation_trans H); clear H
         end.

Ltac break_matches :=
  repeat match goal with
         | H : context [match ?x with _ => _ end] |- _ => destruct x eqn:?
         | |- context [match ?x with _ => _ end] => destruct x eqn:?
         end.

Ltac same_solve :=
  repeat match goal with H : same _ _ |- _ => destruct H end;
  cbn [heap metrics with_heap sort_by_frame sort_by_pulse fst snd] in *;
  break_matches;
  (split;
   [ cbn [heap metrics with_heap sort_by_frame sort_by_pulse fst snd] in *;
     autorewrite with shape in *; congruence
   | cbn [heap metrics with_heap sort_by_frame sort_by_pulse fst snd] in *;
     rewrite ?list_sort_perm in *; perm_chain ]).


(** ** The sections that cannot move *)

Lemma shapes_view (h : Heap) (l : list nat) :
  map shape (view h l) = shapes_at (map shape h) l.
Proof.
  induction l as [|a l IH]; simpl; auto.
  rewrite nth_error_map.
  destruct (nth_error h a); simpl; now rewrite IH.
Qed.

Lemma filter_perm {A} (f : A -> bool) (l l' : list A) :
  Permutation l l' -> Permutation (filter f l) (filter f l').
Proof.
  induction 1 as [|x l l' _ IH|x y l|l1 l2 l3 _ IH1 _ IH2]; simpl; auto.
  - destruct (f x); auto.
  - destruct (f x), (f y); auto. apply perm_swap.
  - now rewrite IH1.
Qed.

Lemma filter_sub {A} (f g : A -> bool) (l : list A) :
  (forall x, f x = true -> g x = true) ->
  filter f (filter g l) = filter f l.
Proof.
  intros Hfg. induction l as [|x l IH]; simpl; auto.
  destruct (g x) eqn:Eg; simpl; rewrite IH; auto.
  destruct (f x) eqn:Ef; auto. apply Hfg in Ef. congruence.
Qed.

Lemma fixed_tempi_shapes (ms : Metrics) :
  map (fun t => shape (IsTempo t)) (fixed_tempi ms)
  = filter is_fixed_tempo (map shape ms).
Proof.
  induction ms as [|[t|m] ms IH]; simpl; auto.
  destruct (TempoSection.movable t) eqn:E; simpl; rewrite ?E; now f_equal.
Qed.

Lemma fixed_meters_shapes (ms : Metrics) :
  map (fun m => shape (IsMeter m)) (fixed_meters ms)
  = filter is_fixed_meter (map shape ms).
Proof.
  induction ms as [|[t|m] ms IH]; simpl; auto.
  destruct (MeterSection.movable m) eqn:E; simpl; rewrite ?E; now f_equal.
Qed.

Lemma one_fixed_tempo_iff (ms : Metrics) :
  (exists t, fixed_tempi ms = [t] /\ TempoSection.locked_to_meter t = false)
  <-> filter is_fixed_tempo (map shape ms) = [TempoShape false false].
Proof.
  rewrite <- fixed_tempi_shapes. split.
  - intros (t & Ht & Hl). rewrite Ht. simpl. rewrite Hl.
    assert (Hm : is_fixed_tempo (shape (IsTempo t)) = true).
    { assert (Hin : In (shape (IsTempo t))
                       (filter is_fixed_tempo (map shape ms))).
      { rewrite <- fixed_tempi_shapes, Ht. now left. }
      apply filter_In in Hin. tauto. }
    simpl in Hm. destruct (TempoSection.movable t); [discriminate|reflexivity].
  - intros H. destruct (fixed_tempi ms) as [|t [|t' l]]; try discriminate.
    exists t. split; auto. simpl in H. now inversion H.
Qed.

Lemma one_fixed_meter_iff (ms : Metrics) :
  (exists mt, fixed_meters ms = [mt])
  <-> filter is_fixed_meter (map shape ms) = [MeterShape false].
Proof.
  rewrite <- fixed_meters_shapes. split.
  - intros (mt & Ht). rewrite Ht. simpl.
    assert (Hm : is_fixed_meter (shape (IsMeter mt)) = true).
    { assert (Hin : In (shape (IsMeter mt))
                       (filter is_fixed_meter (map shape ms))).
      { rewrite <- fixed_meters_shapes, Ht. now left. }
      apply filter_In in Hin. tauto. }
    simpl in Hm. destruct (MeterSection.movable mt); [discriminate|reflexivity].
  - intros H. destruct (fixed_meters ms) as [|mt [|mt' l]]; try discriminate.
    exists mt. reflexivity.
Qed.

Lemma well_formed_iff (m : Memory) :
  well_formed m
  <-> valid m
      /\ filter is_fixed_tempo (fixed_shapes m) = [TempoShape false false]
      /\ filter is_fixed_meter (fixed_shapes m) = [MeterShape false].
Proof.
  unfold well_formed, fixed_shapes, sections.
  rewrite one_fixed_tempo_iff, one_fixed_meter_iff, shapes_view.
  rewrite (filter_sub is_fixed_tempo is_fixed)
    by (intros [mv lk|mv]; simpl; congruence).
  rewrite (filter_sub is_fixed_meter is_fixed)
    by (intros [mv lk|mv]; simpl; congruence).
  reflexivity.
Qed.

Lemma perm_singleton {A} (l l' : list A) (x : A) :
  Permutation l l' -> l = [x] -> l' = [x].
Proof.
  intros P ->. now apply Permutation_length_1_inv.
Qed.

Lemma keeps_refl (m : Memory) : keeps m m.
Proof. intros V. split; auto. Qed.

Lemma keeps_trans (m1 m2 m3 : Memory) :
  keeps m1 m2 -> keeps m2 m3 -> keeps m1 m3.
Proof.
  intros K1 K2 V. destruct (K1 V) as [V2 P1]. destruct (K2 V2) as [V3 P2].
  split; auto. now rewrite P1.
Qed.

Lemma same_keeps (m m' : Memory) : same m m' -> keeps m m'.
Proof.
  intros [Hs Hp] [ND V]. split.
  - unfold valid in *.
    assert (Hl : length (heap m') = length (heap m)).
    { rewrite <- (length_map shape (heap m')), Hs. apply length_map. }
    split; [eapply Permutation_NoDup; eauto|].
    rewrite Hl. now rewrite <- Hp.
  - unfold fixed_shapes. rewrite Hs. apply filter_perm.
    unfold shapes_at. now apply Permutation_flat_map.
Qed.

Lemma keeps_well_formed (m m' : Memory) :
  well_formed m -> keeps m m' -> well_formed m'.
Proof.
  rewrite !well_formed_iff. intros (V & Ht & Hm) K.
  destruct (K V) as [V' P]. split; [exact V'|split].
  - eapply perm_singleton; [apply filter_perm; exact P | exact Ht].
  - eapply perm_singleton; [apply filter_perm; exact P | exact Hm].
Qed.

(** ** Sections that come and go *)

Lemma nth_tempo_shape (h : Heap) (a : nat) (t : TempoSection.t) :
  nth_tempo h a = Some t ->
  nth_error (map shape h) a
  = Some (TempoShape (TempoSection.movable t) (TempoSection.locked_to_meter t)).
Proof.
  unfold nth_tempo. rewrite nth_error_map.
  destruct (nth_error h a) as [[t'|m]|]; try discriminate.
  now intros [= ->].
Qed.

Lemma nth_meter_shape (h : Heap) (a : nat) (mt : MeterSection.t) :
  nth_meter h a = Some mt ->
  nth_error (map shape h) a = Some (MeterShape (MeterSection.movable mt)).
Proof.
  unfold nth_meter. rewrite nth_error_map.
  destruct (nth_error h a) as [[t'|m]|]; try discriminate.
  now intros [= ->].
Qed.

Lemma drops_movable_refl sh l : drops_movable sh l l.
Proof. split; [reflexivity | split; [apply incl_refl | auto]]. Qed.

Lemma drops_movable_cons sh a l l' :
  drops_movable sh l l' -> drops_movable sh (a :: l) (a :: l').
Proof.
  intros (Hf & Hi & Hn). split; [|split].
  - simpl. rewrite !filter_app. now rewrite Hf.
  - intros x [->|Hx]; [now left | right; auto].
  - intros ND. inversion ND; subst. constructor; auto.
Qed.

Lemma drops_movable_head sh a l s :
  nth_error sh a = Some s -> is_fixed s = false ->
  drops_movable sh (a :: l) l.
Proof.
  intros Ha Hs. split; [|split].
  - simpl. rewrite Ha. simpl. now rewrite Hs.
  - apply incl_tl, incl_refl.
  - intros ND. now inversion ND.
Qed.

Lemma remove_tempo_loop_drops (h : Heap) (frame : Z) (l : list nat) :
  forall l', remove_tempo_loop h l frame = Some l' ->
             drops_movable (map shape h) l l'.
Proof.
  induction l as [|a l IH]; intros l' H; simpl in H; [discriminate|].
  destruct (nth_tempo h a) as [t|] eqn:Ea.
  - destruct ((frame =? TempoSection.frame t)%Z && TempoSection.movable t)
      eqn:Ec.
    + inversion H; subst. apply andb_prop in Ec as [_ Hm].
      eapply drops_movable_head; [eapply nth_tempo_shape; eauto|].
      simpl. now rewrite Hm.
    + destruct (remove_tempo_loop h l frame); [|discriminate].
      inversion H; subst. apply drops_movable_cons; auto.
  - destruct (remove_tempo_loop h l frame); [|discriminate].
    inversion H; subst. apply drops_movable_cons; auto.
Qed.

Lemma remove_meter_loop_drops (h : Heap) (frame : Z) (l : list nat) :
  forall l', remove_meter_loop h l frame = Some l' ->
             drops_movable (map shape h) l l'.
Proof.
  induction l as [|a l IH]; intros l' H; simpl in H; [discriminate|].
  destruct (nth_meter h a) as [t|] eqn:Ea.
  - destruct ((frame =? MeterSection.frame t)%Z && MeterSection.movable t)
      eqn:Ec.
    + inversion H; subst. apply andb_prop in Ec as [_ Hm].
      eapply drops_movable_head; [eapply nth_meter_shape; eauto|].
      simpl. now rewrite Hm.
    + destruct (remove_meter_loop h l frame); [|discriminate].
      inversion H; subst. apply drops_movable_cons; auto.
  - destruct (remove_meter_loop h l frame); [|discriminate].
    inversion H; subst. apply drops_movable_cons; auto.
Qed.

Lemma remove_locked_tempo_loop_drops (h : Heap) (frame : Z) (l : list nat) :
  (forall s, In s (shapes_at (map shape h) l) ->
             is_fixed s = true -> is_locked_tempo s = false) ->
  drops_movable (map shape h) l (remove_locked_tempo_loop h l frame).
Proof.
  induction l as [|a l IH]; intros Hno; simpl; [apply drops_movable_refl|].
  assert (Hl : forall s, In s (shapes_at (map shape h) l) ->
                         is_fixed s = true -> is_locked_tempo s = false).
  { intros s Hs. apply Hno. simpl. apply in_or_app. now right. }
  destruct (nth_tempo h a) as [t|] eqn:Ea.
  - destruct (TempoSection.locked_to_meter t
              && (frame =? TempoSection.frame t)%Z) eqn:Ec.
    + apply andb_prop in Ec as [Hlk _].
      pose proof (nth_tempo_shape _ _ Ea) as Hs.
      eapply drops_movable_head; [exact Hs|].
      destruct (is_fixed _) eqn:Ef; auto.
      apply Hno in Ef.
      * simpl in Ef. congruence.
      * simpl. rewrite Hs. now left.
    + apply drops_movable_cons; auto.
  - apply drops_movable_cons; auto.
Qed.

Lemma drops_movable_keeps (m : Memory) (l' : list nat) :
  drops_movable (map shape (heap m)) (metrics m) l' ->
  keeps m (mkMemory (heap m) l').
Proof.
  intros (Hf & Hi & Hn) [ND V]. split.
  - unfold valid in *. simpl. split; [auto|].
    rewrite Forall_forall in *. auto.
  - unfold fixed_shapes. simpl. now rewrite Hf.
Qed.

Lemma drops_movable_trans sh l1 l2 l3 :
  drops_movable sh l1 l2 -> drops_movable sh l2 l3 -> drops_movable sh l1 l3.
Proof.
  intros (F1 & I1 & N1) (F2 & I2 & N2). split; [congruence|].
  split; [eapply incl_tran; eauto | auto].
Qed.

Lemma keeps_remove_tempo_locked (m : Memory) (tempo : TempoSection.t) :
  keeps m (snd (remove_tempo_locked m tempo)).
Proof.
  unfold remove_tempo_locked.
  destruct (remove_tempo_loop _ _ _) as [l|] eqn:E; simpl.
  - apply drops_movable_keeps. eapply remove_tempo_loop_drops; eauto.
  - apply keeps_refl.
Qed.

Lemma fixed_not_locked (m : Memory) :
  well_formed m ->
  forall s, In s (shapes_at (map shape (heap m)) (metrics m)) ->
            is_fixed s = true -> is_locked_tempo s = false.
Proof.
  rewrite well_formed_iff. intros (_ & Ht & _) s Hin Hf.
  destruct s as [mv lk|mv]; simpl; auto.
  assert (H : In (TempoShape mv lk) (filter is_fixed_tempo (fixed_shapes m))).
  { apply filter_In. split; [|exact Hf].
    unfold fixed_shapes. apply filter_In. now split. }
  rewrite Ht in H. destruct H as [H|[]]. now inversion H.
Qed.

Lemma keeps_remove_meter_locked (m : Memory) (meter : MeterSection.t) :
  well_formed m -> keeps m (snd (remove_meter_locked m meter)).
Proof.
  intros W. unfold remove_meter_locked.
  set (l := if pls_eqb _ _ then _ else _).
  assert (Hl : drops_movable (map shape (heap m)) (metrics m) l).
  { unfold l. destruct (pls_eqb _ _); [|apply drops_movable_refl].
    apply remove_locked_tempo_loop_drops, fixed_not_locked, W. }
  destruct (remove_meter_loop _ _ _) as [l'|] eqn:E; simpl.
  - apply drops_movable_keeps. eapply drops_movable_trans; [exact Hl|].
    eapply remove_meter_loop_drops; eauto.
  - now apply drops_movable_keeps.
Qed.

Lemma do_insert_tempo_match_drops (insert_tempo : TempoSection.t) (h : Heap)
      (l : list nat) :
  forall h' l' need_add,
    do_insert_tempo_match insert_tempo h l = (h', l', need_add) ->
    map shape h' = map shape h /\ drops_movable (map shape h) l l'.
Proof.
  induction l as [|a l IH]; intros h' l' need_add H; simpl in H.
  - inversion H; subst. split; [reflexivity | apply drops_movable_refl].
  - destruct (nth_tempo h a) as [tempo|] eqn:Ea.
    + destruct (_ || _).
      * destruct (negb (TempoSection.movable tempo)) eqn:Em;
          inversion H; subst.
        -- split; [now autorewrite with shape | apply drops_movable_refl].
        -- split; [reflexivity|].
           eapply drops_movable_head; [eapply nth_tempo_shape; eauto|].
           exact Em.
      * destruct (do_insert_tempo_match insert_tempo h l) as [[h1 l1] n1].
        inversion H; subst. destruct (IH _ _ _ eq_refl) as [Hs Hd].
        split; [exact Hs | now apply drops_movable_cons].
    + destruct (do_insert_tempo_match insert_tempo h l) as [[h1 l1] n1].
      inversion H; subst. destruct (IH _ _ _ eq_refl) as [Hs Hd].
      split; [exact Hs | now apply drops_movable_cons].
Qed.

Lemma do_insert_meter_match_drops (insert_meter : MeterSection.t) (h : Heap)
      (l : list nat) :
  forall h' l' need_add,
    do_insert_meter_match insert_meter h l = (h', l', need_add) ->
    map shape h' = map shape h /\ drops_movable (map shape h) l l'.
Proof.
  induction l as [|a l IH]; intros h' l' need_add H; simpl in H.
  - inversion H; subst. split; [reflexivity | apply drops_movable_refl].
  - destruct (nth_meter h a) as [meter|] eqn:Ea.
    + destruct (_ || _).
      * destruct (negb (MeterSection.movable meter)) eqn:Em;
          inversion H; subst.
        -- split; [now autorewrite with shape | apply drops_movable_refl].
        -- split; [reflexivity|].
           eapply drops_movable_head; [eapply nth_meter_shape; eauto|].
           exact Em.
      * destruct (do_insert_meter_match insert_meter h l) as [[h1 l1] n1].
        inversion H; subst. destruct (IH _ _ _ eq_refl) as [Hs Hd].
        split; [exact Hs | now apply drops_movable_cons].
    + destruct (do_insert_meter_match insert_meter h l) as [[h1 l1] n1].
      inversion H; subst. destruct (IH _ _ _ eq_refl) as [Hs Hd].
      split; [exact Hs | now apply drops_movable_cons].
Qed.

Lemma insert_tempo_ptr_perm (insert_tempo : TempoSection.t) (section : nat)
      (h : Heap) (l : list nat) :
  Permutation (section :: l) (insert_tempo_ptr insert_tempo section h l).
Proof.
  induction l as [|a l IH]; simpl; auto.
  destruct (nth_tempo h a) as [tempo|].
  - destruct (_ || _); auto.
    rewrite perm_swap. now apply perm_skip.
  - rewrite perm_swap. now apply perm_skip.
Qed.

Lemma insert_meter_ptr_perm (insert_meter : MeterSection.t) (section : nat)
      (h : Heap) (l : list nat) :
  Permutation (section :: l) (insert_meter_ptr insert_meter section h l).
Proof.
  induction l as [|a l IH]; simpl; auto.
  destruct (nth_meter h a) as [meter|].
  - destruct (_ || _); auto.
    rewrite perm_swap. now apply perm_skip.
  - rewrite perm_swap. now apply perm_skip.
Qed.

(** Linking a section that can move into the list. *)
Lemma keeps_link (h h' : Heap) (l l' l'' : list nat) (section : nat) s :
  map shape h' = map shape h ->
  drops_movable (map shape h) l l' ->
  Permutation (section :: l') l'' ->
  nth_error h section = Some s -> is_fixed (shape s) = false ->
  ~ In section l ->
  keeps (mkMemory h l) (mkMemory h' l'').
Proof.
  intros Hs (Hf & Hi & Hn) P Hsec Hmv Hfresh [ND V].
  unfold valid in *. simpl in *.
  assert (Hlen : length h' = length h).
  { rewrite <- (length_map shape h'), Hs. apply length_map. }
  split; [split|].
  - eapply Permutation_NoDup; [exact P|]. constructor; auto.
  - rewrite Hlen, <- P. constructor.
    + apply nth_error_Some. congruence.
    + rewrite Forall_forall in *. auto.
  - unfold fixed_shapes. simpl. rewrite Hs, <- Hf.
    transitivity (filter is_fixed (shapes_at (map shape h) (section :: l'))).
    + simpl. rewrite nth_error_map, Hsec. simpl. now rewrite Hmv.
    + apply filter_perm. unfold shapes_at. now apply Permutation_flat_map.
Qed.

Lemma keeps_do_insert (m m' : Memory) (section : nat) (s : MetricSection) :
  do_insert m section = Some m' ->
  nth_error (heap m) section = Some s -> is_fixed (shape s) = false ->
  ~ In section (metrics m) ->
  keeps m m'.
Proof.
  unfold do_insert. intros H Hsec Hmv Hfresh. rewrite Hsec in H.
  destruct m as [h l]. simpl in *.
  destruct s as [insert_tempo|insert_meter].
  - destruct (do_insert_tempo_match insert_tempo h l) as [[h1 l1] need_add]
      eqn:E.
    apply do_insert_tempo_match_drops in E as [Hs Hd].
    inversion H; subst; clear H.
    destruct need_add.
    + eapply keeps_link; eauto. apply insert_tempo_ptr_perm.
    + eapply keeps_trans;
        [apply (@drops_movable_keeps (mkMemory h l) l1); exact Hd|].
      apply same_keeps. split; simpl; auto.
  - break_match_hyp H; [|discriminate].
    destruct (do_insert_meter_match insert_meter h l) as [[h1 l1] need_add]
      eqn:E.
    apply do_insert_meter_match_drops in E as [Hs Hd].
    inversion H; subst; clear H.
    destruct need_add.
    + eapply keeps_link; eauto. apply insert_meter_ptr_perm.
    + eapply keeps_trans;
        [apply (@drops_movable_keeps (mkMemory h l) l1); exact Hd|].
      apply same_keeps. split; simpl; auto.
Qed.

(** The pointer that new returns is not in the list. *)
Lemma fresh_pointer (m : Memory) :
  valid m -> ~ In (length (heap m)) (metrics m).
Proof.
  intros [_ V] Hin. rewrite Forall_forall in V. apply V in Hin. lia.
Qed.

(** new: the sections of the list are where they were. *)
Lemma keeps_alloc (m : Memory) (s : MetricSection) :
  keeps m (with_heap m (heap m ++ [s])).
Proof.
  destruct m as [h l]. intros [ND V]. unfold valid, with_heap in *.
  simpl in *. split.
  - split; [exact ND|].
    rewrite length_app. simpl. eapply Forall_impl; [|exact V].
    simpl. intros a Ha. lia.
  - unfold fixed_shapes. simpl. rewrite map_app.
    replace (shapes_at (map shape h ++ map shape [s]) l)
      with (shapes_at (map shape h) l); [reflexivity|].
    clear ND. induction V as [|a l Ha V IH]; simpl; auto.
    rewrite nth_error_app1 by (now rewrite length_map). now rewrite IH.
Qed.
Section ShapeOfMemory.
Context {L : Libm}.
Variable _frame_rate : Z.

Ltac loop_facts :=
  repeat match goal with
    | E : recompute_tempi_loop _ ?idx ?h ?p = (_, _) |- _ =>
        let X := fresh "S" in
        pose proof (shape_recompute_tempi_loop _frame_rate idx h p) as X;
        rewrite E in X; cbn [fst] in X; clear E
    | E : solve_map_frame_loop _ ?s ?idx ?h ?p ?sp = (_, _) |- _ =>
        let X := fresh "S" in
        pose proof (shape_solve_map_frame_loop _frame_rate s idx h p sp)
          as X;
        rewrite E in X; cbn [fst] in X; clear E
    | E : solve_map_pulse_loop _ ?s ?idx ?h ?p ?sp = (_, _) |- _ =>
        let X := fresh "S" in
        pose proof (shape_solve_map_pulse_loop _frame_rate s idx h p sp)
          as X;
        rewrite E in X; cbn [fst] in X; clear E
    | E : set_active_tempos_loop ?idx ?h ?f = (_, _) |- _ =>
        let X := fresh "S" in
        pose proof (shape_set_active_tempos_loop idx f h) as X;
        rewrite E in X; cbn [snd] in X; clear E
    | E : recompute_meters_loop _ _ _ _ _ = Some _ |- _ =>
        apply shape_recompute_meters_loop in E
    | E : place_at_bbt _ _ _ _ _ _ = Some _ |- _ =>
        apply shape_place_at_bbt in E
    | E : solve_map_bbt_loop _ _ _ _ _ _ _ _ = Some _ |- _ =>
        apply shape_solve_map_bbt_loop in E; cbn [fst snd] in E
    end.

Lemma same_recompute_tempi (m m' : Memory) :
  recompute_tempi _frame_rate m = Some m' -> same m m'.
Proof.
  unfold recompute_tempi. intros H.
  repeat break_match_hyp H; try discriminate H.
  inversion H; subst; clear H. loop_facts. same_solve.
Qed.

Lemma same_recompute_meters (m m' : Memory) :
  recompute_meters _frame_rate m = Some m' -> same m m'.
Proof.
  unfold recompute_meters. intros H.
  repeat break_match_hyp H; try discriminate H.
  inversion H; subst; clear H. loop_facts. same_solve.
Qed.

Lemma same_recompute_map (m m' : Memory) :
  recompute_map _frame_rate m = Some m' -> same m m'.
Proof.
  unfold recompute_map. intros H.
  destruct (recompute_tempi _ m) as [m1|] eqn:E; [|discriminate].
  apply same_recompute_tempi in E. apply same_recompute_meters in H.
  eapply same_trans; eauto.
Qed.

Lemma same_set_active_tempos (m : Memory) (frame : Z) :
  same m (snd (set_active_tempos m frame)).
Proof.
  unfold set_active_tempos.
  destruct (set_active_tempos_loop _ _ _) eqn:E.
  loop_facts. same_solve.
Qed.

Ltac mem_facts :=
  repeat match goal with
    | E : recompute_tempi _ _ = Some _ |- _ =>
        apply same_recompute_tempi in E
    | E : recompute_meters _ _ = Some _ |- _ =>
        apply same_recompute_meters in E
    | E : recompute_map _ _ = Some _ |- _ =>
        apply same_recompute_map in E
    | E : set_active_tempos ?m ?f = (_, _) |- _ =>
        let X := fresh "S" in
        pose proof (same_set_active_tempos m f) as X;
        rewrite E in X; cbn [snd] in X; clear E
    end.

Lemma same_solve_map_frame (m : Memory) (section : nat) (frame : Z) r :
  solve_map_frame _frame_rate m section frame = Some r -> same m (snd r).
Proof.
  unfold solve_map_frame. intros H.
  repeat break_match_hyp H; try discriminate H;
    inversion H; subst; clear H; loop_facts; mem_facts; same_solve.
Qed.

Lemma same_solve_map_pulse (m : Memory) (section : nat) (pulse : float) r :
  solve_map_pulse _frame_rate m section pulse = Some r -> same m (snd r).
Proof.
  unfold solve_map_pulse. intros H.
  repeat break_match_hyp H; try discriminate H;
    inversion H; subst; clear H; loop_facts; mem_facts; same_solve.
Qed.

Ltac solver_facts :=
  repeat match goal with
    | E : solve_map_frame _ _ _ _ = Some _ |- _ =>
        apply same_solve_map_frame in E; cbn [snd] in E
    | E : solve_map_pulse _ _ _ _ = Some _ |- _ =>
        apply same_solve_map_pulse in E; cbn [snd] in E
    | E : (_, _) = (_, _) |- _ => inversion E; subst; clear E
    | E : Some _ = Some _ |- _ => inversion E; subst; clear E
    end.

Ltac same_auto :=
  repeat (progress (break_matches; loop_facts; mem_facts; solver_facts));
  try discriminate;
  same_solve.

Lemma same_solve_map_frame_meter (m : Memory) (section : nat) (frame : Z) r :
  solve_map_frame_meter _frame_rate m section frame = Some r ->
  same m (snd r).
Proof.
  unfold solve_map_frame_meter, copy_metrics_and_point. intros H.
  repeat break_match_hyp H; try discriminate H;
    inversion H; subst; clear H; same_auto.
Qed.

Lemma same_solve_map_bbt (m : Memory) (section : nat) when r :
  solve_map_bbt _frame_rate m section when = Some r -> same m (snd r).
Proof.
  unfold solve_map_bbt. intros H.
  repeat break_match_hyp H; try discriminate H;
    inversion H; subst; clear H; same_auto.
Qed.

Ltac meter_solver_facts :=
  repeat match goal with
    | E : solve_map_frame_meter _ _ _ _ = Some _ |- _ =>
        apply same_solve_map_frame_meter in E; cbn [snd] in E
    | E : solve_map_bbt _ _ _ _ = Some _ |- _ =>
        apply same_solve_map_bbt in E; cbn [snd] in E
    end.

Ltac same_mutator :=
  repeat (progress (break_matches; loop_facts; mem_facts; solver_facts;
                    meter_solver_facts));
  try discriminate;
  same_solve.

(** *** The mutators *)

Lemma keeps_add_tempo_locked_solved (m : Memory) tempo pulse frame ty pls
      recompute locked_to_meter r :
  add_tempo_locked_solved _frame_rate m tempo pulse frame ty pls recompute
                          locked_to_meter = Some r ->
  keeps m (snd (snd r)).
Proof.
  unfold add_tempo_locked_solved, alloc. intros H.
  destruct (do_insert _ _) as [m0|] eqn:E; [|discriminate].
  assert (K : keeps m m0).
  { intros V. assert (F : ~ In (length (heap m)) (metrics m)) by
      (apply fresh_pointer, V).
    revert V. eapply keeps_trans; [apply keeps_alloc|].
    eapply keeps_do_insert; [exact E | | | exact F].
    - unfold with_heap. simpl.
      rewrite nth_error_app2, Nat.sub_diag by auto. reflexivity.
    - reflexivity. }
  eapply keeps_trans; [exact K|]. apply same_keeps.
  repeat break_match_hyp H; try discriminate H;
    inversion H; subst; clear H; same_auto.
Qed.

Lemma keeps_add_tempo_locked (m : Memory) tempo pulse frame ty pls
      recompute locked_to_meter r :
  add_tempo_locked _frame_rate m tempo pulse frame ty pls recompute
                   locked_to_meter = Some r ->
  keeps m (snd r).
Proof.
  unfold add_tempo_locked. intros H.
  destruct (add_tempo_locked_solved _ _ _ _ _ _ _ _ _) as [r'|] eqn:E;
    [|discriminate].
  inversion H; subst. eapply keeps_add_tempo_locked_solved; eauto.
Qed.

Lemma keeps_add_meter_locked (m : Memory) meter beat where_ frame pls
      recompute r :
  add_meter_locked _frame_rate m meter beat where_ frame pls recompute
  = Some r ->
  keeps m (snd r).
Proof.
  unfold add_meter_locked, alloc. intros H.
  destruct (meter_section_at_frame_locked _ _) as [prev_m|];
    [|discriminate].
  match type of H with
  | context [match ?x with Some _ => _ | None => None end] =>
      destruct x as [m1|] eqn:E1; [|discriminate]
  end.
  assert (K1 : keeps m m1).
  { destruct (pls_eqb pls AudioTime).
    - destruct (tempo_at_frame_locked _ _ _ _); [|discriminate].
      destruct (add_tempo_locked _ _ _ _ _ _ _ _ _) as [r1|] eqn:E;
        [|discriminate].
      inversion E1; subst. eapply keeps_add_tempo_locked; eauto.
    - inversion E1; subst. apply keeps_refl. }
  destruct (do_insert _ _) as [m2|] eqn:E; [|discriminate].
  assert (K2 : keeps m1 m2).
  { intros V. assert (F : ~ In (length (heap m1)) (metrics m1)) by
      (apply fresh_pointer, V).
    revert V. eapply keeps_trans; [apply keeps_alloc|].
    eapply keeps_do_insert; [exact E | | | exact F].
    - unfold with_heap. simpl.
      rewrite nth_error_app2, Nat.sub_diag by auto. reflexivity.
    - reflexivity. }
  eapply keeps_trans; [exact K1|]. eapply keeps_trans; [exact K2|].
  apply same_keeps.
  repeat break_match_hyp H; try discriminate H;
    inversion H; subst; clear H; same_mutator.
Qed.

Lemma keeps_replace_tempo (m m' : Memory) ts tempo pulse frame ty pls :
  replace_tempo _frame_rate m ts tempo pulse frame ty pls = Some m' ->
  keeps m m'.
Proof.
  unfold replace_tempo. intros H.
  destruct (first_tempo _ _) as [first|]; [|discriminate].
  destruct (nth_tempo _ first) as [first_v|]; [|discriminate].
  destruct (negb _).
  - pose proof (@keeps_remove_tempo_locked m ts) as K.
    destruct (remove_tempo_locked m ts) as [removed m1]. simpl in K.
    destruct (add_tempo_locked _ _ _ _ _ _ _ _ _) as [r|] eqn:E;
      [|discriminate].
    inversion H; subst. eapply keeps_trans; [exact K|].
    eapply keeps_add_tempo_locked; eauto.
  - apply same_keeps. same_mutator.
Qed.

Lemma keeps_replace_meter (m m' : Memory) ms meter where_ frame pls :
  well_formed m ->
  replace_meter _frame_rate m ms meter where_ frame pls = Some m' ->
  keeps m m'.
Proof.
  unfold replace_meter. intros W H.
  destruct (beat_at_bbt_locked _ _) as [beat|]; [|discriminate].
  destruct (MeterSection.movable ms).
  - pose proof (@keeps_remove_meter_locked m ms W) as K.
    destruct (remove_meter_locked m ms) as [removed m1]. simpl in K.
    destruct (add_meter_locked _ _ _ _ _ _ _ _) as [r|] eqn:E;
      [|discriminate].
    inversion H; subst. eapply keeps_trans; [exact K|].
    eapply keeps_add_meter_locked; eauto.
  - apply same_keeps.
    repeat break_match_hyp H; try discriminate H. same_mutator.
Qed.

Lemma keeps_remove_tempo (m m' : Memory) tempo complete_operation :
  remove_tempo _frame_rate m tempo complete_operation = Some m' ->
  keeps m m'.
Proof.
  unfold remove_tempo. intros H.
  pose proof (@keeps_remove_tempo_locked m tempo) as K.
  destruct (remove_tempo_locked m tempo) as [removed m1]. simpl in K.
  eapply keeps_trans; [exact K|]. apply same_keeps.
  destruct (_ && _); [same_mutator|]. inversion H; subst. apply same_refl.
Qed.

Lemma keeps_remove_meter (m m' : Memory) meter complete_operation :
  well_formed m ->
  remove_meter _frame_rate m meter complete_operation = Some m' ->
  keeps m m'.
Proof.
  unfold remove_meter. intros W H.
  pose proof (@keeps_remove_meter_locked m meter W) as K.
  destruct (remove_meter_locked m meter) as [removed m1]. simpl in K.
  eapply keeps_trans; [exact K|]. apply same_keeps.
  destruct (_ && _); [same_mutator|]. inversion H; subst. apply same_refl.
Qed.

Lemma same_gui_move_tempo (m : Memory) ts frame sub_num r :
  gui_move_tempo _frame_rate m ts frame sub_num = Some r -> same m (snd r).
Proof.
  unfold gui_move_tempo, copy_metrics_and_point. intros H.
  repeat break_match_hyp H; try discriminate H;
    inversion H; subst; clear H; same_mutator.
Qed.

Lemma same_gui_move_meter (m : Memory) ms frame r :
  gui_move_meter _frame_rate m ms frame = Some r -> same m (snd r).
Proof.
  unfold gui_move_meter, copy_metrics_and_point_meter. intros H.
  repeat break_match_hyp H; try discriminate H;
    inversion H; subst; clear H; same_mutator.
Qed.

Lemma same_gui_change_tempo (m : Memory) ts bpm r :
  gui_change_tempo _frame_rate m ts bpm = Some r -> same m (snd r).
Proof.
  unfold gui_change_tempo, copy_metrics_and_point. intros H.
  repeat break_match_hyp H; try discriminate H;
    inversion H; subst; clear H; same_mutator.
Qed.

Lemma same_gui_dilate_tempo (m : Memory) ts frame end_frame pulse r :
  gui_dilate_tempo _frame_rate m ts frame end_frame pulse = Some r ->
  same m (snd r).
Proof.
  unfold gui_dilate_tempo, copy_metrics_and_point. intros H.
  repeat break_match_hyp H; try discriminate H;
    inversion H; subst; clear H; same_mutator.
Qed.

Lemma same_change_initial_tempo (m m' : Memory) bpm note_type :
  change_initial_tempo _frame_rate m bpm note_type = Some m' -> same m m'.
Proof.
  unfold change_initial_tempo. intros H.
  repeat break_match_hyp H; try discriminate H; same_mutator.
Qed.

Lemma same_change_existing_tempo_at (m m' : Memory) where_ bpm note_type :
  change_existing_tempo_at _frame_rate m where_ bpm note_type = Some m' ->
  same m m'.
Proof.
  unfold change_existing_tempo_at. intros H.
  repeat break_match_hyp H; try discriminate H; same_mutator.
Qed.

(** *** insert_time *)

Lemma shape_set_section_frame (frame : Z) (s : MetricSection) :
  shape (set_section_frame frame s) = shape s.
Proof. destruct s; reflexivity. Qed.

Lemma shape_insert_time_shift (where_ amount : Z) (idx : list nat) :
  forall h,
    map shape (insert_time_shift where_ amount idx h) = map shape h.
Proof.
  induction idx as [|a idx IH]; intros h; simpl; auto.
  rewrite IH. destruct (nth_error h a) as [s|]; auto.
  destruct (_ && _); auto.
  apply shape_update_at. intros s'. apply shape_set_section_frame.
Qed.

Lemma shape_insert_time_stamp (l : list nat) (h : Heap) (ts ms : nat)
      (m : option nat) (prev : nat) r :
  insert_time_stamp l h ts ms m prev = Some r ->
  map shape (snd (fst r)) = map shape h.
Proof.
  unfold insert_time_stamp. intros H.
  repeat break_match_hyp H; try discriminate H;
    inversion H; subst; clear H; simpl; now autorewrite with shape.
Qed.

Lemma shape_insert_time_loop (l idx : list nat) : forall st h',
  insert_time_loop _frame_rate l idx st = Some h' ->
  map shape h' = map shape (it_heap st).
Proof.
  induction idx as [|i rest IH]; intros st h' H;
    cbn [insert_time_loop] in H.
  - now inversion H.
  - destruct (match it_prev st with
              | Some prev =>
                  insert_time_stamp l (it_heap st) (it_tempo st)
                                    (it_meter st) (it_m st) prev
              | None => Some (false, it_heap st, it_m st)
              end) as [[[continue h] m]|] eqn:E; [|discriminate H].
    assert (Hh : map shape h = map shape (it_heap st)).
    { destruct (it_prev st) as [prev|].
      - apply shape_insert_time_stamp in E. exact E.
      - now inversion E. }
    cbv beta iota in H.
    repeat break_match_hyp H; try discriminate H;
      apply IH in H; cbn [it_heap] in H; rewrite H, <- Hh;
      now autorewrite with shape.
Qed.

Lemma same_insert_time (m m' : Memory) where_ amount :
  insert_time _frame_rate m where_ amount = Some m' -> same m m'.
Proof.
  unfold insert_time. intros H.
  repeat break_match_hyp H; try discriminate H.
  apply same_recompute_map in H.
  match goal with
  | E : insert_time_loop _ _ _ _ = Some _ |- _ =>
      apply shape_insert_time_loop in E; cbn [it_heap] in E;
      rewrite shape_insert_time_shift in E
  end.
  destruct H as [Hs Hp]. cbn [heap metrics] in *.
  split; [congruence | exact Hp].
Qed.

(** *** remove_time *)

Lemma shape_remove_time_loop (where_ amount : Z) (idx : list nat) :
  forall st,
    map shape (rt_heap (remove_time_loop where_ amount idx st))
    = map shape (rt_heap st).
Proof.
  induction idx as [|a idx IH]; intros st; simpl; auto.
  destruct (nth_error (rt_heap st) a) as [s|]; auto.
  repeat match goal with
         | |- context [if ?b then _ else _] => destruct b
         end;
    rewrite IH; simpl; auto;
    apply shape_update_at; intros s'; apply shape_set_section_frame.
Qed.

(** On a list of distinct pointers the first loop of remove_time puts on
    the kill list only sections that it finds in the range. *)
Lemma remove_time_loop_kills (where_ amount : Z) (idx : list nat) :
  forall st a,
    NoDup idx ->
    In a (metric_kill_list (remove_time_loop where_ amount idx st)) ->
    In a (metric_kill_list st)
    \/ (In a idx /\ in_cut_at (rt_heap st) where_ amount a = true).
Proof.
  induction idx as [|a0 idx IH]; intros st a ND Hin; simpl in *; auto.
  inversion ND as [|? ? Hna ND']; subst.
  destruct (nth_error (rt_heap st) a0) as [s|] eqn:E.
  - destruct ((where_ <=? Section_.frame s)%Z
              && (Section_.frame s <? where_ + amount)%Z) eqn:C.
    + apply IH in Hin; auto. simpl in Hin.
      destruct Hin as [Hin|[Hin Hc]].
      * apply in_app_or in Hin as [Hin|[->|[]]]; auto.
        right. split; auto. unfold in_cut_at. rewrite E. exact C.
      * right. split; auto.
    + assert (Hother :
               forall f st',
                 rt_heap st' = update_at (rt_heap st) a0 f ->
                 metric_kill_list st' = metric_kill_list st ->
                 In a (metric_kill_list
                         (remove_time_loop where_ amount idx st')) ->
                 In a (metric_kill_list st)
                 \/ (In a idx
                     /\ in_cut_at (rt_heap st) where_ amount a = true)).
      { intros f st' Hh Hk Hin'. apply IH in Hin'; auto.
        rewrite Hk in Hin'. destruct Hin' as [Hin'|[Hin' Hc]]; auto.
        right. split; auto.
        unfold in_cut_at in *. rewrite Hh in Hc.
        rewrite nth_error_update_at_neq in Hc; auto.
        intros ->. contradiction. }
      destruct (where_ <=? Section_.frame s)%Z.
      * destruct (Section_.frame s - amount =? where_)%Z;
          (eapply Hother in Hin; [|reflexivity|reflexivity]);
          destruct Hin as [Hin|[Hin Hc]]; auto.
      * apply IH in Hin; auto. destruct Hin as [Hin|[Hin Hc]]; auto.
  - apply IH in Hin; auto. destruct Hin as [Hin|[Hin Hc]]; auto.
Qed.

Lemma list_remove_drops sh (a : nat) (l : list nat) :
  (forall s, nth_error sh a = Some s -> is_fixed s = false) ->
  drops_movable sh l (list_remove l a).
Proof.
  intros Ha. unfold list_remove. split; [|split].
  - induction l as [|b l IH]; simpl; auto.
    destruct (Nat.eqb b a) eqn:Eb; simpl.
    + apply Nat.eqb_eq in Eb. subst b.
      destruct (nth_error sh a) as [s|] eqn:Es; simpl; auto.
      now rewrite (Ha s eq_refl).
    + rewrite !filter_app. now rewrite IH.
  - intros x Hx. apply filter_In in Hx. tauto.
  - apply NoDup_filter.
Qed.

Lemma fold_list_remove_drops sh (kill : list nat) : forall l,
  (forall a s, In a kill -> nth_error sh a = Some s -> is_fixed s = false) ->
  drops_movable sh l (fold_left list_remove kill l).
Proof.
  induction kill as [|a kill IH]; intros l Hk; simpl.
  - apply drops_movable_refl.
  - eapply drops_movable_trans.
    + apply list_remove_drops. intros s. apply Hk. now left.
    + apply IH. intros b s Hb. apply Hk. now right.
Qed.

Lemma cuts_fixed_false (m : Memory) (where_ amount : Z) (a : nat) s :
  cuts_fixed m where_ amount = false ->
  In a (metrics m) -> nth_error (heap m) a = Some s ->
  in_cut where_ amount s = true ->
  is_fixed (shape s) = false.
Proof.
  intros C Hin Hs Hc.
  destruct (is_fixed (shape s)) eqn:F; auto.
  assert (X : cuts_fixed m where_ amount = true).
  { apply existsb_exists. exists a. split; auto.
    rewrite Hs, Hc. destruct s; simpl in *; exact F. }
  congruence.
Qed.

Lemma keeps_remove_time_edit (m : Memory) (where_ amount : Z) :
  cuts_fixed m where_ amount = false ->
  keeps m (snd (remove_time_edit m where_ amount)).
Proof.
  intros C V. pose proof V as [ND _].
  unfold remove_time_edit.
  set (st := remove_time_loop where_ amount (metrics m)
               (mkRemoveTime (heap m) [] None None false false false)).
  assert (Hs : map shape (rt_heap st) = map shape (heap m))
    by apply shape_remove_time_loop.
  assert (Hk : forall a s,
             In a (metric_kill_list st) ->
             nth_error (map shape (heap m)) a = Some s ->
             is_fixed s = false).
  { intros a s Hin Hsh.
    apply remove_time_loop_kills in Hin; auto.
    destruct Hin as [[]|[Hin Hc]]. simpl in Hc.
    unfold in_cut_at in Hc. rewrite nth_error_map in Hsh.
    destruct (nth_error (heap m) a) as [s'|] eqn:Es; [|discriminate].
    inversion Hsh; subst. eapply cuts_fixed_false; eauto. }
  assert (Hrm : forall kill b a, In a (list_remove kill b) -> In a kill).
  { intros kill b a Hin. apply filter_In in Hin. tauto. }
  refine ((fun K : forall h' kill' moved',
               map shape h' = map shape (heap m) ->
               (forall a, In a kill' -> In a (metric_kill_list st)) ->
               valid (mkMemory h' (fold_left list_remove kill' (metrics m)))
               /\ Permutation
                    (fixed_shapes m)
                    (fixed_shapes
                       (mkMemory h'
                          (fold_left list_remove kill' (metrics m)))) => _)
            _).
  - destruct (last_tempo st) as [lt|];
      [destruct (negb (tempo_after st))|];
      (destruct (last_meter st) as [lm|];
       [destruct (negb (meter_after st))|]);
      cbn [snd]; apply (K _ _ true) || apply (K _ _ (moved st));
      autorewrite with shape; auto;
      intros a Hin; repeat (apply Hrm in Hin); auto.
  - intros h' kill' _ Hh Hsub.
    assert (K1 : keeps m (mkMemory (heap m)
                            (fold_left list_remove kill' (metrics m)))).
    { apply drops_movable_keeps. apply fold_list_remove_drops.
      intros a s Hin. apply Hk. auto. }
    assert (K2 : keeps (mkMemory (heap m)
                          (fold_left list_remove kill' (metrics m)))
                       (mkMemory h'
                          (fold_left list_remove kill' (metrics m)))).
    { apply same_keeps. split; simpl; auto. }
    exact (keeps_trans K1 K2 V).
Qed.

Lemma keeps_remove_time (m m' : Memory) (where_ amount : Z) moved :
  cuts_fixed m where_ amount = false ->
  remove_time _frame_rate m where_ amount = Some (moved, m') ->
  keeps m m'.
Proof.
  intros C H. unfold remove_time in H.
  pose proof (@keeps_remove_time_edit m where_ amount C) as K.
  destruct (remove_time_edit m where_ amount) as [mv m1]. simpl in K.
  eapply keeps_trans; [exact K|]. apply same_keeps.
  destruct mv.
  - destruct (recompute_map _ m1) as [m2|] eqn:E; [|discriminate].
    inversion H; subst. now apply same_recompute_map.
  - inversion H; subst. apply same_refl.
Qed.

Lemma mutation_keeps (m m' : Memory) :
  well_formed m -> mutation _frame_rate m m' -> keeps m m'.
Proof.
  intros W [tempo pulse frame ty pls t H | ts tempo pulse frame ty pls H
           | tempo b H | meter beat where_ frame pls t H
           | ms meter where_ frame pls H | meter b H
           | ts frame sub_num b H | ms frame b H | ts bpm b H
           | ts frame end_frame pulse b H | bpm note_type H
           | where_ bpm note_type H | where_ amount H
           | where_ amount moved C H].
  - apply keeps_add_tempo_locked in H. exact H.
  - eapply keeps_replace_tempo; eauto.
  - eapply keeps_remove_tempo; eauto.
  - apply keeps_add_meter_locked in H. exact H.
  - eapply keeps_replace_meter; eauto.
  - eapply keeps_remove_meter; eauto.
  - apply same_gui_move_tempo in H. now apply same_keeps.
  - apply same_gui_move_meter in H. now apply same_keeps.
  - apply same_gui_change_tempo in H. now apply same_keeps.
  - apply same_gui_dilate_tempo in H. now apply same_keeps.
  - apply same_change_initial_tempo in H. now apply same_keeps.
  - apply same_change_existing_tempo_at in H. now apply same_keeps.
  - apply same_insert_time in H. now apply same_keeps.
  - eapply keeps_remove_time; eauto.
Qed.

Lemma well_formed_new : well_formed TempoMap_new.
Proof.
  split; [|split].
  - split; [|repeat constructor].
    repeat constructor; simpl; intuition discriminate.
  - exists initial_tempo. split; reflexivity.
  - exists initial_meter. reflexivity.
Qed.

Lemma reachable_well_formed (m : Memory) :
  reachable _frame_rate m -> well_formed m.
Proof.
  induction 1 as [|m m' _ IH Hm]; [apply well_formed_new|].
  eapply keeps_well_formed; [exact IH|]. now apply mutation_keeps.
Qed.

(** C7, amended: in every map that the constructor and the mutators lead
    to (add, replace and remove of tempo and of meter, the four mutators
    of the GUI, change_initial_tempo, change_existing_tempo_at,
    insert_time, and remove_time when its range holds no section that
    cannot move), exactly one tempo section and exactly one meter section
    of the list cannot move. *)
Theorem one_fixed_tempo_and_meter (m : Memory) :
  reachable _frame_rate m ->
  exists t mt,
    fixed_tempi (sections m) = [t] /\ fixed_meters (sections m) = [mt].
Proof.
  intros R.
  destruct (reachable_well_formed R) as (_ & (t & Ht & _) & mt & Hm).
  now exists t, mt.
Qed.

End ShapeOfMemory.

(** replace_meter moves the first meter, and the first tempo with it, to
    the frame it is given. *)
Lemma late_start_map_reached {L : Libm} :
  replace_meter 48000 TempoMap_new initial_meter (Meter.mk 4 4)
                (BBT_Time.mk 1 1 0) 1000 AudioTime
  = Some late_start_map.
Proof. vm_compute. reflexivity. Qed.



(** add_meter, replace_tempo and replace_meter hand their section to the
    solver after it is inserted, as add_tempo does, and each can leave a
    list that has changed and is not solved: a meter added at frame 400 of
    [late_start_map], and a tempo at frame 5000 and a meter at frame 200000
    of that map replaced by one at frame 500 and one at frame 400, all
    before the first meter. *)
Lemma add_meter_leaves_unsolved_map :
  exists t m',
    add_meter (L := SampleLibm.libm) 48000 late_start_map (Meter.mk 4 4) 0
              (BBT_Time.mk 1 1 0) 400 AudioTime
    = Some (t, m')
    /\ metrics m' = [2; 0; 3; 1]%nat
    /\ check_solved (L := SampleLibm.libm) 48000 (sections m') = Some false.
Proof.
  do 2 eexists. split; [vm_compute; reflexivity|].
  split; [reflexivity | vm_compute; reflexivity].
Qed.

Lemma replace_tempo_leaves_unsolved_map :
  exists m ts m',
    add_tempo (L := SampleLibm.libm) 48000 late_start_map (Tempo.mk 120 4) 0
              5000 TempoSection.Constant AudioTime
    = Some (2%nat, m)
    /\ check_solved (L := SampleLibm.libm) 48000 (sections m) = Some true
    /\ nth_tempo (heap m) 2 = Some ts
    /\ replace_tempo (L := SampleLibm.libm) 48000 m ts (Tempo.mk 120 4) 0
                     500 TempoSection.Constant AudioTime
       = Some m'
    /\ metrics m = [0; 1; 2]%nat
    /\ metrics m' = [3; 0; 1]%nat
    /\ check_solved (L := SampleLibm.libm) 48000 (sections m') = Some false.
Proof.
  do 3 eexists. split; [vm_compute; reflexivity|].
  split; [vm_compute; reflexivity|].
  split; [vm_compute; reflexivity|].
  split; [vm_compute; reflexivity|].
  split; [reflexivity|].
  split; [reflexivity | vm_compute; reflexivity].
Qed.

Lemma replace_meter_leaves_unsolved_map :
  exists m ms m',
    add_meter (L := SampleLibm.libm) 48000 late_start_map (Meter.mk 4 4) 4
              (BBT_Time.mk 2 1 0) 200000 AudioTime
    = Some (3%nat, m)
    /\ check_solved (L := SampleLibm.libm) 48000 (sections m) = Some true
    /\ nth_meter (heap m) 3 = Some ms
    /\ replace_meter (L := SampleLibm.libm) 48000 m ms (Meter.mk 4 4)
                     (BBT_Time.mk 2 1 0) 400 AudioTime
       = Some m'
    /\ metrics m = [0; 1; 2; 3]%nat
    /\ metrics m' = [4; 0; 5; 1]%nat
    /\ check_solved (L := SampleLibm.libm) 48000 (sections m') = Some false.
Proof.
  do 3 eexists. split; [vm_compute; reflexivity|].
  split; [vm_compute; reflexivity|].
  split; [vm_compute; reflexivity|].
  split; [vm_compute; reflexivity|].
  split; [reflexivity|].
  split; [reflexivity | vm_compute; reflexivity].
Qed.

(** remove_meter_locked erases the meter-locked tempo at the frame of the
    meter before it looks for the meter: it can find no meter to remove
    and yet leave a shorter list. *)
Lemma remove_meter_drops_locked_tempo {L : Libm} :
  let meter := MeterSection.mk 1 96000 AudioTime true 4 4 4
                               (BBT_Time.mk 2 1 0) in
  remove_meter_locked lone_locked_tempo_map meter
  = (false, mkMemory (heap lone_locked_tempo_map) [0; 1]%nat)
  /\ remove_meter 48000 lone_locked_tempo_map meter true
     = Some (mkMemory (heap lone_locked_tempo_map) [0; 1]%nat).
Proof. split; reflexivity. Qed.


Lemma one_fixed_tempo_and_meter_witness :
  exists t mt,
    fixed_tempi (sections late_start_map) = [t]
    /\ fixed_meters (sections late_start_map) = [mt].
Proof.
  apply (one_fixed_tempo_and_meter (L := SampleLibm.libm)
                                   (_frame_rate := 48000)).
  eapply reachable_step; [apply reachable_new|].
  eapply by_replace_meter. apply late_start_map_reached.
Defined.

(** replace_tempo moves the first tempo to frame 2000, and add_tempo then
    places a tempo before it: [late_tempo_map]. *)
Lemma late_tempo_map_reached :
  exists m,
    replace_tempo (L := SampleLibm.libm) 48000 TempoMap_new initial_tempo
                  (Tempo.mk 120 4) 0 2000 TempoSection.Constant AudioTime
    = Some m
    /\ add_tempo (L := SampleLibm.libm) 48000 m (Tempo.mk 120 4) 7 500
                 TempoSection.Constant AudioTime
       = Some (2%nat, late_tempo_map).
Proof.
  eexists. split; [vm_compute; reflexivity | vm_compute; reflexivity].
Qed.

Lemma late_start_map_reachable :
  reachable (L := SampleLibm.libm) 48000 late_start_map.
Proof.
  eapply reachable_step; [apply reachable_new|].
  eapply by_replace_meter. apply late_start_map_reached.
Qed.

Lemma late_tempo_map_reachable :
  reachable (L := SampleLibm.libm) 48000 late_tempo_map.
Proof.
  destruct late_tempo_map_reached as (m & Hr & Ha).
  eapply reachable_step; [|eapply by_add_tempo; exact Ha].
  eapply reachable_step; [apply reachable_new|].
  eapply by_replace_tempo. exact Hr.
Qed.

Lemma early_meters_map_reachable :
  exists m,
    early_meters_map = Some m /\ reachable (L := SampleLibm.libm) 48000 m.
Proof.
  unfold early_meters_map.
  destruct (add_meter (L := SampleLibm.libm) 48000 late_start_map
                      (Meter.mk 4 4) 0 (BBT_Time.mk 1 1 0) 400 AudioTime)
    as [[a1 m1]|] eqn:E1; [|vm_compute in E1; discriminate E1].
  cbn [snd].
  destruct (add_meter (L := SampleLibm.libm) 48000 m1 (Meter.mk 4 4) 4
                      (BBT_Time.mk 2 1 0) 500 AudioTime)
    as [[a2 m2]|] eqn:E2.
  - exists m2. split; [reflexivity|].
    eapply reachable_step; [|eapply by_add_meter; exact E2].
    eapply reachable_step; [|eapply by_add_meter; exact E1].
    apply late_start_map_reachable.
  - exfalso. vm_compute in E1. inversion E1; subst m1.
    vm_compute in E2. discriminate E2.
Qed.

(** C7, as claimed, fails in each of its equations.  replace_meter leaves
    the first meter and the first tempo of a new map at frame 1000.
    replace_tempo moves the first tempo alone, to frame 2000, and a tempo
    that add_tempo then places before it leaves it with pulse 7.015625.
    Two meters that add_meter places before a first meter at frame 1000,
    the second in bar 2, leave the first meter and the first tempo with
    pulse 2^32: recompute_meters renumbers the first meter from the meter
    before it, and the difference of the bars, 1 - 2, is unsigned. *)
Lemma first_sections_leave_origin :
  ~ claimed_reachable_invariant
  /\ (exists t mt,
        reachable (L := SampleLibm.libm) 48000 late_start_map
        /\ fixed_tempi (sections late_start_map) = [t]
        /\ fixed_meters (sections late_start_map) = [mt]
        /\ TempoSection.frame t = 1000%Z
        /\ MeterSection.frame mt = 1000%Z)
  /\ (exists t,
        reachable (L := SampleLibm.libm) 48000 late_tempo_map
        /\ fixed_tempi (sections late_tempo_map) = [t]
        /\ TempoSection.frame t = 2000%Z
        /\ TempoSection.pulse t = 7.015625%float)
  /\ (exists m t mt,
        early_meters_map = Some m
        /\ reachable (L := SampleLibm.libm) 48000 m
        /\ fixed_tempi (sections m) = [t]
        /\ fixed_meters (sections m) = [mt]
        /\ TempoSection.pulse t = 4294967296%float
        /\ MeterSection.pulse mt = 4294967296%float).
Proof.
  split; [|split; [|split]].
  - intros H.
    destruct (H _ _ _ late_start_map_reachable) as (t & mt & Ht & _ & Hf & _).
    vm_compute in Ht. inversion Ht; subst t.
    vm_compute in Hf. discriminate Hf.
  - do 2 eexists. split; [apply late_start_map_reachable|].
    repeat split; reflexivity.
  - eexists. split; [apply late_tempo_map_reachable|].
    repeat split; reflexivity.
  - destruct early_meters_map_reachable as (m & Hm & R).
    exists m. pose proof Hm as Hm'. vm_compute in Hm'.
    inversion Hm'; subst m; clear Hm'.
    do 2 eexists. split; [exact Hm|]. split; [exact R|].
    split; [vm_compute; reflexivity|].
    split; [vm_compute; reflexivity|]. split; reflexivity.
Qed.

(** * What the passes and the solvers keep *)

(** ** What the passes keep *)

Lemma pls_eqb_eq (a b : PositionLockStyle) : pls_eqb a b = true <-> a = b.
Proof. destruct a, b; simpl; split; congruence. Qed.

Lemma pls_not_audio (a : PositionLockStyle) :
  pls_eqb a AudioTime = false -> a = MusicTime.
Proof. destruct a; simpl; congruence. Qed.

Lemma pls_not_music (a : PositionLockStyle) :
  pls_eqb a MusicTime = false -> a = AudioTime.
Proof. destruct a; simpl; congruence. Qed.

Section HeapRel.
Variable RT : TempoSection.t -> TempoSection.t -> Prop.
Variable RM : MeterSection.t -> MeterSection.t -> Prop.
Hypothesis RT_refl : forall t, RT t t.
Hypothesis RM_refl : forall m, RM m m.
Hypothesis RT_trans : forall a b c, RT a b -> RT b c -> RT a c.
Hypothesis RM_trans : forall a b c, RM a b -> RM b c -> RM a c.

Lemma heap_rel_refl (h : Heap) : heap_rel RT RM h h.
Proof. intros b. destruct (nth_error h b) as [[t|m]|]; auto. Qed.

Lemma heap_rel_trans (h1 h2 h3 : Heap) :
  heap_rel RT RM h1 h2 -> heap_rel RT RM h2 h3 -> heap_rel RT RM h1 h3.
Proof.
  intros H12 H23 b. specialize (H12 b). specialize (H23 b).
  destruct (nth_error h1 b) as [[t1|m1]|], (nth_error h2 b) as [[t2|m2]|],
           (nth_error h3 b) as [[t3|m3]|];
    try contradiction; eauto.
Qed.

Lemma heap_rel_upd_tempo (h : Heap) (a : nat) f :
  (forall t, nth_tempo h a = Some t -> RT t (f t)) ->
  heap_rel RT RM h (upd_tempo h a f).
Proof.
  intros Hf b. unfold upd_tempo.
  destruct (Nat.eq_dec a b) as [->|Hab].
  - rewrite nth_error_update_at_eq. unfold nth_tempo in Hf.
    destruct (nth_error h b) as [[t|m]|] eqn:E; simpl; auto.
  - rewrite nth_error_update_at_neq by assumption.
    destruct (nth_error h b) as [[t|m]|]; auto.
Qed.

Lemma heap_rel_upd_meter (h : Heap) (a : nat) f :
  (forall m, nth_meter h a = Some m -> RM m (f m)) ->
  heap_rel RT RM h (upd_meter h a f).
Proof.
  intros Hf b. unfold upd_meter.
  destruct (Nat.eq_dec a b) as [->|Hab].
  - rewrite nth_error_update_at_eq. unfold nth_meter in Hf.
    destruct (nth_error h b) as [[t|m]|] eqn:E; simpl; auto.
  - rewrite nth_error_update_at_neq by assumption.
    destruct (nth_error h b) as [[t|m]|]; auto.
Qed.

(** A second write, through [b], after a first one through [a]. *)
Lemma heap_rel_upd_tempo_after (h h1 : Heap) (a : nat) f :
  heap_rel RT RM h h1 ->
  (forall t, nth_tempo h1 a = Some t -> RT t (f t)) ->
  heap_rel RT RM h (upd_tempo h1 a f).
Proof.
  intros H1 Hf. eapply heap_rel_trans; [exact H1|].
  now apply heap_rel_upd_tempo.
Qed.

Lemma heap_rel_upd_meter_after (h h1 : Heap) (a : nat) f :
  heap_rel RT RM h h1 ->
  (forall m, nth_meter h1 a = Some m -> RM m (f m)) ->
  heap_rel RT RM h (upd_meter h1 a f).
Proof.
  intros H1 Hf. eapply heap_rel_trans; [exact H1|].
  now apply heap_rel_upd_meter.
Qed.
End HeapRel.

Lemma heap_rel_weaken (RT RT' : TempoSection.t -> TempoSection.t -> Prop)
      (RM RM' : MeterSection.t -> MeterSection.t -> Prop) (h h' : Heap) :
  (forall t t', RT t t' -> RT' t t') ->
  (forall m m', RM m m' -> RM' m m') ->
  heap_rel RT RM h h' -> heap_rel RT' RM' h h'.
Proof.
  intros HT HM H b. specialize (H b).
  destruct (nth_error h b) as [[t|m]|], (nth_error h' b) as [[t'|m']|]; auto.
Qed.

Lemma heap_rel_nth_tempo RT RM (h h' : Heap) (a : nat) (t : TempoSection.t) :
  heap_rel RT RM h h' -> nth_tempo h a = Some t ->
  exists t', nth_tempo h' a = Some t' /\ RT t t'.
Proof.
  intros H Ha. specialize (H a). unfold nth_tempo in *.
  destruct (nth_error h a) as [[t0|m]|]; try discriminate.
  inversion Ha; subst.
  destruct (nth_error h' a) as [[t'|m']|]; try contradiction. eauto.
Qed.

Lemma heap_rel_nth_tempo_inv RT RM (h h' : Heap) (a : nat) t' :
  heap_rel RT RM h h' -> nth_tempo h' a = Some t' ->
  exists t, nth_tempo h a = Some t /\ RT t t'.
Proof.
  intros H Ha. specialize (H a). unfold nth_tempo in *.
  destruct (nth_error h' a) as [[t0|m]|]; try discriminate;
    destruct (nth_error h a) as [[t1|m1]|]; try contradiction;
    try discriminate.
  inversion Ha; subst. eauto.
Qed.

Lemma heap_rel_nth_meter RT RM (h h' : Heap) (a : nat) (m : MeterSection.t) :
  heap_rel RT RM h h' -> nth_meter h a = Some m ->
  exists m', nth_meter h' a = Some m' /\ RM m m'.
Proof.
  intros H Ha. specialize (H a). unfold nth_meter in *.
  destruct (nth_error h a) as [[t0|m0]|]; try discriminate.
  inversion Ha; subst.
  destruct (nth_error h' a) as [[t'|m']|]; try contradiction. eauto.
Qed.

Lemma heap_rel_nth_meter_inv RT RM (h h' : Heap) (a : nat) m' :
  heap_rel RT RM h h' -> nth_meter h' a = Some m' ->
  exists m, nth_meter h a = Some m /\ RM m m'.
Proof.
  intros H Ha. specialize (H a). unfold nth_meter in *.
  destruct (nth_error h' a) as [[t0|m0]|]; try discriminate;
    destruct (nth_error h a) as [[t1|m1]|]; try contradiction;
    try discriminate.
  inversion Ha; subst. eauto.
Qed.

(** The sections of a list, read in two related heaps. *)
Lemma heap_rel_view RT RM (h h' : Heap) (l : list nat) :
  heap_rel RT RM h h' ->
  Forall2 (section_rel RT RM) (view h l) (view h' l).
Proof.
  intros H. induction l as [|a l IH]; simpl; [constructor|].
  specialize (H a).
  destruct (nth_error h a) as [[t|m]|], (nth_error h' a) as [[t'|m']|];
    try contradiction; auto; constructor; auto.
Qed.

Lemma same_tempo_refl t : same_tempo t t.
Proof. repeat split. Qed.

Lemma same_tempo_trans a b c : same_tempo a b -> same_tempo b c -> same_tempo a c.
Proof. unfold same_tempo. intuition congruence. Qed.

Lemma tempo_anchored_refl t : tempo_anchored t t.
Proof. repeat split. Qed.

Lemma tempo_anchored_trans a b c :
  tempo_anchored a b -> tempo_anchored b c -> tempo_anchored a c.
Proof.
  unfold tempo_anchored, same_tempo.
  intros (S1 & F1 & P1) (S2 & F2 & P2).
  destruct S1 as (? & ? & ? & Hp & Hm & ? & Hl).
  destruct S2 as (? & ? & ? & ? & ? & ? & ?).
  repeat split; try congruence.
  - intros Ha. rewrite F2, F1; congruence.
  - intros Hmv Hor.
    assert (Hor' : TempoSection.position_lock_style b = MusicTime
                   \/ TempoSection.locked_to_meter b = true)
      by (rewrite Hp, Hl; exact Hor).
    rewrite P2, P1; auto; congruence.
Qed.

Lemma tempo_but_pulse_refl t : tempo_but_pulse t t.
Proof. repeat split. Qed.

Lemma tempo_but_pulse_trans a b c :
  tempo_but_pulse a b -> tempo_but_pulse b c -> tempo_but_pulse a c.
Proof.
  unfold tempo_but_pulse, same_tempo.
  intros (S1 & F1 & C1 & P1) (S2 & F2 & C2 & P2).
  destruct S1 as (? & ? & ? & Hp & Hm & ? & Hl).
  destruct S2 as (? & ? & ? & ? & ? & ? & ?).
  repeat split; try congruence.
  intros Hmv Hlk. rewrite P2, P1; congruence.
Qed.

Lemma meter_anchored_refl m : meter_anchored m m.
Proof. repeat split. Qed.

Lemma meter_anchored_trans a b c :
  meter_anchored a b -> meter_anchored b c -> meter_anchored a c.
Proof.
  unfold meter_anchored.
  intros (? & ? & Hp & ? & F1) (? & ? & ? & ? & F2).
  repeat split; try congruence.
  intros Ha. rewrite F2, F1; congruence.
Qed.

Lemma nth_tempo_upd_tempo_cases (h : Heap) (a b : nat) f t' :
  nth_tempo (upd_tempo h a f) b = Some t' ->
  exists t, nth_tempo h b = Some t /\ (t' = t \/ t' = f t).
Proof.
  destruct (Nat.eq_dec a b) as [->|Hab].
  - rewrite nth_tempo_upd_tempo_eq.
    destruct (nth_tempo h b) as [t|]; simpl; [|discriminate].
    intros [= <-]. eauto.
  - rewrite nth_tempo_upd_tempo_neq by assumption. eauto.
Qed.

Lemma nth_meter_upd_meter_cases (h : Heap) (a b : nat) f m' :
  nth_meter (upd_meter h a f) b = Some m' ->
  exists m, nth_meter h b = Some m /\ (m' = m \/ m' = f m).
Proof.
  destruct (Nat.eq_dec a b) as [->|Hab].
  - rewrite nth_meter_upd_meter_eq.
    destruct (nth_meter h b) as [m|]; simpl; [|discriminate].
    intros [= <-]. eauto.
  - rewrite nth_meter_upd_meter_neq by assumption. eauto.
Qed.

(** Closing a goal on two sections, one the other with fields set. *)
Ltac kept :=
  unfold tempo_anchored, tempo_but_pulse, tempo_audio_anchored, same_tempo,
    meter_anchored, set_beat_pulse in *;
  simpl in *; intuition congruence.

Lemma tempo_audio_anchored_refl t : tempo_audio_anchored t t.
Proof. kept. Qed.

Lemma tempo_audio_anchored_trans a b c :
  tempo_audio_anchored a b -> tempo_audio_anchored b c ->
  tempo_audio_anchored a c.
Proof.
  unfold tempo_audio_anchored, same_tempo.
  intros (S1 & F1) (S2 & F2).
  destruct S1 as (? & ? & ? & Hp & Hm & ? & Hl).
  destruct S2 as (? & ? & ? & ? & ? & ? & ?).
  repeat split; try congruence.
  intros Ha. rewrite F2, F1; congruence.
Qed.

(** The side conditions of the lemmas on [heap_rel]. *)
Ltac rel_side :=
  first [ exact tempo_anchored_refl | exact tempo_anchored_trans
        | exact tempo_but_pulse_refl | exact tempo_but_pulse_trans
        | exact tempo_audio_anchored_refl | exact tempo_audio_anchored_trans
        | exact meter_anchored_refl | exact meter_anchored_trans
        | exact (@eq_refl _) | exact (@eq_trans _) ].

Section Passes.
Context {L : Libm}.
Variable _frame_rate : Z.

Lemma recompute_tempi_pair_anchored (h : Heap) (p i : nat) :
  heap_rel tempo_anchored eq h (recompute_tempi_pair _frame_rate h p i).
Proof.
  unfold recompute_tempi_pair.
  destruct (nth_tempo h p) as [prev_t|] eqn:Ep;
    [|apply heap_rel_refl; rel_side].
  destruct (nth_tempo h i) as [t|] eqn:Ei;
    [|apply heap_rel_refl; rel_side].
  assert (Hc : forall c, heap_rel tempo_anchored eq h
                           (upd_tempo h p (TempoSection.set_c_func c))).
  { intros c. apply heap_rel_upd_tempo; try rel_side. intros t0 _. kept. }
  destruct (pls_eqb _ AudioTime) eqn:Epls.
  - apply pls_eqb_eq in Epls.
    destruct (negb (TempoSection.locked_to_meter t)) eqn:El; [|apply Hc].
    apply negb_true_iff in El.
    eapply heap_rel_upd_tempo_after; try rel_side; [apply Hc|].
    intros t0 H0. apply nth_tempo_upd_tempo_cases in H0 as (t1 & H1 & Ht).
    assert (t1 = t) by congruence. subst t1.
    destruct Ht as [->| ->]; kept.
  - apply pls_not_audio in Epls.
    eapply heap_rel_upd_tempo_after; try rel_side; [apply Hc|].
    intros t0 H0. apply nth_tempo_upd_tempo_cases in H0 as (t1 & H1 & Ht).
    assert (t1 = t) by congruence. subst t1.
    destruct Ht as [->| ->]; kept.
Qed.

Lemma recompute_tempi_loop_anchored (idx : list nat) :
  forall (h : Heap) (prev_t : option nat),
    heap_rel tempo_anchored eq h
             (fst (recompute_tempi_loop _frame_rate idx h prev_t)).
Proof.
  induction idx as [|i rest IH]; intros h prev_t; simpl.
  - apply heap_rel_refl; rel_side.
  - assert (Hstep : forall h1 p1,
               heap_rel tempo_anchored eq h h1 ->
               heap_rel tempo_anchored eq h
                 (fst (recompute_tempi_loop _frame_rate rest h1 p1))).
    { intros h1 p1 H1.
      eapply heap_rel_trans; try rel_side; [exact H1|apply IH]. }
    destruct (nth_tempo h i) as [t|] eqn:Ei; [|apply IH].
    destruct (negb (TempoSection.active t)); [apply IH|].
    destruct prev_t as [p|].
    + apply Hstep, recompute_tempi_pair_anchored.
    + destruct (negb (TempoSection.movable t)) eqn:Em; [|apply IH].
      apply negb_true_iff in Em.
      apply Hstep, heap_rel_upd_tempo; try rel_side.
      intros t0 H0. assert (t0 = t) by congruence. subst t0. kept.
Qed.

Lemma recompute_tempi_anchored (m m' : Memory) :
  recompute_tempi _frame_rate m = Some m' ->
  metrics m' = metrics m
  /\ heap_rel tempo_anchored eq (heap m) (heap m').
Proof.
  unfold recompute_tempi. intros H.
  pose proof (recompute_tempi_loop_anchored (metrics m) (heap m) None)
    as Hl.
  destruct (recompute_tempi_loop _ _ _ _) as [h prev_t].
  destruct prev_t as [p|]; [|discriminate]. inversion H; subst; clear H.
  simpl in *. split; [reflexivity|].
  eapply heap_rel_upd_tempo_after; try rel_side; [exact Hl|].
  intros t0 _. kept.
Qed.

Lemma find_meter_locked_tempo_some (h : Heap) (l : list nat) (frame : Z)
      (j : nat) :
  find_meter_locked_tempo h l frame = Some j ->
  exists t, nth_tempo h j = Some t
            /\ (TempoSection.locked_to_meter t = true
                \/ TempoSection.movable t = false)
            /\ TempoSection.frame t = frame.
Proof.
  induction l as [|a l IH]; simpl; [discriminate|].
  destruct (nth_tempo h a) as [t|] eqn:Ea; [|exact IH].
  destruct (_ && _) eqn:Ec; [|exact IH].
  intros [= <-]. exists t. apply andb_prop in Ec as [Hor Hf].
  apply Z.eqb_eq in Hf. apply orb_prop in Hor.
  rewrite negb_true_iff in Hor. auto.
Qed.

Lemma recompute_meters_loop_kept (l idx : list nat) :
  forall (h : Heap) (prev_m : option nat) h',
    recompute_meters_loop _frame_rate l idx h prev_m = Some h' ->
    heap_rel tempo_but_pulse meter_anchored h h'.
Proof.
  assert (Refl : forall h, heap_rel tempo_but_pulse meter_anchored h h).
  { intros h. apply heap_rel_refl; rel_side. }
  assert (Trans : forall h1 h2 h3,
             heap_rel tempo_but_pulse meter_anchored h1 h2 ->
             heap_rel tempo_but_pulse meter_anchored h2 h3 ->
             heap_rel tempo_but_pulse meter_anchored h1 h3).
  { intros h1 h2 h3. apply heap_rel_trans; rel_side. }
  induction idx as [|mi rest IH]; intros h prev_m h' H;
    cbn [recompute_meters_loop] in H.
  - inversion H; subst. apply Refl.
  - destruct (nth_meter h mi) as [meter|] eqn:Emi; [|eauto].
    destruct (pls_eqb _ AudioTime) eqn:Epls.
    + apply pls_eqb_eq in Epls.
      destruct (audio_meter_position _ _) as [b_bbt pulse].
      apply IH in H. eapply Trans; [|exact H].
      assert (H1 : heap_rel tempo_but_pulse meter_anchored h
                     match find_meter_locked_tempo
                             h l (MeterSection.frame meter) with
                     | Some j => upd_tempo h j (TempoSection.set_pulse pulse)
                     | None => h
                     end).
      { destruct (find_meter_locked_tempo _ _ _) as [j|] eqn:Ej;
          [|apply Refl].
        apply find_meter_locked_tempo_some in Ej as (t & Ht & Hor & _).
        apply heap_rel_upd_tempo; try rel_side.
        intros t0 H0. assert (t0 = t) by congruence. subst t0.
        destruct Hor; kept. }
      eapply Trans; [exact H1|].
      apply heap_rel_upd_meter; try rel_side.
      intros m0 _. kept.
    + apply pls_not_audio in Epls.
      match type of H with
      | context [match ?x with Some _ => _ | None => None end] =>
          destruct x as [[b_bbt pulse]|]; [|discriminate]
      end.
      destruct (frame_at_pulse_locked _ _ _) as [frame|]; [|discriminate].
      apply IH in H. eapply Trans; [|exact H].
      eapply heap_rel_upd_meter_after; try rel_side.
      * apply heap_rel_upd_meter; try rel_side.
        intros m0 _. kept.
      * intros m0 H0.
        apply nth_meter_upd_meter_cases in H0 as (m1 & H1 & Hm).
        assert (m1 = meter) by congruence. subst m1.
        destruct Hm as [->| ->]; kept.
Qed.

Lemma recompute_meters_kept (m m' : Memory) :
  recompute_meters _frame_rate m = Some m' ->
  metrics m' = metrics m
  /\ heap_rel tempo_but_pulse meter_anchored (heap m) (heap m').
Proof.
  unfold recompute_meters. intros H.
  destruct (recompute_meters_loop _ _ _ _ _) as [h|] eqn:E;
    [|discriminate].
  inversion H; subst. split; [reflexivity|].
  eapply recompute_meters_loop_kept; eauto.
Qed.

Lemma recompute_map_kept (m m' : Memory) :
  recompute_map _frame_rate m = Some m' ->
  metrics m' = metrics m
  /\ heap_rel tempo_audio_anchored meter_anchored (heap m) (heap m').
Proof.
  unfold recompute_map. intros H.
  destruct (recompute_tempi _ m) as [m1|] eqn:E; [|discriminate].
  apply recompute_tempi_anchored in E as [E1 R1].
  apply recompute_meters_kept in H as [E2 R2].
  split; [congruence|].
  eapply heap_rel_trans with (h2 := heap m1); try rel_side.
  - eapply heap_rel_weaken; [| |exact R1].
    + intros t t'. kept.
    + intros x y <-. apply meter_anchored_refl.
  - eapply heap_rel_weaken; [| |exact R2]; auto.
    intros t t'. kept.
Qed.
End Passes.

Section Solver.
Context {L : Libm}.
Variable _frame_rate : Z.

Lemma solve_pair_anchored (h : Heap) (p i : nat) :
  heap_rel tempo_anchored eq h (solve_pair _frame_rate h p i).
Proof.
  unfold solve_pair.
  destruct (nth_tempo h p) as [prev_t|] eqn:Ep;
    [|apply heap_rel_refl; rel_side].
  destruct (nth_tempo h i) as [t|] eqn:Ei;
    [|apply heap_rel_refl; rel_side].
  assert (Hc : forall c, heap_rel tempo_anchored eq h
                           (upd_tempo h p (TempoSection.set_c_func c))).
  { intros c. apply heap_rel_upd_tempo; try rel_side. intros t0 _. kept. }
  destruct (pls_eqb _ MusicTime) eqn:Epls.
  - apply pls_eqb_eq in Epls.
    eapply heap_rel_upd_tempo_after; try rel_side; [apply Hc|].
    intros t0 H0. apply nth_tempo_upd_tempo_cases in H0 as (t1 & H1 & Ht).
    assert (t1 = t) by congruence. subst t1.
    destruct Ht as [->| ->]; kept.
  - apply pls_not_music in Epls.
    destruct (negb (TempoSection.locked_to_meter t)) eqn:El; [|apply Hc].
    apply negb_true_iff in El.
    eapply heap_rel_upd_tempo_after; try rel_side; [apply Hc|].
    intros t0 H0. apply nth_tempo_upd_tempo_cases in H0 as (t1 & H1 & Ht).
    assert (t1 = t) by congruence. subst t1.
    destruct Ht as [->| ->]; kept.
Qed.

Lemma solve_map_frame_loop_anchored (section : nat) (idx : list nat) :
  forall (h : Heap) (prev_t section_prev : option nat),
    heap_rel tempo_anchored eq h
      (fst (solve_map_frame_loop _frame_rate section idx h prev_t
                                 section_prev)).
Proof.
  induction idx as [|i rest IH]; intros h prev_t section_prev; simpl.
  - apply heap_rel_refl; rel_side.
  - destruct (nth_tempo h i) as [t|] eqn:Ei; [|apply IH].
    destruct (negb (TempoSection.active t)); [apply IH|].
    destruct prev_t as [p|]; [|apply IH].
    destruct (Nat.eqb i section); [apply IH|].
    eapply heap_rel_trans; try rel_side;
      [apply solve_pair_anchored | apply IH].
Qed.

Lemma solve_map_pulse_loop_anchored (section : nat) (idx : list nat) :
  forall (h : Heap) (prev_t section_prev : option nat),
    heap_rel tempo_anchored eq h
      (fst (solve_map_pulse_loop _frame_rate section idx h prev_t
                                 section_prev)).
Proof.
  induction idx as [|i rest IH]; intros h prev_t section_prev; simpl.
  - apply heap_rel_refl; rel_side.
  - destruct (nth_tempo h i) as [t|] eqn:Ei; [|apply IH].
    destruct (negb (TempoSection.active t)); [apply IH|].
    destruct (negb (TempoSection.movable t)) eqn:Em.
    + apply negb_true_iff in Em.
      eapply heap_rel_trans; try rel_side; [|apply IH].
      apply heap_rel_upd_tempo; try rel_side.
      intros t0 H0. assert (t0 = t) by congruence. subst t0. kept.
    + destruct prev_t as [p|]; [|apply IH].
      destruct (Nat.eqb i section); [apply IH|].
      eapply heap_rel_trans; try rel_side;
        [apply solve_pair_anchored | apply IH].
Qed.

(** The heap of solve_map_frame after its first write, and what follows
    it. *)
Lemma solve_map_frame_anchored (m : Memory) (section : nat) (frame : Z)
      (s : TempoSection.t) (r : bool * Memory) :
  nth_tempo (heap m) section = Some s ->
  TempoSection.position_lock_style s = AudioTime ->
  TempoSection.movable s && (frame <=? first_m_frame (sections m))%Z
  = false ->
  solve_map_frame _frame_rate m section frame = Some r ->
  Permutation (metrics m) (metrics (snd r))
  /\ heap_rel tempo_anchored eq
       (upd_tempo (heap m) section
          (fun s => TempoSection.set_frame frame
                      (TempoSection.set_active true s)))
       (heap (snd r)).
Proof.
  intros Hs Hpls Hguard H. unfold solve_map_frame in H.
  rewrite Hs, Hguard in H.
  set (h0 := upd_tempo (heap m) section _) in *.
  pose proof (solve_map_frame_loop_anchored section (metrics m) h0 None
                                            None) as Hloop.
  destruct (solve_map_frame_loop _ _ _ _ _ _) as [h1 section_prev].
  simpl in Hloop.
  match type of H with
  | context [sort_by_frame (mkMemory ?h _)] => set (h2 := h) in *
  end.
  assert (H12 : heap_rel tempo_anchored eq h1 h2).
  { unfold h2. destruct section_prev as [sp|];
      [|apply heap_rel_refl; rel_side].
    destruct (nth_tempo h1 sp) as [section_prev|] eqn:Esp;
      [|apply heap_rel_refl; rel_side].
    destruct (nth_tempo h1 section) as [s1|] eqn:Es1;
      [|apply heap_rel_refl; rel_side].
    assert (Hc : forall c, heap_rel tempo_anchored eq h1
                             (upd_tempo h1 sp (TempoSection.set_c_func c))).
    { intros c. apply heap_rel_upd_tempo; try rel_side.
      intros t0 _. kept. }
    destruct (negb (TempoSection.locked_to_meter s1)) eqn:El; [|apply Hc].
    apply negb_true_iff in El.
    eapply heap_rel_upd_tempo_after; try rel_side; [apply Hc|].
    intros t0 H0. apply nth_tempo_upd_tempo_cases in H0 as (t1 & H1 & Ht).
    assert (t1 = s1) by congruence. subst t1.
    (* the section is still audio-locked *)
    assert (Hp1 : TempoSection.position_lock_style s1 = AudioTime).
    { destruct (heap_rel_nth_tempo_inv _ Hloop Es1) as (s0 & Hs0 & Rs0).
      unfold h0 in Hs0. rewrite nth_tempo_upd_tempo_eq, Hs in Hs0.
      simpl in Hs0. inversion Hs0; subst s0. clear Hs0.
      destruct Rs0 as ((_ & _ & _ & Hp & _) & _). simpl in Hp. congruence. }
    destruct Ht as [->| ->]; kept. }
  destruct (recompute_tempi _ _) as [m1|] eqn:Er; [|discriminate].
  apply recompute_tempi_anchored in Er as [El Rr]. simpl in El, Rr.
  destruct (check_solved _ _) as [solved|]; [|discriminate].
  inversion H; subst; clear H. simpl. split.
  - rewrite El. symmetry. apply list_sort_perm.
  - eapply heap_rel_trans; try rel_side; [exact Hloop|].
    eapply heap_rel_trans; try rel_side; [exact H12 | exact Rr].
Qed.

Lemma solve_map_pulse_anchored (m : Memory) (section : nat) (pulse : float)
      (s : TempoSection.t) (r : bool * Memory) :
  nth_tempo (heap m) section = Some s ->
  TempoSection.position_lock_style s = MusicTime ->
  solve_map_pulse _frame_rate m section pulse = Some r ->
  Permutation (metrics m) (metrics (snd r))
  /\ heap_rel tempo_anchored eq
       (upd_tempo (heap m) section (TempoSection.set_pulse pulse))
       (heap (snd r)).
Proof.
  intros Hs Hpls H. unfold solve_map_pulse in H. rewrite Hs in H.
  set (h0 := upd_tempo (heap m) section _) in *.
  pose proof (solve_map_pulse_loop_anchored section (metrics m) h0 None
                                            None) as Hloop.
  destruct (solve_map_pulse_loop _ _ _ _ _ _) as [h1 section_prev].
  simpl in Hloop.
  match type of H with
  | context [sort_by_pulse (mkMemory ?h _)] => set (h2 := h) in *
  end.
  assert (H12 : heap_rel tempo_anchored eq h1 h2).
  { unfold h2. destruct section_prev as [sp|];
      [|apply heap_rel_refl; rel_side].
    destruct (nth_tempo h1 sp) as [section_prev|] eqn:Esp;
      [|apply heap_rel_refl; rel_side].
    destruct (nth_tempo h1 section) as [s1|] eqn:Es1;
      [|apply heap_rel_refl; rel_side].
    assert (Hc : forall c, heap_rel tempo_anchored eq h1
                             (upd_tempo h1 sp (TempoSection.set_c_func c))).
    { intros c. apply heap_rel_upd_tempo; try rel_side.
      intros t0 _. kept. }
    eapply heap_rel_upd_tempo_after; try rel_side; [apply Hc|].
    intros t0 H0. apply nth_tempo_upd_tempo_cases in H0 as (t1 & H1 & Ht).
    assert (t1 = s1) by congruence. subst t1.
    assert (Hp1 : TempoSection.position_lock_style s1 = MusicTime).
    { destruct (heap_rel_nth_tempo_inv _ Hloop Es1) as (s0 & Hs0 & Rs0).
      unfold h0 in Hs0. rewrite nth_tempo_upd_tempo_eq, Hs in Hs0.
      simpl in Hs0. inversion Hs0; subst s0. clear Hs0.
      destruct Rs0 as ((_ & _ & _ & Hp & _) & _). simpl in Hp. congruence. }
    destruct Ht as [->| ->]; kept. }
  destruct (recompute_tempi _ _) as [m1|] eqn:Er; [|discriminate].
  apply recompute_tempi_anchored in Er as [El Rr]. simpl in El, Rr.
  destruct (check_solved _ _) as [solved|]; [|discriminate].
  inversion H; subst; clear H. simpl. split.
  - rewrite El. symmetry. apply list_sort_perm.
  - eapply heap_rel_trans; try rel_side; [exact Hloop|].
    eapply heap_rel_trans; try rel_side; [exact H12 | exact Rr].
Qed.
End Solver.

Section PassesKeep.
Context {L : Libm}.
Variable _frame_rate : Z.

(** X1: recompute_tempi leaves the list and the meter sections as they are;
    in a tempo section it changes neither the tempo, the type, the lock
    style nor a flag, neither the frame when the section is audio-locked
    nor the pulse when it can move and is music-locked or locked to a
    meter. *)
Theorem recompute_tempi_keeps_anchors (m m' : Memory) :
  recompute_tempi _frame_rate m = Some m' ->
  metrics m' = metrics m
  /\ Forall2 (section_rel tempo_anchored eq) (sections m) (sections m').
Proof.
  intros H. apply recompute_tempi_anchored in H as [Hl Hr].
  split; [exact Hl|]. unfold sections. rewrite Hl.
  now apply heap_rel_view.
Qed.

(** X2: recompute_meters leaves the list as it is; it keeps the meter, the
    lock style and the movability of every meter section, and the frame
    of an audio-locked one; of a tempo section it changes at most the
    pulse, and nothing when the section can move and is not locked to a
    meter. *)
Theorem recompute_meters_keeps_anchors (m m' : Memory) :
  recompute_meters _frame_rate m = Some m' ->
  metrics m' = metrics m
  /\ Forall2 (section_rel tempo_but_pulse meter_anchored)
             (sections m) (sections m').
Proof.
  intros H. apply recompute_meters_kept in H as [Hl Hr].
  split; [exact Hl|]. unfold sections. rewrite Hl.
  now apply heap_rel_view.
Qed.

(** X3: recompute_map never moves an audio-locked section, tempo or meter, to
    another frame, and changes no tempo, meter, type, lock style or flag;
    the list is left as it is. *)
Theorem recompute_map_keeps_audio_frames (m m' : Memory) :
  recompute_map _frame_rate m = Some m' ->
  metrics m' = metrics m
  /\ Forall2 (section_rel tempo_audio_anchored meter_anchored)
             (sections m) (sections m').
Proof.
  intros H. apply recompute_map_kept in H as [Hl Hr].
  split; [exact Hl|]. unfold sections. rewrite Hl.
  now apply heap_rel_view.
Qed.

(** X4: solve_map_frame, when it does not refuse the frame, leaves an
    audio-locked section active at the frame it was asked for, with its
    tempo; meter sections are untouched and every other audio-locked
    tempo section keeps its frame. *)
Theorem solve_map_frame_places_section (m : Memory) (section : nat)
        (frame : Z) (s : TempoSection.t) (r : bool * Memory) :
  nth_tempo (heap m) section = Some s ->
  TempoSection.position_lock_style s = AudioTime ->
  TempoSection.movable s && (frame <=? first_m_frame (sections m))%Z
  = false ->
  solve_map_frame _frame_rate m section frame = Some r ->
  Permutation (metrics m) (metrics (snd r))
  /\ (exists s',
        nth_tempo (heap (snd r)) section = Some s'
        /\ TempoSection.frame s' = frame
        /\ TempoSection.active s' = true
        /\ TempoSection.beats_per_minute s'
           = TempoSection.beats_per_minute s
        /\ TempoSection.note_type s' = TempoSection.note_type s)
  /\ (forall a mt, nth_meter (heap m) a = Some mt ->
                   nth_meter (heap (snd r)) a = Some mt)
  /\ (forall a t,
        a <> section -> nth_tempo (heap m) a = Some t ->
        TempoSection.position_lock_style t = AudioTime ->
        exists t', nth_tempo (heap (snd r)) a = Some t'
                   /\ TempoSection.frame t' = TempoSection.frame t).
Proof.
  intros Hs Hpls Hg H.
  destruct (@solve_map_frame_anchored _ _ _ _ _ _ _ Hs Hpls Hg H) as [Hp Hr].
  split; [exact Hp|]. split; [|split].
  - assert (H0 : nth_tempo
                   (upd_tempo (heap m) section
                      (fun s => TempoSection.set_frame frame
                                  (TempoSection.set_active true s)))
                   section
                 = Some (TempoSection.set_frame frame
                           (TempoSection.set_active true s)))
      by (now rewrite nth_tempo_upd_tempo_eq, Hs).
    destruct (heap_rel_nth_tempo _ Hr H0) as (s' & Hs' & R).
    exists s'. split; [exact Hs'|]. revert R. kept.
  - intros a mt Ha.
    assert (H0 : nth_meter
                   (upd_tempo (heap m) section
                      (fun s => TempoSection.set_frame frame
                                  (TempoSection.set_active true s))) a
                 = Some mt) by (now rewrite nth_meter_upd_tempo).
    destruct (heap_rel_nth_meter _ Hr H0) as (mt' & Hm' & <-). exact Hm'.
  - intros a t Ha Ht Hpt.
    assert (H0 : nth_tempo
                   (upd_tempo (heap m) section
                      (fun s => TempoSection.set_frame frame
                                  (TempoSection.set_active true s))) a
                 = Some t)
      by (now rewrite nth_tempo_upd_tempo_neq by congruence).
    destruct (heap_rel_nth_tempo _ Hr H0) as (t' & Ht' & R).
    exists t'. split; [exact Ht'|]. revert R. kept.
Qed.

(** X5: solve_map_pulse leaves a music-locked section that can move at the
    pulse it was asked for, with its tempo; meter sections are untouched
    and every audio-locked tempo section keeps its frame. *)
Theorem solve_map_pulse_places_section (m : Memory) (section : nat)
        (pulse : float) (s : TempoSection.t) (r : bool * Memory) :
  nth_tempo (heap m) section = Some s ->
  TempoSection.position_lock_style s = MusicTime ->
  TempoSection.movable s = true ->
  solve_map_pulse _frame_rate m section pulse = Some r ->
  Permutation (metrics m) (metrics (snd r))
  /\ (exists s',
        nth_tempo (heap (snd r)) section = Some s'
        /\ TempoSection.pulse s' = pulse
        /\ TempoSection.beats_per_minute s'
           = TempoSection.beats_per_minute s
        /\ TempoSection.note_type s' = TempoSection.note_type s)
  /\ (forall a mt, nth_meter (heap m) a = Some mt ->
                   nth_meter (heap (snd r)) a = Some mt)
  /\ (forall a t,
        nth_tempo (heap m) a = Some t ->
        TempoSection.position_lock_style t = AudioTime ->
        exists t', nth_tempo (heap (snd r)) a = Some t'
                   /\ TempoSection.frame t' = TempoSection.frame t).
Proof.
  intros Hs Hpls Hmv H.
  destruct (@solve_map_pulse_anchored _ _ _ _ _ _ _ Hs Hpls H) as [Hp Hr].
  split; [exact Hp|]. split; [|split].
  - assert (H0 : nth_tempo
                   (upd_tempo (heap m) section
                              (TempoSection.set_pulse pulse)) section
                 = Some (TempoSection.set_pulse pulse s))
      by (now rewrite nth_tempo_upd_tempo_eq, Hs).
    destruct (heap_rel_nth_tempo _ Hr H0) as (s' & Hs' & R).
    exists s'. split; [exact Hs'|]. revert R. kept.
  - intros a mt Ha.
    assert (H0 : nth_meter
                   (upd_tempo (heap m) section
                              (TempoSection.set_pulse pulse)) a
                 = Some mt) by (now rewrite nth_meter_upd_tempo).
    destruct (heap_rel_nth_meter _ Hr H0) as (mt' & Hm' & <-). exact Hm'.
  - intros a t Ha Hpt.
    destruct (Nat.eq_dec a section) as [->|Hne]; [congruence|].
    assert (H0 : nth_tempo
                   (upd_tempo (heap m) section
                              (TempoSection.set_pulse pulse)) a
                 = Some t)
      by (now rewrite nth_tempo_upd_tempo_neq by congruence).
    destruct (heap_rel_nth_tempo _ Hr H0) as (t' & Ht' & R).
    exists t'. split; [exact Ht'|]. revert R. kept.
Qed.
End PassesKeep.

Lemma recompute_tempi_keeps_anchors_witness :
  exists m',
    recompute_tempi (L := SampleLibm.libm) 48000 two_tempo_map = Some m'
    /\ metrics m' = metrics two_tempo_map
    /\ Forall2 (section_rel tempo_anchored eq)
               (sections two_tempo_map) (sections m').
Proof.
  destruct (recompute_tempi (L := SampleLibm.libm) 48000 two_tempo_map)
    as [m'|] eqn:H.
  - exists m'. split; [reflexivity|].
    exact (@recompute_tempi_keeps_anchors _ _ _ _ H).
  - vm_compute in H. discriminate H.
Defined.

Lemma recompute_meters_keeps_anchors_witness :
  exists m',
    recompute_meters (L := SampleLibm.libm) 48000 late_start_map = Some m'
    /\ metrics m' = metrics late_start_map
    /\ Forall2 (section_rel tempo_but_pulse meter_anchored)
               (sections late_start_map) (sections m').
Proof.
  destruct (recompute_meters (L := SampleLibm.libm) 48000 late_start_map)
    as [m'|] eqn:H.
  - exists m'. split; [reflexivity|].
    exact (@recompute_meters_keeps_anchors _ _ _ _ H).
  - vm_compute in H. discriminate H.
Defined.

Lemma recompute_map_keeps_audio_frames_witness :
  exists m',
    recompute_map (L := SampleLibm.libm) 48000 audio_tempo_map = Some m'
    /\ metrics m' = metrics audio_tempo_map
    /\ Forall2 (section_rel tempo_audio_anchored meter_anchored)
               (sections audio_tempo_map) (sections m').
Proof.
  destruct (recompute_map (L := SampleLibm.libm) 48000 audio_tempo_map)
    as [m'|] eqn:H.
  - exists m'. split; [reflexivity|].
    exact (@recompute_map_keeps_audio_frames _ _ _ _ H).
  - vm_compute in H. discriminate H.
Defined.

Lemma solve_map_frame_places_section_witness :
  exists r s',
    solve_map_frame (L := SampleLibm.libm) 48000 audio_tempo_map 2 300000
    = Some r
    /\ nth_tempo (heap (snd r)) 2 = Some s'
    /\ TempoSection.frame s' = 300000%Z
    /\ TempoSection.active s' = true.
Proof.
  destruct (solve_map_frame (L := SampleLibm.libm) 48000 audio_tempo_map 2
                            300000) as [r|] eqn:H.
  - destruct (@solve_map_frame_places_section SampleLibm.libm 48000
                audio_tempo_map 2 300000
                (TempoSection.mk 3 288000 AudioTime true 240 4
                                 TempoSection.Constant 0 true false)
                r eq_refl eq_refl eq_refl H)
      as (_ & (s' & Hs' & Hf & Ha & _) & _).
    exists r, s'. repeat split; assumption.
  - vm_compute in H. discriminate H.
Defined.

Lemma solve_map_pulse_places_section_witness :
  exists r s',
    solve_map_pulse (L := SampleLibm.libm) 48000 two_tempo_map 2 4 = Some r
    /\ nth_tempo (heap (snd r)) 2 = Some s'
    /\ TempoSection.pulse s' = 4%float.
Proof.
  destruct (solve_map_pulse (L := SampleLibm.libm) 48000 two_tempo_map 2 4)
    as [r|] eqn:H.
  - destruct (@solve_map_pulse_places_section SampleLibm.libm 48000
                two_tempo_map 2 4
                (TempoSection.mk 3 288000 MusicTime true 240 4
                                 TempoSection.Constant 0 true false)
                r eq_refl eq_refl eq_refl H)
      as (_ & (s' & Hs' & Hp & _) & _).
    exists r, s'. repeat split; assumption.
  - vm_compute in H. discriminate H.
Defined.

(** ** The edits of the GUI and the removal of a tempo section *)

Lemma n_tempos_shapes (ms : Metrics) :
  n_tempos ms = Z.of_nat (length (filter is_tempo_shape (map shape ms))).
Proof.
  induction ms as [|[t|m] ms IH]; cbn [n_tempos Section_.is_tempo]; auto.
  simpl. rewrite IH. lia.
Qed.

Lemma n_meters_shapes (ms : Metrics) :
  n_meters ms
  = Z.of_nat (length (filter (fun s => negb (is_tempo_shape s))
                             (map shape ms))).
Proof.
  induction ms as [|[t|m] ms IH]; cbn [n_meters Section_.is_tempo]; auto.
  simpl. rewrite IH. lia.
Qed.

Lemma same_sections (m m' : Memory) :
  same m m' ->
  Permutation (map shape (sections m)) (map shape (sections m')).
Proof.
  intros [Hs Hp]. unfold sections. rewrite !shapes_view, Hs.
  unfold shapes_at. now apply Permutation_flat_map.
Qed.

Section GuiEdits.
Context {L : Libm}.
Variable _frame_rate : Z.

(** X6: A mutator of the GUI (gui_move_tempo, gui_move_meter,
    gui_change_tempo, gui_dilate_tempo), whether it accepts the edit or
    not, neither adds nor removes a section: the list holds the same
    pointers, the sections are of the same kind and can move or not as
    before, and n_tempos and n_meters are what they were. *)
Theorem gui_edit_keeps_sections (m m' : Memory) :
  gui_edit _frame_rate m m' ->
  Permutation (metrics m) (metrics m')
  /\ Permutation (map shape (sections m)) (map shape (sections m'))
  /\ n_tempos (sections m') = n_tempos (sections m)
  /\ n_meters (sections m') = n_meters (sections m).
Proof.
  intros H.
  assert (S : same m m').
  { destruct H as [ts frame sub_num b H | ms frame b H | ts bpm b H
                  | ts frame end_frame pulse b H].
    - apply same_gui_move_tempo in H. exact H.
    - apply same_gui_move_meter in H. exact H.
    - apply same_gui_change_tempo in H. exact H.
    - apply same_gui_dilate_tempo in H. exact H. }
  pose proof (same_sections S) as P.
  split; [apply S|]. split; [exact P|].
  rewrite !n_tempos_shapes, !n_meters_shapes.
  split; f_equal; symmetry; apply Permutation_length;
    now apply filter_perm.
Qed.
End GuiEdits.

Lemma gui_edit_keeps_sections_witness :
  exists m',
    gui_edit (L := SampleLibm.libm) 48000 two_tempo_map m'
    /\ n_tempos (sections m') = 2%Z /\ n_meters (sections m') = 1%Z.
Proof.
  destruct (gui_move_tempo (L := SampleLibm.libm) 48000 two_tempo_map 2
                           300000 0) as [[b m']|] eqn:H.
  - exists m'.
    assert (E : gui_edit (L := SampleLibm.libm) 48000 two_tempo_map m')
      by (eapply edit_move_tempo; exact H).
    split; [exact E|].
    destruct (gui_edit_keeps_sections E) as (_ & _ & Ht & Hm).
    split; [exact Ht | exact Hm].
  - vm_compute in H. discriminate H.
Defined.

Lemma remove_tempo_loop_some (h : Heap) (frame : Z) (l l' : list nat) :
  remove_tempo_loop h l frame = Some l' ->
  exists l1 a l2,
    l = l1 ++ a :: l2 /\ l' = l1 ++ l2
    /\ movable_tempo_at h frame a = true
    /\ forallb (fun b => negb (movable_tempo_at h frame b)) l1 = true.
Proof.
  revert l'. induction l as [|a l IH]; intros l' H; simpl in H;
    [discriminate|].
  unfold movable_tempo_at in *.
  destruct (nth_tempo h a) as [t|] eqn:Ea.
  - destruct ((frame =? TempoSection.frame t)%Z && TempoSection.movable t)
      eqn:Et.
    + inversion H; subst. exists [], a, l'. simpl. rewrite Ea.
      repeat split; auto.
    + destruct (remove_tempo_loop h l frame) as [l0|]; [|discriminate].
      inversion H; subst.
      destruct (IH l0 eq_refl) as (l1 & b & l2 & -> & -> & Hb & Hl).
      exists (a :: l1), b, l2. simpl. rewrite Ea, Et. simpl.
      repeat split; auto.
  - destruct (remove_tempo_loop h l frame) as [l0|]; [|discriminate].
    inversion H; subst.
    destruct (IH l0 eq_refl) as (l1 & b & l2 & -> & -> & Hb & Hl).
    exists (a :: l1), b, l2. simpl. rewrite Ea. simpl.
    repeat split; auto.
Qed.

Lemma remove_tempo_loop_none (h : Heap) (frame : Z) (l : list nat) :
  remove_tempo_loop h l frame = None ->
  forallb (fun b => negb (movable_tempo_at h frame b)) l = true.
Proof.
  induction l as [|a l IH]; intros H; simpl in *; auto.
  unfold movable_tempo_at in *.
  destruct (nth_tempo h a) as [t|] eqn:Ea.
  - destruct ((frame =? TempoSection.frame t)%Z && TempoSection.movable t);
      [discriminate|].
    destruct (remove_tempo_loop h l frame); [discriminate|]. simpl. auto.
  - destruct (remove_tempo_loop h l frame); [discriminate|]. simpl. auto.
Qed.

(** X7: remove_tempo_locked unlinks the first tempo section of the list that
    lies at the frame of its argument and can move, and no other; when
    there is none it returns false and the map is untouched.  No section is
    changed, and the tempo section that cannot move is never removed. *)
Theorem remove_tempo_locked_first_match (m : Memory) (tempo : TempoSection.t) :
  heap (snd (remove_tempo_locked m tempo)) = heap m
  /\ (fst (remove_tempo_locked m tempo) = true ->
      exists l1 a l2,
        metrics m = l1 ++ a :: l2
        /\ metrics (snd (remove_tempo_locked m tempo)) = l1 ++ l2
        /\ movable_tempo_at (heap m) (TempoSection.frame tempo) a = true
        /\ forallb
             (fun b =>
                negb (movable_tempo_at (heap m) (TempoSection.frame tempo) b))
             l1 = true)
  /\ (fst (remove_tempo_locked m tempo) = false ->
      snd (remove_tempo_locked m tempo) = m
      /\ forallb
           (fun b =>
              negb (movable_tempo_at (heap m) (TempoSection.frame tempo) b))
           (metrics m) = true).
Proof.
  unfold remove_tempo_locked.
  destruct (remove_tempo_loop _ _ _) as [l'|] eqn:E; simpl.
  - split; [reflexivity|]. split; [|discriminate].
    intros _. apply remove_tempo_loop_some in E.
    destruct E as (l1 & a & l2 & E1 & E2 & Ha & Hl).
    exists l1, a, l2. auto.
  - split; [reflexivity|]. split; [discriminate|].
    intros _. split; [reflexivity|]. now apply remove_tempo_loop_none.
Qed.

(** ** add_tempo *)

Ltac feed :=
  repeat match goal with
         | H : ?A -> _ |- _ =>
             let X := fresh in
             assert (X : A)
               by (first [congruence | left; congruence | right; congruence]);
             specialize (H X); clear X
         end.

Ltac kept_chain :=
  unfold tempo_anchored, tempo_but_pulse, tempo_audio_anchored, same_tempo,
    meter_anchored in *;
  simpl in *; intros;
  repeat match goal with H : _ /\ _ |- _ => destruct H end;
  feed; repeat split; intros; feed; congruence.

Lemma do_insert_tempo_match_spec (ins : TempoSection.t) (l : list nat) :
  forall h h' l' need_add,
    do_insert_tempo_match ins h l = (h', l', need_add) ->
    (forall b t, nth_tempo h b = Some t -> TempoSection.movable t = true ->
                 nth_tempo h' b = Some t)
    /\ (need_add = true -> h' = h)
    /\ (need_add = false ->
        exists a s0,
          In a l' /\ nth_tempo h' a = Some s0
          /\ TempoSection.movable s0 = false
          /\ TempoSection.beats_per_minute s0
             = TempoSection.beats_per_minute ins
          /\ TempoSection.note_type s0 = TempoSection.note_type ins
          /\ TempoSection.type s0 = TempoSection.type ins).
Proof.
  induction l as [|a l IH]; intros h h' l' need_add H;
    cbn [do_insert_tempo_match] in H.
  - inversion H; subst. repeat split; auto. discriminate.
  - destruct (nth_tempo h a) as [tempo|] eqn:Ea.
    + match type of H with
      | (if ?c then _ else _) = _ => destruct c
      end.
      * destruct (negb (TempoSection.movable tempo)) eqn:Em.
        -- inversion H; subst; clear H.
           apply negb_true_iff in Em. split; [|split].
           ++ intros b t Hb Hmv.
              destruct (Nat.eq_dec a b) as [->|Hab]; [congruence|].
              now rewrite nth_tempo_upd_tempo_neq.
           ++ discriminate.
           ++ intros _. eexists a, _. split; [now left|].
              rewrite nth_tempo_upd_tempo_eq, Ea. simpl.
              split; [reflexivity|]. simpl. auto.
        -- inversion H; subst; clear H. repeat split; auto. discriminate.
      * destruct (do_insert_tempo_match ins h l) as [[h1 l1] na] eqn:E.
        inversion H; subst; clear H.
        destruct (IH _ _ _ _ E) as (H1 & H2 & H3).
        split; [exact H1|]. split; [exact H2|].
        intros Hn. destruct (H3 Hn) as (b & s0 & Hb & Hs).
        exists b, s0. split; [now right | exact Hs].
    + destruct (do_insert_tempo_match ins h l) as [[h1 l1] na] eqn:E.
      inversion H; subst; clear H.
      destruct (IH _ _ _ _ E) as (H1 & H2 & H3).
      split; [exact H1|]. split; [exact H2|].
      intros Hn. destruct (H3 Hn) as (b & s0 & Hb & Hs).
      exists b, s0. split; [now right | exact Hs].
Qed.

Lemma insert_tempo_ptr_in (ins : TempoSection.t) (section : nat) (h : Heap)
      (l : list nat) :
  In section (insert_tempo_ptr ins section h l).
Proof.
  apply (Permutation_in _ (insert_tempo_ptr_perm ins section h l)).
  now left.
Qed.

Section AddTempo.
Context {L : Libm}.
Variable _frame_rate : Z.

(** What the passes that follow an insertion leave of a section: the
    tempo, and the position on the side it is locked to. *)
Lemma passes_keep_tempo (m m1 m2 : Memory) (solved : bool) :
  recompute_meters _frame_rate m = Some m1 ->
  (if negb solved then recompute_map _frame_rate m1 else Some m1)
  = Some m2 ->
  metrics m2 = metrics m
  /\ forall a s,
      nth_tempo (heap m) a = Some s ->
      exists s',
        nth_tempo (heap m2) a = Some s' /\ same_tempo s s'
        /\ (TempoSection.position_lock_style s = AudioTime ->
            TempoSection.frame s' = TempoSection.frame s)
        /\ (TempoSection.movable s = true ->
            TempoSection.locked_to_meter s = false ->
            TempoSection.position_lock_style s = MusicTime ->
            TempoSection.pulse s' = TempoSection.pulse s).
Proof.
  intros H1 H2.
  apply recompute_meters_kept in H1 as [L1 R1].
  destruct solved; simpl in H2.
  - inversion H2; subst. split; [exact L1|].
    intros a s Ha. destruct (heap_rel_nth_tempo _ R1 Ha) as (s' & Hs' & R).
    exists s'. split; [exact Hs'|]. revert R. kept.
  - unfold recompute_map in H2.
    destruct (recompute_tempi _ m1) as [m3|] eqn:E3; [|discriminate].
    apply recompute_tempi_anchored in E3 as [L3 R3].
    apply recompute_meters_kept in H2 as [L2 R2].
    split; [congruence|].
    intros a s Ha.
    destruct (heap_rel_nth_tempo _ R1 Ha) as (s1 & Hs1 & Q1).
    destruct (heap_rel_nth_tempo _ R3 Hs1) as (s3 & Hs3 & Q3).
    destruct (heap_rel_nth_tempo _ R2 Hs3) as (s2 & Hs2 & Q2).
    exists s2. split; [exact Hs2|]. clear - Q1 Q3 Q2. kept_chain.
Qed.

(** X8: add_tempo returns a pointer to a section it has made; as the call
    leaves it, the section has the tempo, the type and the lock style
    asked for, it can move and is active, and it lies at the frame asked
    for when it is audio-locked and at the pulse asked for when it is
    music-locked.  It is in the list, unless the tempo section that
    cannot move stood at its position and took the tempo and the type
    instead. *)
Theorem add_tempo_places_section (m m' : Memory) (tempo : Tempo.t)
        (pulse : float) (frame : Z) (ty : TempoSection.Type_)
        (pls : PositionLockStyle) (t : nat) :
  add_tempo _frame_rate m tempo pulse frame ty pls = Some (t, m') ->
  t = length (heap m)
  /\ (exists s,
        nth_tempo (heap m') t = Some s
        /\ TempoSection.beats_per_minute s = Tempo.beats_per_minute tempo
        /\ TempoSection.note_type s = Tempo.note_type tempo
        /\ TempoSection.type s = ty
        /\ TempoSection.position_lock_style s = pls
        /\ TempoSection.movable s = true
        /\ TempoSection.active s = true
        /\ (pls = AudioTime -> TempoSection.frame s = frame)
        /\ (pls = MusicTime -> TempoSection.pulse s = pulse))
  /\ (In t (metrics m')
      \/ exists a s0,
          In a (metrics m') /\ nth_tempo (heap m') a = Some s0
          /\ TempoSection.movable s0 = false
          /\ TempoSection.beats_per_minute s0
             = Tempo.beats_per_minute tempo
          /\ TempoSection.note_type s0 = Tempo.note_type tempo
          /\ TempoSection.type s0 = ty).
Proof.
  unfold add_tempo, add_tempo_locked, add_tempo_locked_solved, alloc.
  intros H.
  set (new := TempoSection.set_locked_to_meter false
                (TempoSection.new pulse frame (Tempo.beats_per_minute tempo)
                   (Tempo.note_type tempo) ty pls)) in *.
  set (h0 := heap m ++ [IsTempo new]) in *.
  assert (Hnew : nth_tempo h0 (length (heap m)) = Some new).
  { unfold nth_tempo, h0.
    now rewrite nth_error_app2, Nat.sub_diag by auto. }
  destruct (do_insert _ _) as [m0|] eqn:E0; [|discriminate].
  (* the insertion *)
  assert (I0 : nth_tempo (heap m0) (length (heap m)) = Some new
               /\ (In (length (heap m)) (metrics m0)
                   \/ exists a s0,
                       In a (metrics m0) /\ nth_tempo (heap m0) a = Some s0
                       /\ TempoSection.movable s0 = false
                       /\ TempoSection.beats_per_minute s0
                          = Tempo.beats_per_minute tempo
                       /\ TempoSection.note_type s0 = Tempo.note_type tempo
                       /\ TempoSection.type s0 = ty)).
  { unfold do_insert in E0. cbn [heap metrics with_heap] in E0.
    unfold nth_tempo in Hnew.
    destruct (nth_error h0 (length (heap m))) as [[x|x]|]; try discriminate.
    inversion Hnew; subst x. cbn in E0.
    destruct (do_insert_tempo_match new h0 (metrics m)) as [[h1 l1] na]
      eqn:E.
    inversion E0; subst m0; clear E0. cbn [heap metrics].
    destruct (do_insert_tempo_match_spec _ _ _ E) as (H1 & H2 & H3).
    split.
    - apply H1; [|reflexivity]. unfold nth_tempo, h0.
      now rewrite nth_error_app2, Nat.sub_diag by auto.
    - destruct na.
      + left. apply insert_tempo_ptr_in.
      + right. exact (H3 eq_refl). }
  destruct I0 as [Hn0 Hin0].
  cbn [option_map] in H.
  match type of H with
  | option_map _ (match ?x with _ => _ end) = _ =>
      destruct x as [[solved m1]|] eqn:E1; [|discriminate]
  end.
  destruct (recompute_meters _ m1) as [m2|] eqn:E2; [|discriminate].
  match type of H with
  | option_map _ ?x = _ =>
      assert (E3 : (if negb solved then recompute_map _frame_rate m2
                    else Some m2) = Some m'
                   /\ t = length (heap m))
  end.
  { destruct (negb solved).
    - destruct (recompute_map _ m2); [|discriminate].
      inversion H; subst; auto.
    - inversion H; subst; auto. }
  clear H. destruct E3 as [E3 ->].
  destruct (@passes_keep_tempo _ _ _ _ E2 E3) as [Lm K].
  (* the solver *)
  assert (S1 : Permutation (metrics m0) (metrics m1)
               /\ (exists s1,
                     nth_tempo (heap m1) (length (heap m)) = Some s1
                     /\ same_tempo new s1
                     /\ (pls = AudioTime -> TempoSection.frame s1 = frame)
                     /\ (pls = MusicTime -> TempoSection.pulse s1 = pulse))
               /\ forall a s0,
                   nth_tempo (heap m0) a = Some s0 ->
                   TempoSection.movable s0 = false ->
                   exists s1, nth_tempo (heap m1) a = Some s1
                              /\ same_tempo s0 s1).
  { destruct pls; cbn [pls_eqb] in E1.
    - (* AudioTime *)
      destruct (TempoSection.movable new
                && (frame <=? first_m_frame (sections m0))%Z) eqn:G.
      + unfold solve_map_frame in E1. rewrite Hn0, G in E1.
        inversion E1; subst. split; [reflexivity|]. split.
        * exists new. split; [exact Hn0|].
          split; [apply same_tempo_refl|]. split; auto.
        * intros a s0 Ha _. exists s0. split; [exact Ha|].
          apply same_tempo_refl.
      + destruct (@solve_map_frame_anchored _ _ _ _ _ _ _ Hn0 eq_refl G E1)
          as [P R]. cbn [snd] in *.
        split; [exact P|]. split.
        * assert (H0 : nth_tempo
                         (upd_tempo (heap m0) (length (heap m))
                            (fun s => TempoSection.set_frame frame
                                        (TempoSection.set_active true s)))
                         (length (heap m))
                       = Some (TempoSection.set_frame frame
                                 (TempoSection.set_active true new)))
            by (now rewrite nth_tempo_upd_tempo_eq, Hn0).
          destruct (heap_rel_nth_tempo _ R H0) as (s1 & Hs1 & Q).
          exists s1. split; [exact Hs1|]. revert Q. kept.
        * intros a s0 Ha Hmv.
          assert (Hne : length (heap m) <> a).
          { intros <-. rewrite Hn0 in Ha. inversion Ha; subst.
            discriminate Hmv. }
          assert (H0 : nth_tempo
                         (upd_tempo (heap m0) (length (heap m))
                            (fun s => TempoSection.set_frame frame
                                        (TempoSection.set_active true s)))
                         a = Some s0)
            by (now rewrite nth_tempo_upd_tempo_neq).
          destruct (heap_rel_nth_tempo _ R H0) as (s1 & Hs1 & Q).
          exists s1. split; [exact Hs1|]. revert Q. kept.
    - (* MusicTime *)
      destruct (@solve_map_pulse_anchored _ _ _ _ _ _ _ Hn0 eq_refl E1)
        as [P R]. cbn [snd] in *.
      split; [exact P|]. split.
      * assert (H0 : nth_tempo
                       (upd_tempo (heap m0) (length (heap m))
                                  (TempoSection.set_pulse pulse))
                       (length (heap m))
                     = Some (TempoSection.set_pulse pulse new))
          by (now rewrite nth_tempo_upd_tempo_eq, Hn0).
        destruct (heap_rel_nth_tempo _ R H0) as (s1 & Hs1 & Q).
        exists s1. split; [exact Hs1|]. revert Q. kept.
      * intros a s0 Ha Hmv.
        assert (Hne : length (heap m) <> a).
        { intros <-. rewrite Hn0 in Ha. inversion Ha; subst.
          discriminate Hmv. }
        assert (H0 : nth_tempo
                       (upd_tempo (heap m0) (length (heap m))
                                  (TempoSection.set_pulse pulse)) a
                     = Some s0)
          by (now rewrite nth_tempo_upd_tempo_neq).
        destruct (heap_rel_nth_tempo _ R H0) as (s1 & Hs1 & Q).
        exists s1. split; [exact Hs1|]. revert Q. kept. }
  destruct S1 as (P1 & (s1 & Hs1 & Q1 & Qf & Qp) & O1).
  split; [reflexivity|]. split.
  - destruct (K _ _ Hs1) as (s & Hs & Q & Kf & Kp).
    exists s. split; [exact Hs|].
    clear - Q Q1 Qf Qp Kf Kp. subst new. kept_chain.
  - rewrite Lm. destruct Hin0 as [Hin|(a & s0 & Hin & Ha & Hmv & Hb)].
    + left. now apply (Permutation_in _ P1).
    + right. destruct (O1 _ _ Ha Hmv) as (s1' & Hs1' & Q).
      destruct (K _ _ Hs1') as (s & Hs & Q' & _).
      exists a, s. split; [now apply (Permutation_in _ P1)|].
      split; [exact Hs|]. clear - Q Q' Hmv Hb. kept_chain.
Qed.
End AddTempo.

Lemma add_tempo_places_section_witness :
  exists t m' s,
    add_tempo (L := SampleLibm.libm) 48000 two_tempo_map (Tempo.mk 90 4) 0
              600000 TempoSection.Constant AudioTime = Some (t, m')
    /\ nth_tempo (heap m') t = Some s
    /\ TempoSection.frame s = 600000%Z
    /\ TempoSection.beats_per_minute s = 90%float.
Proof.
  destruct (add_tempo (L := SampleLibm.libm) 48000 two_tempo_map
                      (Tempo.mk 90 4) 0 600000 TempoSection.Constant
                      AudioTime) as [[t m']|] eqn:H.
  - destruct (add_tempo_places_section _ _ _ _ _ _ _ H)
      as (_ & (s & Hs & Hb & _ & _ & _ & _ & _ & Hf & _) & _).
    exists t, m', s. repeat split; auto.
  - vm_compute in H. discriminate H.
Defined.

(** ** change_initial_tempo and change_existing_tempo_at *)

Lemma first_active_tempo_ptr_some (h : Heap) (l : list nat) (a : nat) :
  first_active_tempo_ptr h l = Some a ->
  exists l1 l2 t,
    l = l1 ++ a :: l2 /\ nth_tempo h a = Some t
    /\ TempoSection.active t = true
    /\ forall b s, In b l1 -> nth_tempo h b = Some s ->
                   TempoSection.active s = false.
Proof.
  induction l as [|b l IH]; simpl; [discriminate|]. intros H.
  destruct (nth_tempo h b) as [t|] eqn:Eb.
  - destruct (TempoSection.active t) eqn:Ea; simpl in H.
    + inversion H; subst. exists [], l, t. simpl. repeat split; auto.
      intros ? ? [].
    + destruct (IH H) as (l1 & l2 & t' & -> & Ht & Hact & Hl).
      exists (b :: l1), l2, t'. repeat split; auto.
      intros c s [<-|Hc] Hs; [congruence | eauto].
  - destruct (IH H) as (l1 & l2 & t' & -> & Ht & Hact & Hl).
    exists (b :: l1), l2, t'. repeat split; auto.
    intros c s [<-|Hc] Hs; [congruence | eauto].
Qed.

Lemma first_active_tempo_ptr_none (h : Heap) (l : list nat) :
  first_active_tempo_ptr h l = None <-> has_active_tempo (view h l) = false.
Proof.
  induction l as [|b l IH]; simpl; [tauto|].
  unfold nth_tempo.
  destruct (nth_error h b) as [[t|mt]|]; simpl; auto.
  destruct (TempoSection.active t); simpl; auto. split; discriminate.
Qed.

Lemma tempo_preceding_some (h : Heap) (l : list nat) (where_ : Z) :
  forall prev a,
    tempo_preceding h l where_ prev = Some a ->
    prev = Some a
    \/ exists t, In a l /\ nth_tempo h a = Some t
                 /\ TempoSection.active t = true
                 /\ (TempoSection.frame t <= where_)%Z.
Proof.
  induction l as [|b l IH]; intros prev a H; simpl in H; auto.
  destruct (nth_error h b) as [s|] eqn:Eb.
  - destruct (where_ <? Section_.frame s)%Z eqn:Ew; auto.
    destruct s as [t|mt].
    + destruct (TempoSection.active t) eqn:Ea; simpl in H.
      * destruct (IH _ _ H) as [E|(t' & Hin & Ht & Hact & Hf)].
        -- inversion E; subst. right. exists t. unfold nth_tempo.
           rewrite Eb. simpl in Ew. apply Z.ltb_ge in Ew.
           repeat split; auto. now left.
        -- right. exists t'. repeat split; auto. now right.
      * destruct (IH _ _ H) as [E|(t' & Hin & Ht & Hact & Hf)]; auto.
        right. exists t'. repeat split; auto. now right.
    + destruct (IH _ _ H) as [E|(t' & Hin & Ht & Hact & Hf)]; auto.
      right. exists t'. repeat split; auto. now right.
  - destruct (IH _ _ H) as [E|(t' & Hin & Ht & Hact & Hf)]; auto.
    right. exists t'. repeat split; auto. now right.
Qed.

Lemma tempo_preceding_late (h : Heap) (l : list nat) (where_ : Z) s rest :
  view h l = s :: rest -> (where_ < Section_.frame s)%Z ->
  tempo_preceding h l where_ None = None.
Proof.
  induction l as [|b l IH]; simpl; [discriminate|]. intros Hv Hw.
  destruct (nth_error h b) as [s0|] eqn:Eb; [|now apply IH].
  inversion Hv; subst. apply Z.ltb_lt in Hw. now rewrite Hw.
Qed.

Section ChangeTempo.
Context {L : Libm}.
Variable _frame_rate : Z.

(** A tempo written to one section, and the map recomputed. *)
Lemma set_tempo_recompute (m m' : Memory) (a : nat) (t : TempoSection.t)
      (newtempo : Tempo.t) :
  nth_tempo (heap m) a = Some t ->
  recompute_map _frame_rate
    (with_heap m (upd_tempo (heap m) a (TempoSection.set_tempo newtempo)))
  = Some m' ->
  metrics m' = metrics m
  /\ (exists t',
        nth_tempo (heap m') a = Some t'
        /\ TempoSection.beats_per_minute t'
           = Tempo.beats_per_minute newtempo
        /\ TempoSection.note_type t' = Tempo.note_type newtempo
        /\ TempoSection.type t' = TempoSection.type t
        /\ TempoSection.position_lock_style t'
           = TempoSection.position_lock_style t
        /\ TempoSection.movable t' = TempoSection.movable t
        /\ TempoSection.active t' = TempoSection.active t
        /\ (TempoSection.position_lock_style t = AudioTime ->
            TempoSection.frame t' = TempoSection.frame t))
  /\ (forall b s, b <> a -> nth_tempo (heap m) b = Some s ->
                  exists s', nth_tempo (heap m') b = Some s'
                             /\ tempo_audio_anchored s s')
  /\ (forall b mt, nth_meter (heap m) b = Some mt ->
                   exists mt', nth_meter (heap m') b = Some mt'
                               /\ meter_anchored mt mt').
Proof.
  intros Ha H. apply recompute_map_kept in H as [Hl R].
  cbn [heap metrics with_heap] in *.
  split; [exact Hl|]. split; [|split].
  - assert (H0 : nth_tempo
                   (upd_tempo (heap m) a (TempoSection.set_tempo newtempo))
                   a = Some (TempoSection.set_tempo newtempo t))
      by (now rewrite nth_tempo_upd_tempo_eq, Ha).
    destruct (heap_rel_nth_tempo _ R H0) as (t' & Ht' & Q).
    exists t'. split; [exact Ht'|]. revert Q. kept.
  - intros b s Hne Hb.
    assert (H0 : nth_tempo
                   (upd_tempo (heap m) a (TempoSection.set_tempo newtempo))
                   b = Some s)
      by (now rewrite nth_tempo_upd_tempo_neq by congruence).
    exact (heap_rel_nth_tempo _ R H0).
  - intros b mt Hb.
    assert (H0 : nth_meter
                   (upd_tempo (heap m) a (TempoSection.set_tempo newtempo))
                   b = Some mt) by (now rewrite nth_meter_upd_tempo).
    exact (heap_rel_nth_meter _ R H0).
Qed.

(** X9: change_initial_tempo gives the first active tempo section of the list
    the tempo it is given and recomputes the map: that section keeps its
    type, its lock style and its flags, and its frame when it is
    audio-locked; no other section changes its tempo or meter, its lock
    style or a flag, nor its frame when it is audio-locked; the list is
    left as it is.  A map without an active tempo section is left
    untouched. *)
Theorem change_initial_tempo_sets_first (m m' : Memory)
        (beats_per_minute note_type : float) :
  change_initial_tempo _frame_rate m beats_per_minute note_type = Some m' ->
  metrics m' = metrics m
  /\ (has_active_tempo (sections m) = false -> m' = m)
  /\ (has_active_tempo (sections m) = true ->
      exists l1 a l2 t t',
        metrics m = l1 ++ a :: l2
        /\ (forall b s, In b l1 -> nth_tempo (heap m) b = Some s ->
                        TempoSection.active s = false)
        /\ nth_tempo (heap m) a = Some t
        /\ TempoSection.active t = true
        /\ nth_tempo (heap m') a = Some t'
        /\ TempoSection.beats_per_minute t' = beats_per_minute
        /\ TempoSection.note_type t' = note_type
        /\ TempoSection.type t' = TempoSection.type t
        /\ TempoSection.position_lock_style t'
           = TempoSection.position_lock_style t
        /\ TempoSection.movable t' = TempoSection.movable t
        /\ TempoSection.active t' = true
        /\ (TempoSection.position_lock_style t = AudioTime ->
            TempoSection.frame t' = TempoSection.frame t)
        /\ (forall b s, b <> a -> nth_tempo (heap m) b = Some s ->
                        exists s', nth_tempo (heap m') b = Some s'
                                   /\ tempo_audio_anchored s s')
        /\ (forall b mt, nth_meter (heap m) b = Some mt ->
                         exists mt', nth_meter (heap m') b = Some mt'
                                     /\ meter_anchored mt mt')).
Proof.
  unfold change_initial_tempo. intros H.
  destruct (first_active_tempo_ptr (heap m) (metrics m)) as [a|] eqn:E.
  - destruct (first_active_tempo_ptr_some _ _ E)
      as (l1 & l2 & t & Hl & Ht & Hact & Hbefore).
    destruct (@set_tempo_recompute _ _ _ _ _ Ht H)
      as (Hm & (t' & Ht' & Hb & Hn & Hty & Hp & Hmv & Ha & Hf) & Ho & Hme).
    split; [exact Hm|]. split.
    + intros Hno. apply first_active_tempo_ptr_none in Hno. congruence.
    + intros _. exists l1, a, l2, t, t'. simpl in *.
      repeat (split; [assumption || congruence|]). exact Hme.
  - inversion H; subst. split; [reflexivity|]. split; [reflexivity|].
    intros Hyes. apply first_active_tempo_ptr_none in E.
    unfold sections in Hyes. congruence.
Qed.

(** X10: change_existing_tempo_at gives the tempo to an active tempo section of
    the list that does not lie after [where], or changes nothing at all:
    the section it writes keeps its type, lock style and flags, and its
    frame when it is audio-locked, and no other section changes its tempo
    or meter.  When the first section of the list lies after [where] the
    map is left untouched: the first tempo section is not fallen back
    on. *)
Theorem change_existing_tempo_at_sets_preceding (m m' : Memory)
        (where_ : Z) (beats_per_minute note_type : float) :
  change_existing_tempo_at _frame_rate m where_ beats_per_minute note_type
  = Some m' ->
  metrics m' = metrics m
  /\ (forall s rest, sections m = s :: rest ->
                     (where_ < Section_.frame s)%Z -> m' = m)
  /\ (m' = m
      \/ exists a t t',
          In a (metrics m)
          /\ nth_tempo (heap m) a = Some t
          /\ TempoSection.active t = true
          /\ (TempoSection.frame t <= where_)%Z
          /\ nth_tempo (heap m') a = Some t'
          /\ TempoSection.beats_per_minute t' = beats_per_minute
          /\ TempoSection.note_type t' = note_type
          /\ TempoSection.type t' = TempoSection.type t
          /\ TempoSection.position_lock_style t'
             = TempoSection.position_lock_style t
          /\ TempoSection.movable t' = TempoSection.movable t
          /\ TempoSection.active t' = true
          /\ (TempoSection.position_lock_style t = AudioTime ->
              TempoSection.frame t' = TempoSection.frame t)
          /\ (forall b s, b <> a -> nth_tempo (heap m) b = Some s ->
                          exists s', nth_tempo (heap m') b = Some s'
                                     /\ tempo_audio_anchored s s')
          /\ (forall b mt, nth_meter (heap m) b = Some mt ->
                           exists mt', nth_meter (heap m') b = Some mt'
                                       /\ meter_anchored mt mt')).
Proof.
  unfold change_existing_tempo_at. intros H.
  destruct (tempo_preceding (heap m) (metrics m) where_ None) as [a|] eqn:E.
  - destruct (tempo_preceding_some _ _ _ _ E)
      as [E0|(t & Hin & Ht & Hact & Hfr)]; [discriminate|].
    destruct (@set_tempo_recompute _ _ _ _ _ Ht H)
      as (Hm & (t' & Ht' & Hb & Hn & Hty & Hp & Hmv & Ha & Hf) & Ho & Hme).
    split; [exact Hm|]. split.
    + intros s rest Hs Hw.
      rewrite (@tempo_preceding_late _ _ _ _ _ Hs Hw) in E. discriminate.
    + right. exists a, t, t'. simpl in *.
      repeat (split; [assumption || congruence|]). exact Hme.
  - inversion H; subst. split; [reflexivity|]. split; auto.
Qed.
End ChangeTempo.

(** ** remove_time *)

Lemma remove_time_loop_still (where_ amount : Z) (idx : list nat) :
  forall st,
    Forall (fun s => (Section_.frame s < where_)%Z) (view (rt_heap st) idx) ->
    remove_time_loop where_ amount idx st = st.
Proof.
  induction idx as [|a idx IH]; intros st H; simpl in *; auto.
  destruct (nth_error (rt_heap st) a) as [s|]; [|now apply IH].
  inversion H as [|? ? Hs Hrest]; subst.
  assert (E : (where_ <=? Section_.frame s)%Z = false)
    by (apply Z.leb_gt; exact Hs).
  rewrite E. simpl. now apply IH.
Qed.

Lemma remove_time_loop_mono (where_ amount : Z) (idx : list nat) :
  forall st,
    moved st = true \/ metric_kill_list st <> [] ->
    moved (remove_time_loop where_ amount idx st) = true
    \/ metric_kill_list (remove_time_loop where_ amount idx st) <> [].
Proof.
  induction idx as [|a idx IH]; intros st H; simpl; auto.
  destruct (nth_error (rt_heap st) a) as [s|]; [|now apply IH].
  destruct ((where_ <=? Section_.frame s)%Z
            && (Section_.frame s <? where_ + amount)%Z).
  - apply IH. simpl. right. destruct (metric_kill_list st); discriminate.
  - destruct (where_ <=? Section_.frame s)%Z; [|now apply IH].
    destruct (Section_.frame s - amount =? where_)%Z; apply IH; simpl; auto.
Qed.

Lemma remove_time_loop_moves (where_ amount : Z) (idx : list nat) :
  forall st,
    existsb (fun s => (where_ <=? Section_.frame s)%Z) (view (rt_heap st) idx)
    = true ->
    moved (remove_time_loop where_ amount idx st) = true
    \/ metric_kill_list (remove_time_loop where_ amount idx st) <> [].
Proof.
  induction idx as [|a idx IH]; intros st H; simpl in *; [discriminate|].
  destruct (nth_error (rt_heap st) a) as [s|]; [|now apply IH].
  simpl in H.
  destruct (where_ <=? Section_.frame s)%Z eqn:E; simpl in *.
  - destruct (Section_.frame s <? where_ + amount)%Z.
    + apply remove_time_loop_mono. simpl. right.
      destruct (metric_kill_list st); discriminate.
    + destruct (Section_.frame s - amount =? where_)%Z;
        apply remove_time_loop_mono; simpl; auto.
  - now apply IH.
Qed.

Lemma existsb_not_forall {A} (p : A -> bool) (P : A -> Prop) (l : list A) :
  (forall x, p x = false <-> P x) ->
  existsb p l = false <-> Forall P l.
Proof.
  intros Hp. induction l as [|x l IH]; simpl.
  - split; auto.
  - rewrite orb_false_iff, IH, Hp. split.
    + intros [? ?]. now constructor.
    + intros H. inversion H; subst. auto.
Qed.

Section RemoveTime.
Context {L : Libm}.
Variable _frame_rate : Z.

(** X11: remove_time returns false exactly when every section of the list
    lies before [where], and then the map is left untouched: nothing is
    removed, nothing is moved and nothing is recomputed. *)
Theorem remove_time_false_iff (m m' : Memory) (where_ amount : Z)
        (moved_ : bool) :
  remove_time _frame_rate m where_ amount = Some (moved_, m') ->
  (moved_ = false
   <-> Forall (fun s => (Section_.frame s < where_)%Z) (sections m))
  /\ (moved_ = false -> m' = m).
Proof.
  unfold remove_time, remove_time_edit. intros H.
  set (st0 := mkRemoveTime (heap m) [] None None false false false) in *.
  destruct (existsb (fun s => (where_ <=? Section_.frame s)%Z)
                    (sections m)) eqn:E.
  - (* a section at or after [where] *)
    assert (Hm : moved_ = true).
    { pose proof (@remove_time_loop_moves where_ amount (metrics m) st0 E)
        as Hl.
      destruct (remove_time_loop where_ amount (metrics m) st0)
        as [h kill lt lm ta ma mv]. simpl in *.
      destruct lt as [lt|]; [destruct (negb ta)|];
        (destruct lm as [lm|]; [destruct (negb ma)|]);
        simpl in H;
        repeat match type of H with
               | context [match ?k with [] => _ | _ :: _ => _ end] =>
                   destruct k eqn:?
               end;
        try (destruct mv; [|destruct Hl; [discriminate|congruence]]);
        simpl in H;
        try (destruct (recompute_map _ _); [|discriminate]);
        inversion H; reflexivity. }
    subst. split; [|discriminate]. split; [discriminate|].
    intros F.
    apply (existsb_not_forall
             (fun s => (where_ <=? Section_.frame s)%Z)
             (fun s => (Section_.frame s < where_)%Z)) in F.
    + unfold sections in *. congruence.
    + intros s. apply Z.leb_gt.
  - assert (F : Forall (fun s => (Section_.frame s < where_)%Z)
                       (sections m)).
    { apply (existsb_not_forall
               (fun s => (where_ <=? Section_.frame s)%Z)); auto.
      intros s. apply Z.leb_gt. }
    rewrite (@remove_time_loop_still where_ amount (metrics m) st0 F) in H.
    simpl in H. inversion H; subst. destruct m; simpl. split; [|auto].
    split; auto.
Qed.
End RemoveTime.

Lemma heap_rel_nth RT RM (h h' : Heap) (a : nat) (s : MetricSection) :
  heap_rel RT RM h h' -> nth_error h a = Some s ->
  exists s', nth_error h' a = Some s' /\ section_rel RT RM s s'.
Proof.
  intros H Ha. specialize (H a). rewrite Ha in H.
  destruct s as [t|mt], (nth_error h' a) as [[t'|mt']|];
    try contradiction; eexists; split; eauto.
Qed.

Lemma existsb_eqb_in (b : nat) (l : list nat) :
  existsb (Nat.eqb b) l = true <-> In b l.
Proof.
  rewrite existsb_exists. split.
  - intros (x & Hx & E). apply Nat.eqb_eq in E. now subst.
  - intros H. exists b. split; auto. apply Nat.eqb_refl.
Qed.

Lemma existsb_eqb_not_in (b : nat) (l : list nat) :
  ~ In b l -> existsb (Nat.eqb b) l = false.
Proof.
  intros H. destruct (existsb (Nat.eqb b) l) eqn:E; auto.
  apply existsb_eqb_in in E. contradiction.
Qed.

Lemma in_cut_at_ext (h h' : Heap) (where_ amount : Z) (l : list nat) :
  (forall b, In b l -> nth_error h' b = nth_error h b) ->
  filter (in_cut_at h' where_ amount) l = filter (in_cut_at h where_ amount) l.
Proof.
  intros H. apply filter_ext_in. intros b Hb. unfold in_cut_at.
  now rewrite H.
Qed.

(** The first loop of remove_time, on a list of distinct pointers. *)
Lemma remove_time_loop_spec (where_ amount : Z) (idx : list nat) :
  forall st,
    NoDup idx ->
    (forall b,
        nth_error (rt_heap (remove_time_loop where_ amount idx st)) b
        = if existsb (Nat.eqb b) idx
          then option_map (cut_section where_ amount)
                          (nth_error (rt_heap st) b)
          else nth_error (rt_heap st) b)
    /\ metric_kill_list (remove_time_loop where_ amount idx st)
       = metric_kill_list st
           ++ filter (in_cut_at (rt_heap st) where_ amount) idx
    /\ (last_tempo (remove_time_loop where_ amount idx st) = last_tempo st
        \/ exists a t,
            last_tempo (remove_time_loop where_ amount idx st) = Some a
            /\ In a idx /\ nth_error (rt_heap st) a = Some (IsTempo t)
            /\ in_cut where_ amount (IsTempo t) = true)
    /\ (last_meter (remove_time_loop where_ amount idx st) = last_meter st
        \/ exists a mt,
            last_meter (remove_time_loop where_ amount idx st) = Some a
            /\ In a idx /\ nth_error (rt_heap st) a = Some (IsMeter mt)
            /\ in_cut where_ amount (IsMeter mt) = true).
Proof.
  induction idx as [|a idx IH]; intros st ND.
  - simpl. rewrite app_nil_r. repeat split; auto.
  - inversion ND as [|? ? Hna ND']; subst.
    cbn [remove_time_loop].
    destruct (nth_error (rt_heap st) a) as [s|] eqn:Ea.
    + fold (in_cut where_ amount s).
      destruct (in_cut where_ amount s) eqn:Ec.
      * (* in the range *)
        match goal with
        | |- context [remove_time_loop _ _ idx ?s1] =>
            destruct (IH s1 ND') as (Hh & Hk & Ht & Hm)
        end.
        cbn [rt_heap metric_kill_list last_tempo last_meter] in *.
        split; [|split; [|split]].
        -- intros b. rewrite Hh. simpl.
           destruct (Nat.eqb b a) eqn:Eb; simpl; auto.
           apply Nat.eqb_eq in Eb. subst b.
           rewrite (@existsb_eqb_not_in _ _ Hna), Ea. simpl.
           unfold cut_section. now rewrite Ec.
        -- rewrite Hk. simpl. unfold in_cut_at at 2. rewrite Ea, Ec.
           now rewrite <- app_assoc.
        -- destruct Ht as [Ht|(a0 & t & Ht & Hin & Hn & Hc)].
           ++ rewrite Ht. destruct s as [t|mt]; simpl; auto.
              right. exists a, t. repeat split; auto; now left.
           ++ right. exists a0, t. repeat split; auto; now right.
        -- destruct Hm as [Hm|(a0 & mt & Hm & Hin & Hn & Hc)].
           ++ rewrite Hm. destruct s as [t|mt]; simpl; auto.
              right. exists a, mt. repeat split; auto; now left.
           ++ right. exists a0, mt. repeat split; auto; now right.
      * destruct (where_ <=? Section_.frame s)%Z eqn:Ew.
        -- (* after the range *)
           assert (Hrest : forall b, In b idx ->
                     nth_error
                       (update_at (rt_heap st) a
                          (set_section_frame (Section_.frame s - amount))) b
                     = nth_error (rt_heap st) b).
           { intros b Hb. apply nth_error_update_at_neq. congruence. }
           assert (G : forall st1,
                      rt_heap st1
                      = update_at (rt_heap st) a
                          (set_section_frame (Section_.frame s - amount)) ->
                      metric_kill_list st1 = metric_kill_list st ->
                      last_tempo st1 = last_tempo st ->
                      last_meter st1 = last_meter st ->
                      (forall b,
                          nth_error
                            (rt_heap (remove_time_loop where_ amount idx st1))
                            b
                          = if existsb (Nat.eqb b) (a :: idx)
                            then option_map (cut_section where_ amount)
                                            (nth_error (rt_heap st) b)
                            else nth_error (rt_heap st) b)
                      /\ metric_kill_list
                           (remove_time_loop where_ amount idx st1)
                         = metric_kill_list st
                             ++ filter (in_cut_at (rt_heap st) where_ amount)
                                       (a :: idx)
                      /\ (last_tempo (remove_time_loop where_ amount idx st1)
                          = last_tempo st
                          \/ exists a0 t,
                              last_tempo
                                (remove_time_loop where_ amount idx st1)
                              = Some a0
                              /\ In a0 (a :: idx)
                              /\ nth_error (rt_heap st) a0 = Some (IsTempo t)
                              /\ in_cut where_ amount (IsTempo t) = true)
                      /\ (last_meter (remove_time_loop where_ amount idx st1)
                          = last_meter st
                          \/ exists a0 mt,
                              last_meter
                                (remove_time_loop where_ amount idx st1)
                              = Some a0
                              /\ In a0 (a :: idx)
                              /\ nth_error (rt_heap st) a0 = Some (IsMeter mt)
                              /\ in_cut where_ amount (IsMeter mt) = true)).
           { intros st1 E1 E2 E3 E4.
             destruct (IH st1 ND') as (Hh & Hk & Ht & Hm).
             rewrite E1 in *. rewrite E2, E3, E4 in *.
             split; [|split; [|split]].
             - intros b. rewrite Hh. simpl.
               destruct (Nat.eqb b a) eqn:Eb; simpl.
               + apply Nat.eqb_eq in Eb. subst b.
                 rewrite (@existsb_eqb_not_in _ _ Hna).
                 rewrite nth_error_update_at_eq, Ea. simpl.
                 unfold cut_section. now rewrite Ec, Ew.
               + apply Nat.eqb_neq in Eb.
                 rewrite nth_error_update_at_neq by congruence.
                 reflexivity.
             - rewrite Hk. simpl. unfold in_cut_at at 2. rewrite Ea, Ec.
               f_equal. now apply in_cut_at_ext.
             - destruct Ht as [Ht|(a0 & t & Ht & Hin & Hn & Hc)]; auto.
               right. exists a0, t. rewrite Hrest in Hn by assumption.
               repeat split; auto; now right.
             - destruct Hm as [Hm|(a0 & mt & Hm & Hin & Hn & Hc)]; auto.
               right. exists a0, mt. rewrite Hrest in Hn by assumption.
               repeat split; auto; now right. }
           destruct (Section_.frame s - amount =? where_)%Z;
             apply G; reflexivity.
        -- (* before the range *)
           destruct (IH st ND') as (Hh & Hk & Ht & Hm).
           split; [|split; [|split]].
           ++ intros b. rewrite Hh. simpl.
              destruct (Nat.eqb b a) eqn:Eb; simpl; auto.
              apply Nat.eqb_eq in Eb. subst b.
              rewrite (@existsb_eqb_not_in _ _ Hna), Ea. simpl.
              unfold cut_section. now rewrite Ec, Ew.
           ++ rewrite Hk. simpl. unfold in_cut_at at 2.
              now rewrite Ea, Ec.
           ++ destruct Ht as [Ht|(a0 & t & Ht & Hin & Hn & Hc)]; auto.
              right. exists a0, t. repeat split; auto; now right.
           ++ destruct Hm as [Hm|(a0 & mt & Hm & Hin & Hn & Hc)]; auto.
              right. exists a0, mt. repeat split; auto; now right.
    + destruct (IH st ND') as (Hh & Hk & Ht & Hm).
      split; [|split; [|split]].
      * intros b. rewrite Hh. simpl.
        destruct (Nat.eqb b a) eqn:Eb; simpl; auto.
        apply Nat.eqb_eq in Eb. subst b.
        now rewrite (@existsb_eqb_not_in _ _ Hna), Ea.
      * rewrite Hk. simpl. unfold in_cut_at at 2. now rewrite Ea.
      * destruct Ht as [Ht|(a0 & t & Ht & Hin & Hn & Hc)]; auto.
        right. exists a0, t. repeat split; auto; now right.
      * destruct Hm as [Hm|(a0 & mt & Hm & Hin & Hn & Hc)]; auto.
        right. exists a0, mt. repeat split; auto; now right.
Qed.

Lemma list_remove_in (l : list nat) (a b : nat) :
  In a (list_remove l b) <-> In a l /\ a <> b.
Proof.
  unfold list_remove. rewrite filter_In, negb_true_iff, Nat.eqb_neq.
  reflexivity.
Qed.

Lemma fold_list_remove_in (kill : list nat) :
  forall l a, In a (fold_left list_remove kill l) <-> In a l /\ ~ In a kill.
Proof.
  induction kill as [|k kill IH]; intros l a; simpl.
  - tauto.
  - rewrite IH, list_remove_in. split.
    + intros [[H1 H2] H3]. split; auto. intros [E|E]; auto.
    + intros [H1 H2]. repeat split; auto.
Qed.

(** remove_time up to the call of recompute_map, on a list of distinct
    pointers: a section outside the range stays in the list, moved back
    when it lay after the range; a section of the range that stays is moved
    to [where]. *)
Lemma remove_time_edit_spec (m : Memory) (where_ amount : Z) :
  NoDup (metrics m) ->
  (forall a, In a (metrics (snd (remove_time_edit m where_ amount))) ->
             In a (metrics m))
  /\ (forall a s,
         In a (metrics m) -> nth_error (heap m) a = Some s ->
         in_cut where_ amount s = false ->
         In a (metrics (snd (remove_time_edit m where_ amount)))
         /\ nth_error (heap (snd (remove_time_edit m where_ amount))) a
            = Some (cut_section where_ amount s))
  /\ (forall a s,
         In a (metrics (snd (remove_time_edit m where_ amount))) ->
         nth_error (heap m) a = Some s ->
         in_cut where_ amount s = true ->
         nth_error (heap (snd (remove_time_edit m where_ amount))) a
         = Some (set_section_frame where_ s)).
Proof.
  intros ND.
  set (st0 := mkRemoveTime (heap m) [] None None false false false).
  destruct (@remove_time_loop_spec where_ amount (metrics m) st0 ND)
    as (Hh & Hk & Ht & Hm).
  set (st := remove_time_loop where_ amount (metrics m) st0) in *.
  set (ot := match last_tempo st with
             | Some lt => if negb (tempo_after st) then Some lt else None
             | None => None
             end).
  set (om := match last_meter st with
             | Some lm => if negb (meter_after st) then Some lm else None
             | None => None
             end).
  set (h1 := match ot with
             | Some lt =>
                 upd_tempo (rt_heap st) lt (TempoSection.set_frame where_)
             | None => rt_heap st
             end).
  set (h2 := match om with
             | Some lm => upd_meter h1 lm (MeterSection.set_frame where_)
             | None => h1
             end).
  set (k1 := match ot with
             | Some lt => list_remove (metric_kill_list st) lt
             | None => metric_kill_list st
             end).
  set (k2 := match om with
             | Some lm => list_remove k1 lm
             | None => k1
             end).
  assert (E : snd (remove_time_edit m where_ amount)
              = mkMemory h2 (fold_left list_remove k2 (metrics m))).
  { unfold remove_time_edit. fold st0. fold st.
    unfold h2, k2, h1, k1, ot, om.
    destruct (last_tempo st) as [lt|]; [destruct (negb (tempo_after st))|];
      (destruct (last_meter st) as [lm|];
       [destruct (negb (meter_after st))|]); reflexivity. }
  rewrite E. cbn [heap metrics]. simpl in Hh, Hk, Ht, Hm.
  (* what is known of the two pointers *)
  assert (Tt : forall lt, ot = Some lt ->
                 exists t, In lt (metrics m)
                           /\ nth_error (heap m) lt = Some (IsTempo t)
                           /\ in_cut where_ amount (IsTempo t) = true).
  { intros lt Hot. unfold ot in Hot.
    destruct Ht as [Ht|(a & t & Ht & Hin & Hn & Hc)].
    - rewrite Ht in Hot. discriminate.
    - rewrite Ht in Hot. destruct (negb (tempo_after st)); [|discriminate].
      inversion Hot; subst. eauto. }
  assert (Tm : forall lm, om = Some lm ->
                 exists mt, In lm (metrics m)
                            /\ nth_error (heap m) lm = Some (IsMeter mt)
                            /\ in_cut where_ amount (IsMeter mt) = true).
  { intros lm Hom. unfold om in Hom.
    destruct Hm as [Hm|(a & mt & Hm & Hin & Hn & Hc)].
    - rewrite Hm in Hom. discriminate.
    - rewrite Hm in Hom. destruct (negb (meter_after st)); [|discriminate].
      inversion Hom; subst. eauto. }
  assert (F1 : forall a s, In a (metrics m) ->
                 nth_error (heap m) a = Some s ->
                 nth_error (rt_heap st) a
                 = Some (cut_section where_ amount s)).
  { intros a s Hin Ha. rewrite Hh.
    apply existsb_eqb_in in Hin. now rewrite Hin, Ha. }
  assert (F2 : forall a, In a (metric_kill_list st)
                 <-> In a (metrics m)
                     /\ in_cut_at (heap m) where_ amount a = true).
  { intros a. rewrite Hk. apply filter_In. }
  assert (K2 : forall a, In a k2
                 <-> In a (metric_kill_list st)
                     /\ ot <> Some a /\ om <> Some a).
  { intros a. unfold k2, k1.
    destruct om as [lm|], ot as [lt|]; rewrite ?list_remove_in;
      split; intros; intuition congruence. }
  split; [|split].
  - intros a Ha. apply fold_list_remove_in in Ha. tauto.
  - intros a s Hin Ha Hc.
    assert (Hnk : ~ In a (metric_kill_list st)).
    { rewrite F2. unfold in_cut_at. rewrite Ha. intros [_ X]. congruence. }
    split.
    + apply fold_list_remove_in. split; auto. rewrite K2. tauto.
    + assert (H1 : nth_error h1 a = Some (cut_section where_ amount s)).
      { unfold h1. destruct ot as [lt|] eqn:Eo; [|now apply F1].
        destruct (Tt lt eq_refl) as (t & _ & Hn & Hct).
        unfold upd_tempo. rewrite nth_error_update_at_neq; [now apply F1|].
        intros <-. congruence. }
      unfold h2. destruct om as [lm|] eqn:Eo; [|exact H1].
      destruct (Tm lm eq_refl) as (mt & _ & Hn & Hcm).
      unfold upd_meter. rewrite nth_error_update_at_neq; [exact H1|].
      intros <-. congruence.
  - intros a s Hin' Ha Hc.
    apply fold_list_remove_in in Hin' as [Hin Hnk].
    assert (Hk0 : In a (metric_kill_list st)).
    { rewrite F2. unfold in_cut_at. now rewrite Ha. }
    assert (H0 : nth_error (rt_heap st) a = Some s).
    { rewrite (F1 _ _ Hin Ha). unfold cut_section. now rewrite Hc. }
    rewrite K2 in Hnk.
    destruct ot as [lt|] eqn:Eot.
    + destruct (Tt lt eq_refl) as (t & _ & Hn & Hct).
      destruct (Nat.eq_dec lt a) as [->|Hne].
      * assert (s = IsTempo t) by congruence. subst s.
        assert (H1 : nth_error h1 a
                     = Some (IsTempo (TempoSection.set_frame where_ t))).
        { unfold h1, upd_tempo. now rewrite nth_error_update_at_eq, H0. }
        unfold h2. destruct om as [lm|] eqn:Eo; [|exact H1].
        destruct (Tm lm eq_refl) as (mt & _ & Hnm & Hcm).
        unfold upd_meter. rewrite nth_error_update_at_neq; [exact H1|].
        intros <-. congruence.
      * assert (H1 : nth_error h1 a = Some s).
        { unfold h1, upd_tempo.
          now rewrite nth_error_update_at_neq by assumption. }
        destruct om as [lm|] eqn:Eo.
        -- destruct (Tm lm eq_refl) as (mt & _ & Hnm & Hcm).
           destruct (Nat.eq_dec lm a) as [->|Hne'].
           ++ assert (s = IsMeter mt) by congruence. subst s.
              unfold h2, upd_meter.
              now rewrite nth_error_update_at_eq, H1.
           ++ exfalso. apply Hnk. repeat split; congruence.
        -- exfalso. apply Hnk. repeat split; congruence.
    + assert (H1 : nth_error h1 a = Some s) by exact H0.
      destruct om as [lm|] eqn:Eo.
      * destruct (Tm lm eq_refl) as (mt & _ & Hnm & Hcm).
        destruct (Nat.eq_dec lm a) as [->|Hne'].
        -- assert (s = IsMeter mt) by congruence. subst s.
           unfold h2, upd_meter. now rewrite nth_error_update_at_eq, H1.
        -- exfalso. apply Hnk. repeat split; congruence.
      * exfalso. apply Hnk. repeat split; congruence.
Qed.

Section RemoveTimeCut.
Context {L : Libm}.
Variable _frame_rate : Z.

(** X12: remove_time on a list of distinct pointers.  It only removes
    sections, and only sections of the range [where, where + amount): a
    section outside the range stays in the list, moved back by [amount]
    when it lay after the range, and a section of the range that stays is
    moved to [where].  After that the sections are at most recomputed: an
    audio-locked section keeps the frame it was given, and every section
    keeps its tempo or meter, its lock style and its flags. *)
Theorem remove_time_cuts_range (m m' : Memory) (where_ amount : Z)
        (moved_ : bool) :
  NoDup (metrics m) ->
  remove_time _frame_rate m where_ amount = Some (moved_, m') ->
  (forall a, In a (metrics m') -> In a (metrics m))
  /\ (forall a s,
         In a (metrics m) -> nth_error (heap m) a = Some s ->
         in_cut where_ amount s = false ->
         In a (metrics m')
         /\ exists s',
             nth_error (heap m') a = Some s'
             /\ section_rel tempo_audio_anchored meter_anchored
                            (cut_section where_ amount s) s')
  /\ (forall a s,
         In a (metrics m') -> nth_error (heap m) a = Some s ->
         in_cut where_ amount s = true ->
         exists s',
           nth_error (heap m') a = Some s'
           /\ section_rel tempo_audio_anchored meter_anchored
                          (set_section_frame where_ s) s').
Proof.
  intros ND H. unfold remove_time in H.
  destruct (@remove_time_edit_spec m where_ amount ND) as (S1 & S2 & S3).
  destruct (remove_time_edit m where_ amount) as [mv m1]. simpl in *.
  assert (R : metrics m' = metrics m1
              /\ heap_rel tempo_audio_anchored meter_anchored
                          (heap m1) (heap m')).
  { destruct mv.
    - destruct (recompute_map _ m1) as [m2|] eqn:E; [|discriminate].
      inversion H; subst. now apply recompute_map_kept in E.
    - inversion H; subst. split; [reflexivity|].
      apply heap_rel_refl.
      + apply tempo_audio_anchored_refl.
      + apply meter_anchored_refl. }
  destruct R as [Rl Rh]. rewrite Rl.
  split; [exact S1|]. split.
  - intros a s Hin Ha Hc. destruct (S2 a s Hin Ha Hc) as [Hin' Hn].
    split; [exact Hin'|]. exact (heap_rel_nth _ Rh Hn).
  - intros a s Hin Ha Hc. pose proof (S3 a s Hin Ha Hc) as Hn.
    exact (heap_rel_nth _ Rh Hn).
Qed.
End RemoveTimeCut.

Lemma change_initial_tempo_sets_first_witness :
  exists m',
    change_initial_tempo (L := SampleLibm.libm) 48000 two_tempo_map 90 4
    = Some m'
    /\ metrics m' = metrics two_tempo_map.
Proof.
  destruct (change_initial_tempo (L := SampleLibm.libm) 48000 two_tempo_map
                                 90 4) as [m'|] eqn:H.
  - exists m'. split; [reflexivity|].
    exact (proj1 (change_initial_tempo_sets_first _ _ _ _ H)).
  - vm_compute in H. discriminate H.
Defined.

Lemma change_existing_tempo_at_sets_preceding_witness :
  exists m',
    change_existing_tempo_at (L := SampleLibm.libm) 48000 two_tempo_map (-5)
                             90 4 = Some m'
    /\ m' = two_tempo_map.
Proof.
  destruct (change_existing_tempo_at (L := SampleLibm.libm) 48000
                                     two_tempo_map (-5) 90 4)
    as [m'|] eqn:H.
  - exists m'. split; [reflexivity|].
    destruct (change_existing_tempo_at_sets_preceding _ _ _ _ _ H)
      as (_ & Hlate & _).
    eapply Hlate; [reflexivity|]. simpl. lia.
  - vm_compute in H. discriminate H.
Defined.

Lemma remove_time_false_iff_witness :
  exists m',
    remove_time (L := SampleLibm.libm) 48000 two_tempo_map 400000 1000
    = Some (false, m')
    /\ m' = two_tempo_map.
Proof.
  assert (H : remove_time (L := SampleLibm.libm) 48000 two_tempo_map 400000
                          1000 = Some (false, two_tempo_map))
    by (vm_compute; reflexivity).
  exists two_tempo_map. split; [exact H|].
  exact (proj2 (remove_time_false_iff _ _ _ _ H) eq_refl).
Defined.

Lemma remove_time_cuts_range_witness :
  exists moved_ m',
    remove_time (L := SampleLibm.libm) 48000 audio_tempo_map 100 1000
    = Some (moved_, m')
    /\ In 2%nat (metrics m').
Proof.
  destruct (remove_time (L := SampleLibm.libm) 48000 audio_tempo_map 100
                        1000) as [[moved_ m']|] eqn:H.
  - exists moved_, m'. split; [reflexivity|].
    assert (ND : NoDup (metrics audio_tempo_map)).
    { simpl. repeat constructor; simpl; intuition discriminate. }
    destruct (@remove_time_cuts_range SampleLibm.libm 48000 audio_tempo_map
                m' 100 1000 moved_ ND H) as (_ & Hout & _).
    refine (proj1 (Hout 2%nat _ _ eq_refl eq_refl)).
    simpl. auto.
  - vm_compute in H. discriminate H.
Defined.

(** ** The tempo section that cannot move stays active *)

Lemma active_update_at (h : Heap) (a : nat)
      (f : MetricSection -> MetricSection) :
  (forall s, nth_error h a = Some s -> fixed_active s = true ->
             fixed_active (f s) = true) ->
  fixed_tempi_active h -> fixed_tempi_active (update_at h a f).
Proof.
  unfold fixed_tempi_active. revert a.
  induction h as [|x h IH]; intros [|a] Hf H; simpl in *; auto;
    apply andb_true_iff in H as [Hx Hh]; apply andb_true_iff; split; auto.
Qed.

Lemma active_upd_tempo (h : Heap) (a : nat) f :
  (forall t, nth_tempo h a = Some t ->
             fixed_active (IsTempo t) = true ->
             fixed_active (IsTempo (f t)) = true) ->
  fixed_tempi_active h -> fixed_tempi_active (upd_tempo h a f).
Proof.
  intros Hf. apply active_update_at. intros [t|m] Hn Hs; simpl; auto.
  apply Hf; auto. unfold nth_tempo. now rewrite Hn.
Qed.

Lemma active_upd_meter (h : Heap) (a : nat) f :
  fixed_tempi_active h -> fixed_tempi_active (upd_meter h a f).
Proof.
  apply active_update_at. intros [t|m] Hn Hs; simpl; auto.
Qed.

Lemma active_alloc (h : Heap) (s : MetricSection) :
  fixed_active s = true ->
  fixed_tempi_active h -> fixed_tempi_active (h ++ [s]).
Proof.
  unfold fixed_tempi_active. intros Hs H.
  rewrite forallb_app, H. simpl. now rewrite Hs.
Qed.

Lemma active_nth_tempo (h : Heap) (a : nat) (t : TempoSection.t) :
  fixed_tempi_active h -> nth_tempo h a = Some t ->
  TempoSection.movable t = false -> TempoSection.active t = true.
Proof.
  unfold fixed_tempi_active, nth_tempo. intros H Ha Hm.
  destruct (nth_error h a) as [[t0|m]|] eqn:E; try discriminate.
  inversion Ha; subst. apply nth_error_In in E.
  rewrite forallb_forall in H. specialize (H _ E). simpl in H.
  now rewrite Hm in H.
Qed.

Lemma active_heap_rel RT RM (h h' : Heap) :
  (forall t t', RT t t' -> same_tempo t t') ->
  heap_rel RT RM h h' ->
  fixed_tempi_active h -> fixed_tempi_active h'.
Proof.
  unfold fixed_tempi_active. intros HRT R H.
  apply forallb_forall. intros s' Hin.
  apply In_nth_error in Hin as [a Ha].
  specialize (R a). rewrite Ha in R.
  destruct (nth_error h a) as [s|] eqn:E; [|destruct s'; contradiction].
  apply nth_error_In in E. rewrite forallb_forall in H. specialize (H _ E).
  destruct s as [t|m], s' as [t'|m']; try contradiction; auto.
  apply HRT in R. unfold same_tempo in R. simpl in *.
  destruct R as (_ & _ & _ & _ & Rm & Ra & _). now rewrite Rm, Ra.
Qed.

(** A setter that writes neither [movable] nor [active], or that makes the
    section active. *)
Ltac active_side :=
  let t := fresh "t" in
  intros t ? ?; destruct t; simpl in *;
  first [ assumption | reflexivity | apply orb_true_r ].

Ltac active_upd :=
  repeat first [ assumption
               | apply active_upd_meter
               | apply active_upd_tempo; [active_side|] ].

Ltac active_chain :=
  repeat match goal with
         | I : fixed_tempi_active ?h -> fixed_tempi_active _ |- _ =>
             let P := fresh "P" in
             assert (P : fixed_tempi_active h) by active_upd;
             specialize (I P)
         end;
  active_upd.

Section ActiveOfHeap.
Context {L : Libm}.
Variable _frame_rate : Z.

Lemma active_set_active_tempos_loop (idx : list nat) (frame : Z) :
  forall h,
    fixed_tempi_active h ->
    fixed_tempi_active (snd (set_active_tempos_loop idx h frame)).
Proof.
  induction idx as [|i rest IH]; intros h H; simpl; auto.
  destruct (nth_tempo h i) as [t|] eqn:Ei; auto.
  destruct (negb (TempoSection.movable t)) eqn:Em.
  - apply IH. active_upd.
  - apply negb_false_iff in Em. rewrite Em. simpl.
    repeat match goal with
           | |- context [if ?b then _ else _] => destruct b
           end; simpl; auto; apply IH; auto.
    + apply active_upd_tempo; auto.
      intros t0 Ht0 _. rewrite Ei in Ht0. inversion Ht0; subst.
      simpl. now rewrite Em.
    + active_upd.
Qed.

Lemma active_solve_pair (h : Heap) (p i : nat) :
  fixed_tempi_active h -> fixed_tempi_active (solve_pair _frame_rate h p i).
Proof.
  unfold solve_pair. intros H.
  destruct (nth_tempo h p), (nth_tempo h i); auto.
  destruct (pls_eqb _ _); [|destruct (negb _)]; active_upd.
Qed.

Lemma active_solve_map_frame_loop (section : nat) (idx : list nat) :
  forall h prev_t section_prev,
    fixed_tempi_active h ->
    fixed_tempi_active
      (fst (solve_map_frame_loop _frame_rate section idx h prev_t
                                 section_prev)).
Proof.
  induction idx as [|i rest IH]; intros h prev_t section_prev H; simpl;
    auto.
  destruct (nth_tempo h i) as [t|]; auto.
  destruct (negb (TempoSection.active t)); auto.
  destruct prev_t as [p|]; auto.
  destruct (Nat.eqb i section); auto.
  apply IH. now apply active_solve_pair.
Qed.

Lemma active_solve_map_pulse_loop (section : nat) (idx : list nat) :
  forall h prev_t section_prev,
    fixed_tempi_active h ->
    fixed_tempi_active
      (fst (solve_map_pulse_loop _frame_rate section idx h prev_t
                                 section_prev)).
Proof.
  induction idx as [|i rest IH]; intros h prev_t section_prev H; simpl;
    auto.
  destruct (nth_tempo h i) as [t|]; auto.
  destruct (negb (TempoSection.active t)); auto.
  destruct (negb (TempoSection.movable t)).
  - apply IH. active_upd.
  - destruct prev_t as [p|]; auto.
    destruct (Nat.eqb i section); auto.
    apply IH. now apply active_solve_pair.
Qed.

Lemma active_place_at_bbt (l : list nat) (h : Heap) (section : nat) prev
      when h' :
  place_at_bbt _frame_rate l h section prev when = Some h' ->
  fixed_tempi_active h -> fixed_tempi_active h'.
Proof.
  unfold place_at_bbt. intros H A.
  destruct (frame_at_pulse_locked _ _ _); [|discriminate].
  inversion H; subst. active_upd.
Qed.

Lemma active_solve_map_bbt_loop (l : list nat) (section : nat) when
      (idx : list nat) : forall h prev_m section_prev r,
  solve_map_bbt_loop _frame_rate l section when idx h prev_m section_prev
  = Some r ->
  fixed_tempi_active h -> fixed_tempi_active (snd (fst (fst r))).
Proof.
  induction idx as [|i rest IH]; intros h prev_m section_prev r H A;
    cbn [solve_map_bbt_loop] in H.
  - inversion H; subst; assumption.
  - repeat break_match_hyp H; try discriminate H;
      repeat match goal with
             | E : place_at_bbt _ _ _ _ _ _ = Some _ |- _ =>
                 apply active_place_at_bbt in E; [|assumption]
             end;
      first [ apply IH in H; [exact H | active_upd]
            | inversion H; subst; assumption ].
Qed.
End ActiveOfHeap.

Lemma active_do_insert_tempo_match (ins : TempoSection.t) (l : list nat) :
  forall h h' l' need_add,
    do_insert_tempo_match ins h l = (h', l', need_add) ->
    fixed_tempi_active h -> fixed_tempi_active h'.
Proof.
  induction l as [|a l IH]; intros h h' l' need_add H A;
    cbn [do_insert_tempo_match] in H.
  - now inversion H; subst.
  - repeat break_match_hyp H; try discriminate H;
      inversion H; subst; eauto; active_upd.
Qed.

Lemma active_do_insert_meter_match (ins : MeterSection.t) (l : list nat) :
  forall h h' l' need_add,
    do_insert_meter_match ins h l = (h', l', need_add) ->
    fixed_tempi_active h -> fixed_tempi_active h'.
Proof.
  induction l as [|a l IH]; intros h h' l' need_add H A;
    cbn [do_insert_meter_match] in H.
  - now inversion H; subst.
  - repeat break_match_hyp H; try discriminate H;
      inversion H; subst; eauto; active_upd.
Qed.

Lemma active_do_insert (m m' : Memory) (section : nat) :
  do_insert m section = Some m' ->
  fixed_tempi_active (heap m) -> fixed_tempi_active (heap m').
Proof.
  unfold do_insert. intros H A.
  repeat break_match_hyp H; try discriminate H; inversion H; subst; simpl;
    first [ eapply active_do_insert_tempo_match; eassumption
          | eapply active_do_insert_meter_match; eassumption ].
Qed.

Ltac active_solve :=
  cbn [heap metrics with_heap sort_by_frame sort_by_pulse fst snd] in *;
  active_chain.

Section ActiveOfMemory.
Context {L : Libm}.
Variable _frame_rate : Z.

Lemma active_recompute_tempi (m m' : Memory) :
  recompute_tempi _frame_rate m = Some m' ->
  fixed_tempi_active (heap m) -> fixed_tempi_active (heap m').
Proof.
  intros H. apply recompute_tempi_anchored in H as [_ R].
  apply (active_heap_rel (RT := tempo_anchored) (RM := eq)); auto.
  intros t t' Q. apply Q.
Qed.

Lemma active_recompute_meters (m m' : Memory) :
  recompute_meters _frame_rate m = Some m' ->
  fixed_tempi_active (heap m) -> fixed_tempi_active (heap m').
Proof.
  intros H. apply recompute_meters_kept in H as [_ R].
  apply (active_heap_rel (RT := tempo_but_pulse) (RM := meter_anchored));
    auto.
  intros t t' Q. apply Q.
Qed.

Lemma active_recompute_map (m m' : Memory) :
  recompute_map _frame_rate m = Some m' ->
  fixed_tempi_active (heap m) -> fixed_tempi_active (heap m').
Proof.
  intros H. apply recompute_map_kept in H as [_ R].
  apply (active_heap_rel (RT := tempo_audio_anchored)
                         (RM := meter_anchored)); auto.
  intros t t' Q. apply Q.
Qed.

Ltac active_facts :=
  repeat match goal with
    | E : solve_map_frame_loop _ ?s ?idx ?h ?p ?sp = (_, _) |- _ =>
        let X := fresh "A" in
        pose proof (@active_solve_map_frame_loop _ _frame_rate s idx h p sp)
          as X;
        rewrite E in X; cbn [fst] in X; clear E
    | E : solve_map_pulse_loop _ ?s ?idx ?h ?p ?sp = (_, _) |- _ =>
        let X := fresh "A" in
        pose proof (@active_solve_map_pulse_loop _ _frame_rate s idx h p sp)
          as X;
        rewrite E in X; cbn [fst] in X; clear E
    | E : set_active_tempos_loop ?idx ?h ?f = (_, _) |- _ =>
        let X := fresh "A" in
        pose proof (@active_set_active_tempos_loop idx f h) as X;
        rewrite E in X; cbn [snd] in X; clear E
    | E : place_at_bbt _ _ _ _ _ _ = Some _ |- _ =>
        let X := fresh "A" in
        pose proof (@active_place_at_bbt _ _ _ _ _ _ _ _ E) as X; clear E
    | E : solve_map_bbt_loop _ _ _ _ _ _ _ _ = Some _ |- _ =>
        let X := fresh "A" in
        pose proof (@active_solve_map_bbt_loop _ _ _ _ _ _ _ _ _ _ E) as X; cbn [fst snd] in X; clear E
    | E : recompute_tempi _ _ = Some _ |- _ =>
        let X := fresh "A" in
        pose proof (@active_recompute_tempi _ _ E) as X; clear E
    | E : recompute_meters _ _ = Some _ |- _ =>
        let X := fresh "A" in
        pose proof (@active_recompute_meters _ _ E) as X; clear E
    | E : recompute_map _ _ = Some _ |- _ =>
        let X := fresh "A" in
        pose proof (@active_recompute_map _ _ E) as X; clear E
    | E : do_insert _ _ = Some _ |- _ =>
        let X := fresh "A" in
        pose proof (@active_do_insert _ _ _ E) as X; clear E
    | E : (_, _) = (_, _) |- _ => inversion E; subst; clear E
    | E : Some _ = Some _ |- _ => inversion E; subst; clear E
    end.

Ltac active_basic :=
  repeat (progress (break_matches; active_facts));
  try discriminate;
  active_solve.

Lemma active_set_active_tempos (m : Memory) (frame : Z) :
  fixed_tempi_active (heap m) ->
  fixed_tempi_active (heap (snd (set_active_tempos m frame))).
Proof.
  unfold set_active_tempos. intros A.
  destruct (set_active_tempos_loop _ _ _) eqn:E.
  active_facts. active_solve.
Qed.

Lemma active_solve_map_frame (m : Memory) (section : nat) (frame : Z) r :
  solve_map_frame _frame_rate m section frame = Some r ->
  fixed_tempi_active (heap m) -> fixed_tempi_active (heap (snd r)).
Proof.
  unfold solve_map_frame. intros H A.
  repeat break_match_hyp H; try discriminate H;
    inversion H; subst; clear H; active_basic.
Qed.

Lemma active_solve_map_pulse (m : Memory) (section : nat) (pulse : float)
      r :
  solve_map_pulse _frame_rate m section pulse = Some r ->
  fixed_tempi_active (heap m) -> fixed_tempi_active (heap (snd r)).
Proof.
  unfold solve_map_pulse. intros H A.
  repeat break_match_hyp H; try discriminate H;
    inversion H; subst; clear H; active_basic.
Qed.

Ltac active_solver_facts :=
  repeat match goal with
    | E : solve_map_frame _ _ _ _ = Some _ |- _ =>
        let X := fresh "A" in
        pose proof (@active_solve_map_frame _ _ _ _ E) as X; cbn [snd] in X; clear E
    | E : solve_map_pulse _ _ _ _ = Some _ |- _ =>
        let X := fresh "A" in
        pose proof (@active_solve_map_pulse _ _ _ _ E) as X; cbn [snd] in X; clear E
    | E : set_active_tempos ?m ?f = (_, _) |- _ =>
        let X := fresh "A" in
        pose proof (@active_set_active_tempos m f) as X;
        rewrite E in X; cbn [snd] in X; clear E
    end.

Ltac active_auto :=
  repeat (progress (break_matches; active_facts; active_solver_facts));
  try discriminate;
  active_solve.

Lemma active_solve_map_frame_meter (m : Memory) (section : nat) (frame : Z)
      r :
  solve_map_frame_meter _frame_rate m section frame = Some r ->
  fixed_tempi_active (heap m) -> fixed_tempi_active (heap (snd r)).
Proof.
  unfold solve_map_frame_meter, copy_metrics_and_point. intros H A.
  repeat break_match_hyp H; try discriminate H;
    inversion H; subst; clear H; active_auto.
Qed.

Lemma active_solve_map_bbt (m : Memory) (section : nat) when r :
  solve_map_bbt _frame_rate m section when = Some r ->
  fixed_tempi_active (heap m) -> fixed_tempi_active (heap (snd r)).
Proof.
  unfold solve_map_bbt. intros H A.
  repeat break_match_hyp H; try discriminate H;
    inversion H; subst; clear H; active_auto.
Qed.
End ActiveOfMemory.

Section ActiveOfMutators.
Context {L : Libm}.
Variable _frame_rate : Z.

Ltac active_mutator_facts :=
  repeat match goal with
    | E : recompute_tempi _ _ = Some _ |- _ =>
        let X := fresh "A" in
        pose proof (@active_recompute_tempi _ _ _ _ E) as X; clear E
    | E : recompute_meters _ _ = Some _ |- _ =>
        let X := fresh "A" in
        pose proof (@active_recompute_meters _ _ _ _ E) as X; clear E
    | E : recompute_map _ _ = Some _ |- _ =>
        let X := fresh "A" in
        pose proof (@active_recompute_map _ _ _ _ E) as X; clear E
    | E : do_insert _ _ = Some _ |- _ =>
        let X := fresh "A" in
        pose proof (@active_do_insert _ _ _ E) as X; clear E
    | E : solve_map_frame _ _ _ _ = Some _ |- _ =>
        let X := fresh "A" in
        pose proof (@active_solve_map_frame _ _ _ _ _ _ E) as X; cbn [snd] in X; clear E
    | E : solve_map_pulse _ _ _ _ = Some _ |- _ =>
        let X := fresh "A" in
        pose proof (@active_solve_map_pulse _ _ _ _ _ _ E) as X; cbn [snd] in X; clear E
    | E : solve_map_frame_meter _ _ _ _ = Some _ |- _ =>
        let X := fresh "A" in
        pose proof (@active_solve_map_frame_meter _ _ _ _ _ _ E) as X; cbn [snd] in X; clear E
    | E : solve_map_bbt _ _ _ _ = Some _ |- _ =>
        let X := fresh "A" in
        pose proof (@active_solve_map_bbt _ _ _ _ _ _ E) as X; cbn [snd] in X; clear E
    | E : (_, _) = (_, _) |- _ => inversion E; subst; clear E
    | E : Some _ = Some _ |- _ => inversion E; subst; clear E
    end.

Ltac active_mutator :=
  repeat (progress (break_matches; active_mutator_facts));
  try discriminate;
  active_solve.

Lemma active_add_tempo_locked (m : Memory) tempo pulse frame ty pls
      recompute locked_to_meter r :
  add_tempo_locked _frame_rate m tempo pulse frame ty pls recompute
                   locked_to_meter = Some r ->
  fixed_tempi_active (heap m) -> fixed_tempi_active (heap (snd r)).
Proof.
  unfold add_tempo_locked, add_tempo_locked_solved, alloc. intros H A.
  assert (A0 : fixed_tempi_active
                 (heap m
                  ++ [IsTempo
                        (TempoSection.set_locked_to_meter locked_to_meter
                           (TempoSection.new pulse frame
                              (Tempo.beats_per_minute tempo)
                              (Tempo.note_type tempo) ty pls))]))
    by (apply active_alloc; auto).
  destruct (do_insert _ _) as [m0|] eqn:E; [|discriminate].
  pose proof (@active_do_insert _ _ _ E) as E'.
  cbn [heap with_heap] in E'. specialize (E' A0). clear E A A0.
  cbn [option_map] in H.
  repeat break_match_hyp H; try discriminate H;
    inversion H; subst; clear H; active_mutator.
Qed.

Lemma active_add_meter_locked (m : Memory) meter beat where_ frame pls
      recompute r :
  add_meter_locked _frame_rate m meter beat where_ frame pls recompute
  = Some r ->
  fixed_tempi_active (heap m) -> fixed_tempi_active (heap (snd r)).
Proof.
  unfold add_meter_locked, alloc. intros H A.
  destruct (meter_section_at_frame_locked _ _) as [prev_m|];
    [|discriminate].
  match type of H with
  | context [match ?x with Some _ => _ | None => None end] =>
      destruct x as [m1|] eqn:E1; [|discriminate]
  end.
  assert (A1 : fixed_tempi_active (heap m1)).
  { destruct (pls_eqb pls AudioTime).
    - destruct (tempo_at_frame_locked _ _ _ _); [|discriminate].
      destruct (add_tempo_locked _ _ _ _ _ _ _ _ _) as [r1|] eqn:E;
        [|discriminate].
      inversion E1; subst. eapply active_add_tempo_locked; eauto.
    - inversion E1; subst. exact A. }
  clear E1 A.
  match type of H with
  | context [do_insert (with_heap m1 (heap m1 ++ [?s])) _] =>
      assert (A2 : fixed_tempi_active (heap m1 ++ [s]))
        by (apply active_alloc; auto)
  end.
  destruct (do_insert _ _) as [m2|] eqn:E; [|discriminate].
  pose proof (@active_do_insert _ _ _ E) as E'.
  cbn [heap with_heap] in E'. specialize (E' A2). clear E A1 A2.
  repeat break_match_hyp H; try discriminate H;
    inversion H; subst; clear H; active_mutator.
Qed.

Lemma active_remove_tempo_locked (m : Memory) tempo :
  heap (snd (remove_tempo_locked m tempo)) = heap m.
Proof.
  unfold remove_tempo_locked. destruct (remove_tempo_loop _ _ _);
    reflexivity.
Qed.

Lemma active_remove_meter_locked (m : Memory) meter :
  heap (snd (remove_meter_locked m meter)) = heap m.
Proof.
  unfold remove_meter_locked. destruct (remove_meter_loop _ _ _);
    reflexivity.
Qed.

Lemma active_replace_tempo (m m' : Memory) ts tempo pulse frame ty pls :
  replace_tempo _frame_rate m ts tempo pulse frame ty pls = Some m' ->
  fixed_tempi_active (heap m) -> fixed_tempi_active (heap m').
Proof.
  unfold replace_tempo. intros H A.
  destruct (first_tempo _ _) as [first|]; [|discriminate].
  destruct (nth_tempo _ first) as [first_v|]; [|discriminate].
  destruct (negb _).
  - pose proof (active_remove_tempo_locked m ts) as K.
    destruct (remove_tempo_locked m ts) as [removed m1]. simpl in K.
    destruct (add_tempo_locked _ _ _ _ _ _ _ _ _) as [r|] eqn:E;
      [|discriminate].
    inversion H; subst. eapply active_add_tempo_locked; eauto.
    now rewrite K.
  - active_mutator.
Qed.

Lemma active_replace_meter (m m' : Memory) ms meter where_ frame pls :
  replace_meter _frame_rate m ms meter where_ frame pls = Some m' ->
  fixed_tempi_active (heap m) -> fixed_tempi_active (heap m').
Proof.
  unfold replace_meter. intros H A.
  destruct (beat_at_bbt_locked _ _) as [beat|]; [|discriminate].
  destruct (MeterSection.movable ms).
  - pose proof (active_remove_meter_locked m ms) as K.
    destruct (remove_meter_locked m ms) as [removed m1]. simpl in K.
    destruct (add_meter_locked _ _ _ _ _ _ _ _) as [r|] eqn:E;
      [|discriminate].
    inversion H; subst. eapply active_add_meter_locked; eauto.
    now rewrite K.
  - repeat break_match_hyp H; try discriminate H. active_mutator.
Qed.

Lemma active_remove_tempo (m m' : Memory) tempo complete_operation :
  remove_tempo _frame_rate m tempo complete_operation = Some m' ->
  fixed_tempi_active (heap m) -> fixed_tempi_active (heap m').
Proof.
  unfold remove_tempo. intros H A.
  pose proof (active_remove_tempo_locked m tempo) as K.
  destruct (remove_tempo_locked m tempo) as [removed m1]. simpl in K.
  rewrite <- K in A.
  destruct (_ && _); [active_mutator|]. inversion H; subst. exact A.
Qed.

Lemma active_remove_meter (m m' : Memory) meter complete_operation :
  remove_meter _frame_rate m meter complete_operation = Some m' ->
  fixed_tempi_active (heap m) -> fixed_tempi_active (heap m').
Proof.
  unfold remove_meter. intros H A.
  pose proof (active_remove_meter_locked m meter) as K.
  destruct (remove_meter_locked m meter) as [removed m1]. simpl in K.
  rewrite <- K in A.
  destruct (_ && _); [active_mutator|]. inversion H; subst. exact A.
Qed.

Lemma active_gui_move_tempo (m : Memory) ts frame sub_num r :
  gui_move_tempo _frame_rate m ts frame sub_num = Some r ->
  fixed_tempi_active (heap m) -> fixed_tempi_active (heap (snd r)).
Proof.
  unfold gui_move_tempo, copy_metrics_and_point. intros H A.
  repeat break_match_hyp H; try discriminate H;
    inversion H; subst; clear H; active_mutator.
Qed.

Lemma active_gui_move_meter (m : Memory) ms frame r :
  gui_move_meter _frame_rate m ms frame = Some r ->
  fixed_tempi_active (heap m) -> fixed_tempi_active (heap (snd r)).
Proof.
  unfold gui_move_meter, copy_metrics_and_point_meter. intros H A.
  repeat break_match_hyp H; try discriminate H;
    inversion H; subst; clear H; active_mutator.
Qed.

Lemma active_gui_change_tempo (m : Memory) ts bpm r :
  gui_change_tempo _frame_rate m ts bpm = Some r ->
  fixed_tempi_active (heap m) -> fixed_tempi_active (heap (snd r)).
Proof.
  unfold gui_change_tempo, copy_metrics_and_point. intros H A.
  repeat break_match_hyp H; try discriminate H;
    inversion H; subst; clear H; active_mutator.
Qed.

Lemma active_gui_dilate_tempo (m : Memory) ts frame end_frame pulse r :
  gui_dilate_tempo _frame_rate m ts frame end_frame pulse = Some r ->
  fixed_tempi_active (heap m) -> fixed_tempi_active (heap (snd r)).
Proof.
  unfold gui_dilate_tempo, copy_metrics_and_point. intros H A.
  repeat break_match_hyp H; try discriminate H;
    inversion H; subst; clear H; active_mutator.
Qed.

Lemma active_change_initial_tempo (m m' : Memory) bpm note_type :
  change_initial_tempo _frame_rate m bpm note_type = Some m' ->
  fixed_tempi_active (heap m) -> fixed_tempi_active (heap m').
Proof.
  unfold change_initial_tempo. intros H A.
  repeat break_match_hyp H; try discriminate H; active_mutator.
Qed.

Lemma active_change_existing_tempo_at (m m' : Memory) where_ bpm
      note_type :
  change_existing_tempo_at _frame_rate m where_ bpm note_type = Some m' ->
  fixed_tempi_active (heap m) -> fixed_tempi_active (heap m').
Proof.
  unfold change_existing_tempo_at. intros H A.
  repeat break_match_hyp H; try discriminate H; active_mutator.
Qed.

Lemma active_set_section_frame (h : Heap) (a : nat) (frame : Z) :
  fixed_tempi_active h ->
  fixed_tempi_active (update_at h a (set_section_frame frame)).
Proof.
  apply active_update_at. intros [t|mt] _ H; simpl in *; auto.
Qed.

Lemma active_insert_time_shift (where_ amount : Z) (idx : list nat) :
  forall h,
    fixed_tempi_active h ->
    fixed_tempi_active (insert_time_shift where_ amount idx h).
Proof.
  induction idx as [|a idx IH]; intros h A; simpl; auto.
  apply IH. destruct (nth_error h a) as [s|]; auto.
  destruct (_ && _); auto. now apply active_set_section_frame.
Qed.

Lemma active_insert_time_stamp (l : list nat) (h : Heap) (ts ms : nat)
      (m : option nat) (prev : nat) r :
  insert_time_stamp l h ts ms m prev = Some r ->
  fixed_tempi_active h -> fixed_tempi_active (snd (fst r)).
Proof.
  unfold insert_time_stamp. intros H A.
  repeat break_match_hyp H; try discriminate H;
    inversion H; subst; clear H; simpl; active_upd.
Qed.

Lemma active_insert_time_loop (l idx : list nat) : forall st h',
  insert_time_loop _frame_rate l idx st = Some h' ->
  fixed_tempi_active (it_heap st) -> fixed_tempi_active h'.
Proof.
  induction idx as [|i rest IH]; intros st h' H A;
    cbn [insert_time_loop] in H.
  - now inversion H.
  - destruct (match it_prev st with
              | Some prev =>
                  insert_time_stamp l (it_heap st) (it_tempo st)
                                    (it_meter st) (it_m st) prev
              | None => Some (false, it_heap st, it_m st)
              end) as [[[continue h] m]|] eqn:E; [|discriminate H].
    assert (Ah : fixed_tempi_active h).
    { destruct (it_prev st) as [prev|].
      - apply active_insert_time_stamp in E; auto.
      - now inversion E; subst. }
    cbv beta iota in H.
    repeat break_match_hyp H; try discriminate H;
      apply IH in H; auto; cbn [it_heap]; active_upd.
Qed.

Lemma active_insert_time (m m' : Memory) where_ amount :
  insert_time _frame_rate m where_ amount = Some m' ->
  fixed_tempi_active (heap m) -> fixed_tempi_active (heap m').
Proof.
  unfold insert_time. intros H A.
  repeat break_match_hyp H; try discriminate H.
  eapply active_recompute_map in H; [exact H|]. cbn [heap].
  match goal with
  | E : insert_time_loop _ _ _ _ = Some _ |- _ =>
      apply active_insert_time_loop in E; auto
  end.
  cbn [it_heap]. now apply active_insert_time_shift.
Qed.

Lemma active_remove_time_loop (where_ amount : Z) (idx : list nat) :
  forall st,
    fixed_tempi_active (rt_heap st) ->
    fixed_tempi_active (rt_heap (remove_time_loop where_ amount idx st)).
Proof.
  induction idx as [|a idx IH]; intros st A; simpl; auto.
  destruct (nth_error (rt_heap st) a) as [s|]; auto.
  repeat match goal with
         | |- context [if ?b then _ else _] => destruct b
         end;
    apply IH; simpl; auto; now apply active_set_section_frame.
Qed.

Lemma active_remove_time_edit (m : Memory) (where_ amount : Z) :
  fixed_tempi_active (heap m) ->
  fixed_tempi_active (heap (snd (remove_time_edit m where_ amount))).
Proof.
  intros A. unfold remove_time_edit.
  pose proof (@active_remove_time_loop where_ amount (metrics m)
                (mkRemoveTime (heap m) [] None None false false false) A)
    as A'.
  destruct (last_tempo _) as [lt|];
    [destruct (negb (tempo_after _))|];
    (destruct (last_meter _) as [lm|];
     [destruct (negb (meter_after _))|]);
    cbn [snd heap]; active_upd.
Qed.

Lemma active_remove_time (m m' : Memory) (where_ amount : Z) moved :
  remove_time _frame_rate m where_ amount = Some (moved, m') ->
  fixed_tempi_active (heap m) -> fixed_tempi_active (heap m').
Proof.
  intros H A. unfold remove_time in H.
  pose proof (@active_remove_time_edit m where_ amount A) as K.
  destruct (remove_time_edit m where_ amount) as [mv m1]. simpl in K.
  destruct mv.
  - destruct (recompute_map _ m1) as [m2|] eqn:E; [|discriminate].
    inversion H; subst. eapply active_recompute_map in E; eauto.
  - now inversion H; subst.
Qed.

Lemma mutation_active (m m' : Memory) :
  mutation _frame_rate m m' ->
  fixed_tempi_active (heap m) -> fixed_tempi_active (heap m').
Proof.
  intros [tempo pulse frame ty pls t H | ts tempo pulse frame ty pls H
         | tempo b H | meter beat where_ frame pls t H
         | ms meter where_ frame pls H | meter b H
         | ts frame sub_num b H | ms frame b H | ts bpm b H
         | ts frame end_frame pulse b H | bpm note_type H
         | where_ bpm note_type H | where_ amount H
         | where_ amount moved C H] A.
  - eapply active_add_tempo_locked in H; [exact H | exact A].
  - eapply active_replace_tempo in H; [exact H | exact A].
  - eapply active_remove_tempo in H; [exact H | exact A].
  - eapply active_add_meter_locked in H; [exact H | exact A].
  - eapply active_replace_meter in H; [exact H | exact A].
  - eapply active_remove_meter in H; [exact H | exact A].
  - eapply active_gui_move_tempo in H; [exact H | exact A].
  - eapply active_gui_move_meter in H; [exact H | exact A].
  - eapply active_gui_change_tempo in H; [exact H | exact A].
  - eapply active_gui_dilate_tempo in H; [exact H | exact A].
  - eapply active_change_initial_tempo in H; [exact H | exact A].
  - eapply active_change_existing_tempo_at in H; [exact H | exact A].
  - eapply active_insert_time in H; [exact H | exact A].
  - eapply active_remove_time in H; [exact H | exact A].
Qed.

Lemma reachable_active (m : Memory) :
  reachable _frame_rate m -> fixed_tempi_active (heap m).
Proof.
  induction 1 as [|m m' _ IH Hm]; [reflexivity|].
  eapply mutation_active; eauto.
Qed.
End ActiveOfMutators.

(** ** The queries return on the maps that are reached *)

Section QueriesReturn.
Context {L : Libm}.
Variable _frame_rate : Z.

Lemma tempo_section_at_frame_loop_some (ms : Metrics) (frame : Z) :
  forall prev,
    is_some prev || has_active_tempo ms = true ->
    is_some (tempo_section_at_frame_loop ms frame prev) = true.
Proof.
  induction ms as [|[t|mt] ms IH]; intros prev H; simpl in *.
  - now rewrite orb_false_r in H.
  - destruct (TempoSection.active t); simpl in *; auto.
    destruct (is_some prev && (frame <? TempoSection.frame t)%Z) eqn:E.
    + apply andb_true_iff in E. tauto.
    + apply IH. reflexivity.
  - auto.
Qed.

Lemma frame_at_pulse_loop_some (ms : Metrics) (pulse : float) :
  forall prev_t,
    is_some prev_t || has_active_tempo ms = true ->
    is_some (frame_at_pulse_loop _frame_rate ms pulse prev_t) = true.
Proof.
  induction ms as [|[t|mt] ms IH]; intros prev_t H; simpl in *.
  - rewrite orb_false_r in H. destruct prev_t; auto.
  - destruct (TempoSection.active t); simpl in *; auto.
    destruct prev_t as [p|]; [|now apply IH].
    destruct (pulse <? TempoSection.pulse t)%float; auto.
  - auto.
Qed.

Lemma pulse_at_frame_loop_is_some (ms : Metrics) (frame : Z) :
  forall prev_t,
    is_some prev_t || has_active_tempo ms = true ->
    is_some (pulse_at_frame_loop _frame_rate ms frame prev_t) = true.
Proof.
  induction ms as [|[t|mt] ms IH]; intros prev_t H; simpl in *.
  - rewrite orb_false_r in H. destruct prev_t; auto.
  - destruct (TempoSection.active t); simpl in *; auto.
    destruct prev_t as [p|]; [|now apply IH].
    destruct (frame <? TempoSection.frame t)%Z; auto.
  - auto.
Qed.

Lemma tempo_at_frame_loop_some (ms : Metrics) (frame : Z) :
  forall prev_t,
    is_some prev_t || has_active_tempo ms = true ->
    is_some (tempo_at_frame_loop _frame_rate ms frame prev_t) = true.
Proof.
  induction ms as [|[t|mt] ms IH]; intros prev_t H; simpl in *.
  - rewrite orb_false_r in H. destruct prev_t; auto.
  - destruct (TempoSection.active t); simpl in *; auto.
    destruct prev_t as [p|]; [|now apply IH].
    destruct (frame <? TempoSection.frame t)%Z; auto.
  - auto.
Qed.

Lemma frame_at_tempo_loop_some (ms : Metrics) (ppm : float) :
  forall prev_t,
    is_some prev_t || has_active_tempo ms = true ->
    is_some (frame_at_tempo_loop _frame_rate ms ppm prev_t) = true.
Proof.
  induction ms as [|[t|mt] ms IH]; intros prev_t H; simpl in *.
  - rewrite orb_false_r in H. destruct prev_t; auto.
  - destruct (TempoSection.active t); simpl in *; auto.
    destruct (_ =? _)%float; auto.
    destruct prev_t as [p|]; [|now apply IH].
    match goal with
    | |- context [if ?c then _ else _] => destruct c
    end; [reflexivity | now apply IH].
  - auto.
Qed.

Lemma meter_section_at_frame_loop_some (ms : Metrics) (frame : Z) :
  forall prev,
    is_some prev || has_meter ms = true ->
    is_some (meter_section_at_frame_loop ms frame prev) = true.
Proof.
  induction ms as [|[t|mt] ms IH]; intros prev H; simpl in *.
  - now rewrite orb_false_r in H.
  - auto.
  - destruct (is_some prev && (frame <? MeterSection.frame mt)%Z) eqn:E.
    + apply andb_true_iff in E. tauto.
    + apply IH. reflexivity.
Qed.

Lemma meter_section_at_beat_loop_some (ms : Metrics) (beat : float) :
  forall prev,
    is_some prev || has_meter ms = true ->
    is_some (meter_section_at_beat_loop ms beat prev) = true.
Proof.
  induction ms as [|[t|mt] ms IH]; intros prev H; simpl in *.
  - now rewrite orb_false_r in H.
  - auto.
  - destruct (is_some prev && (beat <? MeterSection.beat mt)%float) eqn:E.
    + apply andb_true_iff in E. tauto.
    + apply IH. reflexivity.
Qed.

Lemma meters_around_frame_some (ms : Metrics) (frame : Z) :
  forall prev,
    is_some prev || has_meter ms = true ->
    is_some (fst (meters_around_frame ms frame prev)) = true.
Proof.
  induction ms as [|[t|mt] ms IH]; intros prev H; simpl in *.
  - now rewrite orb_false_r in H.
  - auto.
  - destruct (is_some prev && (frame <? MeterSection.frame mt)%Z) eqn:E.
    + apply andb_true_iff in E. simpl. tauto.
    + apply IH. reflexivity.
Qed.

Lemma beat_at_bbt_loop_some (ms : Metrics) (bbt : BBT_Time.t) :
  forall prev,
    is_some prev || has_meter ms = true ->
    is_some (beat_at_bbt_loop ms bbt prev) = true.
Proof.
  induction ms as [|[t|mt] ms IH]; intros prev H; simpl in *.
  - now rewrite orb_false_r in H.
  - auto.
  - destruct prev as [p|]; [|now apply IH].
    destruct (_ <? _)%float; auto.
Qed.

Lemma bbt_at_beat_loop_some (ms : Metrics) (beats : float) :
  forall prev,
    is_some prev || has_meter ms = true ->
    is_some (bbt_at_beat_loop ms beats prev) = true.
Proof.
  induction ms as [|[t|mt] ms IH]; intros prev H; simpl in *.
  - now rewrite orb_false_r in H.
  - auto.
  - destruct (is_some prev && (beats <? MeterSection.beat mt)%float) eqn:E.
    + apply andb_true_iff in E. tauto.
    + apply IH. reflexivity.
Qed.

Lemma pulse_at_bbt_loop_some (ms : Metrics) (bbt : BBT_Time.t) :
  forall prev,
    is_some prev || has_meter ms = true ->
    is_some (pulse_at_bbt_loop ms bbt prev) = true.
Proof.
  induction ms as [|[t|mt] ms IH]; intros prev H; simpl in *.
  - now rewrite orb_false_r in H.
  - auto.
  - destruct (is_some prev && _) eqn:E.
    + apply andb_true_iff in E. tauto.
    + apply IH. reflexivity.
Qed.

Lemma bbt_at_pulse_loop_some (ms : Metrics) (pulse : float) :
  forall prev,
    is_some prev || has_meter ms = true ->
    is_some (bbt_at_pulse_loop ms pulse prev) = true.
Proof.
  induction ms as [|[t|mt] ms IH]; intros prev H; simpl in *.
  - now rewrite orb_false_r in H.
  - auto.
  - destruct prev as [p|]; [|now apply IH].
    destruct (_ <? _)%float; auto.
Qed.

Lemma beat_at_pulse_loop_some (ms : Metrics) (pulse : float) :
  forall prev,
    is_some prev || has_meter ms = true ->
    is_some (beat_at_pulse_loop ms pulse prev) = true.
Proof.
  induction ms as [|[t|mt] ms IH]; intros prev H; simpl in *.
  - now rewrite orb_false_r in H.
  - auto.
  - destruct prev as [p|]; [|now apply IH].
    destruct (_ && _); auto.
Qed.

Lemma frame_at_beat_tempo_loop_some (ms : Metrics) (beat : float) prev_m :
  forall prev_t,
    is_some prev_t || has_active_tempo ms = true ->
    is_some (frame_at_beat_tempo_loop ms beat prev_m prev_t) = true.
Proof.
  induction ms as [|[t|mt] ms IH]; intros prev_t H; simpl in *.
  - now rewrite orb_false_r in H.
  - destruct (is_some prev_t && _) eqn:E.
    + apply andb_true_iff in E. tauto.
    + apply IH. reflexivity.
  - auto.
Qed.

Lemma tempo_section_at_beat_loop_some (ms : Metrics) (beat : float) prev_m :
  forall prev_t,
    is_some prev_t || has_active_tempo ms = true ->
    is_some (tempo_section_at_beat_loop ms beat prev_m prev_t) = true.
Proof.
  induction ms as [|[t|mt] ms IH]; intros prev_t H; simpl in *.
  - now rewrite orb_false_r in H.
  - destruct (is_some prev_t && _) eqn:E.
    + apply andb_true_iff in E. tauto.
    + apply IH. reflexivity.
  - auto.
Qed.
End QueriesReturn.

Lemma view_in (h : Heap) (l : list nat) (s : MetricSection) :
  In s (view h l) -> exists a, nth_error h a = Some s.
Proof.
  induction l as [|a l IH]; simpl; [tauto|].
  destruct (nth_error h a) as [s0|] eqn:E; auto.
  intros [<-|H]; eauto.
Qed.

Lemma fixed_tempi_in (ms : Metrics) (t : TempoSection.t) :
  In t (fixed_tempi ms) ->
  In (IsTempo t) ms /\ TempoSection.movable t = false.
Proof.
  induction ms as [|[t0|mt] ms IH]; simpl; [tauto| |].
  - destruct (TempoSection.movable t0) eqn:E.
    + intros H. destruct (IH H). auto.
    + intros [<-|H]; auto. destruct (IH H). auto.
  - intros H. destruct (IH H). auto.
Qed.

Lemma has_active_tempo_in (ms : Metrics) (t : TempoSection.t) :
  In (IsTempo t) ms -> TempoSection.active t = true ->
  has_active_tempo ms = true.
Proof.
  induction ms as [|[t0|mt] ms IH]; simpl; [tauto| |].
  - intros [E|H] Ha.
    + inversion E; subst. now rewrite Ha.
    + rewrite (IH H Ha). apply orb_true_r.
  - intros [E|H] Ha; [discriminate | auto].
Qed.

Lemma has_meter_fixed (ms : Metrics) (mt : MeterSection.t) :
  In mt (fixed_meters ms) -> has_meter ms = true.
Proof.
  induction ms as [|[t0|m0] ms IH]; simpl; auto.
Qed.

Section ReachedMaps.
Context {L : Libm}.
Variable _frame_rate : Z.

Lemma reachable_has_sections (m : Memory) :
  reachable _frame_rate m ->
  has_active_tempo (sections m) = true /\ has_meter (sections m) = true.
Proof.
  intros R.
  destruct (reachable_well_formed R) as (_ & (t & Ht & _) & mt & Hm).
  pose proof (reachable_active R) as A.
  split.
  - assert (Hin : In t (fixed_tempi (sections m)))
      by (rewrite Ht; now left).
    apply fixed_tempi_in in Hin as [Hin Hmv].
    apply (has_active_tempo_in _ _ Hin).
    apply view_in in Hin as [a Ha].
    apply (active_nth_tempo a A); auto.
    unfold nth_tempo. now rewrite Ha.
  - apply (has_meter_fixed _ mt). rewrite Hm. now left.
Qed.

(** X13: On every map that the constructor and the mutators lead to
    (remove_time only with a range that holds no section that cannot
    move), a tempo section and a meter section are in effect at every
    frame: tempo_section_at_frame_locked and
    meter_section_at_frame_locked find a section and do not abort, and
    tempo_at_frame_locked and frame_at_tempo_locked do not follow a null
    pointer. *)
Theorem sections_in_effect_found (m : Memory) :
  reachable _frame_rate m ->
  forall (frame : Z) (tempo : Tempo.t),
    is_some (tempo_section_at_frame_locked (sections m) frame) = true
    /\ is_some (meter_section_at_frame_locked (sections m) frame) = true
    /\ is_some (tempo_at_frame_locked _frame_rate (sections m) (sections m)
                                      frame) = true
    /\ is_some (frame_at_tempo_locked _frame_rate (sections m) (sections m)
                                      tempo) = true.
Proof.
  intros R frame tempo.
  destruct (reachable_has_sections R) as [Ht Hm].
  repeat split.
  - now apply tempo_section_at_frame_loop_some.
  - now apply meter_section_at_frame_loop_some.
  - now apply tempo_at_frame_loop_some.
  - now apply frame_at_tempo_loop_some.
Qed.

(** X14: On every map that the constructor and the mutators lead to
    (remove_time only with a range that holds no section that cannot
    move), the conversions from a frame and from a pulse return, at every
    frame, before the first section too, and at every pulse: none of
    pulse_at_frame, quarter_note_at_frame, frame_at_pulse_locked,
    frame_at_quarter_note, beat_at_frame and bbt_at_frame follows a null
    pointer. *)
Theorem queries_by_frame_return (m : Memory) :
  reachable _frame_rate m ->
  forall (frame : Z) (pulse : float),
    is_some (pulse_at_frame _frame_rate (sections m) frame) = true
    /\ is_some (quarter_note_at_frame _frame_rate (sections m) frame) = true
    /\ is_some (frame_at_pulse_locked _frame_rate (sections m) pulse) = true
    /\ is_some (frame_at_quarter_note _frame_rate (sections m) pulse) = true
    /\ is_some (beat_at_frame _frame_rate (sections m) frame) = true
    /\ is_some (bbt_at_frame _frame_rate (sections m) frame) = true.
Proof.
  intros R frame pulse.
  destruct (reachable_has_sections R) as [Ht Hm].
  pose proof (@tempo_section_at_frame_loop_some (sections m) frame None Ht)
    as Q1.
  pose proof (@meters_around_frame_some (sections m) frame None Hm) as Q2.
  pose proof (@pulse_at_frame_loop_is_some _ _frame_rate (sections m) frame
                None Ht) as Q3.
  repeat split.
  - exact Q3.
  - unfold quarter_note_at_frame, pulse_at_frame_locked.
    destruct (pulse_at_frame_loop _ _ _ _); [reflexivity|discriminate].
  - now apply frame_at_pulse_loop_some.
  - now apply frame_at_pulse_loop_some.
  - unfold beat_at_frame, beat_at_frame_locked,
      tempo_section_at_frame_locked.
    destruct (tempo_section_at_frame_loop _ _ _); [|discriminate]. simpl.
    destruct (meters_around_frame _ _ _) as [[pm|] nm]; [|discriminate].
    simpl. destruct nm; [destruct (_ <? _)%float|]; reflexivity.
  - unfold bbt_at_frame, bbt_at_frame_locked,
      tempo_section_at_frame_locked.
    destruct (frame <? 0)%Z; [reflexivity|].
    destruct (tempo_section_at_frame_loop _ _ _); [|discriminate]. simpl.
    destruct (meters_around_frame _ _ _) as [[pm|] nm]; [|discriminate].
    reflexivity.
Qed.

(** X15: On every map that the constructor and the mutators lead to
    (remove_time only with a range that holds no section that cannot
    move), the conversions between pulse, beat and bar return: none of
    pulse_at_beat_locked, beat_at_pulse_locked, beat_at_bbt_locked,
    bbt_at_beat_locked, pulse_at_bbt_locked and bbt_at_pulse_locked
    follows a null pointer. *)
Theorem queries_by_beat_return (m : Memory) :
  reachable _frame_rate m ->
  forall (beat pulse : float) (bbt : BBT_Time.t),
    is_some (pulse_at_beat_locked (sections m) beat) = true
    /\ is_some (beat_at_pulse_locked (sections m) pulse) = true
    /\ is_some (beat_at_bbt_locked (sections m) bbt) = true
    /\ is_some (bbt_at_beat_locked (sections m) beat) = true
    /\ is_some (pulse_at_bbt_locked (sections m) bbt) = true
    /\ is_some (bbt_at_pulse_locked (sections m) pulse) = true.
Proof.
  intros R beat pulse bbt.
  destruct (reachable_has_sections R) as [Ht Hm].
  repeat split.
  - unfold pulse_at_beat_locked, meter_section_at_beat_locked.
    pose proof (@meter_section_at_beat_loop_some (sections m) beat None Hm)
      as Q.
    destruct (meter_section_at_beat_loop _ _ _); [reflexivity|discriminate].
  - unfold beat_at_pulse_locked.
    pose proof (@beat_at_pulse_loop_some (sections m) pulse None Hm) as Q.
    destruct (beat_at_pulse_loop _ _ _); [reflexivity|discriminate].
  - unfold beat_at_bbt_locked.
    pose proof (@beat_at_bbt_loop_some (sections m) bbt None Hm) as Q.
    destruct (beat_at_bbt_loop _ _ _); [reflexivity|discriminate].
  - unfold bbt_at_beat_locked.
    pose proof (@bbt_at_beat_loop_some (sections m) (Double.max 0 beat)
                  None Hm) as Q.
    destruct (bbt_at_beat_loop _ _ _); [reflexivity|discriminate].
  - unfold pulse_at_bbt_locked.
    pose proof (@pulse_at_bbt_loop_some (sections m) bbt None Hm) as Q.
    destruct (pulse_at_bbt_loop _ _ _); [reflexivity|discriminate].
  - unfold bbt_at_pulse_locked.
    pose proof (@bbt_at_pulse_loop_some (sections m) pulse None Hm) as Q.
    destruct (bbt_at_pulse_loop _ _ _); [reflexivity|discriminate].
Qed.

(** X16: On every map that the constructor and the mutators lead to
    (remove_time only with a range that holds no section that cannot
    move), the walks along the map return, from every frame and for every
    distance:
    frame_at_beat, frame_at_bbt_locked, tempo_at_beat,
    framepos_plus_beats, framepos_minus_beats and framewalk_to_beats find
    the meter and the tempo sections they read. *)
Theorem walks_return (m : Memory) :
  reachable _frame_rate m ->
  forall (frame distance : Z) (beat : float) (bbt : BBT_Time.t),
    is_some (frame_at_beat _frame_rate (sections m) beat) = true
    /\ is_some (frame_at_bbt_locked _frame_rate (sections m) bbt) = true
    /\ is_some (tempo_at_beat (sections m) beat) = true
    /\ is_some (framepos_plus_beats _frame_rate (sections m) frame beat)
       = true
    /\ is_some (framepos_minus_beats _frame_rate (sections m) frame beat)
       = true
    /\ is_some (framewalk_to_beats _frame_rate (sections m) frame distance)
       = true.
Proof.
  intros R frame distance beat bbt.
  destruct (reachable_has_sections R) as [Ht Hm].
  assert (FB : forall b,
             is_some (frame_at_beat_locked _frame_rate (sections m) b)
             = true).
  { intros b. unfold frame_at_beat_locked.
    pose proof (@meter_section_at_beat_loop_some (sections m) b None Hm)
      as Q.
    destruct (meter_section_at_beat_loop _ _ _) as [pm|]; [|discriminate].
    simpl.
    pose proof (@frame_at_beat_tempo_loop_some (sections m) b pm None Ht)
      as Q'.
    destruct (frame_at_beat_tempo_loop _ _ _ _); [reflexivity|discriminate].
  }
  assert (BF : forall f,
             exists b, beat_at_frame_locked _frame_rate (sections m) f
                       = Some b).
  { intros f. unfold beat_at_frame_locked, tempo_section_at_frame_locked.
    pose proof (@tempo_section_at_frame_loop_some (sections m) f None Ht)
      as Q1.
    pose proof (@meters_around_frame_some (sections m) f None Hm) as Q2.
    destruct (tempo_section_at_frame_loop _ _ _); [|discriminate]. simpl.
    destruct (meters_around_frame _ _ _) as [[pm|] nm]; [|discriminate].
    simpl. destruct nm; [destruct (_ <? _)%float|]; eauto. }
  assert (BB : exists b, beat_at_bbt_locked (sections m) bbt = Some b).
  { unfold beat_at_bbt_locked.
    pose proof (@beat_at_bbt_loop_some (sections m) bbt None Hm) as Q.
    destruct (beat_at_bbt_loop _ _ _); [|discriminate]. simpl. eauto. }
  repeat split.
  - apply FB.
  - unfold frame_at_bbt_locked. destruct BB as [b ->]. simpl. apply FB.
  - unfold tempo_at_beat, tempo_section_at_beat_locked,
      meter_section_at_beat_locked.
    pose proof (@meter_section_at_beat_loop_some (sections m) beat None Hm)
      as Q.
    destruct (meter_section_at_beat_loop _ _ _) as [pm|]; [|discriminate].
    simpl.
    pose proof (@tempo_section_at_beat_loop_some (sections m) beat pm None
                  Ht) as Q'.
    destruct (tempo_section_at_beat_loop _ _ _ _); [reflexivity|discriminate].
  - unfold framepos_plus_beats. destruct (BF frame) as [b ->]. simpl.
    apply FB.
  - unfold framepos_minus_beats. destruct (BF frame) as [b ->]. simpl.
    apply FB.
  - unfold framewalk_to_beats.
    destruct (BF (frame + distance)%Z) as [b1 ->].
    destruct (BF frame) as [b0 ->]. reflexivity.
Qed.
End ReachedMaps.

(** ** The edits of the GUI that are accepted *)

Section AcceptedEdits.
Context {L : Libm}.
Variable _frame_rate : Z.

Lemma copy_metrics_and_point_some (m : Memory) (ts c : nat) :
  snd (copy_metrics_and_point m ts) = Some c ->
  c = ts /\ In ts (metrics m) /\ exists t, nth_tempo (heap m) ts = Some t.
Proof.
  unfold copy_metrics_and_point. simpl.
  destruct (existsb (Nat.eqb ts) (metrics m)) eqn:E; [|discriminate].
  destruct (nth_tempo (heap m) ts) as [t|]; [|discriminate]. simpl.
  intros H. inversion H; subst. split; auto. split; eauto.
  apply existsb_exists in E as (x & Hx & Ex).
  apply Nat.eqb_eq in Ex. now subst.
Qed.

(** X19: gui_change_tempo, when it accepts the edit, gives the section the
    beats per minute of the tempo it is given, and nothing else of that
    tempo: the note type of the section stays, as do its type, its lock
    style and its flags, and no other section changes its tempo or
    meter.  The list is left as it is. *)
Theorem gui_change_tempo_sets_bpm (m m' : Memory) (ts : nat)
        (bpm : Tempo.t) :
  gui_change_tempo _frame_rate m ts bpm = Some (true, m') ->
  metrics m' = metrics m
  /\ (exists t t',
        nth_tempo (heap m) ts = Some t
        /\ nth_tempo (heap m') ts = Some t'
        /\ TempoSection.beats_per_minute t' = Tempo.beats_per_minute bpm
        /\ TempoSection.note_type t' = TempoSection.note_type t
        /\ TempoSection.type t' = TempoSection.type t
        /\ TempoSection.position_lock_style t'
           = TempoSection.position_lock_style t
        /\ TempoSection.movable t' = TempoSection.movable t
        /\ TempoSection.active t' = TempoSection.active t)
  /\ (forall b s, b <> ts -> nth_tempo (heap m) b = Some s ->
                  exists s', nth_tempo (heap m') b = Some s'
                             /\ tempo_audio_anchored s s')
  /\ (forall b mt, nth_meter (heap m) b = Some mt ->
                   exists mt', nth_meter (heap m') b = Some mt'
                               /\ meter_anchored mt mt').
Proof.
  unfold gui_change_tempo. intros H.
  pose proof (@copy_metrics_and_point_some m ts) as C.
  destruct (copy_metrics_and_point m ts) as [future_map [c|]];
    [|discriminate].
  destruct (C c eq_refl) as (-> & _ & t & Ht). clear C. simpl in H.
  destruct (recompute_tempi _ _) as [fm|]; [|discriminate]. simpl in H.
  destruct (check_solved _ _) as [[|]|]; try discriminate. simpl in H.
  destruct (recompute_map _ _) as [m1|] eqn:E; [|discriminate].
  inversion H; subst m1; clear H.
  apply recompute_map_kept in E as [Hl R].
  cbn [heap metrics with_heap] in *.
  split; [exact Hl|]. split; [|split].
  - assert (H0 : nth_tempo
                   (upd_tempo (heap m) ts
                      (TempoSection.set_beats_per_minute
                         (Tempo.beats_per_minute bpm))) ts
                 = Some (TempoSection.set_beats_per_minute
                           (Tempo.beats_per_minute bpm) t))
      by (now rewrite nth_tempo_upd_tempo_eq, Ht).
    destruct (heap_rel_nth_tempo _ R H0) as (t' & Ht' & Q).
    exists t, t'. split; [exact Ht|]. split; [exact Ht'|].
    revert Q. kept.
  - intros b s Hne Hb.
    assert (H0 : nth_tempo
                   (upd_tempo (heap m) ts
                      (TempoSection.set_beats_per_minute
                         (Tempo.beats_per_minute bpm))) b = Some s)
      by (now rewrite nth_tempo_upd_tempo_neq by congruence).
    exact (heap_rel_nth_tempo _ R H0).
  - intros b mt Hb.
    assert (H0 : nth_meter
                   (upd_tempo (heap m) ts
                      (TempoSection.set_beats_per_minute
                         (Tempo.beats_per_minute bpm))) b = Some mt)
      by (now rewrite nth_meter_upd_tempo).
    exact (heap_rel_nth_meter _ R H0).
Qed.

Lemma solve_map_frame_accepts (m m1 : Memory) (section : nat) (frame : Z)
      (s : TempoSection.t) :
  nth_tempo (heap m) section = Some s ->
  solve_map_frame _frame_rate m section frame = Some (true, m1) ->
  TempoSection.movable s && (frame <=? first_m_frame (sections m))%Z
  = false.
Proof.
  unfold solve_map_frame. intros Hs H. rewrite Hs in H.
  destruct (TempoSection.movable s && _); [discriminate|reflexivity].
Qed.

(** X20: gui_move_tempo of an audio-locked section without snapping
    (sub_num = 0), when it accepts the move, leaves the section active at
    the frame it was dragged to, with its tempo; every other audio-locked
    tempo section keeps its frame, and no section is added or removed. *)
Theorem gui_move_tempo_places_section (m m' : Memory) (ts : nat)
        (frame : Z) (s : TempoSection.t) :
  nth_tempo (heap m) ts = Some s ->
  TempoSection.position_lock_style s = AudioTime ->
  gui_move_tempo _frame_rate m ts frame 0 = Some (true, m') ->
  Permutation (metrics m) (metrics m')
  /\ (exists s',
        nth_tempo (heap m') ts = Some s'
        /\ TempoSection.frame s' = frame
        /\ TempoSection.active s' = true
        /\ TempoSection.beats_per_minute s'
           = TempoSection.beats_per_minute s
        /\ TempoSection.note_type s' = TempoSection.note_type s
        /\ TempoSection.position_lock_style s' = AudioTime)
  /\ (forall a t,
        a <> ts -> nth_tempo (heap m) a = Some t ->
        TempoSection.position_lock_style t = AudioTime ->
        exists t', nth_tempo (heap m') a = Some t'
                   /\ TempoSection.frame t' = TempoSection.frame t).
Proof.
  unfold gui_move_tempo. intros Hs Hpls H. rewrite Hs in H. simpl in H.
  pose proof (@copy_metrics_and_point_some m ts) as C.
  unfold copy_metrics_and_point in *. simpl in C.
  destruct (existsb (Nat.eqb ts) (metrics m)
            && is_some (nth_tempo (heap m) ts)); [|discriminate].
  clear C. simpl in H. rewrite Hpls in H. simpl in H.
  destruct (solve_map_frame _ m ts frame) as [[solved m1]|] eqn:E;
    [|discriminate].
  simpl in H. destruct solved; [|discriminate]. simpl in H.
  destruct (recompute_meters _ m1) as [m2|] eqn:E2; [|discriminate].
  inversion H; subst m2; clear H.
  pose proof (@solve_map_frame_accepts _ _ _ _ _ Hs E) as G.
  destruct (@solve_map_frame_anchored _ _ _ _ _ _ _ Hs Hpls G E) as [P R].
  apply recompute_meters_kept in E2 as [Hl R2]. cbn [snd] in *.
  split; [now rewrite Hl|]. split.
  - assert (H0 : nth_tempo
                   (upd_tempo (heap m) ts
                      (fun s => TempoSection.set_frame frame
                                  (TempoSection.set_active true s))) ts
                 = Some (TempoSection.set_frame frame
                           (TempoSection.set_active true s)))
      by (now rewrite nth_tempo_upd_tempo_eq, Hs).
    destruct (heap_rel_nth_tempo _ R H0) as (s1 & Hs1 & Q1).
    destruct (heap_rel_nth_tempo _ R2 Hs1) as (s2 & Hs2 & Q2).
    exists s2. split; [exact Hs2|]. clear - Q1 Q2 Hpls. kept_chain.
  - intros a t Hne Ha Hp.
    assert (H0 : nth_tempo
                   (upd_tempo (heap m) ts
                      (fun s => TempoSection.set_frame frame
                                  (TempoSection.set_active true s))) a
                 = Some t)
      by (now rewrite nth_tempo_upd_tempo_neq by congruence).
    destruct (heap_rel_nth_tempo _ R H0) as (s1 & Hs1 & Q1).
    destruct (heap_rel_nth_tempo _ R2 Hs1) as (s2 & Hs2 & Q2).
    exists s2. split; [exact Hs2|]. clear - Q1 Q2 Hp. kept_chain.
Qed.

(** X21: gui_dilate_tempo, when it accepts the edit, leaves the dragged
    section with a tempo that is neither below 0.5 nor above 1000 beats
    per minute; the note type of the section stays, and no other section
    changes its tempo.  The list is left as it is. *)
Theorem gui_dilate_tempo_clamps_bpm (m m' : Memory) (ts : nat)
        (frame end_frame : Z) (pulse : float) :
  gui_dilate_tempo _frame_rate m (Some ts) frame end_frame pulse
  = Some (true, m') ->
  metrics m' = metrics m
  /\ (exists t t',
        nth_tempo (heap m) ts = Some t
        /\ nth_tempo (heap m') ts = Some t'
        /\ (TempoSection.beats_per_minute t' <? 0.5)%float = false
        /\ (1000 <? TempoSection.beats_per_minute t')%float = false
        /\ TempoSection.note_type t' = TempoSection.note_type t)
  /\ (forall b s, b <> ts -> nth_tempo (heap m) b = Some s ->
                  exists s', nth_tempo (heap m') b = Some s'
                             /\ same_tempo s s').
Proof.
  unfold gui_dilate_tempo. intros H.
  pose proof (@copy_metrics_and_point_some m ts) as C.
  destruct (copy_metrics_and_point m ts) as [future_map [c|]].
  - destruct (C c eq_refl) as (-> & _ & t & Ht). clear C.
    match type of H with
    | (match ?x with _ => _ end) = _ =>
        destruct x as [prev_to_prev_t|]; [|discriminate]
    end.
    simpl in H. rewrite Ht in H. simpl in H.
    destruct (nth_tempo (heap future_map) ts) as [pv|]; [|discriminate].
    simpl in H.
    match type of H with
    | context [dilated_bpm ?a ?b ?c ?d ?e ?f ?g] =>
        set (new_bpm := dilated_bpm a b c d e f g) in *
    end.
    destruct (new_bpm <? 0.5)%float eqn:Elow; [discriminate|].
    destruct (recompute_tempi _ _) as [fm1|]; [|discriminate].
    simpl in H.
    destruct (recompute_meters _ fm1) as [fm2|]; [|discriminate].
    simpl in H.
    destruct (check_solved _ _) as [[|]|]; try discriminate. simpl in H.
    destruct (recompute_tempi _ _) as [m1|] eqn:E1; [|discriminate].
    simpl in H.
    destruct (recompute_meters _ m1) as [m2|] eqn:E2; [|discriminate].
    inversion H; subst m2; clear H.
    apply recompute_tempi_anchored in E1 as [L1 R1].
    apply recompute_meters_kept in E2 as [L2 R2].
    cbn [heap metrics with_heap] in *.
    split; [congruence|]. split.
    + assert (H0 : nth_tempo
                     (upd_tempo (heap m) ts
                        (TempoSection.set_beats_per_minute
                           (Double.min new_bpm 1000))) ts
                   = Some (TempoSection.set_beats_per_minute
                             (Double.min new_bpm 1000) t))
        by (now rewrite nth_tempo_upd_tempo_eq, Ht).
      destruct (heap_rel_nth_tempo _ R1 H0) as (t1 & Ht1 & Q1).
      destruct (heap_rel_nth_tempo _ R2 Ht1) as (t2 & Ht2 & Q2).
      exists t, t2. split; [exact Ht|]. split; [exact Ht2|].
      assert (Hb : TempoSection.beats_per_minute t2
                   = Double.min new_bpm 1000)
        by (clear - Q1 Q2; kept_chain).
      assert (Hn : TempoSection.note_type t2 = TempoSection.note_type t)
        by (clear - Q1 Q2; kept_chain).
      rewrite Hb. unfold Double.min.
      destruct (1000 <? new_bpm)%float eqn:Ehigh; auto.
    + intros b s Hne Hb.
      assert (H0 : nth_tempo
                     (upd_tempo (heap m) ts
                        (TempoSection.set_beats_per_minute
                           (Double.min new_bpm 1000))) b = Some s)
        by (now rewrite nth_tempo_upd_tempo_neq by congruence).
      destruct (heap_rel_nth_tempo _ R1 H0) as (t1 & Ht1 & Q1).
      destruct (heap_rel_nth_tempo _ R2 Ht1) as (t2 & Ht2 & Q2).
      exists t2. split; [exact Ht2|]. clear - Q1 Q2. kept_chain.
  - simpl in H. destruct (nth_tempo (heap m) ts); discriminate.
Qed.
End AcceptedEdits.

Lemma gui_change_tempo_sets_bpm_witness :
  exists m',
    gui_change_tempo (L := SampleLibm.libm) 48000 two_tempo_map 2
                     (Tempo.mk 200 4) = Some (true, m')
    /\ metrics m' = metrics two_tempo_map.
Proof.
  assert (Hb : option_map fst
                 (gui_change_tempo (L := SampleLibm.libm) 48000
                    two_tempo_map 2 (Tempo.mk 200 4)) = Some true)
    by (vm_compute; reflexivity).
  destruct (gui_change_tempo (L := SampleLibm.libm) 48000 two_tempo_map 2
                             (Tempo.mk 200 4)) as [[b m']|] eqn:H;
    [|discriminate Hb].
  simpl in Hb. inversion Hb; subst b.
  exists m'. split; [reflexivity|].
  exact (proj1 (gui_change_tempo_sets_bpm _ _ _ _ H)).
Defined.

Lemma gui_move_tempo_places_section_witness :
  exists m' s',
    gui_move_tempo (L := SampleLibm.libm) 48000 audio_tempo_map 2 300000 0
    = Some (true, m')
    /\ nth_tempo (heap m') 2 = Some s'
    /\ TempoSection.frame s' = 300000%Z.
Proof.
  assert (Hb : option_map fst
                 (gui_move_tempo (L := SampleLibm.libm) 48000
                    audio_tempo_map 2 300000 0) = Some true)
    by (vm_compute; reflexivity).
  destruct (gui_move_tempo (L := SampleLibm.libm) 48000 audio_tempo_map 2
                           300000 0) as [[b m']|] eqn:H;
    [|discriminate Hb].
  simpl in Hb. inversion Hb; subst b.
  destruct (@gui_move_tempo_places_section SampleLibm.libm 48000
              audio_tempo_map m' 2 300000
              (TempoSection.mk 3 288000 AudioTime true 240 4
                               TempoSection.Constant 0 true false)
              eq_refl eq_refl H) as (_ & (s' & Hs' & Hf & _) & _).
  exists m', s'. repeat split; assumption.
Defined.

Lemma gui_dilate_tempo_clamps_bpm_witness :
  exists m' t',
    gui_dilate_tempo (L := SampleLibm.libm) 48000 two_tempo_map (Some 2%nat)
                     300000 310000 3 = Some (true, m')
    /\ nth_tempo (heap m') 2 = Some t'
    /\ (1000 <? TempoSection.beats_per_minute t')%float = false.
Proof.
  assert (Hb : option_map fst
                 (gui_dilate_tempo (L := SampleLibm.libm) 48000
                    two_tempo_map (Some 2%nat) 300000 310000 3) = Some true)
    by (vm_compute; reflexivity).
  destruct (gui_dilate_tempo (L := SampleLibm.libm) 48000 two_tempo_map
                             (Some 2%nat) 300000 310000 3)
    as [[b m']|] eqn:H; [|discriminate Hb].
  simpl in Hb. inversion Hb; subst b.
  destruct (@gui_dilate_tempo_clamps_bpm _ _ _ _ _ _ _ _ H)
    as (_ & (t & t' & _ & Ht' & _ & Hhigh & _) & _).
  exists m', t'. repeat split; assumption.
Defined.

Lemma sections_in_effect_found_witness :
  is_some (tempo_section_at_frame_locked (sections late_start_map) 5) = true
  /\ is_some (meter_section_at_frame_locked (sections late_start_map) 5)
     = true.
Proof.
  assert (R : reachable (L := SampleLibm.libm) 48000 late_start_map).
  { eapply reachable_step; [apply reachable_new|].
    eapply by_replace_meter. apply late_start_map_reached. }
  destruct (sections_in_effect_found R 5 (Tempo.mk 120 4))
    as (Ht & Hm & _).
  split; [exact Ht | exact Hm].
Defined.

Lemma queries_by_frame_return_witness :
  is_some (pulse_at_frame (L := SampleLibm.libm) 48000
             (sections late_start_map) 5) = true
  /\ is_some (bbt_at_frame (L := SampleLibm.libm) 48000
                (sections late_start_map) 5) = true.
Proof.
  assert (R : reachable (L := SampleLibm.libm) 48000 late_start_map).
  { eapply reachable_step; [apply reachable_new|].
    eapply by_replace_meter. apply late_start_map_reached. }
  destruct (queries_by_frame_return R 5 0%float)
    as (Hp & _ & _ & _ & _ & Hb).
  split; [exact Hp | exact Hb].
Defined.

Lemma queries_by_beat_return_witness :
  is_some (bbt_at_beat_locked (sections late_start_map) 1) = true.
Proof.
  assert (R : reachable (L := SampleLibm.libm) 48000 late_start_map).
  { eapply reachable_step; [apply reachable_new|].
    eapply by_replace_meter. apply late_start_map_reached. }
  destruct (queries_by_beat_return R 1%float 0%float (BBT_Time.mk 1 1 0))
    as (_ & _ & _ & Hb & _).
  exact Hb.
Defined.

Lemma walks_return_witness :
  is_some (framepos_plus_beats (L := SampleLibm.libm) 48000
             (sections late_start_map) 5 1) = true.
Proof.
  assert (R : reachable (L := SampleLibm.libm) 48000 late_start_map).
  { eapply reachable_step; [apply reachable_new|].
    eapply by_replace_meter. apply late_start_map_reached. }
  destruct (walks_return R 5 0 1%float (BBT_Time.mk 1 1 0))
    as (_ & _ & _ & Hp & _).
  exact Hp.
Defined.

(** ** first_tempo and first_meter *)

Lemma view_in_ptr (h : Heap) (l : list nat) (s : MetricSection) :
  In s (view h l) -> exists a, In a l /\ nth_error h a = Some s.
Proof.
  induction l as [|a l IH]; simpl; [tauto|].
  destruct (nth_error h a) as [s0|] eqn:E.
  - intros [<-|H]; [eauto|]. destruct (IH H) as (b & Hb & Hs). eauto.
  - intros H. destruct (IH H) as (b & Hb & Hs). eauto.
Qed.

Lemma first_tempo_some (h : Heap) (l : list nat) (a : nat)
      (t : TempoSection.t) :
  In a l -> nth_tempo h a = Some t -> TempoSection.active t = true ->
  TempoSection.movable t = false ->
  exists b t',
    first_tempo h l = Some b /\ In b l /\ nth_tempo h b = Some t'
    /\ TempoSection.active t' = true /\ TempoSection.movable t' = false.
Proof.
  intros Hin Ha Hact Hmv.
  induction l as [|c l IH]; simpl in *; [contradiction|].
  destruct (nth_tempo h c) as [tc|] eqn:Ec.
  - destruct (TempoSection.active tc) eqn:Eact; simpl.
    + destruct (TempoSection.movable tc) eqn:Emv; simpl.
      * destruct Hin as [->|Hin]; [congruence|].
        destruct (IH Hin) as (b & t' & Hb & Hbl & Ht').
        exists b, t'. auto.
      * exists c, tc. auto.
    + destruct Hin as [->|Hin]; [congruence|].
      destruct (IH Hin) as (b & t' & Hb & Hbl & Ht').
      exists b, t'. auto.
  - destruct Hin as [->|Hin]; [congruence|].
    destruct (IH Hin) as (b & t' & Hb & Hbl & Ht').
    exists b, t'. auto.
Qed.

Lemma first_meter_some (h : Heap) (l : list nat) (a : nat)
      (mt : MeterSection.t) :
  In a l -> nth_meter h a = Some mt ->
  exists b mt', first_meter h l = Some b /\ In b l
                /\ nth_meter h b = Some mt'.
Proof.
  intros Hin Ha.
  induction l as [|c l IH]; simpl in *; [contradiction|].
  destruct (nth_meter h c) as [mc|] eqn:Ec.
  - exists c, mc. auto.
  - destruct Hin as [->|Hin]; [congruence|].
    destruct (IH Hin) as (b & mt' & Hb & Hbl & Hm').
    exists b, mt'. auto.
Qed.

Lemma fixed_meters_in (ms : Metrics) (mt : MeterSection.t) :
  In mt (fixed_meters ms) -> In (IsMeter mt) ms.
Proof.
  induction ms as [|[t0|m0] ms IH]; simpl; [tauto| |].
  - auto.
  - destruct (MeterSection.movable m0).
    + auto.
    + intros [<-|H]; auto.
Qed.

Section FirstSections.
Context {L : Libm}.
Variable _frame_rate : Z.

(** X22: On every map that the constructor and the mutators lead to
    (remove_time only with a range that holds no section that cannot
    move), the tempo section that cannot move is active, so that
    first_tempo finds it and does not abort; first_meter finds a meter
    section and does not abort either. *)
Theorem first_sections_found (m : Memory) :
  reachable _frame_rate m ->
  (exists t, fixed_tempi (sections m) = [t]
             /\ TempoSection.active t = true)
  /\ (exists a t,
        first_tempo (heap m) (metrics m) = Some a /\ In a (metrics m)
        /\ nth_tempo (heap m) a = Some t
        /\ TempoSection.active t = true
        /\ TempoSection.movable t = false)
  /\ (exists a mt,
        first_meter (heap m) (metrics m) = Some a /\ In a (metrics m)
        /\ nth_meter (heap m) a = Some mt).
Proof.
  intros R.
  destruct (reachable_well_formed R) as (_ & (t & Ht & _) & mt & Hm).
  pose proof (reachable_active R) as A.
  assert (Hin : In t (fixed_tempi (sections m)))
    by (rewrite Ht; now left).
  apply fixed_tempi_in in Hin as [Hin Hmv].
  apply view_in_ptr in Hin as (a & Hal & Ha).
  assert (Hta : nth_tempo (heap m) a = Some t)
    by (unfold nth_tempo; now rewrite Ha).
  assert (Hact : TempoSection.active t = true)
    by (apply (active_nth_tempo a A); auto).
  split; [eauto|]. split.
  - exact (@first_tempo_some _ _ _ _ Hal Hta Hact Hmv).
  - assert (Hinm : In mt (fixed_meters (sections m)))
      by (rewrite Hm; now left).
    apply fixed_meters_in in Hinm.
    apply view_in_ptr in Hinm as (b & Hbl & Hb).
    apply (@first_meter_some _ _ b mt Hbl).
    unfold nth_meter. now rewrite Hb.
Qed.
End FirstSections.

Lemma first_sections_found_witness :
  exists a, first_tempo (heap late_start_map) (metrics late_start_map)
            = Some a.
Proof.
  assert (R : reachable (L := SampleLibm.libm) 48000 late_start_map).
  { eapply reachable_step; [apply reachable_new|].
    eapply by_replace_meter. apply late_start_map_reached. }
  destruct (first_sections_found R) as (_ & (a & t & Ha & _) & _).
  exists a. exact Ha.
Defined.
(** ** The bulk operations *)

(** X23: remove_time unlinks the sections of its range whether they can
    move or not.  On the map of doubleTempoTest, remove_time (0, 300000)
    returns true and leaves the meter and the second tempo section, moved
    to frame 0: no tempo section of the list is one that cannot move, and
    first_tempo reaches its abort ().  When remove_tempo then removes the
    tempo section that is left, no tempo section is in effect at any
    frame. *)
Theorem remove_time_unlinks_first_tempo {L : Libm} :
  cuts_fixed two_tempo_map 0 300000 = true
  /\ exists m' m'' t,
      remove_time 48000 two_tempo_map 0 300000 = Some (true, m')
      /\ metrics m' = [1; 2]%nat
      /\ fixed_tempi (sections m') = []
      /\ first_tempo (heap m') (metrics m') = None
      /\ nth_tempo (heap m') 2 = Some t
      /\ remove_tempo 48000 m' t false = Some m''
      /\ metrics m'' = [1]%nat
      /\ forall frame,
          tempo_section_at_frame_locked (sections m'') frame = None
          /\ pulse_at_frame 48000 (sections m'') frame = None.
Proof.
  split; [reflexivity|].
  do 3 eexists.
  split; [vm_compute; reflexivity|].
  split; [reflexivity|].
  split; [vm_compute; reflexivity|].
  split; [vm_compute; reflexivity|].
  split; [vm_compute; reflexivity|].
  split; [vm_compute; reflexivity|].
  split; [reflexivity|].
  intros frame. split; reflexivity.
Qed.

Lemma insert_time_shift_tempo (where_ amount : Z) (idx : list nat) :
  forall (h : Heap) (a : nat) (t : TempoSection.t),
    nth_tempo h a = Some t ->
    exists t',
      nth_tempo (insert_time_shift where_ amount idx h) a = Some t'
      /\ TempoSection.active t' = TempoSection.active t.
Proof.
  induction idx as [|b idx IH]; intros h a t Ha; simpl; [eauto|].
  destruct (nth_error h b) as [s|] eqn:Eb; [|eauto].
  destruct (_ && _); [|eauto].
  destruct (Nat.eq_dec b a) as [->|Hba].
  - unfold nth_tempo in Ha. rewrite Eb in Ha.
    destruct s as [t0|mt]; [|discriminate]. inversion Ha; subst t0.
    edestruct (IH (update_at h a
                     (set_section_frame (Section_.frame (IsTempo t) + amount)))
                  a) as (t' & Ht' & Hact).
    + unfold nth_tempo. rewrite nth_error_update_at_eq, Eb. reflexivity.
    + exists t'. split; [exact Ht'|]. rewrite Hact. reflexivity.
  - apply IH. unfold nth_tempo in *.
    now rewrite nth_error_update_at_neq.
Qed.

Section InsertTime.
Context {L : Libm}.
Variable _frame_rate : Z.

Lemma insert_time_loop_unset (l rest : list nat) (h : Heap)
      (meter tempo a : nat) (t : TempoSection.t) :
  nth_tempo h a = Some t -> TempoSection.active t = true ->
  insert_time_loop _frame_rate l (a :: rest)
                   (mkInsertTime h meter tempo None true None)
  = None.
Proof.
  intros Ha Hact. cbn [insert_time_loop it_prev it_heap it_m].
  unfold nth_tempo in Ha.
  destruct (nth_error h a) as [[t0|mt]|]; try discriminate.
  inversion Ha; subst t0. now rewrite Hact.
Qed.

(** X24: insert_time assigns its pointer m only when it meets a meter
    section or has met a section before.  On a list that starts with an
    active tempo section, as that of a new map does, it reads the frame
    of m in the first iteration, before m is assigned: the call has no
    result. *)
Theorem insert_time_reads_unset_meter (m : Memory) (where_ amount : Z)
        (a : nat) (rest : list nat) (t : TempoSection.t) :
  metrics m = a :: rest ->
  nth_tempo (heap m) a = Some t ->
  TempoSection.active t = true ->
  insert_time _frame_rate m where_ amount = None.
Proof.
  destruct m as [h l]. cbn [metrics heap]. intros -> Ha Hact.
  unfold insert_time. cbn [metrics heap].
  destruct (insert_time_shift_tempo where_ amount (a :: rest) h a Ha)
    as (t' & Ht' & Hact').
  destruct (first_meter _ _) as [meter|]; [|reflexivity].
  destruct (first_tempo _ _) as [tempo|]; [|reflexivity].
  rewrite Hact in Hact'.
  now rewrite (@insert_time_loop_unset (a :: rest) rest _ meter tempo _ _
                 Ht' Hact').
Qed.
End InsertTime.

Lemma insert_time_reads_unset_meter_witness :
  insert_time (L := SampleLibm.libm) 48000 TempoMap_new 0 1000 = None.
Proof.
  apply (@insert_time_reads_unset_meter SampleLibm.libm 48000 TempoMap_new
           0 1000 0%nat [1%nat] initial_tempo); reflexivity.
Defined.
